(** * Realm core: objects, links and backlinks, link lists, binary arrays.

    A shallow embedding of the object accessor ([Obj]), the link list
    ([Lst<ObjKey>]), the list sort and distinct, the two-array binary leaf
    ([ArrayBinary]), the compression container and the schema migrator,
    together with the properties the specification states about them and
    further properties read off the code.

    Layout: part I holds every definition (one module per source class),
    part II the lemmas. *)

From stdpp Require Import gmap list strings.
From Stdlib Require Import ZArith Lia Permutation SpecFloat.

Local Open Scope Z_scope.

(* ===================================================================== *)
(** * Part I: definitions                                                  *)
(* ===================================================================== *)

(** ** Keys, column types and attributes *)

(** [realm::Key] / [ObjKey]: a signed 64-bit value.  The default
    constructed key is the null key; values at or below -2 are unresolved
    keys (tombstones). *)
Abbreviation Key := Z (only parsing).
Abbreviation TableKey := nat (only parsing).
(** An object accessor is addressed by its table and its key. *)
Abbreviation ObjRef := (nat * Z)%type (only parsing).

Definition null_key : Key := -1.

Definition is_unresolved (k : Key) : bool := k <=? -2.

Inductive ColumnType :=
| col_type_Int | col_type_Bool | col_type_String | col_type_Binary
| col_type_Timestamp | col_type_Float | col_type_Double
| col_type_Link | col_type_LinkList | col_type_BackLink.

Definition ColumnType_eqb (a b : ColumnType) : bool :=
  match a, b with
  | col_type_Int, col_type_Int | col_type_Bool, col_type_Bool
  | col_type_String, col_type_String | col_type_Binary, col_type_Binary
  | col_type_Timestamp, col_type_Timestamp | col_type_Float, col_type_Float
  | col_type_Double, col_type_Double | col_type_Link, col_type_Link
  | col_type_LinkList, col_type_LinkList
  | col_type_BackLink, col_type_BackLink => true
  | _, _ => false
  end.

(** [ColumnAttr] bits of a [ColumnAttrMask]. *)
Definition col_attr_Indexed : Z := 1.
Definition col_attr_Unique : Z := 2.
Definition col_attr_Reserved : Z := 4.
Definition col_attr_StrongLinks : Z := 8.
Definition col_attr_Nullable : Z := 16.
Definition col_attr_List : Z := 32.

(** [ColumnAttrMask::test] *)
Definition attr_test (mask bit : Z) : bool := negb (Z.land mask bit =? 0).

(** [LogicError] kinds thrown by the accessors. *)
Inductive ErrorKind :=
| column_index_out_of_range
| column_not_nullable
| illegal_combination
| target_row_index_out_of_range
| string_too_big
| binary_too_big.

(** ** Values and cluster leaves *)

(** A float or double is kept abstract: either the null bit pattern or
    some other payload. *)
Inductive FloatVal := FNull | FBits (bits : Z).

(** [StringData] and [BinaryData]: a null pointer, or bytes. *)
Abbreviation StringData := (option (list Byte.byte)) (only parsing).
Abbreviation BinaryData := (option (list Byte.byte)) (only parsing).
(** [Timestamp]: null, or seconds and nanoseconds. *)
Abbreviation Timestamp := (option (Z * Z)) (only parsing).

(** The entry of one object in one column leaf.  The constructor records
    which leaf class stores the column. *)
Inductive Cell :=
| CInt (v : Z)                                (* ArrayInteger *)
| CIntNull (v : option Z)                     (* ArrayIntNull *)
| CBool (b : bool)                            (* ArrayBool *)
| CBoolNull (b : option bool)                 (* ArrayBoolNull *)
| CFloat (f : FloatVal)                       (* ArrayFloat *)
| CDouble (f : FloatVal)                      (* ArrayDouble *)
| CString (s : StringData)                    (* ArrayString *)
| CBinary (b : BinaryData)                    (* ArrayBinary *)
| CTimestamp (t : Timestamp)                  (* ArrayTimestamp *)
| CKey (k : Key)                              (* ArrayKey *)
| CLinkList (l : list Key) (context_flag : bool) (* list of keys per row *)
| CBacklink (l : list Key).                   (* ArrayBacklink *)

(** The C++ types the accessor templates are instantiated with. *)
Inductive CppType :=
| ty_int64 | ty_opt_int64 | ty_bool | ty_opt_bool | ty_float | ty_double
| ty_StringData | ty_BinaryData | ty_Timestamp | ty_Key.

(** [ColumnTypeTraits<T>::column_id] *)
Definition column_id (T : CppType) : ColumnType :=
  match T with
  | ty_int64 | ty_opt_int64 => col_type_Int
  | ty_bool | ty_opt_bool => col_type_Bool
  | ty_float => col_type_Float
  | ty_double => col_type_Double
  | ty_StringData => col_type_String
  | ty_BinaryData => col_type_Binary
  | ty_Timestamp => col_type_Timestamp
  | ty_Key => col_type_Link
  end.

(** [ColumnTypeTraits<T>::cluster_leaf_type]: does the leaf stored in the
    column have the class the template expects? *)
Definition leaf_matches (T : CppType) (c : Cell) : bool :=
  match T, c with
  | ty_int64, CInt _ | ty_opt_int64, CIntNull _
  | ty_bool, CBool _ | ty_opt_bool, CBoolNull _
  | ty_float, CFloat _ | ty_double, CDouble _
  | ty_StringData, CString _ | ty_BinaryData, CBinary _
  | ty_Timestamp, CTimestamp _ | ty_Key, CKey _ => true
  | _, _ => false
  end.

(** Values passed to the generic setter [Obj::set<T>]. *)
Inductive Value :=
| VBool (b : bool)
| VFloat (f : FloatVal)
| VDouble (f : FloatVal)
| VString (s : StringData)
| VBinary (b : BinaryData)
| VTimestamp (t : Timestamp).

Definition value_type (v : Value) : CppType :=
  match v with
  | VBool _ => ty_bool | VFloat _ => ty_float | VDouble _ => ty_double
  | VString _ => ty_StringData | VBinary _ => ty_BinaryData
  | VTimestamp _ => ty_Timestamp
  end.

Definition value_cell (v : Value) : Cell :=
  match v with
  | VBool b => CBool b | VFloat f => CFloat f | VDouble f => CDouble f
  | VString s => CString s | VBinary b => CBinary b
  | VTimestamp t => CTimestamp t
  end.

(** ** Spec, tables and the group *)

(** One column of a [Spec].  For a link or link-list column the opposite
    table is the target table; for a backlink column the opposite table and
    column are the origin table and the origin link column. *)
Record ColumnSpec := mkColumn {
  col_type : ColumnType;
  col_attr : Z;
  col_opposite_table : TableKey;
  col_opposite_col : nat
}.

(** Public columns come first, backlink columns after them. *)
Record Spec := mkSpec {
  columns : list ColumnSpec;
  m_num_public_columns : nat
}.

Record TableInfo := mkTable {
  t_spec : Spec;
  t_embedded : bool
}.

(** Replication instructions emitted by the accessors. *)
Inductive InstrType := instr_Set | instr_SetDefault.

Inductive Instr :=
| repl_set_int (t : TableKey) (col : nat) (k : Key) (v : Z) (ty : InstrType)
| repl_add_int (t : TableKey) (col : nat) (k : Key) (v : Z)
| repl_set_key (t : TableKey) (col : nat) (k : Key) (target : Key) (ty : InstrType)
| repl_set_value (t : TableKey) (col : nat) (k : Key) (v : Value) (ty : InstrType)
| repl_set_null (t : TableKey) (col : nat) (k : Key) (ty : InstrType).

(** The group: the schema of every table, the rows of every cluster tree
    (addressed by table key and object key), the allocator's content
    version and the instruction log of the installed replication sink
    ([None] when no sink is installed). *)
Record Group := mkGroup {
  tables : gmap TableKey TableInfo;
  objects : gmap ObjRef (list Cell);
  content_version : N;
  replication : option (list Instr)
}.

Definition set_objects (g : Group) (o : gmap ObjRef (list Cell)) : Group :=
  mkGroup (tables g) o (content_version g) (replication g).

(** ** The accessor monad: state, [LogicError], and abnormal termination *)

(** [Ok a g]: normal return.  [Throw e g]: a [LogicError] left the call
    with the group in state [g].  [Abort]: a failed [REALM_ASSERT], an
    access outside an array or through a detached accessor. *)
Inductive Outcome (A : Type) :=
| Ok (a : A) (g : Group)
| Throw (e : ErrorKind) (g : Group)
| Abort.
Arguments Ok {A} a g.
Arguments Throw {A} e g.
Arguments Abort {A}.

Definition M (A : Type) : Type := Group -> Outcome A.

Definition ret {A} (a : A) : M A := fun g => Ok a g.

Definition bind {A B} (m : M A) (f : A -> M B) : M B :=
  fun g =>
    match m g with
    | Ok a g' => f a g'
    | Throw e g' => Throw e g'
    | Abort => Abort
    end.

Definition throw {A} (e : ErrorKind) : M A := fun g => Throw e g.
Definition abort {A} : M A := fun _ => Abort.

Notation "x <- c1 ;; c2" := (bind c1 (fun x => c2))
  (at level 100, c1 at next level, right associativity).
Notation "c1 ;;; c2" := (bind c1 (fun _ => c2))
  (at level 100, right associativity).

(** [REALM_ASSERT] *)
Definition realm_assert (b : bool) : M unit := if b then ret tt else abort.

(** Unwrap a lookup that the C++ code performs without a check. *)
Definition unchecked {A} (o : option A) : M A :=
  match o with Some a => ret a | None => abort end.

Fixpoint for_each {A} (f : A -> M unit) (l : list A) : M unit :=
  match l with
  | [] => ret tt
  | a :: l' => f a ;;; for_each f l'
  end.

Fixpoint fold_each {A S} (f : S -> A -> M S) (s : S) (l : list A) : M S :=
  match l with
  | [] => ret s
  | a :: l' => s' <- f s a ;; fold_each f s' l'
  end.

(** [never_throws e m]: no run of [m] ends in the exception [e]. *)
Definition never_throws {A} (e : ErrorKind) (m : M A) : Prop :=
  forall g g', m g <> Throw e g'.

(** ** Spec and cluster primitives *)

Definition get_public_column_count (s : Spec) : nat := m_num_public_columns s.

Definition get_column_attr (s : Spec) (col_ndx : nat) : option Z :=
  col_attr <$> columns s !! col_ndx.

Definition get_column_type (s : Spec) (col_ndx : nat) : option ColumnType :=
  col_type <$> columns s !! col_ndx.

Definition is_backlink_of (origin_table : TableKey) (origin_col : nat)
    (c : ColumnSpec) : bool :=
  ColumnType_eqb (col_type c) col_type_BackLink
  && Nat.eqb (col_opposite_table c) origin_table
  && Nat.eqb (col_opposite_col c) origin_col.

Fixpoint find_index {A} (p : A -> bool) (l : list A) : option nat :=
  match l with
  | [] => None
  | a :: l' => if p a then Some 0%nat else S <$> find_index p l'
  end.

(** [Spec::find_backlink_column]: the index of the backlink column that
    mirrors link column [origin_col] of table [origin_table]; [None] stands
    for [npos]. *)
Definition find_backlink_column (s : Spec) (origin_table : TableKey)
    (origin_col : nat) : option nat :=
  find_index (is_backlink_of origin_table origin_col) (columns s).

Definition get_spec (t : TableKey) : M Spec :=
  fun g => match tables g !! t with
           | Some ti => Ok (t_spec ti) g
           | None => Abort
           end.

Definition valid_object (g : Group) (x : ObjRef) : bool :=
  match objects g !! x with Some _ => true | None => false end.

(** [Table::is_valid] *)
Definition is_valid (x : ObjRef) : M bool := fun g => Ok (valid_object g x) g.

(** Fetch the row of an accessor ([update_if_needed], [ensure_writeable],
    [Table::get_object]): the object has to exist. *)
Definition get_row (x : ObjRef) : M (list Cell) :=
  fun g => match objects g !! x with
           | Some r => Ok r g
           | None => Abort
           end.

(** The pure state changes behind the primitives: a row is replaced or
    erased, the content version is bumped, an instruction is logged. *)
Definition with_row (x : ObjRef) (r : list Cell) (g : Group) : Group :=
  set_objects g (<[x := r]> (objects g)).

Definition erased (x : ObjRef) (g : Group) : Group :=
  set_objects g (delete x (objects g)).

Definition bump (g : Group) : Group :=
  mkGroup (tables g) (objects g) (content_version g + 1)%N (replication g).

Definition emitted (i : Instr) (g : Group) : Group :=
  mkGroup (tables g) (objects g) (content_version g)
          ((fun log => log ++ [i]) <$> replication g).

Definition put_row (x : ObjRef) (r : list Cell) : M unit :=
  fun g => Ok tt (with_row x r g).

Definition erase_row (x : ObjRef) : M unit :=
  fun g => Ok tt (erased x g).

(** Read the entry of [x] in the leaf of column [col] (slot [col + 1] of
    the cluster's field array). *)
Definition read_leaf (x : ObjRef) (col : nat) : M Cell :=
  r <- get_row x ;; unchecked (r !! col).

Definition write_leaf (x : ObjRef) (col : nat) (c : Cell) : M unit :=
  r <- get_row x ;;
  realm_assert (col <? length r)%nat ;;;
  put_row x (<[col := c]> r).

Definition same_leaf (a b : Cell) : bool :=
  match a, b with
  | CInt _, CInt _ | CIntNull _, CIntNull _ | CBool _, CBool _
  | CBoolNull _, CBoolNull _ | CFloat _, CFloat _ | CDouble _, CDouble _
  | CString _, CString _ | CBinary _, CBinary _
  | CTimestamp _, CTimestamp _ | CKey _, CKey _
  | CLinkList _ _, CLinkList _ _ | CBacklink _, CBacklink _ => true
  | _, _ => false
  end.

(** [values.set(m_row_ndx, v)] through a leaf accessor of the class of [c]:
    the column must be stored in a leaf of that class. *)
Definition write_typed (x : ObjRef) (col : nat) (c : Cell) : M unit :=
  old <- read_leaf x col ;;
  realm_assert (same_leaf old c) ;;;
  write_leaf x col c.

(** [Allocator::bump_content_version] *)
Definition bump_content_version : M unit := fun g => Ok tt (bump g).

(** [if (Replication* repl = alloc.get_replication()) repl->...] *)
Definition emit (i : Instr) : M unit := fun g => Ok tt (emitted i g).

(** ** ArrayBacklink and ArrayKey leaves *)

Fixpoint remove_first (k : Key) (l : list Key) : option (list Key) :=
  match l with
  | [] => None
  | x :: l' => if x =? k then Some l' else (fun r => x :: r) <$> remove_first k l'
  end.

(** Modelled from the spec: [ArrayBacklink], the system column of a link
    target "whose values list the ObjKeys in A holding that link".  Its
    source is not part of the slice; [add] appends an origin key, [remove]
    takes one entry for the origin key away (the entry must exist) and the
    backlink count is the number of entries. *)
Definition ArrayBacklink_add (l : list Key) (origin_key : Key) : list Key :=
  l ++ [origin_key].

Definition ArrayBacklink_remove (l : list Key) (origin_key : Key)
    : option (list Key) :=
  remove_first origin_key l.

Definition ArrayBacklink_get_backlink_count (l : list Key) : nat := length l.

(** Modelled from the spec: [ArrayKey::nullify], used by [Obj::nullify_link]
    to drop one link to a removed target from a link list ("deleting the
    object will automatically remove all links to it"); the link must be
    present. *)
Definition ArrayKey_nullify (l : list Key) (target_key : Key)
    : option (list Key) :=
  remove_first target_key l.

(** ** ConstObj and Obj (obj.cpp) *)

(** [ConstObj::get_target_table]: the table a link column points to. *)
Definition get_target_table (o : ObjRef) (col_ndx : nat) : M TableKey :=
  spec <- get_spec o.1 ;;
  col <- unchecked (columns spec !! col_ndx) ;;
  _ <- get_spec (col_opposite_table col) ;;
  ret (col_opposite_table col).

(** [ConstObj::get<T>] *)
Definition ConstObj_get (T : CppType) (o : ObjRef) (col_ndx : nat) : M Cell :=
  spec <- get_spec o.1 ;;
  if (get_public_column_count spec <? col_ndx)%nat
  then throw column_index_out_of_range
  else
    attr <- unchecked (get_column_attr spec col_ndx) ;;
    ctype <- unchecked (get_column_type spec col_ndx) ;;
    realm_assert (attr_test attr col_attr_List
                  || ColumnType_eqb ctype (column_id T)) ;;;
    c <- read_leaf o col_ndx ;;
    if leaf_matches T c then ret c else abort.

(** [ConstObj::get_backlink_count(size_t backlink_col_ndx)] *)
Definition ConstObj_get_backlink_count_col (o : ObjRef) (backlink_col_ndx : nat)
    : M nat :=
  c <- read_leaf o backlink_col_ndx ;;
  match c with
  | CBacklink l => ret (ArrayBacklink_get_backlink_count l)
  | _ => abort
  end.

(** [ConstObj::get_backlink_count(const Table& origin, size_t origin_col_ndx)].
    Every table of the group has a key, so the test against the null
    [TableKey] of a free-standing table always passes. *)
Definition ConstObj_get_backlink_count (o : ObjRef) (origin : TableKey)
    (origin_col_ndx : nat) : M nat :=
  spec <- get_spec o.1 ;;
  backlink_col_ndx <- unchecked (find_backlink_column spec origin origin_col_ndx) ;;
  ConstObj_get_backlink_count_col o backlink_col_ndx.

Definition to_uint64 (a : Z) : Z := a mod 2 ^ 64.
Definition to_int64 (u : Z) : Z := if u <? 2 ^ 63 then u else u - 2 ^ 64.

(** The lambda [add_wrap] of [Obj::add_int]. *)
Definition add_wrap (a b : Z) : Z :=
  let ua := to_uint64 a in
  let ub := to_uint64 b in
  to_int64 ((ua + ub) mod 2 ^ 64).

(** [Obj::add_int] *)
Definition Obj_add_int (o : ObjRef) (col_ndx : nat) (value : Z) : M unit :=
  spec <- get_spec o.1 ;;
  if (get_public_column_count spec <? col_ndx)%nat
  then throw column_index_out_of_range
  else
    _ <- get_row o ;;
    bump_content_version ;;;
    fields <- get_row o ;;
    realm_assert (col_ndx + 1 <? S (length fields))%nat ;;;
    attr <- unchecked (get_column_attr spec col_ndx) ;;
    (if attr_test attr col_attr_Nullable
     then
       c <- read_leaf o col_ndx ;;
       match c with
       | CIntNull (Some old) =>
           write_leaf o col_ndx (CIntNull (Some (add_wrap old value)))
       | CIntNull None => throw illegal_combination
       | _ => abort
       end
     else
       c <- read_leaf o col_ndx ;;
       match c with
       | CInt old => write_leaf o col_ndx (CInt (add_wrap old value))
       | _ => abort
       end) ;;;
    emit (repl_add_int o.1 col_ndx o.2 value).

(** [value_is_null] *)
Definition value_is_null (v : Value) : bool :=
  match v with
  | VBool _ => false
  | VFloat FNull | VDouble FNull => true
  | VFloat _ | VDouble _ => false
  | VString None | VBinary None | VTimestamp None => true
  | VString _ | VBinary _ | VTimestamp _ => false
  end.

Definition data_size (d : option (list Byte.byte)) : Z :=
  match d with Some l => Z.of_nat (length l) | None => 0 end.

Definition instr_type (is_default : bool) : InstrType :=
  if is_default then instr_SetDefault else instr_Set.

Section SizeCaps.

(** The size caps [Table::max_string_size] and [ArrayBlob::max_binary_size]
    are [size_t] constants declared in headers outside the slice; they are
    parameters of [check_range] and of the generic setter. *)
Variables max_string_size max_binary_size : N.

(** [check_range] *)
Definition check_range (v : Value) : M unit :=
  match v with
  | VString s =>
      if Z.of_N max_string_size <? data_size s
      then throw string_too_big else ret tt
  | VBinary b =>
      if Z.of_N max_binary_size <? data_size b
      then throw binary_too_big else ret tt
  | _ => ret tt
  end.

(** The generic [Obj::set<T>] (bool, float, double, StringData, BinaryData,
    Timestamp).  Search indices are derived data and are left out. *)
Definition Obj_set (o : ObjRef) (col_ndx : nat) (value : Value)
    (is_default : bool) : M unit :=
  spec <- get_spec o.1 ;;
  ctype <- unchecked (get_column_type spec col_ndx) ;;
  realm_assert (ColumnType_eqb ctype (column_id (value_type value))) ;;;
  if (get_public_column_count spec <? col_ndx)%nat
  then throw column_index_out_of_range
  else
    attr <- unchecked (get_column_attr spec col_ndx) ;;
    if value_is_null value && negb (attr_test attr col_attr_Nullable)
    then throw column_not_nullable
    else
      check_range value ;;;
      _ <- get_row o ;;
      bump_content_version ;;;
      fields <- get_row o ;;
      realm_assert (col_ndx + 1 <? S (length fields))%nat ;;;
      write_typed o col_ndx (value_cell value) ;;;
      emit (repl_set_value o.1 col_ndx o.2 value (instr_type is_default)).

End SizeCaps.

(** [Obj::do_set_null<T>]: [null_cell] is the null entry of leaf class [T]. *)
Definition Obj_do_set_null (o : ObjRef) (col_ndx : nat) (null_cell : Cell)
    : M unit :=
  bump_content_version ;;;
  write_typed o col_ndx null_cell.

(** [Obj::set_null] *)
Definition Obj_set_null (o : ObjRef) (col_ndx : nat) (is_default : bool)
    : M unit :=
  spec <- get_spec o.1 ;;
  if (get_public_column_count spec <? col_ndx)%nat
  then throw column_index_out_of_range
  else
    attr <- unchecked (get_column_attr spec col_ndx) ;;
    if negb (attr_test attr col_attr_Nullable)
    then throw column_not_nullable
    else
      _ <- get_row o ;;
      ctype <- unchecked (get_column_type spec col_ndx) ;;
      match ctype with
      | col_type_Int => Obj_do_set_null o col_ndx (CIntNull None)
      | col_type_Bool => Obj_do_set_null o col_ndx (CBoolNull None)
      | col_type_Float => Obj_do_set_null o col_ndx (CFloat FNull)
      | col_type_Double => Obj_do_set_null o col_ndx (CDouble FNull)
      | col_type_String => Obj_do_set_null o col_ndx (CString None)
      | col_type_Binary => Obj_do_set_null o col_ndx (CBinary None)
      | col_type_Timestamp => Obj_do_set_null o col_ndx (CTimestamp None)
      | col_type_Link => Obj_do_set_null o col_ndx (CKey null_key)
      | _ => ret tt
      end ;;;
      emit (repl_set_null o.1 col_ndx o.2 (instr_type is_default)).

(** [Obj::add_backlink] *)
Definition Obj_add_backlink (o : ObjRef) (backlink_col : nat) (origin_key : Key)
    : M unit :=
  _ <- get_row o ;;
  bump_content_version ;;;
  c <- read_leaf o backlink_col ;;
  match c with
  | CBacklink l => write_leaf o backlink_col (CBacklink (ArrayBacklink_add l origin_key))
  | _ => abort
  end.

(** [Obj::remove_one_backlink] *)
Definition Obj_remove_one_backlink (o : ObjRef) (backlink_col : nat)
    (origin_key : Key) : M unit :=
  _ <- get_row o ;;
  bump_content_version ;;;
  c <- read_leaf o backlink_col ;;
  match c with
  | CBacklink l =>
      l' <- unchecked (ArrayBacklink_remove l origin_key) ;;
      write_leaf o backlink_col (CBacklink l')
  | _ => abort
  end.

(** [Obj::nullify_link] *)
Definition Obj_nullify_link (o : ObjRef) (origin_col : nat) (target_key : Key)
    : M unit :=
  _ <- get_row o ;;
  bump_content_version ;;;
  spec <- get_spec o.1 ;;
  attr <- unchecked (get_column_attr spec origin_col) ;;
  c <- read_leaf o origin_col ;;
  if attr_test attr col_attr_List
  then
    match c with
    | CLinkList links flag =>
        links' <- unchecked (ArrayKey_nullify links target_key) ;;
        write_leaf o origin_col (CLinkList links' flag)
    | _ => abort
    end
  else
    match c with
    | CKey key =>
        realm_assert (key =? target_key) ;;;
        write_leaf o origin_col (CKey null_key) ;;;
        emit (repl_set_key o.1 origin_col o.2 null_key instr_Set)
    | _ => abort
    end.

(** [CascadeState]: the rows queued for recursive removal. *)
Inductive CascadeMode := Mode_All | Mode_Strong | Mode_None.

Record CascadeState := mkCascade {
  m_mode : CascadeMode;
  m_to_be_deleted : list ObjRef
}.

Definition cascade_push (state : CascadeState) (x : ObjRef) : CascadeState :=
  mkCascade (m_mode state) (m_to_be_deleted state ++ [x]).

(** [Obj::update_backlinks]: returns [recurse] and the updated state. *)
Definition Obj_update_backlinks (o : ObjRef) (col_ndx : nat)
    (old_key new_key : Key) (state : CascadeState) : M (bool * CascadeState) :=
  target_table <- get_target_table o col_ndx ;;
  target_table_spec <- get_spec target_table ;;
  let backlink_col := find_backlink_column target_table_spec o.1 col_ndx in
  r <- (if negb (old_key =? null_key)
        then
          origin_table_spec <- get_spec o.1 ;;
          _ <- get_row (target_table, old_key) ;;
          bc <- unchecked backlink_col ;;
          Obj_remove_one_backlink (target_table, old_key) bc o.2 ;;;
          attr <- unchecked (get_column_attr origin_table_spec col_ndx) ;;
          if attr_test attr col_attr_StrongLinks
          then
            num_remaining <- ConstObj_get_backlink_count
                               (target_table, old_key) o.1 col_ndx ;;
            if Nat.eqb num_remaining 0
            then ret (true, cascade_push state (target_table, old_key))
            else ret (false, state)
          else ret (false, state)
        else ret (false, state)) ;;
  (if negb (new_key =? null_key)
   then
     _ <- get_row (target_table, new_key) ;;
     bc <- unchecked backlink_col ;;
     Obj_add_backlink (target_table, new_key) bc o.2
   else ret tt) ;;;
  ret r.

(** ** Object removal and the cascade (table.cpp, cluster.cpp) *)

(** Modelled from the spec: [Table::remove_object] and the cluster erase
    behind it, whose sources are not part of the slice.  "Deleting the
    object will automatically remove all links to it": every origin listed
    in a backlink column of the object drops its link through
    [Obj::nullify_link].  Every link the object holds goes through the
    backlink-maintenance protocol of [Obj::update_backlinks] with a null new
    key, which queues a target that "loses its last strong incoming link".
    Then the row is erased. *)
Definition nullify_fwd_links (x : ObjRef) (backlink_col : nat) : M unit :=
  spec <- get_spec x.1 ;;
  col <- unchecked (columns spec !! backlink_col) ;;
  c <- read_leaf x backlink_col ;;
  match c with
  | CBacklink origins =>
      for_each (fun origin_key =>
                  Obj_nullify_link (col_opposite_table col, origin_key)
                                   (col_opposite_col col) x.2)
               origins
  | _ => abort
  end.

Definition link_targets (c : Cell) : list Key :=
  match c with
  | CKey k => [k]
  | CLinkList l _ => l
  | _ => []
  end.

Definition remove_backlinks (x : ObjRef) (state : CascadeState) (col_ndx : nat)
    : M CascadeState :=
  spec <- get_spec x.1 ;;
  ctype <- unchecked (get_column_type spec col_ndx) ;;
  match ctype with
  | col_type_Link | col_type_LinkList =>
      c <- read_leaf x col_ndx ;;
      fold_each (fun st key =>
                   r <- Obj_update_backlinks x col_ndx key null_key st ;;
                   ret r.2)
                state (link_targets c)
  | _ => ret state
  end.

Definition Table_remove_object (x : ObjRef) (state : CascadeState)
    : M CascadeState :=
  spec <- get_spec x.1 ;;
  _ <- get_row x ;;
  let num_public := get_public_column_count spec in
  for_each (nullify_fwd_links x)
           (seq num_public (length (columns spec) - num_public)) ;;;
  state' <- fold_each (remove_backlinks x) state (seq 0 num_public) ;;
  erase_row x ;;;
  ret state'.

(** Modelled from the spec: [Table::remove_recursive] ("if the cascade set
    is non-empty, recursively remove those objects (each recursion may grow
    the set)").  Rows that are no longer valid are skipped; every removal
    deletes one object, so the number of objects bounds the recursion. *)
Fixpoint remove_recursive_loop (fuel : nat) (mode : CascadeMode)
    (rows : list ObjRef) (g : Group) : Outcome unit :=
  match filter (fun x => valid_object g x = true) rows with
  | [] => Ok tt g
  | x :: rest =>
      match fuel with
      | O => Abort
      | S fuel' =>
          match Table_remove_object x (mkCascade mode []) g with
          | Ok state g' =>
              remove_recursive_loop fuel' mode (rest ++ m_to_be_deleted state) g'
          | Throw e g' => Throw e g'
          | Abort => Abort
          end
      end
  end.

Definition Table_remove_recursive (state : CascadeState) : M unit :=
  fun g => remove_recursive_loop (size (objects g)) (m_mode state)
                                 (m_to_be_deleted state) g.

(** [Obj::set<Key>] *)
Definition Obj_set_Key (o : ObjRef) (col_ndx : nat) (target_key : Key)
    (is_default : bool) : M unit :=
  spec <- get_spec o.1 ;;
  if (get_public_column_count spec <=? col_ndx)%nat
  then throw column_index_out_of_range
  else
    target_table <- get_target_table o col_ndx ;;
    target_valid <- is_valid (target_table, target_key) ;;
    if negb (target_key =? null_key) && negb target_valid
    then throw target_row_index_out_of_range
    else
      _ <- get_row o ;;
      bump_content_version ;;;
      fields <- get_row o ;;
      realm_assert (col_ndx + 1 <? S (length fields))%nat ;;;
      c <- read_leaf o col_ndx ;;
      match c with
      | CKey old_key =>
          if negb (target_key =? old_key)
          then
            r <- Obj_update_backlinks o col_ndx old_key target_key
                   (mkCascade Mode_Strong []) ;;
            write_leaf o col_ndx (CKey target_key) ;;;
            emit (repl_set_key o.1 col_ndx o.2 target_key (instr_type is_default)) ;;;
            if r.1 then Table_remove_recursive r.2 else ret tt
          else ret tt
      | _ => abort
      end.

(** ** Lst<ObjKey> (list.cpp) *)

(** A list accessor: the owning object and the link-list column.  Its
    [m_tree] is the entry of the object in that column. *)
Record Lst := mkLst {
  m_obj : ObjRef;
  m_col_key : nat
}.

(** Modelled from the spec: [BPlusTree<ObjKey>], "ordered sequence of
    values ... supports size, get, set, insert, erase, clear", with the
    context flag that marks the presence of unresolved links.  An index
    outside the sequence is a failed assertion. *)
Definition tree_read (lst : Lst) : M (list Key * bool) :=
  c <- read_leaf (m_obj lst) (m_col_key lst) ;;
  match c with
  | CLinkList l flag => ret (l, flag)
  | _ => abort
  end.

Definition tree_write (lst : Lst) (l : list Key) (flag : bool) : M unit :=
  write_leaf (m_obj lst) (m_col_key lst) (CLinkList l flag).

Definition tree_size (lst : Lst) : M nat :=
  t <- tree_read lst ;; ret (length t.1).

Definition tree_get (lst : Lst) (ndx : nat) : M Key :=
  t <- tree_read lst ;; unchecked (t.1 !! ndx).

Definition tree_set (lst : Lst) (ndx : nat) (k : Key) : M unit :=
  t <- tree_read lst ;;
  realm_assert (ndx <? length t.1)%nat ;;;
  tree_write lst (<[ndx := k]> t.1) t.2.

Definition tree_insert (lst : Lst) (ndx : nat) (k : Key) : M unit :=
  t <- tree_read lst ;;
  realm_assert (ndx <=? length t.1)%nat ;;;
  tree_write lst (take ndx t.1 ++ k :: drop ndx t.1) t.2.

Definition tree_erase (lst : Lst) (ndx : nat) : M unit :=
  t <- tree_read lst ;;
  realm_assert (ndx <? length t.1)%nat ;;;
  tree_write lst (delete ndx t.1) t.2.

Definition tree_clear (lst : Lst) : M unit :=
  t <- tree_read lst ;; tree_write lst [] t.2.

Definition set_context_flag (lst : Lst) (flag : bool) : M unit :=
  t <- tree_read lst ;; tree_write lst t.1 flag.

(** [_impl::check_for_last_unresolved]: "clear the context flag on the tree
    if there are no more unresolved links". *)
Definition check_for_last_unresolved (lst : Lst) : M unit :=
  t <- tree_read lst ;;
  if existsb is_unresolved t.1 then ret tt else tree_write lst t.1 false.

(** [Obj::get_backlink_count()]: the backlinks of the object over all its
    backlink columns. *)
Definition backlink_total (row : list Cell) : nat :=
  list_sum (map (fun c => match c with
                          | CBacklink l => length l
                          | _ => 0%nat
                          end) row).

Definition Obj_get_backlink_count_total (o : ObjRef) : M nat :=
  row <- get_row o ;; ret (backlink_total row).

(** [Table::is_embedded] *)
Definition is_embedded (t : TableKey) : M bool :=
  fun g => match tables g !! t with
           | Some ti => Ok (t_embedded ti) g
           | None => Abort
           end.

(** Modelled from the spec: [Obj::set_backlink], [Obj::remove_backlink] and
    [Obj::replace_backlink], whose sources are not part of the slice.  "List
    link semantics: insert/set/remove all route through the same
    backlink-maintenance protocol", which is [Obj::update_backlinks].  On
    top of it, "an embedded table's objects must have exactly one incoming
    strong link; deleting that link cascades deletion of the embedded
    object" and "removing the sole backlink deletes the object": a target
    in an embedded table that the removal leaves without any backlink is
    queued for the cascade, whatever the attributes of the origin column.
    A replacement removes the old backlink, decides on the cascade and then
    adds the new backlink. *)
Definition embedded_cascade (target : ObjRef) (r : bool * CascadeState)
    : M (bool * CascadeState) :=
  if (target.2 =? null_key) || r.1
  then ret r
  else
    embedded <- is_embedded target.1 ;;
    if embedded
    then
      cnt <- Obj_get_backlink_count_total target ;;
      if Nat.eqb cnt 0
      then ret (true, cascade_push r.2 target)
      else ret r
    else ret r.

Definition Obj_set_backlink (o : ObjRef) (col_key : nat) (new_link : ObjRef)
    : M unit :=
  _ <- Obj_update_backlinks o col_key null_key new_link.2
         (mkCascade Mode_Strong []) ;;
  ret tt.

Definition Obj_remove_backlink (o : ObjRef) (col_key : nat) (old_link : ObjRef)
    (state : CascadeState) : M (bool * CascadeState) :=
  r <- Obj_update_backlinks o col_key old_link.2 null_key state ;;
  embedded_cascade old_link r.

Definition Obj_replace_backlink (o : ObjRef) (col_key : nat)
    (old_link new_link : ObjRef) (state : CascadeState)
    : M (bool * CascadeState) :=
  r <- Obj_remove_backlink o col_key old_link state ;;
  Obj_set_backlink o col_key new_link ;;;
  ret r.

(** [Table::get_opposite_table_key] *)
Definition get_opposite_table_key (origin_table : TableKey) (col_key : nat)
    : M TableKey :=
  spec <- get_spec origin_table ;;
  col <- unchecked (columns spec !! col_key) ;;
  ret (col_opposite_table col).

(** [Lst<ObjKey>::do_set] *)
Definition Lst_do_set (lst : Lst) (ndx : nat) (target_key : Key) : M unit :=
  let origin_table := (m_obj lst).1 in
  target_table_key <- get_opposite_table_key origin_table (m_col_key lst) ;;
  old_key <- tree_get lst ndx ;;
  r <- Obj_replace_backlink (m_obj lst) (m_col_key lst)
         (target_table_key, old_key) (target_table_key, target_key)
         (mkCascade Mode_Strong []) ;;
  tree_set lst ndx target_key ;;;
  (if r.1 then Table_remove_recursive r.2 else ret tt) ;;;
  if is_unresolved target_key
  then (if negb (is_unresolved old_key) then set_context_flag lst true else ret tt)
  else if is_unresolved old_key then check_for_last_unresolved lst else ret tt.

(** [Lst<ObjKey>::do_insert] *)
Definition Lst_do_insert (lst : Lst) (ndx : nat) (target_key : Key) : M unit :=
  let origin_table := (m_obj lst).1 in
  target_table_key <- get_opposite_table_key origin_table (m_col_key lst) ;;
  Obj_set_backlink (m_obj lst) (m_col_key lst) (target_table_key, target_key) ;;;
  tree_insert lst ndx target_key ;;;
  if is_unresolved target_key then set_context_flag lst true else ret tt.

(** [Lst<ObjKey>::do_remove] *)
Definition Lst_do_remove (lst : Lst) (ndx : nat) : M unit :=
  let origin_table := (m_obj lst).1 in
  target_table_key <- get_opposite_table_key origin_table (m_col_key lst) ;;
  old_key <- tree_get lst ndx ;;
  r <- Obj_remove_backlink (m_obj lst) (m_col_key lst)
         (target_table_key, old_key)
         (mkCascade (if is_unresolved old_key then Mode_All else Mode_Strong) []) ;;
  tree_erase lst ndx ;;;
  (if r.1 then Table_remove_recursive r.2 else ret tt) ;;;
  if is_unresolved old_key then check_for_last_unresolved lst else ret tt.

(** [Lst<ObjKey>::do_clear] *)
Definition Lst_do_clear (lst : Lst) : M unit :=
  let origin_table := (m_obj lst).1 in
  target_table <- get_target_table (m_obj lst) (m_col_key lst) ;;
  sz <- tree_size lst ;;
  embedded <- is_embedded target_table ;;
  if negb embedded
  then
    for_each (fun ndx => Lst_do_set lst ndx null_key ;;; tree_erase lst ndx)
             (rev (seq 0 sz)) ;;;
    set_context_flag lst false
  else
    target_spec <- get_spec target_table ;;
    let backlink_col := find_backlink_column target_spec origin_table (m_col_key lst) in
    state <- fold_each
               (fun st ndx =>
                  target_key <- tree_get lst ndx ;;
                  _ <- get_row (target_table, target_key) ;;
                  bc <- unchecked backlink_col ;;
                  Obj_remove_one_backlink (target_table, target_key) bc (m_obj lst).2 ;;;
                  cnt <- Obj_get_backlink_count_total (target_table, target_key) ;;
                  realm_assert (Nat.eqb cnt 0) ;;;
                  ret (cascade_push st (target_table, target_key)))
               (mkCascade Mode_Strong []) (seq 0 sz) ;;
    tree_clear lst ;;;
    set_context_flag lst false ;;;
    Table_remove_recursive state.

(** ** ArrayBinary (ArrayBinary.cpp) *)

Module ArrayBinary.

(** Modelled from the spec: the integer [Array] that holds the offsets and
    the [ArrayBlob] that holds the payload ("a two-array layout: an offsets
    array plus a concatenated payload blob").  Their sources are not part of
    the slice.  [None] is a failed assertion or an access outside the
    array.  [Adjust] adds [diff] to every element from [start] on, in 64-bit
    two's complement. *)
Definition Array_GetAsRef (a : list Z) (ndx : nat) : option Z :=
  to_uint64 <$> a !! ndx.

Definition Array_Insert (a : list Z) (ndx : nat) (v : Z) : option (list Z) :=
  if (ndx <=? length a)%nat then Some (take ndx a ++ v :: drop ndx a) else None.

Definition Array_Delete (a : list Z) (ndx : nat) : option (list Z) :=
  if (ndx <? length a)%nat then Some (delete ndx a) else None.

Definition Array_Adjust (a : list Z) (start : nat) (diff : Z) : list Z :=
  take start a ++ map (fun v => to_int64 (to_uint64 (v + diff))) (drop start a).

Definition Blob_Get (b : list Byte.byte) (pos : Z) : list Byte.byte :=
  drop (Z.to_nat pos) b.

Definition Blob_Insert (b : list Byte.byte) (pos : Z) (data : list Byte.byte)
    (len : Z) : option (list Byte.byte) :=
  if (pos <=? Z.of_nat (length b)) && (len <=? Z.of_nat (length data))
  then Some (take (Z.to_nat pos) b ++ take (Z.to_nat len) data
             ++ drop (Z.to_nat pos) b)
  else None.

Definition Blob_Delete (b : list Byte.byte) (start end_ : Z)
    : option (list Byte.byte) :=
  if (start <=? end_) && (end_ <=? Z.of_nat (length b))
  then Some (take (Z.to_nat start) b ++ drop (Z.to_nat end_) b)
  else None.

(** The two sub-arrays of an [ArrayBinary]. *)
Record t := mk {
  m_offsets : list Z;
  m_blob : list Byte.byte
}.

(** [ArrayBinary::Size] *)
Definition Size (ab : t) : nat := length (m_offsets ab).

(** [ndx ? m_offsets.GetAsRef(ndx-1) : 0] *)
Definition start_of (ab : t) (ndx : nat) : option Z :=
  match ndx with
  | O => Some 0
  | S n => Array_GetAsRef (m_offsets ab) n
  end.

(** [ArrayBinary::Get]: the pointer into the blob, as the bytes from that
    position on. *)
Definition Get (ab : t) (ndx : nat) : option (list Byte.byte) :=
  if (ndx <? length (m_offsets ab))%nat
  then offset ← start_of ab ndx; Some (Blob_Get (m_blob ab) offset)
  else None.

(** [ArrayBinary::GetLen] *)
Definition GetLen (ab : t) (ndx : nat) : option Z :=
  if (ndx <? length (m_offsets ab))%nat
  then
    start ← start_of ab ndx;
    end_ ← Array_GetAsRef (m_offsets ab) ndx;
    Some ((end_ - start) mod 2 ^ 64)
  else None.

(** The bytes of element [ndx]: [GetLen(ndx)] bytes at [Get(ndx)]. *)
Definition element (ab : t) (ndx : nat) : option (list Byte.byte) :=
  p ← Get ab ndx; len ← GetLen ab ndx; Some (take (Z.to_nat len) p).

(** [ArrayBinary::Insert]; [value = None] is the null pointer. *)
Definition Insert (ab : t) (ndx : nat) (value : option (list Byte.byte))
    (len : Z) : option t :=
  if (ndx <=? length (m_offsets ab))%nat
  then
    if (len =? 0) || bool_decide (is_Some value)
    then
      pos ← start_of ab ndx;
      blob ← Blob_Insert (m_blob ab) pos (default [] value) len;
      offsets ← Array_Insert (m_offsets ab) ndx (to_int64 ((pos + len) mod 2 ^ 64));
      Some (mk (Array_Adjust offsets (ndx + 1) (to_int64 len)) blob)
    else None
  else None.

(** [ArrayBinary::Delete] *)
Definition Delete (ab : t) (ndx : nat) : option t :=
  if (ndx <? length (m_offsets ab))%nat
  then
    start ← start_of ab ndx;
    end_ ← Array_GetAsRef (m_offsets ab) ndx;
    blob ← Blob_Delete (m_blob ab) start end_;
    offsets ← Array_Delete (m_offsets ab) ndx;
    Some (mk (Array_Adjust offsets ndx (to_int64 ((start - end_) mod 2 ^ 64))) blob)
  else None.

(** The class invariant the constructor asserts: the offsets are the
    ascending end positions of the elements and the last one is the size of
    the blob, which stays below [2^63]. *)
Fixpoint ascending_from (lo : Z) (offsets : list Z) : Prop :=
  match offsets with
  | [] => True
  | x :: r => lo <= x /\ ascending_from x r
  end.

Definition wf (ab : t) : Prop :=
  ascending_from 0 (m_offsets ab)
  /\ Z.of_nat (length (m_blob ab)) = List.last (m_offsets ab) 0
  /\ Z.of_nat (length (m_blob ab)) < 2 ^ 63.

(** The abstract view: the sequence of elements an array stores.  The
    offsets are the running totals of the element sizes. *)
Fixpoint offsets_from (base : Z) (elems : list (list Byte.byte)) : list Z :=
  match elems with
  | [] => []
  | e :: r => (base + Z.of_nat (length e)) :: offsets_from (base + Z.of_nat (length e)) r
  end.

Definition encode (elems : list (list Byte.byte)) : t :=
  mk (offsets_from 0 elems) (concat elems).

Fixpoint split_blob (base : Z) (offsets : list Z) (blob : list Byte.byte)
    : list (list Byte.byte) :=
  match offsets with
  | [] => []
  | x :: r => take (Z.to_nat (x - base)) blob
              :: split_blob x r (drop (Z.to_nat (x - base)) blob)
  end.

Definition decode (ab : t) : list (list Byte.byte) :=
  split_blob 0 (m_offsets ab) (m_blob ab).

Definition ex_array : t :=
  mk [2; 2; 5] [Byte.x61; Byte.x62; Byte.x63; Byte.x64; Byte.x65].

(** Modelled from the spec, as the [Array] and [ArrayBlob] primitives
    above: [IsEmpty], [Back], [Add] and [Clear] of the offsets array and
    [Add], [Replace] and [Clear] of the blob.  [Back] on an empty array and
    a copy of more bytes than the source holds are accesses outside an
    array. *)
Definition Array_IsEmpty (a : list Z) : bool :=
  match a with [] => true | _ => false end.

Definition Array_Back (a : list Z) : option Z :=
  to_uint64 <$> List.last (Some <$> a) None.

Definition Array_Add (a : list Z) (v : Z) : list Z := a ++ [v].

Definition Array_Clear (a : list Z) : list Z := [].

Definition Blob_Add (b : list Byte.byte) (data : list Byte.byte) (len : Z)
    : option (list Byte.byte) :=
  if len <=? Z.of_nat (length data)
  then Some (b ++ take (Z.to_nat len) data)
  else None.

Definition Blob_Replace (b : list Byte.byte) (start end_ : Z)
    (data : list Byte.byte) (len : Z) : option (list Byte.byte) :=
  if (start <=? end_) && (end_ <=? Z.of_nat (length b))
     && (len <=? Z.of_nat (length data))
  then Some (take (Z.to_nat start) b ++ take (Z.to_nat len) data
             ++ drop (Z.to_nat end_) b)
  else None.

Definition Blob_Clear (b : list Byte.byte) : list Byte.byte := [].

(** [ArrayBinary::IsEmpty] *)
Definition IsEmpty (ab : t) : bool := Array_IsEmpty (m_offsets ab).

(** [ArrayBinary::Add] *)
Definition Add (ab : t) (value : option (list Byte.byte)) (len : Z)
    : option t :=
  if (len =? 0) || bool_decide (is_Some value)
  then
    blob ← Blob_Add (m_blob ab) (default [] value) len;
    end_ ← (if Array_IsEmpty (m_offsets ab)
            then Some len
            else back ← Array_Back (m_offsets ab);
                 Some ((back + len) mod 2 ^ 64));
    Some (mk (Array_Add (m_offsets ab) (to_int64 end_)) blob)
  else None.

(** [ArrayBinary::Set] *)
Definition Set_ (ab : t) (ndx : nat) (value : option (list Byte.byte))
    (len : Z) : option t :=
  if (ndx <? length (m_offsets ab))%nat
  then
    if (len =? 0) || bool_decide (is_Some value)
    then
      start ← start_of ab ndx;
      current_end ← Array_GetAsRef (m_offsets ab) ndx;
      let diff := to_int64 ((start + len - current_end) mod 2 ^ 64) in
      blob ← Blob_Replace (m_blob ab) start current_end (default [] value) len;
      Some (mk (Array_Adjust (m_offsets ab) ndx diff) blob)
    else None
  else None.

(** [ArrayBinary::Clear] *)
Definition Clear (ab : t) : t :=
  mk (Array_Clear (m_offsets ab)) (Blob_Clear (m_blob ab)).

(** A sequence of [Add] calls. *)
Definition add_all (ab : t) (elems : list (list Byte.byte)) : option t :=
  foldl (fun acc e => a ← acc; Add a (Some e) (Z.of_nat (length e)))
        (Some ab) elems.

End ArrayBinary.

(** ** Lst<T>::sort (list.cpp) *)

Module ListSort.

Section Sort.

(** The element type [T] with its [operator<] and [operator>], the helper
    [unresolved_to_null] (the identity except on object keys) and
    [std::sort] are declared outside the slice and are parameters. *)
Context {T : Type}.
Variable lt gt : T -> T -> bool.
Variable unresolved_to_null : T -> T.
Variable std_sort : (nat -> nat -> bool) -> list nat -> list nat.

(** [do_sort] *)
Definition do_sort (indices : list nat) (size : nat)
    (comp : nat -> nat -> bool) : list nat :=
  let old_size := length indices in
  (* if the list size has decreased, start all over *)
  let restart := (size <? old_size)%nat in
  let indices := if restart then [] else indices in
  let old_size := if restart then 0%nat else old_size in
  (* if the list size has increased, add the missing indices *)
  let indices := indices ++ seq old_size (size - old_size) in
  std_sort comp indices.

(** The two lambdas of [Lst<T>::sort]; [tree->get] outside the tree does
    not occur for the indices [do_sort] produces. *)
Definition tree_less (tree : list T) (i1 i2 : nat) : bool :=
  match tree !! i1, tree !! i2 with
  | Some a, Some b => lt (unresolved_to_null a) (unresolved_to_null b)
  | _, _ => false
  end.

Definition tree_greater (tree : list T) (i1 i2 : nat) : bool :=
  match tree !! i1, tree !! i2 with
  | Some a, Some b => gt (unresolved_to_null a) (unresolved_to_null b)
  | _, _ => false
  end.

(** [Lst<T>::sort] *)
Definition sort (tree : list T) (indices : list nat) (ascending : bool)
    : list nat :=
  if ascending
  then do_sort indices (length tree) (tree_less tree)
  else do_sort indices (length tree) (tree_greater tree).

End Sort.

(** The contract of [std::sort]: when the comparison is a strict weak
    ordering of the elements of the range, the result is a permutation of
    the range in which no element is less than an earlier one. *)
Definition strict_weak_on (comp : nat -> nat -> bool) (l : list nat) : Prop :=
  (forall x, x ∈ l -> comp x x = false)
  /\ (forall x y z, x ∈ l -> y ∈ l -> z ∈ l ->
        comp x y = true -> comp y z = true -> comp x z = true)
  /\ (forall x y z, x ∈ l -> y ∈ l -> z ∈ l ->
        comp x z = true -> comp x y = true \/ comp y z = true).

Definition sorted_by (comp : nat -> nat -> bool) (l : list nat) : Prop :=
  forall i j x y, (i < j)%nat -> l !! i = Some x -> l !! j = Some y ->
                  comp y x = false.

Definition sort_contract
    (std_sort : (nat -> nat -> bool) -> list nat -> list nat) : Prop :=
  forall comp l, strict_weak_on comp l ->
                 Permutation (std_sort comp l) l /\ sorted_by comp (std_sort comp l).

(** Modelled from the spec: the order of object keys ("values are compared
    by natural order for scalars ... nulls sort below all non-null values")
    and [unresolved_to_null] for [ObjKey] (unresolved keys "compare as
    null"). *)
Definition ObjKey_lt (a b : Z) : bool := a <? b.
Definition ObjKey_gt (a b : Z) : bool := b <? a.
Definition ObjKey_unresolved_to_null (k : Z) : Z :=
  if is_unresolved k then null_key else k.
Definition ObjKey_is_null (k : Z) : bool := k =? null_key.

(** An insertion sort, one function that meets the contract of
    [std::sort]. *)
Fixpoint insert_by (comp : nat -> nat -> bool) (x : nat) (l : list nat)
    : list nat :=
  match l with
  | [] => [x]
  | y :: r => if comp x y then x :: l else y :: insert_by comp x r
  end.

Definition insertion_sort (comp : nat -> nat -> bool) (l : list nat) : list nat :=
  foldr (insert_by comp) [] l.

(** Sortedness as a recursive predicate. *)
Fixpoint sorted_rec (comp : nat -> nat -> bool) (l : list nat) : Prop :=
  match l with
  | [] => True
  | x :: r => Forall (fun y => comp y x = false) r /\ sorted_rec comp r
  end.

End ListSort.

(** ** The element types of [Lst<T>] and their operators *)

Module ElemOrder.

(** An element type [T] of [Lst<T>] with what the list code uses of it:
    [operator<], the null test and [unresolved_to_null]. *)
Record ElemType := mkElem {
  carrier : Type;
  lt : carrier -> carrier -> bool;
  is_null : carrier -> bool;
  unresolved_to_null : carrier -> carrier
}.

(** [operator>] is [operator<] with the operands exchanged. *)
Definition gt (E : ElemType) (a b : carrier E) : bool := lt E b a.

(** Modelled from the spec: the comparison operators of the scalar, string
    and optional element types, which are declared in headers outside the
    slice.  "Values are compared by natural order for scalars; strings
    lexicographically by byte; nulls sort below all non-null values". *)
Definition int64 : ElemType := mkElem Z Z.ltb (fun _ => false) id.

Definition boolean : ElemType :=
  mkElem bool (fun a b => negb a && b) (fun _ => false) id.

(** [util::Optional<T>]: the empty optional is the null and is below every
    value. *)
Definition optional (E : ElemType) : ElemType :=
  mkElem (option (carrier E))
         (fun a b => match a, b with
                     | None, Some _ => true
                     | Some x, Some y => lt E x y
                     | _, None => false
                     end)
         (fun a => match a with None => true | Some _ => false end)
         id.

(** Bytes compare as unsigned numbers; of two sequences where one is a
    prefix of the other the shorter is the smaller. *)
Fixpoint bytes_lt (a b : list Byte.byte) : bool :=
  match a, b with
  | _, [] => false
  | [], _ :: _ => true
  | x :: a', y :: b' =>
      if (Byte.to_N x <? Byte.to_N y)%N then true
      else if (Byte.to_N y <? Byte.to_N x)%N then false
      else bytes_lt a' b'
  end.

Definition bytes : ElemType := mkElem (list Byte.byte) bytes_lt (fun _ => false) id.

(** [StringData] and [BinaryData]: a null, or bytes. *)
Definition StringData : ElemType := optional bytes.
Definition BinaryData : ElemType := optional bytes.

(** [Timestamp]: a null, or seconds and nanoseconds, compared in this
    order. *)
Definition seconds_nanoseconds : ElemType :=
  mkElem (Z * Z)
         (fun a b => (a.1 <? b.1) || ((a.1 =? b.1) && (a.2 <? b.2)))
         (fun _ => false) id.

Definition Timestamp : ElemType := optional seconds_nanoseconds.

(** [ObjKey]: unresolved keys count as the null key. *)
Definition ObjKey : ElemType :=
  mkElem Z ListSort.ObjKey_lt ListSort.ObjKey_is_null
         ListSort.ObjKey_unresolved_to_null.

(** [float] and [double].  The value of an IEEE 754 bit pattern with [mw]
    mantissa bits and [ew] exponent bits, in the Standard Library's
    specification of floating-point numbers. *)
Definition ieee_of_bits (mw ew : Z) (bits : Z) : spec_float :=
  let s := Z.testbit bits (mw + ew) in
  let e := (bits / 2 ^ mw) mod 2 ^ ew in
  let m := bits mod 2 ^ mw in
  let bias := 2 ^ (ew - 1) - 1 in
  if e =? 0
  then (if m =? 0 then S754_zero s
        else S754_finite s (Z.to_pos m) (1 - bias - mw))
  else if e =? 2 ^ ew - 1
       then (if m =? 0 then S754_infinity s else S754_nan)
       else S754_finite s (Z.to_pos (m + 2 ^ mw)) (e - bias - mw).

(** The null of a float column is a NaN ([null::is_null_float]); [FNull] is
    that NaN and [FBits] any other bit pattern. *)
Definition ieee_value (mw ew : Z) (f : FloatVal) : spec_float :=
  match f with
  | FNull => S754_nan
  | FBits bits => ieee_of_bits mw ew bits
  end.

Definition float_is_null (f : FloatVal) : bool :=
  match f with FNull => true | FBits _ => false end.

(** [operator<] of the language on floating-point operands: the IEEE
    comparison, under which a NaN is neither below nor above any value. *)
Definition ieee (mw ew : Z) : ElemType :=
  mkElem FloatVal
         (fun a b => SFltb (ieee_value mw ew a) (ieee_value mw ew b))
         float_is_null id.

Definition float : ElemType := ieee 23 8.
Definition double : ElemType := ieee 52 11.

Definition is_nan (mw ew : Z) (f : FloatVal) : bool :=
  match ieee_value mw ew f with S754_nan => true | _ => false end.

(** A key for the IEEE comparison of two values that are not NaN: the
    comparison orders the keys by their components, from the left. *)
Definition ieee_key (f : spec_float) : Z * Z * Z :=
  match f with
  | S754_infinity true => (-2, 0, 0)
  | S754_finite true m e => (-1, - e, - Z.pos m)
  | S754_zero _ | S754_nan => (0, 0, 0)
  | S754_finite false m e => (1, e, Z.pos m)
  | S754_infinity false => (2, 0, 0)
  end.

Definition key_ltb (a b : Z * Z * Z) : bool :=
  (a.1.1 <? b.1.1)
  || ((a.1.1 =? b.1.1)
      && ((a.1.2 <? b.1.2) || ((a.1.2 =? b.1.2) && (a.2 <? b.2)))).

(** [lt] is a strict weak ordering of the values [vals]. *)
Definition strict_weak_vals {T} (lt : T -> T -> bool) (vals : list T) : Prop :=
  (forall a, a ∈ vals -> lt a a = false)
  /\ (forall a b c, a ∈ vals -> b ∈ vals -> c ∈ vals ->
        lt a b = true -> lt b c = true -> lt a c = true)
  /\ (forall a b c, a ∈ vals -> b ∈ vals -> c ∈ vals ->
        lt a c = true -> lt a b = true \/ lt b c = true).

(** [operator<], with [unresolved_to_null] applied, is a strict weak
    ordering of the values [vals] under which the nulls are below the
    other values. *)
Definition orders (E : ElemType) (vals : list (carrier E)) : Prop :=
  let u := unresolved_to_null E in
  (forall a, a ∈ vals -> lt E (u a) (u a) = false)
  /\ (forall a b c, a ∈ vals -> b ∈ vals -> c ∈ vals ->
        lt E (u a) (u b) = true -> lt E (u b) (u c) = true ->
        lt E (u a) (u c) = true)
  /\ (forall a b c, a ∈ vals -> b ∈ vals -> c ∈ vals ->
        lt E (u a) (u c) = true ->
        lt E (u a) (u b) = true \/ lt E (u b) (u c) = true)
  /\ (forall a b, a ∈ vals -> b ∈ vals ->
        is_null E (u a) = true -> is_null E (u b) = false ->
        lt E (u a) (u b) = true).

End ElemOrder.

(** ** Opening a realm and migrating its schema *)

Module Migration.

(** Modelled from the spec: the schema migrator of section 4.7 and
    [open_shared_realm] ([Realm::get_shared_realm]); the object store is not
    part of the slice, only its test is.  A desired schema is a list of
    object schemas with properties; the file holds one table per object
    type and the schema version.  Opening compares the persisted schema
    with the desired one, validates the changes against the mode, and, if
    there are changes, stages them in a write transaction, runs the
    migration callback with read access to the old version and write access
    to the new one, updates the schema version and commits; "on any thrown
    error from validation or callback, cancel the write". *)
Inductive PropertyType := PInt | PBool | PString.

Record Property := mkProperty {
  p_name : string;
  p_type : PropertyType;
  p_optional : bool;
  p_indexed : bool;
  p_primary : bool
}.

Record ObjectSchema := mkObjectSchema {
  os_name : string;
  os_properties : list Property
}.

Definition Schema := list ObjectSchema.

(** A table of the file: its columns and its rows (one value per column). *)
Record Table := mkTable {
  tb_name : string;
  tb_columns : list Property;
  tb_rows : list (list Z)
}.

(** The committed state of the file; [None] is [ObjectStore::NotVersioned]. *)
Record File := mkFile {
  f_tables : list Table;
  f_schema_version : option N
}.

Inductive SchemaMode :=
| Automatic   (* the default mode of the scenarios *)
| ReadOnly | Immutable | Additive | Manual | ResetFile.

Inductive Error :=
| ConfigInvalid
| SchemaValidation
| MigrationException (what : string).   (* the value the callback threw *)

(** The migration callback: a closure with its own state; given the old
    realm and the staged new realm it either throws a value or returns the
    new realm with the writes it made. *)
Definition MigrationFunction (S : Type) : Type :=
  S -> File -> File -> S * (string + File).

Record Config (S : Type) := mkConfig {
  schema : option Schema;
  schema_version : option N;
  schema_mode : SchemaMode;
  migration_function : option (MigrationFunction S)
}.
Arguments schema {S} _.
Arguments schema_version {S} _.
Arguments schema_mode {S} _.
Arguments migration_function {S} _.
Arguments mkConfig {S} _ _ _ _.

Inductive Result := Opened (realm : File) | Threw (e : Error).

Definition PropertyType_eqb (a b : PropertyType) : bool :=
  match a, b with
  | PInt, PInt | PBool, PBool | PString, PString => true
  | _, _ => false
  end.

Definition find_table (name : string) (tables : list Table) : option Table :=
  List.find (fun t => String.eqb (tb_name t) name) tables.

Definition find_property (name : string) (props : list Property)
    : option Property :=
  List.find (fun p => String.eqb (p_name p) name) props.

Definition find_object_schema (name : string) (s : Schema) : option ObjectSchema :=
  List.find (fun os => String.eqb (os_name os) name) s.

(** The kinds of change between the persisted and the desired schema. *)
Inductive Change :=
| AddTable (name : string)
| RemoveTable (name : string)
| AddColumn (table : string) (p : Property)
| RemoveColumn (table column : string)
| ChangeType (table column : string).

Definition property_changes (table : string) (old new : list Property)
    : list Change :=
  flat_map (fun p => match find_property (p_name p) old with
                     | None => [AddColumn table p]
                     | Some q => if PropertyType_eqb (p_type p) (p_type q)
                                 then [] else [ChangeType table (p_name p)]
                     end) new
  ++ flat_map (fun q => match find_property (p_name q) new with
                        | None => [RemoveColumn table (p_name q)]
                        | Some _ => []
                        end) old.

(** Step 1: compare the persisted schema to the desired one. *)
Definition schema_changes (tables : list Table) (desired : Schema) : list Change :=
  flat_map (fun os => match find_table (os_name os) tables with
                      | None => [AddTable (os_name os)]
                      | Some t => property_changes (os_name os) (tb_columns t)
                                                   (os_properties os)
                      end) desired
  ++ flat_map (fun t => match find_object_schema (tb_name t) desired with
                        | None => [RemoveTable (tb_name t)]
                        | Some _ => []
                        end) tables.

(** Step 2: the mode table of section 4.7 (type changes "forbidden except
    in Manual"). *)
Definition change_allowed (mode : SchemaMode) (c : Change) : bool :=
  match mode, c with
  | (ReadOnly | Immutable), _ => false
  | Additive, (AddTable _ | AddColumn _ _) => true
  | Additive, _ => false
  | Manual, _ => true
  | (Automatic | ResetFile), ChangeType _ _ => false
  | (Automatic | ResetFile), _ => true
  end.

(** "rejected if present" *)
Definition callback_rejected (mode : SchemaMode) : bool :=
  match mode with ReadOnly | Additive => true | _ => false end.

Definition runs_callback (mode : SchemaMode) : bool :=
  match mode with Automatic | Manual => true | _ => false end.

(** Step 3: the staged tables; a column that stays keeps its values, a new
    column starts at zero. *)
Definition migrate_row (old_cols new_cols : list Property) (row : list Z)
    : list Z :=
  map (fun p => match find_index (fun q => String.eqb (p_name q) (p_name p)) old_cols with
                | Some i => default 0 (row !! i)
                | None => 0
                end) new_cols.

Definition stage_table (tables : list Table) (os : ObjectSchema) : Table :=
  match find_table (os_name os) tables with
  | None => mkTable (os_name os) (os_properties os) []
  | Some t => mkTable (os_name os) (os_properties os)
                      (map (migrate_row (tb_columns t) (os_properties os)) (tb_rows t))
  end.

Definition apply_schema (file : File) (desired : Schema) : File :=
  mkFile (map (stage_table (f_tables file)) desired) (f_schema_version file).

Definition version_lt (a b : option N) : bool :=
  match a, b with
  | None, Some _ => true
  | Some x, Some y => (x <? y)%N
  | _, None => false
  end.

(** [open_shared_realm]: the result, the committed file afterwards and the
    state of the callback's closure afterwards. *)
Definition open_shared_realm {S : Type} (config : Config S) (file : File)
    (cb_state : S) : Result * File * S :=
  if callback_rejected (schema_mode config)
     && bool_decide (is_Some (migration_function config))
  then (Threw ConfigInvalid, file, cb_state)
  else
    match schema config with
    | None => (Opened file, file, cb_state)
    | Some desired =>
        match schema_version config with
        | None => (Threw ConfigInvalid, file, cb_state)
        | Some v =>
            let changes := schema_changes (f_tables file) desired in
            if negb (version_lt (f_schema_version file) (Some v))
            then
              (* no migration: the persisted schema has to agree *)
              match changes with
              | [] => (Opened file, file, cb_state)
              | _ => (Threw SchemaValidation, file, cb_state)
              end
            else if negb (forallb (change_allowed (schema_mode config)) changes)
            then (Threw SchemaValidation, file, cb_state)
            else
              (* begin write: the changes are staged on a copy *)
              let staged := apply_schema file desired in
              let finish (new_realm : File) : File :=
                mkFile (f_tables new_realm) (Some v) in
              match migration_function config with
              | Some f =>
                  if runs_callback (schema_mode config)
                  then
                    match f cb_state file staged with
                    | (cb_state', inl what) =>
                        (* cancel the write: the staged copy is abandoned *)
                        (Threw (MigrationException what), file, cb_state')
                    | (cb_state', inr new_realm) =>
                        (Opened (finish new_realm), finish new_realm, cb_state')
                    end
                  else (Opened (finish staged), finish staged, cb_state)
              | None => (Opened (finish staged), finish staged, cb_state)
              end
        end
    end.

(** The scenario of the test "should properly roll back from migration
    errors". *)
Definition int_property (name : string) : Property :=
  mkProperty name PInt false false false.

Definition schema_v1 : Schema :=
  [mkObjectSchema "object" [int_property "value"]].

Definition schema_v2 : Schema :=
  [mkObjectSchema "object" [int_property "value"; int_property "value2"]].

Definition file_v1 : File :=
  mkFile [mkTable "object" [int_property "value"] [[42]]] (Some 1%N).

(** The closure state is [migration_called]; the callback throws the
    string "error" the first time it runs. *)
Definition throwing_once : MigrationFunction bool :=
  fun migration_called old_realm new_realm =>
    if migration_called then (true, inr new_realm) else (true, inl "error"%string).

Definition config_v2 : Config bool :=
  mkConfig (Some schema_v2) (Some 2%N) Automatic (Some throwing_once).

End Migration.

(** ** The link graph of a group *)

(** The entry of object [x] in column [col]. *)
Definition cell_at (g : Group) (x : ObjRef) (col : nat) : option Cell :=
  r ← objects g !! x; r !! col.

(** Overwrite the entry of [x] in column [c]. *)
Definition upd (x : ObjRef) (c : nat) (v : Cell) (g : Group) : Group :=
  match objects g !! x with
  | Some r => with_row x (<[c := v]> r) g
  | None => g
  end.

(** The keys a link or link-list entry refers to, and the origin keys a
    backlink entry lists. *)
Definition links_at (g : Group) (x : ObjRef) (col : nat) : list Z :=
  match cell_at g x col with
  | Some c => link_targets c
  | None => []
  end.

Definition backlinks_at (g : Group) (y : ObjRef) (bc : nat) : list Z :=
  match cell_at g y bc with
  | Some (CBacklink l) => l
  | _ => []
  end.

(** [ConstObj::get_backlink_count] as a function of the state. *)
Definition backlink_count (g : Group) (y : ObjRef) (bc : nat) : nat :=
  length (backlinks_at g y bc).

(** [Obj::add_backlink] and [Obj::remove_one_backlink] as state changes;
    [None] where the call fails. *)
Definition add_backlink_pure (y : ObjRef) (bc : nat) (o : Z) (g : Group)
    : option Group :=
  match cell_at g y bc with
  | Some (CBacklink l) => Some (upd y bc (CBacklink (ArrayBacklink_add l o)) (bump g))
  | _ => None
  end.

Definition remove_backlink_pure (y : ObjRef) (bc : nat) (o : Z) (g : Group)
    : option Group :=
  match cell_at g y bc with
  | Some (CBacklink l) =>
      l' ← ArrayBacklink_remove l o; Some (upd y bc (CBacklink l') (bump g))
  | _ => None
  end.

(** [Obj::nullify_link] as a state change, given whether the column has
    the list attribute. *)
Definition nullify_pure (x : ObjRef) (c : nat) (is_list : bool) (k : Z)
    (g : Group) : option Group :=
  match cell_at g x c with
  | Some (CLinkList l flag) =>
      if is_list
      then l' ← ArrayKey_nullify l k; Some (upd x c (CLinkList l' flag) (bump g))
      else None
  | Some (CKey key) =>
      if is_list then None
      else if key =? k
           then Some (emitted (repl_set_key x.1 c x.2 null_key instr_Set)
                              (upd x c (CKey null_key) (bump g)))
           else None
  | _ => None
  end.

(** [Obj::update_backlinks] as a state change, given the target table
    [B], the backlink column found there ([None] for [npos]) and whether
    the link column is strong. *)
Definition update_backlinks_pure (o : ObjRef) (B : TableKey)
    (backlink_col : option nat) (strong : bool) (old_key new_key : Z)
    (state : CascadeState) (g : Group) : option (bool * CascadeState * Group) :=
  r ← (if old_key =? null_key
       then Some (false, state, g)
       else
         bc ← backlink_col;
         g1 ← remove_backlink_pure (B, old_key) bc o.2 g;
         if strong && Nat.eqb (backlink_count g1 (B, old_key) bc) 0
         then Some (true, cascade_push state (B, old_key), g1)
         else Some (false, state, g1));
  g2 ← (if new_key =? null_key
        then Some r.2
        else bc ← backlink_col; add_backlink_pure (B, new_key) bc o.2 r.2);
  Some (r.1.1, r.1.2, g2).

Definition is_link_cell (c : Cell) : bool :=
  match c with CKey _ | CLinkList _ _ => true | _ => false end.

(** Two groups with the same tables, the same objects and, entry by entry,
    the same leaf classes. *)
Definition same_shape (g g' : Group) : Prop :=
  tables g' = tables g
  /\ (forall x, valid_object g' x = valid_object g x)
  /\ (forall x j, option_Forall2 (fun a b => same_leaf a b = true)
                                 (cell_at g x j) (cell_at g' x j)).

(** From [g] to [g'] link lists only lost entries. *)
Definition lists_shrink (g g' : Group) : Prop :=
  forall y j l' flag',
    cell_at g' y j = Some (CLinkList l' flag') ->
    exists l flag, cell_at g y j = Some (CLinkList l flag) /\ sublist l' l.

(** From [g] to [g'] every link list kept its context flag. *)
Definition flags_kept (g g' : Group) : Prop :=
  forall y j l' flag',
    cell_at g' y j = Some (CLinkList l' flag') ->
    exists l, cell_at g y j = Some (CLinkList l flag').


(** From [g] to [g'] the replication log was only appended to. *)
Definition log_grows (g g' : Group) : Prop :=
  exists more, replication g' = (fun log => log ++ more) <$> replication g.

(** How often object [x] refers to key [k] in column [col], and how often
    the backlink column [bc] of object [y] lists the origin key [o]. *)
Definition fwd (g : Group) (x : ObjRef) (col : nat) (k : Z) : nat :=
  count_occ Z.eq_dec (links_at g x col) k.

Definition bl (g : Group) (y : ObjRef) (bc : nat) (o : Z) : nat :=
  count_occ Z.eq_dec (backlinks_at g y bc) o.

Definition is_link_type (t : ColumnType) : bool :=
  match t with
  | col_type_Link | col_type_LinkList => true
  | _ => false
  end.

(** Column [c] of table [A] is a forward link column: its target table and
    the backlink column of the target that mirrors it. *)
Definition link_column (g : Group) (A : TableKey) (c : nat)
    : option (TableKey * nat) :=
  ti ← tables g !! A;
  col ← columns (t_spec ti) !! c;
  if is_link_type (col_type col)
  then
    tti ← tables g !! col_opposite_table col;
    bc ← find_backlink_column (t_spec tti) A c;
    Some (col_opposite_table col, bc)
  else None.

(** The references to key [k] held in column [c], summed over the objects
    of the origin table [A]. *)
Definition origin_refs (g : Group) (A : TableKey) (c : nat) (k : Z) : nat :=
  list_sum (map (fun xr : ObjRef * list Cell =>
                   if Nat.eqb xr.1.1 A
                   then count_occ Z.eq_dec
                          (match xr.2 !! c with
                           | Some cell => link_targets cell
                           | None => []
                           end) k
                   else 0%nat)
                (map_to_list (objects g))).

(** Link consistency, as the specification states it. *)
Definition link_consistent (g : Group) : Prop :=
  forall A c B bc k,
    link_column g A c = Some (B, bc) ->
    valid_object g (B, k) = true ->
    origin_refs g A c k = backlink_count g (B, k) bc.

(** *** The invariant that the operations maintain *)

(** Per origin object: the references of [o] to [k] are the entries for
    [o] in the backlink column of [k]. *)
Definition link_balanced (g : Group) : Prop :=
  forall A c B bc o k,
    link_column g A c = Some (B, bc) -> k <> null_key ->
    fwd g (A, o) c k = bl g (B, k) bc o.

(** The schema: link columns are public, point to a table of the group and
    have their backlink column there; a link list is a link column with the
    list attribute; the columns behind the public ones are the backlink
    columns, each the mirror of a link column; a column with strong links
    points to an embedded table. *)
Definition wf_schema (g : Group) : Prop :=
  forall A ti, tables g !! A = Some ti ->
    (get_public_column_count (t_spec ti) <= length (columns (t_spec ti)))%nat
    /\ (forall c col, columns (t_spec ti) !! c = Some col ->
          ((c < get_public_column_count (t_spec ti))%nat
           <-> col_type col <> col_type_BackLink)
          /\ (is_link_type (col_type col) = true ->
              is_Some (link_column g A c)
              /\ (attr_test (col_attr col) col_attr_List = true
                  <-> col_type col = col_type_LinkList))
          /\ (col_type col = col_type_BackLink ->
              link_column g (col_opposite_table col) (col_opposite_col col)
              = Some (A, c))).

Definition strong_links_embedded (g : Group) : Prop :=
  forall A ti c col tti,
    tables g !! A = Some ti -> columns (t_spec ti) !! c = Some col ->
    is_link_type (col_type col) = true ->
    attr_test (col_attr col) col_attr_StrongLinks = true ->
    tables g !! col_opposite_table col = Some tti ->
    t_embedded tti = true.

(** The leaf class of an entry agrees with the type of its column. *)
Definition cell_ok (col : ColumnSpec) (c : Cell) : Prop :=
  match col_type col with
  | col_type_Link => exists k, c = CKey k
  | col_type_LinkList => exists l flag, c = CLinkList l flag
  | col_type_BackLink => exists l, c = CBacklink l
  | _ => is_link_cell c = false /\ forall l, c <> CBacklink l
  end.

Definition wf_rows (g : Group) : Prop :=
  forall x, valid_object g x = true ->
    x.2 <> null_key
    /\ exists ti, tables g !! x.1 = Some ti
                  /\ forall j, option_Forall2 cell_ok (columns (t_spec ti) !! j)
                                                (cell_at g x j).

Definition Inv (g : Group) : Prop :=
  wf_schema g /\ wf_rows g /\ link_balanced g.

(** A computation that, started where the invariant holds, can only end
    where it holds, keeps the tables, creates no object, only appends to the
    replication log and only drops entries from link lists. *)
Definition quiet (m : M unit) : Prop :=
  forall g g', Inv g -> m g = Ok tt g' ->
    Inv g' /\ tables g' = tables g
    /\ (forall y, valid_object g' y = true -> valid_object g y = true)
    /\ lists_shrink g g' /\ log_grows g g'.

(** *** The operations that change links *)

Inductive LinkOp :=
| op_set_Key (o : ObjRef) (col_ndx : nat) (target_key : Z) (is_default : bool)
| op_list_insert (lst : Lst) (ndx : nat) (target_key : Z)
| op_list_set (lst : Lst) (ndx : nat) (target_key : Z)
| op_list_remove (lst : Lst) (ndx : nat)
| op_list_clear (lst : Lst)
| op_remove_object (x : ObjRef).

Definition run_op (op : LinkOp) : M unit :=
  match op with
  | op_set_Key o col_ndx target_key is_default =>
      Obj_set_Key o col_ndx target_key is_default
  | op_list_insert lst ndx target_key => Lst_do_insert lst ndx target_key
  | op_list_set lst ndx target_key => Lst_do_set lst ndx target_key
  | op_list_remove lst ndx => Lst_do_remove lst ndx
  | op_list_clear lst => Lst_do_clear lst
  | op_remove_object x =>
      Table_remove_recursive (mkCascade Mode_Strong [x])
  end.

(** *** The cascade *)

(** Backlink column [bc] of table [B] mirrors a link column that carries
    the StrongLinks attribute. *)
Definition strong_backlink_column (g : Group) (B : TableKey) (bc : nat) : Prop :=
  exists A c ti col,
    link_column g A c = Some (B, bc)
    /\ tables g !! A = Some ti /\ columns (t_spec ti) !! c = Some col
    /\ attr_test (col_attr col) col_attr_StrongLinks = true.

(** From [g] to [g'] objects were only removed, and every object left in
    [g'] that had strong backlinks in a column in [g] still has one there:
    whatever lost its last strong incoming link is gone. *)
Definition cascade_closed (g g' : Group) : Prop :=
  (forall x, valid_object g' x = true -> valid_object g x = true)
  /\ forall y bc,
       valid_object g' y = true -> strong_backlink_column g y.1 bc ->
       (0 < backlink_count g y bc)%nat -> (0 < backlink_count g' y bc)%nat.

(** ** More of Obj (obj.cpp) *)

(** [Obj::set<int64_t>].  The specialisation tests the column index only;
    the leaf class follows the Nullable attribute.  Search indices are
    derived data and are left out. *)
Definition Obj_set_int64 (o : ObjRef) (col_ndx : nat) (value : Z)
    (is_default : bool) : M unit :=
  spec <- get_spec o.1 ;;
  if (get_public_column_count spec <? col_ndx)%nat
  then throw column_index_out_of_range
  else
    _ <- get_row o ;;
    bump_content_version ;;;
    fields <- get_row o ;;
    realm_assert (col_ndx + 1 <? S (length fields))%nat ;;;
    attr <- unchecked (get_column_attr spec col_ndx) ;;
    (if attr_test attr col_attr_Nullable
     then write_typed o col_ndx (CIntNull (Some value))
     else write_typed o col_ndx (CInt value)) ;;;
    emit (repl_set_int o.1 col_ndx o.2 value (instr_type is_default)).

(** A computation that changes nothing when it returns. *)
Definition read_only {A} (m : M A) : Prop :=
  forall g a g', m g = Ok a g' -> g' = g.

(** A computation whose exceptions leave the group as it was at the call. *)
Definition throw_safe {A} (m : M A) : Prop :=
  forall g e g', m g = Throw e g' -> g' = g.

(** A computation that ends in no exception at all. *)
Definition no_throw {A} (m : M A) : Prop :=
  forall e, never_throws e m.

(** A second small group: an owner table with a nullable, weak link into an
    item table, and owner 0 linking to item 5. *)
Definition owner_spec : Spec :=
  mkSpec [ mkColumn col_type_Link col_attr_Nullable 1 0 ] 1.

Definition item_spec : Spec :=
  mkSpec [ mkColumn col_type_Int 0 0 0;
           mkColumn col_type_BackLink 0 0 0 ] 1.

Definition ex_weak_group : Group :=
  mkGroup (<[0%nat := mkTable owner_spec false]>
             (<[1%nat := mkTable item_spec false]> ∅))
          (<[(0%nat, 0) := [CKey 5]]>
             (<[(1%nat, 5) := [CInt 0; CBacklink [0]]]> ∅))
          0 (Some []).

(** A third small group: a folder table with a weak link list into a
    table of files that is not embedded.  Folder 0 lists file 5 twice and
    file 6 once. *)
Definition folder_spec : Spec :=
  mkSpec [ mkColumn col_type_LinkList col_attr_List 1 0 ] 1.

Definition file_spec : Spec :=
  mkSpec [ mkColumn col_type_Int 0 0 0;
           mkColumn col_type_BackLink 0 0 0 ] 1.

Definition ex_list_group : Group :=
  mkGroup (<[0%nat := mkTable folder_spec false]>
             (<[1%nat := mkTable file_spec false]> ∅))
          (<[(0%nat, 0) := [CLinkList [5; 5; 6] false]]>
             (<[(1%nat, 5) := [CInt 0; CBacklink [0; 0]]]>
                (<[(1%nat, 6) := [CInt 0; CBacklink [0]]]> ∅)))
          0 (Some []).

(** ** Lst<T>::distinct (list.cpp) *)

Module ListDistinct.

(** One round of the loop of [min_unique], for the iterator [first] that
    the loop head has just advanced.  The state is the vector and the
    position of [result].  When the run of duplicates goes on, [*result]
    keeps the smaller index; otherwise [result] advances and takes over
    [*first] unless the two iterators meet. *)
Definition min_unique_step (pred : nat -> nat -> bool)
    (st : list nat * nat) (first : nat) : list nat * nat :=
  let v := st.1 in
  let result := st.2 in
  match v !! result, v !! first with
  | Some r, Some f =>
      if pred r f
      then (if (f <? r)%nat then (<[result := f]> v, result) else (v, result))
      else
        let result := S result in
        if negb (Nat.eqb result first)
        then (<[result := f]> v, result)
        else (v, result)
  | _, _ => st
  end.

(** [min_unique]: the vector after the loop and the position it returns
    ([++result]; [first] for an empty range). *)
Definition min_unique (pred : nat -> nat -> bool) (v : list nat)
    : list nat * nat :=
  match v with
  | [] => (v, 0%nat)
  | _ :: _ =>
      let st := foldl (min_unique_step pred) (v, 0%nat) (seq 1 (length v - 1)) in
      (st.1, S st.2)
  end.

(** The loop invariant of [min_unique] on a sorted range [s], after the
    round for position [f]: the vector [v] is untouched behind [f]; its
    first [r + 1] entries are taken from [s] up to [f], each the smallest
    index among the ones equal to it there, every index of [s] up to [f] is
    equal to one of them, they are strictly ordered, and the last of them is
    equal to the index at [f]. *)
Definition mu_inv (comp E : nat -> nat -> bool) (s v : list nat) (r f : nat)
    : Prop :=
  length v = length s /\ (r <= f)%nat /\ (f < length s)%nat
  /\ (forall j, (f < j)%nat -> v !! j = s !! j)
  /\ (forall k x, (k <= r)%nat -> v !! k = Some x ->
        (exists i, (i <= f)%nat /\ s !! i = Some x)
        /\ forall i y, (i <= f)%nat -> s !! i = Some y -> E y x = true ->
                       (x <= y)%nat)
  /\ (forall i y, (i <= f)%nat -> s !! i = Some y ->
        exists k x, (k <= r)%nat /\ v !! k = Some x /\ E x y = true)
  /\ (forall k k' x x', (k < k')%nat -> (k' <= r)%nat ->
        v !! k = Some x -> v !! k' = Some x' -> comp x x' = true)
  /\ (exists x y, v !! r = Some x /\ s !! f = Some y /\ E x y = true).

Section Distinct.

(** As for the sort, the element type with its operators, here also
    [operator==], and [std::sort] are parameters. *)
Context {T : Type}.
Variable lt gt eqb : T -> T -> bool.
Variable unresolved_to_null : T -> T.
Variable std_sort : (nat -> nat -> bool) -> list nat -> list nat.

(** The lambda of [Lst<T>::distinct]. *)
Definition tree_equal (tree : list T) (i1 i2 : nat) : bool :=
  match tree !! i1, tree !! i2 with
  | Some a, Some b => eqb (unresolved_to_null a) (unresolved_to_null b)
  | _, _ => false
  end.

(** [Lst<T>::distinct]: [sort_order] is the [util::Optional<bool>]; the
    vector passed in is cleared first.  The last [std::sort] uses
    [operator<] of [size_t]. *)
Definition distinct (tree : list T) (indices : list nat)
    (sort_order : option bool) : list nat :=
  let indices := @nil nat in
  let indices := ListSort.sort lt gt unresolved_to_null std_sort tree indices
                   (default true sort_order) in
  match indices with
  | [] => indices
  | _ :: _ =>
      let r := min_unique (tree_equal tree) indices in
      (* erase the duplicates *)
      let indices := take r.2 r.1 in
      match sort_order with
      | None => std_sort Nat.ltb indices   (* restore original order *)
      | Some _ => indices
      end
  end.

End Distinct.

(** Modelled from the spec, as the order of object keys: their equality. *)
Definition ObjKey_eqb (a b : Z) : bool := a =? b.

End ListDistinct.

(** ** The compression container (compression.cpp) *)

Module Compression.

(** [compression::error]; the default-constructed [std::error_code] is
    [None]. *)
Inductive error :=
| out_of_memory | compress_buffer_too_small | compress_error
| compress_input_too_long | corrupt_input | incorrect_decompressed_size
| decompress_error.

Inductive Algorithm := Alg_None | Alg_Deflate | Alg_LZFSE.

(** [std::numeric_limits<size_t>::max()] of a 64-bit [size_t]. *)
Definition size_max : Z := 2 ^ 64 - 1.

(** [compression::compress_bound], every operation in [size_t]. *)
Definition compress_bound (size : Z) : Z :=
  let overhead :=
    (6 + (5 * ((size / 16383 + 1) mod 2 ^ 64)) mod 2 ^ 64) mod 2 ^ 64 in
  if (size_max - overhead) mod 2 ^ 64 <? size
  then 0
  else (size + overhead) mod 2 ^ 64.

(** A [NoCopyInputStream]: the blocks it still has to hand out.
    [next_block] returns the empty span once they are used up. *)
Definition Stream := list (list Byte.byte).

Definition next_block (s : Stream) : list Byte.byte * Stream :=
  match s with
  | [] => ([], [])
  | b :: r => (b, r)
  end.

(** [SimpleNoCopyInputStream]: one block, the whole buffer. *)
Definition SimpleNoCopyInputStream (buf : list Byte.byte) : Stream := [buf].

(** The [do ... while] loop of [decompress_none]: the block in hand, the
    blocks to come, the bytes copied so far and the room left in the
    output.  It returns the block in hand at the exit, the bytes copied and
    the room left. *)
Fixpoint copy_blocks (compressed_buf : list Byte.byte) (compressed : Stream)
    (written : list Byte.byte) (room : nat)
    : list Byte.byte * list Byte.byte * nat :=
  let count := Nat.min room (length compressed_buf) in
  let written := written ++ take count compressed_buf in
  let room := (room - count)%nat in
  match compressed with
  | [] => ([], written, room)
  | b :: rest =>
      if negb (Nat.eqb (length b) 0) && negb (Nat.eqb room 0)
      then copy_blocks b rest written room
      else (b, written, room)
  end.

(** [decompress_none]: the error code and the output buffer.  The outer
    [None] is [sub_span(2)] on a block shorter than the two header bytes. *)
Definition decompress_none (compressed : Stream)
    (compressed_buf decompressed_buf : list Byte.byte)
    : option (option error * list Byte.byte) :=
  if (length compressed_buf <? 2)%nat then None
  else
    let r := copy_blocks (drop 2 compressed_buf) compressed []
               (length decompressed_buf) in
    let out := r.1.2 ++ drop (length r.1.2) decompressed_buf in
    if negb (Nat.eqb (length r.1.1) 0) || negb (Nat.eqb r.2 0)
    then Some (Some incorrect_decompressed_size, out)
    else Some (None, out).

(** [AppendBuffer::resize]; bytes it adds are unspecified and stand as
    zero bytes here. *)
Definition resize (buf : list Byte.byte) (n : nat) : list Byte.byte :=
  take n buf ++ replicate (n - length buf) Byte.x00.

(** [init_arena] and [grow_arena] on the size of the arena; [None] is a
    failed assertion. *)
Definition init_arena (n : Z) : Z := if n =? 0 then 270 * 1024 else n.

Definition grow_arena (n : Z) : option Z :=
  if (n =? 0) || (n =? size_max) then None
  else Some (if size_max <? n * 2 then size_max else n * 2).

(** What a call of the container can end in: a value, a thrown
    [std::system_error], a failed assertion. *)
Inductive Result (A : Type) :=
| R_ok (a : A)
| R_throw (e : error)
| R_abort.
Arguments R_ok {A} a.
Arguments R_throw {A} e.
Arguments R_abort {A}.

Section Codec.

(** Declared or implemented outside the slice, and parameters here: the
    values of the enumerators of [Algorithm] (the cast from and to [char]),
    the object representation of a [uint64_t] ([std::memcpy] from and to the
    size field), the zlib and libcompression decoders and the encoder
    [compress_lzfse_or_zlib] (uncompressed data, capacity of the output
    span, size of the arena). *)
Variable algorithm_of_byte : Byte.byte -> option Algorithm.
Variable byte_of_algorithm : Algorithm -> Byte.byte.
Variable load_uint64 : list Byte.byte -> Z.
Variable store_uint64 : Z -> list Byte.byte.
Variable decompress_coded :
  Algorithm -> Stream -> list Byte.byte -> list Byte.byte
  -> option (option error * list Byte.byte).
Variable compress_lzfse_or_zlib :
  list Byte.byte -> nat -> Z -> error + list Byte.byte.

(** [read_size] *)
Definition read_size (block : list Byte.byte) : error + Z :=
  if (length block <? 10)%nat then inl corrupt_input
  else
    let size := load_uint64 (take 8 block) in
    if size_max <? size then inl out_of_memory else inr size.

(** The dispatcher [decompress] of the unnamed namespace. *)
Definition decompress (compressed : Stream)
    (compressed_buf decompressed_buf : list Byte.byte)
    : option (option error * list Byte.byte) :=
  if Nat.eqb (length decompressed_buf) 0 then Some (None, decompressed_buf)
  else
    match compressed_buf with
    | [] => Some (Some incorrect_decompressed_size, decompressed_buf)
    | b :: _ =>
        match algorithm_of_byte b with
        | Some Alg_None => decompress_none compressed compressed_buf decompressed_buf
        | Some a => decompress_coded a compressed compressed_buf decompressed_buf
        | None => Some (Some corrupt_input, decompressed_buf)
        end
    end.

(** [compression::decompress_with_header]: the error code and the buffer
    [decompressed]. *)
Definition decompress_with_header (compressed : Stream)
    (decompressed : list Byte.byte)
    : option (option error * list Byte.byte) :=
  let '(compressed_buf, compressed) := next_block compressed in
  match read_size compressed_buf with
  | inl ec => Some (Some ec, decompressed)
  | inr size =>
      let decompressed := resize decompressed (Z.to_nat size) in
      if size =? 0 then Some (None, decompressed)
      else decompress compressed (drop 8 compressed_buf) decompressed
  end.

(** The [while (uncompressed.size() > 256)] loop of
    [allocate_and_compress_with_header], entered when the data is that
    long: [Some] is the compressed bytes, [None] the decision to store the
    data as it is; the size of the arena is returned beside it. *)
Fixpoint compress_attempts (fuel : nat) (arena : Z)
    (uncompressed : list Byte.byte) : Result (option (list Byte.byte) * Z) :=
  match fuel with
  | O => R_abort
  | S fuel' =>
      let arena := init_arena arena in
      match compress_lzfse_or_zlib uncompressed (length uncompressed + 2) arena with
      | inl compress_buffer_too_small => R_ok (None, arena)
      | inl out_of_memory =>
          match grow_arena arena with
          | Some arena' => compress_attempts fuel' arena' uncompressed
          | None => R_abort
          end
      | inl ec => R_throw ec
      | inr bytes =>
          if Nat.eqb (length bytes) 0 then R_abort
          else R_ok (Some bytes, arena)
      end
  end.

(** [compression::allocate_and_compress_with_header]: the buffer
    [compressed] and the size of the arena.  The arena grows by doubling up
    to [size_max] and the next failure is an assertion, so 66 rounds are
    more than the loop can take. *)
Definition allocate_and_compress_with_header (arena : Z)
    (uncompressed : list Byte.byte) : Result (list Byte.byte * Z) :=
  let size := Z.of_nat (length uncompressed) in
  let header := store_uint64 size in
  let stored := header ++ [byte_of_algorithm Alg_None; Byte.x00] ++ uncompressed in
  if (256 <? length uncompressed)%nat
  then
    match compress_attempts 66 arena uncompressed with
    | R_ok (Some bytes, arena') => R_ok (header ++ bytes, arena')
    | R_ok (None, arena') => R_ok (stored, arena')
    | R_throw ec => R_throw ec
    | R_abort => R_abort
    end
  else R_ok (stored, arena).

End Codec.

(** One object representation of [uint64_t] and one numbering of the
    algorithms, used to run the model: little-endian bytes, and 0, 1, 2. *)
Definition byte_of_Z (z : Z) : Byte.byte :=
  default Byte.x00 (Byte.of_N (Z.to_N (z mod 256))).

Definition Z_of_byte (b : Byte.byte) : Z := Z.of_N (Byte.to_N b).

Fixpoint le_store (n : nat) (z : Z) : list Byte.byte :=
  match n with
  | O => []
  | S n' => byte_of_Z z :: le_store n' (z / 256)
  end.

Fixpoint le_load (l : list Byte.byte) : Z :=
  match l with
  | [] => 0
  | b :: r => Z_of_byte b + 256 * le_load r
  end.

Definition ex_algorithm_of_byte (b : Byte.byte) : option Algorithm :=
  match Z_of_byte b with
  | 0 => Some Alg_None
  | 1 => Some Alg_Deflate
  | 2 => Some Alg_LZFSE
  | _ => None
  end.

Definition ex_byte_of_algorithm (a : Algorithm) : Byte.byte :=
  match a with
  | Alg_None => Byte.x00
  | Alg_Deflate => Byte.x01
  | Alg_LZFSE => Byte.x02
  end.

End Compression.

(** ** A small group used to run the model

    Table 0 ("person"): an Int column, a nullable Int column, a strong
    link and a link list, both into table 1.  Table 1 ("dog", embedded): a
    nullable string, a strong link into table 1 itself, and the three
    backlink columns that mirror the link columns.  Person 0 owns dog 10
    through the link and dog 11 through the list; dog 10 owns dog 12. *)
Definition person_spec : Spec :=
  mkSpec [ mkColumn col_type_Int 0 0 0;
           mkColumn col_type_Int col_attr_Nullable 0 0;
           mkColumn col_type_Link col_attr_StrongLinks 1 0;
           mkColumn col_type_LinkList col_attr_List 1 0;
           mkColumn col_type_String 0 0 0 ] 5.

Definition dog_spec : Spec :=
  mkSpec [ mkColumn col_type_String col_attr_Nullable 0 0;
           mkColumn col_type_Link col_attr_StrongLinks 1 0;
           mkColumn col_type_BackLink 0 0 2;
           mkColumn col_type_BackLink 0 0 3;
           mkColumn col_type_BackLink 0 1 1 ] 2.

Definition ex_tables : gmap TableKey TableInfo :=
  <[0%nat := mkTable person_spec false]>
    (<[1%nat := mkTable dog_spec true]> ∅).

Definition ex_person_row : list Cell :=
  [CInt 9223372036854775807; CIntNull None; CKey 10; CLinkList [11] false;
   CString (Some [])].

Definition ex_objects : gmap ObjRef (list Cell) :=
  <[(0%nat, 0) := ex_person_row]>
  (<[(1%nat, 10) := [CString None; CKey 12; CBacklink [0]; CBacklink [];
                     CBacklink []]]>
  (<[(1%nat, 11) := [CString None; CKey null_key; CBacklink [];
                     CBacklink [0]; CBacklink []]]>
  (<[(1%nat, 12) := [CString None; CKey null_key; CBacklink [];
                     CBacklink []; CBacklink [10]]]> ∅))).

Definition ex_group : Group := mkGroup ex_tables ex_objects 0 (Some []).

(* ===================================================================== *)
(** * Part II: lemmas                                                      *)
(* ===================================================================== *)

(** ** Running the accessor monad *)

Lemma bind_Ok {A B} (m : M A) (f : A -> M B) g a g' :
  m g = Ok a g' -> bind m f g = f a g'.
Proof. unfold bind. by intros ->. Qed.

Lemma bind_Throw {A B} (m : M A) (f : A -> M B) g e g' :
  m g = Throw e g' -> bind m f g = Throw e g'.
Proof. unfold bind. by intros ->. Qed.

Lemma bind_Abort {A B} (m : M A) (f : A -> M B) g :
  m g = Abort -> bind m f g = Abort.
Proof. unfold bind. by intros ->. Qed.

Lemma get_spec_Ok g t ti :
  tables g !! t = Some ti -> get_spec t g = Ok (t_spec ti) g.
Proof. unfold get_spec. by intros ->. Qed.

Lemma get_row_Ok g x r :
  objects g !! x = Some r -> get_row x g = Ok r g.
Proof. unfold get_row. by intros ->. Qed.

Lemma read_leaf_Ok g x r col c :
  objects g !! x = Some r -> r !! col = Some c -> read_leaf x col g = Ok c g.
Proof.
  intros Hx Hc. unfold read_leaf.
  rewrite (bind_Ok _ _ _ _ _ (get_row_Ok _ _ _ Hx)). by rewrite Hc.
Qed.

Lemma write_leaf_Ok g x r col c :
  objects g !! x = Some r -> (col < length r)%nat ->
  write_leaf x col c g = Ok tt (with_row x (<[col := c]> r) g).
Proof.
  intros Hx Hc. unfold write_leaf.
  rewrite (bind_Ok _ _ _ _ _ (get_row_Ok _ _ _ Hx)).
  apply Nat.ltb_lt in Hc. by rewrite Hc.
Qed.

(** Unfold the monad and the cluster primitives, then reduce the record
    projections and the matches the hypotheses decide. *)
Ltac unfold_M :=
  unfold Obj_do_set_null, write_typed, read_leaf, write_leaf, get_row, put_row,
    erase_row, get_target_table, get_spec, is_valid, is_embedded,
    bump_content_version, emit, realm_assert, unchecked, throw, abort, ret,
    bind, with_row, erased, bump, emitted, set_objects in *.

Ltac reduce_M :=
  cbn beta iota delta [tables objects content_version replication fst snd
                       negb andb orb].

(** Rewrite with the facts [tac] knows until the call has run. *)
Tactic Notation "run_M" "with" tactic3(tac) :=
  unfold_M; reduce_M; repeat (progress (tac; reduce_M)).

(** ** Wrap-around of [add_int] *)

Lemma add_wrap_mod a b : add_wrap a b = to_int64 ((a + b) mod 2 ^ 64).
Proof. unfold add_wrap, to_uint64. by rewrite <- Zplus_mod. Qed.

Lemma to_int64_range u :
  0 <= u < 2 ^ 64 -> - 2 ^ 63 <= to_int64 u < 2 ^ 63.
Proof. unfold to_int64. intros H. destruct (Z.ltb_spec u (2 ^ 63)); lia. Qed.

Lemma to_int64_congr u : (to_int64 u) mod 2 ^ 64 = u mod 2 ^ 64.
Proof.
  unfold to_int64. destruct (u <? 2 ^ 63); [done|].
  replace (u - 2 ^ 64) with (u + (-1) * 2 ^ 64) by lia.
  by rewrite Z_mod_plus_full.
Qed.

Lemma add_wrap_range a b : - 2 ^ 63 <= add_wrap a b < 2 ^ 63.
Proof.
  rewrite add_wrap_mod. apply to_int64_range.
  apply Z.mod_pos_bound. lia.
Qed.

Lemma add_wrap_exact a b :
  - 2 ^ 63 <= a + b < 2 ^ 63 -> add_wrap a b = a + b.
Proof.
  intros H. rewrite add_wrap_mod. unfold to_int64.
  destruct (Z_le_gt_dec 0 (a + b)).
  - rewrite Z.mod_small by lia.
    destruct (Z.ltb_spec (a + b) (2 ^ 63)); lia.
  - replace ((a + b) mod 2 ^ 64) with (a + b + 2 ^ 64).
    + destruct (Z.ltb_spec (a + b + 2 ^ 64) (2 ^ 63)); lia.
    + symmetry. rewrite <- (Z_mod_plus_full (a + b) 1 (2 ^ 64)).
      rewrite Z.mul_1_l. apply Z.mod_small. lia.
Qed.

(** C9. [Obj::add_int] never fails on overflow: on a non-nullable Int
    column holding [old] it returns normally and stores the two's-complement
    wrap-around sum, [(old + value) mod 2^64] read back as a signed 64-bit
    integer, for every [old] and [value]; on a nullable column holding null
    it throws [LogicError::illegal_combination] and every stored value is as
    before. *)
Theorem add_int_wraparound (g : Group) (o : ObjRef) (col_ndx : nat)
    (ti : TableInfo) (col : ColumnSpec) (row : list Cell) (value : Z) :
  tables g !! o.1 = Some ti ->
  (col_ndx < get_public_column_count (t_spec ti))%nat ->
  columns (t_spec ti) !! col_ndx = Some col ->
  col_type col = col_type_Int ->
  objects g !! o = Some row ->
  (forall old : Z,
      attr_test (col_attr col) col_attr_Nullable = false ->
      row !! col_ndx = Some (CInt old) ->
      let sum := to_int64 ((old + value) mod 2 ^ 64) in
      Obj_add_int o col_ndx value g =
        Ok tt (mkGroup (tables g)
                       (<[o := <[col_ndx := CInt sum]> row]> (objects g))
                       (content_version g + 1)%N
                       ((fun log => log ++ [repl_add_int o.1 col_ndx o.2 value])
                          <$> replication g))
      /\ - 2 ^ 63 <= sum < 2 ^ 63
      /\ sum mod 2 ^ 64 = (old + value) mod 2 ^ 64) /\
  (attr_test (col_attr col) col_attr_Nullable = true ->
   row !! col_ndx = Some (CIntNull None) ->
   exists g' : Group,
     Obj_add_int o col_ndx value g = Throw illegal_combination g'
     /\ objects g' = objects g /\ tables g' = tables g
     /\ replication g' = replication g).
Proof.
  intros Ht Hlt Hcol Hty Hrow.
  assert (Hpre : (get_public_column_count (t_spec ti) <? col_ndx)%nat = false)
    by (apply Nat.ltb_ge; lia).
  assert (Hattr : get_column_attr (t_spec ti) col_ndx = Some (col_attr col))
    by (unfold get_column_attr; by rewrite Hcol).
  split.
  - intros old Hnn Hcell sum.
    assert (Hlen : (col_ndx < length row)%nat)
      by (apply lookup_lt_is_Some; eauto).
    assert (Hlen1 : (col_ndx + 1 <? S (length row))%nat = true)
      by (apply Nat.ltb_lt; lia).
    apply Nat.ltb_lt in Hlen.
    split; [|split].
    + unfold Obj_add_int.
      run_M with (rewrite ?Ht, ?Hpre, ?Hrow, ?Hlen1, ?Hattr, ?Hnn, ?Hcell, ?Hlen).
      subst sum. by rewrite add_wrap_mod.
    + apply to_int64_range, Z.mod_pos_bound. lia.
    + subst sum. rewrite to_int64_congr. apply Z.mod_mod. lia.
  - intros Hn Hcell.
    assert (Hlen : (col_ndx < length row)%nat)
      by (apply lookup_lt_is_Some; eauto).
    assert (Hlen1 : (col_ndx + 1 <? S (length row))%nat = true)
      by (apply Nat.ltb_lt; lia).
    eexists. split.
    + unfold Obj_add_int.
      run_M with (rewrite ?Ht, ?Hpre, ?Hrow, ?Hlen1, ?Hattr, ?Hn, ?Hcell).
      reflexivity.
    + done.
Qed.

Lemma add_int_wraparound_witness :
  (exists g' : Group,
      Obj_add_int (0%nat, 0) 0 1 ex_group = Ok tt g'
      /\ objects g' !! (0%nat, 0) =
           Some [CInt (-9223372036854775808); CIntNull None; CKey 10;
                 CLinkList [11] false; CString (Some [])]) /\
  (exists g' : Group,
      Obj_add_int (0%nat, 0) 1 7 ex_group = Throw illegal_combination g'
      /\ objects g' = objects ex_group).
Proof.
  split.
  - destruct (add_int_wraparound ex_group (0%nat, 0) 0%nat
                (mkTable person_spec false) (mkColumn col_type_Int 0 0 0)
                ex_person_row 1
                eq_refl ltac:(vm_compute; lia) eq_refl eq_refl eq_refl)
      as [H _].
    destruct (H 9223372036854775807 eq_refl eq_refl) as [Hrun _].
    eexists. split; [exact Hrun|]. vm_compute. reflexivity.
  - destruct (add_int_wraparound ex_group (0%nat, 0) 1%nat
                (mkTable person_spec false)
                (mkColumn col_type_Int col_attr_Nullable 0 0)
                ex_person_row 7
                eq_refl ltac:(vm_compute; lia) eq_refl eq_refl eq_refl)
      as [_ H].
    destruct (H eq_refl eq_refl) as (g' & Hrun & Hobj & _).
    exists g'. split; [exact Hrun | exact Hobj].
Defined.

(** ** The column index guard *)

(** Above the public column count the three accessors throw
    [column_index_out_of_range] and leave the group as it is. *)
Lemma column_index_above_count (g : Group) (o : ObjRef) (col_ndx : nat)
    (ti : TableInfo) (T : CppType) (value : Z) (is_default : bool) :
  tables g !! o.1 = Some ti ->
  (get_public_column_count (t_spec ti) < col_ndx)%nat ->
  ConstObj_get T o col_ndx g = Throw column_index_out_of_range g
  /\ Obj_add_int o col_ndx value g = Throw column_index_out_of_range g
  /\ Obj_set_null o col_ndx is_default g = Throw column_index_out_of_range g.
Proof.
  intros Ht Hlt. apply Nat.ltb_lt in Hlt.
  unfold ConstObj_get, Obj_add_int, Obj_set_null.
  repeat split; run_M with (rewrite ?Ht, ?Hlt); reflexivity.
Qed.


Lemma nt_bind {A B} e (m : M A) (f : A -> M B) :
  never_throws e m -> (forall a, never_throws e (f a)) ->
  never_throws e (bind m f).
Proof.
  intros Hm Hf g g'. unfold bind.
  destruct (m g) as [a g1| e1 g1|] eqn:Hmg; [apply Hf| |done].
  intros [= ? ?]. subst. by apply (Hm g g').
Qed.

Lemma nt_ret {A} e (a : A) : never_throws e (ret a).
Proof. by intros g g'. Qed.

Lemma nt_abort {A} e : never_throws e (@abort A).
Proof. by intros g g'. Qed.

Lemma nt_throw {A} e e' : e' <> e -> never_throws e (@throw A e').
Proof. intros Hne g g' [= ? ?]. done. Qed.

Lemma nt_state {A} e (m : M A) :
  (forall g, (exists a g', m g = Ok a g') \/ m g = Abort) -> never_throws e m.
Proof. intros H g g'. destruct (H g) as [(a & g1 & ->)| ->]; done. Qed.

Lemma nt_get_spec e t : never_throws e (get_spec t).
Proof. apply nt_state. intros g. unfold get_spec. destruct (_ !! _); eauto. Qed.

Lemma nt_get_row e x : never_throws e (get_row x).
Proof. apply nt_state. intros g. unfold get_row. destruct (_ !! _); eauto. Qed.

Lemma nt_put_row e x r : never_throws e (put_row x r).
Proof. apply nt_state. intros g. left. by do 2 eexists. Qed.

Lemma nt_bump e : never_throws e bump_content_version.
Proof. apply nt_state. intros g. left. by do 2 eexists. Qed.

Lemma nt_emit e i : never_throws e (emit i).
Proof. apply nt_state. intros g. left. by do 2 eexists. Qed.

(** Decompose a computation into its steps; the only [throw] left has to
    carry another error. *)
Ltac never_throws_tac :=
  repeat first
    [ apply nt_ret | apply nt_abort | apply nt_get_spec | apply nt_get_row
    | apply nt_put_row | apply nt_bump | apply nt_emit
    | apply nt_throw; discriminate
    | apply nt_bind; [|intros ?]
    | match goal with
      | |- never_throws _ (match ?x with _ => _ end) => destruct x
      end
    | progress unfold Obj_do_set_null, write_typed, read_leaf, write_leaf,
        realm_assert, unchecked ].

(** At the public column count itself the guard [col_ndx > count] lets the
    call through: whatever the three accessors do there, none of them throws
    [column_index_out_of_range]. *)
Lemma column_index_at_count_passes (g : Group) (o : ObjRef) (col_ndx : nat)
    (ti : TableInfo) (T : CppType) (value : Z) (is_default : bool) (g' : Group) :
  tables g !! o.1 = Some ti ->
  col_ndx = get_public_column_count (t_spec ti) ->
  ConstObj_get T o col_ndx g <> Throw column_index_out_of_range g'
  /\ Obj_add_int o col_ndx value g <> Throw column_index_out_of_range g'
  /\ Obj_set_null o col_ndx is_default g <> Throw column_index_out_of_range g'.
Proof.
  intros Ht ->.
  assert (Hpre : (get_public_column_count (t_spec ti)
                  <? get_public_column_count (t_spec ti))%nat = false)
    by apply Nat.ltb_irrefl.
  unfold ConstObj_get, Obj_add_int, Obj_set_null.
  rewrite !(bind_Ok _ _ _ _ _ (get_spec_Ok _ _ _ Ht)), Hpre.
  split_and!;
    match goal with |- ?m g <> _ => cut (never_throws column_index_out_of_range m) end;
    try (intros H; apply H); never_throws_tac.
Qed.

(** While [Obj::set<Key>], which tests [col_ndx >= count], rejects it. *)
Lemma set_Key_column_index_at_count (g : Group) (o : ObjRef) (col_ndx : nat)
    (ti : TableInfo) (key : Key) (is_default : bool) :
  tables g !! o.1 = Some ti ->
  (get_public_column_count (t_spec ti) <= col_ndx)%nat ->
  Obj_set_Key o col_ndx key is_default g = Throw column_index_out_of_range g.
Proof.
  intros Ht Hle. apply Nat.leb_le in Hle.
  unfold Obj_set_Key. run_M with (rewrite ?Ht, ?Hle). reflexivity.
Qed.

(** C4. The claim asks for [column_index_out_of_range] at every index at or
    above the public column count.  At the count itself the code does not
    throw it.  Table 0 has five public columns and no further column:
    [get<StringData>(5)] and [set_null(5)] read the spec outside its columns
    and [add_int(5, 7)] fails its field-count assertion.  Table 1 has two
    public columns followed by a backlink column: [set_null(2)] reports
    [column_not_nullable] for that backlink column. *)
Theorem column_index_guard_off_by_one :
  get_public_column_count person_spec = 5%nat
  /\ ConstObj_get ty_StringData (0%nat, 0) 5 ex_group = Abort
  /\ Obj_add_int (0%nat, 0) 5 7 ex_group = Abort
  /\ Obj_set_null (0%nat, 0) 5 false ex_group = Abort
  /\ get_public_column_count dog_spec = 2%nat
  /\ Obj_set_null (1%nat, 10) 2 false ex_group = Throw column_not_nullable ex_group
  /\ Obj_set_Key (0%nat, 0) 5 null_key false ex_group
     = Throw column_index_out_of_range ex_group.
Proof. repeat split; vm_compute; reflexivity. Qed.

(** ** Nullability *)




(** ** Setting a link to the key it already holds *)

(** C10. [Obj::set<Key>] called with the key the column already holds
    changes no row of any table (so neither the column nor any backlink
    column, and no object is removed) and emits no replication instruction.
    The call returns normally when the column index is public and the key
    is null or names an object of the target table, and throws before any
    write otherwise. *)
Theorem set_Key_same_key_is_noop (g : Group) (o : ObjRef) (col_ndx : nat)
    (ti tti : TableInfo) (col : ColumnSpec) (row : list Cell) (key : Key)
    (is_default : bool) :
  tables g !! o.1 = Some ti ->
  columns (t_spec ti) !! col_ndx = Some col ->
  tables g !! col_opposite_table col = Some tti ->
  objects g !! o = Some row ->
  row !! col_ndx = Some (CKey key) ->
  exists g' : Group,
    objects g' = objects g /\ tables g' = tables g
    /\ replication g' = replication g
    /\ (Obj_set_Key o col_ndx key is_default g = Ok tt g'
        \/ exists e, Obj_set_Key o col_ndx key is_default g = Throw e g')
    /\ ((col_ndx < get_public_column_count (t_spec ti))%nat ->
        key = null_key \/ valid_object g (col_opposite_table col, key) = true ->
        Obj_set_Key o col_ndx key is_default g = Ok tt g').
Proof.
  intros Ht Hcol Htt Hrow Hcell.
  assert (Hlen1 : (col_ndx + 1 <? S (length row))%nat = true).
  { apply Nat.ltb_lt.
    assert (col_ndx < length row)%nat by (apply lookup_lt_is_Some; eauto). lia. }
  assert (Hsame : negb (key =? key) = false) by by rewrite Z.eqb_refl.
  unfold Obj_set_Key.
  destruct (get_public_column_count (t_spec ti) <=? col_ndx)%nat eqn:Hpre.
  { exists g. repeat split; [right; eexists|].
    - run_M with (rewrite ?Ht, ?Hpre). reflexivity.
    - intros Hlt. apply Nat.leb_le in Hpre. lia. }
  destruct (negb (key =? null_key)
            && negb (valid_object g (col_opposite_table col, key))) eqn:Hv.
  { exists g. repeat split; [right; eexists|].
    - run_M with (rewrite ?Ht, ?Hpre, ?Hcol, ?Htt, ?Hv). reflexivity.
    - intros _ [->|Hval]; [by rewrite Z.eqb_refl in Hv|].
      rewrite Hval, andb_false_r in Hv. discriminate. }
  exists (mkGroup (tables g) (objects g) (content_version g + 1)%N
                  (replication g)).
  split_and!; [done|done|done|left|intros _ _];
    run_M with (rewrite ?Ht, ?Hpre, ?Hcol, ?Htt, ?Hv, ?Hrow, ?Hlen1,
                  ?Hcell, ?Hsame); reflexivity.
Qed.

Lemma set_Key_same_key_is_noop_witness :
  exists g' : Group,
    objects g' = objects ex_group /\ replication g' = replication ex_group
    /\ Obj_set_Key (0%nat, 0) 2 10 false ex_group = Ok tt g'.
Proof.
  destruct (set_Key_same_key_is_noop ex_group (0%nat, 0) 2%nat
              (mkTable person_spec false) (mkTable dog_spec true)
              (mkColumn col_type_Link col_attr_StrongLinks 1 0)
              ex_person_row 10 false
              eq_refl eq_refl eq_refl eq_refl eq_refl)
    as (g' & Hobj & _ & Hrepl & _ & Hok).
  exists g'. split_and!; [exact Hobj | exact Hrepl |].
  apply Hok; [vm_compute; lia | right; reflexivity].
Defined.

(** ** ArrayBinary: the offsets and the blob *)

Section ArrayBinaryFacts.
Import ArrayBinary.

Implicit Types (elems : list (list Byte.byte)) (base : Z).

Local Abbreviation size_of elems := (Z.of_nat (length (concat elems))).

Lemma wrap_small z : - 2 ^ 63 <= z < 2 ^ 63 -> to_int64 (to_uint64 z) = z.
Proof.
  intros H. unfold to_int64, to_uint64.
  destruct (Z_le_gt_dec 0 z).
  - rewrite Z.mod_small by lia. destruct (Z.ltb_spec z (2 ^ 63)); lia.
  - replace (z mod 2 ^ 64) with (z + 2 ^ 64).
    + destruct (Z.ltb_spec (z + 2 ^ 64) (2 ^ 63)); lia.
    + symmetry. rewrite <- (Z_mod_plus_full z 1 (2 ^ 64)).
      rewrite Z.mul_1_l. apply Z.mod_small. lia.
Qed.

Lemma to_uint64_small z : 0 <= z < 2 ^ 64 -> to_uint64 z = z.
Proof. intros H. unfold to_uint64. by apply Z.mod_small. Qed.

Lemma to_int64_small z : 0 <= z < 2 ^ 63 -> to_int64 z = z.
Proof. intros H. unfold to_int64. destruct (Z.ltb_spec z (2 ^ 63)); lia. Qed.

Lemma offsets_from_length base elems :
  length (offsets_from base elems) = length elems.
Proof. revert base. induction elems; intros; simpl; auto. Qed.

Lemma offsets_from_app base l1 l2 :
  offsets_from base (l1 ++ l2)
  = offsets_from base l1 ++ offsets_from (base + size_of l1) l2.
Proof.
  revert base. induction l1 as [|e l1 IH]; intros base; simpl.
  - by rewrite Z.add_0_r.
  - rewrite IH. do 3 f_equal. rewrite length_app. lia.
Qed.

Lemma offsets_from_shift base d elems :
  map (fun v => v + d) (offsets_from base elems) = offsets_from (base + d) elems.
Proof.
  revert base. induction elems as [|e r IH]; intros base; simpl; [done|].
  rewrite IH. f_equal; [lia|]. f_equal. lia.
Qed.

Lemma offsets_from_bounds base elems x :
  x ∈ offsets_from base elems -> base <= x <= base + size_of elems.
Proof.
  revert base. induction elems as [|e r IH]; intros base; simpl.
  - intros H. by apply elem_of_nil in H.
  - rewrite length_app. intros [->|H]%elem_of_cons; [lia|].
    apply IH in H. lia.
Qed.

Lemma offsets_from_lookup base elems i :
  (i < length elems)%nat ->
  offsets_from base elems !! i = Some (base + size_of (take (S i) elems)).
Proof.
  revert base i. induction elems as [|e r IH]; intros base i Hi; simpl in *; [lia|].
  destruct i as [|i]; simpl.
  - rewrite ?take_0. simpl. by rewrite ?app_nil_r.
  - rewrite IH by lia. f_equal. rewrite !length_app. simpl. lia.
Qed.

Lemma offsets_from_take base elems n :
  take n (offsets_from base elems) = offsets_from base (take n elems).
Proof.
  revert base n. induction elems as [|e r IH]; intros base [|n]; simpl; auto.
  by rewrite IH.
Qed.

Lemma offsets_from_drop base elems n :
  drop n (offsets_from base elems)
  = offsets_from (base + size_of (take n elems)) (drop n elems).
Proof.
  revert base n. induction elems as [|e r IH]; intros base [|n]; simpl.
  - done.
  - done.
  - by rewrite Z.add_0_r.
  - rewrite IH. f_equal. rewrite length_app. lia.
Qed.

Lemma last_cons_default {A} (x : A) (l : list A) (d : A) :
  List.last (x :: l) d = List.last l x.
Proof.
  revert x d. induction l as [|y l IH]; intros x d; [done|].
  change (List.last (x :: y :: l) d) with (List.last (y :: l) d).
  by rewrite !IH.
Qed.

Lemma offsets_from_last base elems :
  List.last (offsets_from base elems) base = base + size_of elems.
Proof.
  revert base. induction elems as [|e r IH]; intros base.
  - simpl. lia.
  - change (offsets_from base (e :: r))
      with ((base + Z.of_nat (length e))
              :: offsets_from (base + Z.of_nat (length e)) r).
    rewrite last_cons_default, IH. simpl. rewrite length_app. lia.
Qed.

Lemma concat_take_drop elems n :
  concat elems = concat (take n elems) ++ concat (drop n elems).
Proof. by rewrite <- concat_app, take_drop. Qed.

Lemma size_take_le elems n : size_of (take n elems) <= size_of elems.
Proof.
  pose proof (f_equal length (concat_take_drop elems n)) as H.
  rewrite length_app in H. lia.
Qed.

Lemma take_size_concat elems n :
  take (Z.to_nat (size_of (take n elems))) (concat elems) = concat (take n elems).
Proof.
  rewrite Nat2Z.id. rewrite (concat_take_drop elems n) at 1.
  by rewrite take_app_length.
Qed.

Lemma drop_size_concat elems n :
  drop (Z.to_nat (size_of (take n elems))) (concat elems) = concat (drop n elems).
Proof.
  rewrite Nat2Z.id. rewrite (concat_take_drop elems n) at 1.
  by rewrite drop_app_length.
Qed.

Lemma ascending_offsets_from base elems :
  ascending_from base (offsets_from base elems).
Proof.
  revert base. induction elems as [|e r IH]; intros base; simpl; [done|].
  split; [lia|apply IH].
Qed.

Lemma wf_encode elems : size_of elems < 2 ^ 63 -> wf (encode elems).
Proof.
  intros H. unfold wf, encode. simpl. split_and!; [|by rewrite offsets_from_last|done].
  apply ascending_offsets_from.
Qed.

Lemma ascending_last base offsets :
  ascending_from base offsets -> base <= List.last offsets base.
Proof.
  revert base. induction offsets as [|x r IH]; intros base; simpl; [lia|].
  intros [Hx Hr]. apply IH in Hr.
  change (base <= List.last (x :: r) base). rewrite last_cons_default. lia.
Qed.

Lemma split_blob_spec base offsets blob :
  ascending_from base offsets ->
  Z.of_nat (length blob) = List.last offsets base - base ->
  offsets_from base (split_blob base offsets blob) = offsets
  /\ concat (split_blob base offsets blob) = blob.
Proof.
  revert base blob. induction offsets as [|x r IH]; intros base blob Hasc Hlen.
  - simpl in *. split; [done|]. destruct blob; [done|simpl in Hlen; lia].
  - destruct Hasc as [Hx Hr].
    rewrite last_cons_default in Hlen.
    pose proof (ascending_last _ _ Hr) as Hlast.
    destruct (IH x (drop (Z.to_nat (x - base)) blob) Hr) as [Ho Hc].
    { rewrite length_drop. lia. }
    assert (Hl : Z.of_nat (length (take (Z.to_nat (x - base)) blob)) = x - base)
      by (rewrite length_take; lia).
    simpl. rewrite Hl. replace (base + (x - base)) with x by lia.
    by rewrite Ho, Hc, take_drop.
Qed.

(** A well-formed array is the encoding of the elements it stores. *)
Lemma encode_decode ab : wf ab -> encode (decode ab) = ab.
Proof.
  intros (Hasc & Hlast & _). destruct ab as [o b]. simpl in *.
  destruct (split_blob_spec 0 o b Hasc) as [Ho Hc]; [lia|].
  unfold encode, decode. simpl. by rewrite Ho, Hc.
Qed.

Lemma decode_length ab : length (decode ab) = Size ab.
Proof.
  unfold decode, Size. generalize 0 (m_blob ab).
  induction (m_offsets ab); intros; simpl; auto.
Qed.

Lemma decode_size ab : wf ab -> size_of (decode ab) = Z.of_nat (length (m_blob ab)).
Proof.
  intros H. pose proof (encode_decode ab H) as He.
  apply (f_equal m_blob) in He. simpl in He. by rewrite He.
Qed.

Lemma start_of_encode elems ndx :
  (ndx <= length elems)%nat -> size_of elems < 2 ^ 63 ->
  start_of (encode elems) ndx = Some (size_of (take ndx elems)).
Proof.
  intros Hn Hs. destruct ndx as [|n]; simpl; [done|].
  unfold Array_GetAsRef. rewrite offsets_from_lookup by lia. simpl.
  rewrite to_uint64_small; [done|].
  pose proof (size_take_le elems (S n)). lia.
Qed.

Lemma end_of_encode elems ndx :
  (ndx < length elems)%nat -> size_of elems < 2 ^ 63 ->
  Array_GetAsRef (m_offsets (encode elems)) ndx
  = Some (size_of (take (S ndx) elems)).
Proof.
  intros Hn Hs. unfold Array_GetAsRef. simpl.
  rewrite offsets_from_lookup by lia. simpl.
  rewrite to_uint64_small; [done|].
  pose proof (size_take_le elems (S ndx)). lia.
Qed.

Lemma size_take_S elems ndx e :
  elems !! ndx = Some e ->
  size_of (take (S ndx) elems) = size_of (take ndx elems) + Z.of_nat (length e).
Proof.
  intros H. rewrite (take_S_r _ _ _ H), concat_app, length_app. simpl.
  rewrite app_nil_r. lia.
Qed.

Lemma GetLen_encode elems ndx e :
  elems !! ndx = Some e -> size_of elems < 2 ^ 63 ->
  GetLen (encode elems) ndx = Some (Z.of_nat (length e)).
Proof.
  intros He Hs. pose proof (lookup_lt_Some _ _ _ He) as Hlt.
  unfold GetLen. simpl m_offsets at 1. rewrite offsets_from_length.
  replace (ndx <? length elems)%nat with true by (symmetry; by apply Nat.ltb_lt).
  rewrite start_of_encode, end_of_encode by (done || lia). simpl.
  rewrite (size_take_S _ _ _ He). f_equal.
  pose proof (size_take_le elems (S ndx)) as Hle.
  rewrite (size_take_S _ _ _ He) in Hle.
  replace (size_of (take ndx elems) + Z.of_nat (length e)
           - size_of (take ndx elems)) with (Z.of_nat (length e)) by lia.
  apply Z.mod_small. lia.
Qed.

Lemma element_encode elems ndx e :
  elems !! ndx = Some e -> size_of elems < 2 ^ 63 ->
  element (encode elems) ndx = Some e.
Proof.
  intros He Hs. pose proof (lookup_lt_Some _ _ _ He) as Hlt.
  unfold element. rewrite (GetLen_encode _ _ _ He Hs).
  unfold Get. simpl m_offsets at 1. rewrite offsets_from_length.
  replace (ndx <? length elems)%nat with true by (symmetry; by apply Nat.ltb_lt).
  rewrite start_of_encode by (done || lia). simpl.
  unfold Blob_Get. rewrite drop_size_concat, Nat2Z.id.
  rewrite (drop_S _ _ _ He). simpl. by rewrite take_app_length.
Qed.

Lemma Insert_encode elems ndx (v : list Byte.byte) :
  (ndx <= length elems)%nat ->
  size_of elems + Z.of_nat (length v) < 2 ^ 63 ->
  Insert (encode elems) ndx (Some v) (Z.of_nat (length v))
  = Some (encode (take ndx elems ++ v :: drop ndx elems)).
Proof.
  intros Hn Hs. unfold Insert. simpl m_offsets. rewrite offsets_from_length.
  replace (ndx <=? length elems)%nat with true by (symmetry; by apply Nat.leb_le).
  replace (bool_decide (is_Some (Some v))) with true
    by (symmetry; apply bool_decide_eq_true; eauto).
  rewrite orb_true_r, start_of_encode by (done || lia). simpl.
  pose proof (size_take_le elems ndx) as Hle.
  set (p := size_of (take ndx elems)) in *.
  unfold Blob_Insert.
  replace (p <=? size_of elems) with true by (symmetry; apply Z.leb_le; lia).
  rewrite Z.leb_refl. simpl.
  unfold Array_Insert. rewrite offsets_from_length.
  replace (ndx <=? length elems)%nat with true by (symmetry; by apply Nat.leb_le).
  simpl. f_equal. unfold encode. f_equal.
  - unfold Array_Adjust.
    assert (Hlt : length (take ndx (offsets_from 0 elems)) = ndx)
      by (rewrite length_take, offsets_from_length; lia).
    replace (ndx + 1)%nat with (length (take ndx (offsets_from 0 elems)) + 1)%nat
      by lia.
    rewrite take_app_add', drop_app_add' by done. simpl. rewrite take_0, drop_0.
    rewrite Z.mod_small by lia. rewrite to_int64_small by lia.
    rewrite offsets_from_app, offsets_from_take, offsets_from_drop.
    rewrite <- app_assoc. simpl. fold p. f_equal. f_equal.
    rewrite Z.add_0_l.
    rewrite <- offsets_from_shift. apply map_ext_in. intros x Hx.
    apply list_elem_of_In, offsets_from_bounds in Hx.
    pose proof (f_equal length (concat_take_drop elems ndx)) as Hsplit.
    rewrite length_app in Hsplit.
    rewrite (to_int64_small (Z.of_nat (length v))) by lia.
    apply wrap_small. lia.
  - subst p. rewrite take_size_concat, drop_size_concat, Nat2Z.id, firstn_all.
    by rewrite concat_app.
Qed.

Lemma Delete_encode elems ndx :
  (ndx < length elems)%nat -> size_of elems < 2 ^ 63 ->
  Delete (encode elems) ndx = Some (encode (delete ndx elems)).
Proof.
  intros Hn Hs. destruct (lookup_lt_is_Some_2 elems ndx Hn) as [e He].
  unfold Delete. simpl m_offsets at 1. rewrite offsets_from_length.
  replace (ndx <? length elems)%nat with true by (symmetry; by apply Nat.ltb_lt).
  rewrite start_of_encode, end_of_encode by (done || lia). simpl.
  pose proof (size_take_le elems (S ndx)) as Hle.
  rewrite (size_take_S _ _ _ He) in *.
  set (p := size_of (take ndx elems)) in *.
  unfold Blob_Delete.
  replace (p <=? p + Z.of_nat (length e)) with true by (symmetry; apply Z.leb_le; lia).
  replace (p + Z.of_nat (length e) <=? size_of elems) with true
    by (symmetry; apply Z.leb_le; lia).
  simpl. unfold Array_Delete. rewrite offsets_from_length.
  replace (ndx <? length elems)%nat with true by (symmetry; by apply Nat.ltb_lt).
  simpl. f_equal. unfold encode.
  rewrite (delete_take_drop elems ndx). f_equal.
  - unfold Array_Adjust. rewrite delete_take_drop.
    assert (Hlt : length (take ndx (offsets_from 0 elems)) = ndx)
      by (rewrite length_take, offsets_from_length; lia).
    rewrite take_app_length' by done. rewrite drop_app_length' by done.
    rewrite offsets_from_app, offsets_from_take. f_equal.
    rewrite offsets_from_drop, (size_take_S _ _ _ He). fold p.
    rewrite Z.add_0_l.
    replace ((p - (p + Z.of_nat (length e))) mod 2 ^ 64)
      with (to_uint64 (- Z.of_nat (length e))) by (unfold to_uint64; f_equal; lia).
    rewrite wrap_small by lia.
    transitivity (map (fun v => v + - Z.of_nat (length e))
                    (offsets_from (p + Z.of_nat (length e)) (drop (S ndx) elems))).
    + apply map_ext_in. intros x Hx.
      apply list_elem_of_In, offsets_from_bounds in Hx.
      pose proof (f_equal length (concat_take_drop elems (S ndx))) as Hsplit.
      rewrite length_app, (take_S_r _ _ _ He), concat_app, length_app in Hsplit.
      simpl in Hsplit. rewrite app_nil_r in Hsplit.
      apply wrap_small. lia.
    + rewrite offsets_from_shift. f_equal. lia.
  - replace (Z.to_nat p) with (length (concat (take ndx elems))) by (subst p; lia).
    replace (Z.to_nat (p + Z.of_nat (length e)))
      with (length (concat (take (S ndx) elems))).
    + rewrite concat_app.
      rewrite (concat_take_drop elems ndx) at 1. rewrite take_app_length.
      rewrite (concat_take_drop elems (S ndx)) at 1. by rewrite drop_app_length.
    + rewrite (take_S_r _ _ _ He), concat_app, length_app. simpl.
      rewrite app_nil_r. subst p. lia.
Qed.

Lemma element_encode_lookup elems i :
  (i < length elems)%nat -> size_of elems < 2 ^ 63 ->
  element (encode elems) i = elems !! i
  /\ GetLen (encode elems) i = (fun e => Z.of_nat (length e)) <$> elems !! i
  /\ m_offsets (encode elems) !! i = Some (size_of (take (S i) elems)).
Proof.
  intros Hi Hs. destruct (lookup_lt_is_Some_2 elems i Hi) as [e He].
  rewrite He, (element_encode _ _ _ He Hs), (GetLen_encode _ _ _ He Hs).
  simpl. by rewrite offsets_from_lookup.
Qed.

Lemma size_app (l1 l2 : list (list Byte.byte)) :
  size_of (l1 ++ l2) = size_of l1 + size_of l2.
Proof. rewrite concat_app, length_app. lia. Qed.

Lemma size_cons (e : list Byte.byte) (l : list (list Byte.byte)) :
  size_of (e :: l) = Z.of_nat (length e) + size_of l.
Proof. simpl. rewrite length_app. lia. Qed.

Lemma take_split {A} (l : list A) (n m : nat) :
  (n <= m)%nat -> take m l = take n l ++ take (m - n) (drop n l).
Proof.
  intros H. rewrite <- (take_drop n l) at 1.
  destruct (decide (n <= length l)%nat).
  - rewrite take_app_ge by (rewrite length_take; lia).
    rewrite length_take. do 2 f_equal. lia.
  - rewrite take_drop, !(take_ge l), drop_ge, take_nil, app_nil_r by lia.
    done.
Qed.

End ArrayBinaryFacts.

(** C7. On a well-formed [ArrayBinary] and for [ndx <= Size()],
    [Insert(ndx, value, len)] grows the array by one element, element [ndx]
    is then the inserted bytes with length [len], every other element keeps
    its bytes and length (those from [ndx] on one position later), the
    offsets before [ndx] are unchanged and every later offset is the old one
    plus exactly [len].  [Delete(ndx)] undoes the insertion, and on any
    well-formed array it lowers the offsets after [ndx] by the length of the
    removed element and keeps the other elements. *)
Theorem ArrayBinary_Insert_Delete_layout (ab : ArrayBinary.t) (ndx : nat)
    (value : list Byte.byte) (len : Z) :
  ArrayBinary.wf ab ->
  (ndx <= ArrayBinary.Size ab)%nat ->
  len = Z.of_nat (length value) ->
  Z.of_nat (length (ArrayBinary.m_blob ab)) + len < 2 ^ 63 ->
  (exists ab' : ArrayBinary.t,
      ArrayBinary.Insert ab ndx (Some value) len = Some ab'
      /\ ArrayBinary.wf ab'
      /\ ArrayBinary.Size ab' = S (ArrayBinary.Size ab)
      /\ ArrayBinary.element ab' ndx = Some value
      /\ ArrayBinary.GetLen ab' ndx = Some len
      /\ (forall i, (i < ndx)%nat ->
            ArrayBinary.element ab' i = ArrayBinary.element ab i
            /\ ArrayBinary.GetLen ab' i = ArrayBinary.GetLen ab i
            /\ ArrayBinary.m_offsets ab' !! i = ArrayBinary.m_offsets ab !! i)
      /\ (forall i, (ndx <= i < ArrayBinary.Size ab)%nat ->
            ArrayBinary.element ab' (S i) = ArrayBinary.element ab i
            /\ ArrayBinary.GetLen ab' (S i) = ArrayBinary.GetLen ab i
            /\ ArrayBinary.m_offsets ab' !! S i
               = (fun off => off + len) <$> ArrayBinary.m_offsets ab !! i)
      /\ ArrayBinary.Delete ab' ndx = Some ab)
  /\ (forall (k : nat) (removed : Z),
        (k < ArrayBinary.Size ab)%nat ->
        ArrayBinary.GetLen ab k = Some removed ->
        exists ab2 : ArrayBinary.t,
          ArrayBinary.Delete ab k = Some ab2
          /\ ArrayBinary.wf ab2
          /\ S (ArrayBinary.Size ab2) = ArrayBinary.Size ab
          /\ (forall i, (i < k)%nat ->
                ArrayBinary.element ab2 i = ArrayBinary.element ab i
                /\ ArrayBinary.m_offsets ab2 !! i = ArrayBinary.m_offsets ab !! i)
          /\ (forall i, (k <= i)%nat -> (S i < ArrayBinary.Size ab)%nat ->
                ArrayBinary.element ab2 i = ArrayBinary.element ab (S i)
                /\ ArrayBinary.m_offsets ab2 !! i
                   = (fun off => off - removed) <$> ArrayBinary.m_offsets ab !! S i)).
Proof.
  intros Hwf Hn -> Hs.
  pose proof (encode_decode ab Hwf) as Hab.
  pose proof (decode_length ab) as Hlen.
  pose proof (decode_size ab Hwf) as Hsize.
  set (elems := ArrayBinary.decode ab) in *. clearbody elems.
  rewrite <- Hsize in Hs. clear Hsize Hwf Hlen. subst ab.
  assert (HS : ArrayBinary.Size (ArrayBinary.encode elems) = length elems)
    by (unfold ArrayBinary.Size; simpl; apply offsets_from_length).
  rewrite HS in *. clear HS.
  assert (Hs0 : Z.of_nat (length (concat elems)) < 2 ^ 63) by lia.
  split.
  - set (elems' := take ndx elems ++ value :: drop ndx elems).
    assert (Hsz' : Z.of_nat (length (concat elems'))
                   = Z.of_nat (length (concat elems)) + Z.of_nat (length value)).
    { subst elems'. rewrite size_app, size_cons.
      pose proof (f_equal length (concat_take_drop elems ndx)) as Hsp.
      rewrite length_app in Hsp. lia. }
    assert (Hlen' : length elems' = S (length elems)).
    { subst elems'. rewrite length_app, length_take. simpl. rewrite length_drop. lia. }
    assert (Hat : elems' !! ndx = Some value).
    { subst elems'. rewrite lookup_app_r by (rewrite length_take; lia).
      rewrite length_take.
      by replace (ndx - ndx `min` length elems)%nat with 0%nat by lia. }
    exists (ArrayBinary.encode elems'). split_and!.
    + by apply Insert_encode.
    + apply wf_encode. lia.
    + unfold ArrayBinary.Size. simpl. by rewrite !offsets_from_length.
    + apply element_encode; [done|lia].
    + apply GetLen_encode; [done|lia].
    + intros i Hi.
      destruct (element_encode_lookup elems' i) as (E1 & E2 & E3); [lia|lia|].
      destruct (element_encode_lookup elems i) as (F1 & F2 & F3); [lia|lia|].
      rewrite E1, E2, E3, F1, F2, F3.
      assert (Hl : elems' !! i = elems !! i).
      { subst elems'. rewrite lookup_app_l by (rewrite length_take; lia).
        apply lookup_take_lt. lia. }
      rewrite Hl. split_and!; [done|done|]. do 3 f_equal. subst elems'.
      rewrite take_app_le by (rewrite length_take; lia).
      rewrite take_take. by replace (S i `min` ndx)%nat with (S i) by lia.
    + intros i Hi.
      destruct (element_encode_lookup elems' (S i)) as (E1 & E2 & E3); [lia|lia|].
      destruct (element_encode_lookup elems i) as (F1 & F2 & F3); [lia|lia|].
      rewrite E1, E2, E3, F1, F2, F3.
      assert (Hl : elems' !! S i = elems !! i).
      { subst elems'. rewrite lookup_app_r by (rewrite length_take; lia).
        rewrite length_take.
        replace (S i - ndx `min` length elems)%nat with (S (i - ndx)) by lia.
        simpl. rewrite lookup_drop. f_equal. lia. }
      rewrite Hl. split_and!; [done|done|]. simpl. f_equal. subst elems'.
      rewrite take_app_ge by (rewrite length_take; lia).
      rewrite length_take.
      replace (S (S i) - ndx `min` length elems)%nat with (S (S i - ndx)) by lia.
      rewrite (take_split elems ndx (S i)) by lia.
      simpl. rewrite !size_app, size_cons. lia.
    + rewrite Delete_encode by lia. do 2 f_equal. subst elems'.
      rewrite delete_take_drop.
      assert (Hlt : length (take ndx elems) = ndx) by (rewrite length_take; lia).
      rewrite take_app_length' by done.
      replace (S ndx) with (length (take ndx elems) + 1)%nat by lia.
      rewrite drop_app_add' by done. simpl. rewrite drop_0. apply take_drop.
  - intros k removed Hk Hrem.
    destruct (lookup_lt_is_Some_2 elems k Hk) as [e He].
    rewrite (GetLen_encode _ _ _ He Hs0) in Hrem. injection Hrem as <-.
    set (elems2 := delete k elems).
    assert (Hlen2 : S (length elems2) = length elems).
    { subst elems2. rewrite length_delete by eauto. lia. }
    assert (Hsz2 : Z.of_nat (length (concat elems2)) + Z.of_nat (length e)
                   = Z.of_nat (length (concat elems))).
    { subst elems2. rewrite delete_take_drop, size_app.
      pose proof (f_equal length (concat_take_drop elems k)) as Hsp.
      rewrite length_app, (drop_S _ _ _ He) in Hsp. simpl in Hsp.
      rewrite length_app in Hsp. lia. }
    exists (ArrayBinary.encode elems2). split_and!.
    + by apply Delete_encode.
    + apply wf_encode. lia.
    + unfold ArrayBinary.Size. simpl. rewrite offsets_from_length. lia.
    + intros i Hi.
      destruct (element_encode_lookup elems2 i) as (E1 & _ & E3); [lia|lia|].
      destruct (element_encode_lookup elems i) as (F1 & _ & F3); [lia|lia|].
      rewrite E1, E3, F1, F3.
      subst elems2. rewrite list_lookup_delete_lt by done. split; [done|].
      do 3 f_equal. rewrite delete_take_drop.
      rewrite take_app_le by (rewrite length_take; lia).
      rewrite take_take. by replace (S i `min` k)%nat with (S i) by lia.
    + intros i Hi Hi2.
      destruct (element_encode_lookup elems2 i) as (E1 & _ & E3); [lia|lia|].
      destruct (element_encode_lookup elems (S i)) as (F1 & _ & F3); [lia|lia|].
      rewrite E1, E3, F1, F3.
      subst elems2. rewrite list_lookup_delete_ge by done. split; [done|].
      simpl. f_equal. rewrite delete_take_drop.
      rewrite take_app_ge by (rewrite length_take; lia).
      rewrite length_take.
      rewrite (take_split elems k (S (S i))) by lia.
      replace (S (S i) - k)%nat with (S (S i - k)) by lia.
      rewrite (drop_S _ _ _ He). simpl.
      replace (S i - k `min` length elems)%nat with (S i - k)%nat by lia.
      rewrite !size_app, size_cons. lia.
Qed.

Lemma ArrayBinary_Insert_Delete_layout_witness :
  exists ab' : ArrayBinary.t,
    ArrayBinary.Insert ArrayBinary.ex_array 1 (Some [Byte.x7a; Byte.x7a]) 2 = Some ab'
    /\ ArrayBinary.m_offsets ab' = [2; 4; 4; 7]
    /\ ArrayBinary.element ab' 1 = Some [Byte.x7a; Byte.x7a]
    /\ ArrayBinary.Delete ab' 1 = Some ArrayBinary.ex_array.
Proof.
  destruct (ArrayBinary_Insert_Delete_layout ArrayBinary.ex_array 1
              [Byte.x7a; Byte.x7a] 2) as [(ab' & Hins & _ & _ & Hel & _ & _ & _ & Hdel) _].
  - repeat split; vm_compute; first [reflexivity | discriminate].
  - vm_compute. lia.
  - reflexivity.
  - vm_compute. reflexivity.
  - exists ab'. split_and!; try done.
    vm_compute in Hins. injection Hins as <-. reflexivity.
Defined.

(** ** Sorting a list *)

Section InsertionSort.
Import ListSort.

Variable comp : nat -> nat -> bool.

Ltac in_list := rewrite ?elem_of_cons in *; intuition auto.

Lemma insert_by_perm x l : Permutation (insert_by comp x l) (x :: l).
Proof.
  induction l as [|y r IH]; simpl; [done|].
  destruct (comp x y); [done|].
  rewrite IH. apply perm_swap.
Qed.

Lemma insertion_sort_perm l : Permutation (insertion_sort comp l) l.
Proof.
  induction l as [|x l IH]; simpl; [done|].
  rewrite insert_by_perm. by constructor.
Qed.

Lemma sorted_rec_by l : sorted_rec comp l -> sorted_by comp l.
Proof.
  induction l as [|a l IH]; intros Hs i j x y Hij Hi Hj.
  - by rewrite lookup_nil in Hi.
  - destruct Hs as [Ha Hs]. destruct j as [|j]; [lia|].
    destruct i as [|i]; simpl in *.
    + injection Hi as <-. rewrite Forall_forall in Ha.
      apply Ha. by eapply list_elem_of_lookup_2.
    + eapply (IH Hs i j); eauto. lia.
Qed.

Lemma insert_by_sorted x l :
  strict_weak_on comp (x :: l) -> sorted_rec comp l ->
  sorted_rec comp (insert_by comp x l).
Proof.
  intros (Hirr & Htr & Hneg). induction l as [|y r IH]; intros Hs; simpl.
  - done.
  - destruct Hs as [Hy Hs]. destruct (comp x y) eqn:Hxy; simpl.
    + split; [|done]. constructor.
      * destruct (comp y x) eqn:Hyx; [|done].
        rewrite <- (Hirr x); [|in_list]. symmetry.
        apply (Htr x y x); in_list.
      * rewrite Forall_forall in Hy |- *. intros z Hz.
        destruct (comp z x) eqn:Hzx; [|done].
        rewrite <- (Hy z Hz). symmetry. apply (Htr z x y); in_list.
    + split.
      * rewrite Forall_forall in Hy |- *. intros z Hz.
        rewrite (insert_by_perm x r) in Hz.
        apply elem_of_cons in Hz as [->|Hz]; [done|by apply Hy].
      * apply IH; [| | |done].
        -- intros z Hz. apply Hirr. in_list.
        -- intros a b c Ha Hb Hc. apply (Htr a b c); in_list.
        -- intros a b c Ha Hb Hc. apply (Hneg a b c); in_list.
Qed.

Lemma insertion_sort_sorted l :
  strict_weak_on comp l -> sorted_rec comp (insertion_sort comp l).
Proof.
  induction l as [|x l IH]; intros Hsw; simpl; [done|].
  destruct Hsw as (Hirr & Htr & Hneg).
  apply insert_by_sorted.
  - split_and!.
    + intros z Hz. apply Hirr. rewrite insertion_sort_perm in Hz. done.
    + intros a b c Ha Hb Hc. rewrite insertion_sort_perm in Ha, Hb, Hc.
      by apply Htr.
    + intros a b c Ha Hb Hc. rewrite insertion_sort_perm in Ha, Hb, Hc.
      by apply Hneg.
  - apply IH. split_and!.
    + intros z Hz. apply Hirr. in_list.
    + intros a b c Ha Hb Hc. apply (Htr a b c); in_list.
    + intros a b c Ha Hb Hc. apply (Hneg a b c); in_list.
Qed.

End InsertionSort.

(** The insertion sort meets the contract of [std::sort]. *)
Lemma insertion_sort_contract : ListSort.sort_contract ListSort.insertion_sort.
Proof.
  intros comp l Hsw. split.
  - apply insertion_sort_perm.
  - apply sorted_rec_by. by apply insertion_sort_sorted.
Qed.

Section SortSpec.

Context {T : Type}.
Variables (lt gt : T -> T -> bool) (unresolved_to_null : T -> T)
          (is_null : T -> bool).
Variable std_sort : (nat -> nat -> bool) -> list nat -> list nat.

(** [operator<] of [T] is a strict weak ordering ... *)
Hypothesis lt_irrefl : forall a, lt a a = false.
Hypothesis lt_trans :
  forall a b c, lt a b = true -> lt b c = true -> lt a c = true.
Hypothesis lt_neg_trans :
  forall a b c, lt a c = true -> lt a b = true \/ lt b c = true.
(** ... in which null is below every non-null value ... *)
Hypothesis null_lowest :
  forall a b, is_null (unresolved_to_null a) = true ->
              is_null (unresolved_to_null b) = false ->
              lt (unresolved_to_null a) (unresolved_to_null b) = true.
(** ... and [std::sort] keeps its contract. *)
Hypothesis std_sort_ok : ListSort.sort_contract std_sort.

Lemma tree_less_strict_weak (tree : list T) :
  ListSort.strict_weak_on (ListSort.tree_less lt unresolved_to_null tree)
                          (seq 0 (length tree)).
Proof.
  unfold ListSort.strict_weak_on, ListSort.tree_less. split_and!.
  - intros x Hx. destruct (tree !! x); [apply lt_irrefl|done].
  - intros x y z _ _ _.
    destruct (tree !! x), (tree !! y), (tree !! z); try done. apply lt_trans.
  - intros x y z _ Hy _. apply elem_of_seq in Hy.
    destruct (lookup_lt_is_Some_2 tree y) as [b ->]; [lia|].
    destruct (tree !! x), (tree !! z); try done. apply lt_neg_trans.
Qed.

End SortSpec.

Lemma ObjKey_unresolved_to_null_range k :
  -1 <= ListSort.ObjKey_unresolved_to_null k.
Proof.
  unfold ListSort.ObjKey_unresolved_to_null, is_unresolved, null_key.
  destruct (Z.leb_spec k (-2)); lia.
Qed.

(** ** Migration failures *)

Lemma runs_callback_not_rejected (mode : Migration.SchemaMode) :
  Migration.runs_callback mode = true -> Migration.callback_rejected mode = false.
Proof. by destruct mode. Qed.

(** C3. When the migration callback throws during [open_shared_realm],
    the open throws exactly the value the callback threw and the committed
    file is the pre-migration file: no staged schema or data change is
    visible.  A second open with the same configuration therefore runs the
    migration again, on the same old and staged realms, and succeeds with
    the migrated file once the callback returns. *)
Theorem migration_failure_rolls_back {S : Type} (config : Migration.Config S)
    (file : Migration.File) (desired : Migration.Schema) (v : N)
    (f : Migration.MigrationFunction S) (cb_state cb_state1 : S)
    (what : string) :
  Migration.schema config = Some desired ->
  Migration.schema_version config = Some v ->
  Migration.migration_function config = Some f ->
  Migration.runs_callback (Migration.schema_mode config) = true ->
  Migration.version_lt (Migration.f_schema_version file) (Some v) = true ->
  forallb (Migration.change_allowed (Migration.schema_mode config))
          (Migration.schema_changes (Migration.f_tables file) desired) = true ->
  f cb_state file (Migration.apply_schema file desired) = (cb_state1, inl what) ->
  let first := Migration.open_shared_realm config file cb_state in
  first = (Migration.Threw (Migration.MigrationException what), file, cb_state1)
  /\ forall (cb_state2 : S) (new_realm : Migration.File),
       f first.2 first.1.2 (Migration.apply_schema first.1.2 desired)
         = (cb_state2, inr new_realm) ->
       let migrated := Migration.mkFile (Migration.f_tables new_realm) (Some v) in
       Migration.open_shared_realm config first.1.2 first.2
         = (Migration.Opened migrated, migrated, cb_state2).
Proof.
  intros Hs Hv Hf Hrun Hlt Hallowed Hthrow first.
  assert (Hfirst : first = (Migration.Threw (Migration.MigrationException what),
                            file, cb_state1)).
  { subst first. unfold Migration.open_shared_realm.
    rewrite (runs_callback_not_rejected _ Hrun), Hs, Hv, Hlt, Hallowed, Hf, Hrun.
    simpl. by rewrite Hthrow. }
  split; [done|]. rewrite Hfirst. simpl.
  intros cb_state2 new_realm Hok.
  unfold Migration.open_shared_realm.
  rewrite (runs_callback_not_rejected _ Hrun), Hs, Hv, Hlt, Hallowed, Hf, Hrun.
  simpl. by rewrite Hok.
Qed.

Lemma migration_failure_rolls_back_witness :
  Migration.open_shared_realm Migration.config_v2 Migration.file_v1 false
    = (Migration.Threw (Migration.MigrationException "error"),
       Migration.file_v1, true)
  /\ Migration.open_shared_realm Migration.config_v2 Migration.file_v1 true
    = (Migration.Opened
         (Migration.mkFile
            [Migration.mkTable "object"
               [Migration.int_property "value"; Migration.int_property "value2"]
               [[42; 0]]] (Some 2%N)),
       Migration.mkFile
         [Migration.mkTable "object"
            [Migration.int_property "value"; Migration.int_property "value2"]
            [[42; 0]]] (Some 2%N),
       true).
Proof.
  destruct (migration_failure_rolls_back Migration.config_v2 Migration.file_v1
              Migration.schema_v2 2%N Migration.throwing_once false true "error"
              eq_refl eq_refl eq_refl eq_refl eq_refl eq_refl eq_refl)
    as [Hfirst Hsecond].
  split; [exact Hfirst|].
  rewrite Hfirst in Hsecond. simpl in Hsecond.
  exact (Hsecond true _ eq_refl).
Defined.

(** ** Observing a group: tables, valid objects, entries *)

Lemma cell_at_valid g x j c : cell_at g x j = Some c -> valid_object g x = true.
Proof. unfold cell_at, valid_object. by destruct (objects g !! x). Qed.

Lemma cell_at_invalid g x j : valid_object g x = false -> cell_at g x j = None.
Proof. unfold cell_at, valid_object. by destruct (objects g !! x). Qed.

Lemma valid_object_Some g x :
  valid_object g x = true <-> is_Some (objects g !! x).
Proof.
  unfold valid_object.
  destruct (objects g !! x); split; first [done | by eauto | by intros [? ?]].
Qed.

Lemma tables_upd x c v g : tables (upd x c v g) = tables g.
Proof. unfold upd. by destruct (objects g !! x). Qed.

Lemma replication_upd x c v g : replication (upd x c v g) = replication g.
Proof. unfold upd. by destruct (objects g !! x). Qed.

Lemma valid_upd x c v g y : valid_object (upd x c v g) y = valid_object g y.
Proof.
  unfold upd, valid_object. destruct (objects g !! x) as [r|] eqn:Hx; [|done].
  simpl. destruct (decide (x = y)) as [->|Hne].
  - by rewrite lookup_insert_eq, Hx.
  - by rewrite lookup_insert_ne.
Qed.

Lemma cell_at_upd x c v g y j :
  cell_at (upd x c v g) y j
  = if decide (y = x /\ j = c) then (fun _ => v) <$> cell_at g x c
    else cell_at g y j.
Proof.
  unfold upd, cell_at. destruct (objects g !! x) as [r|] eqn:Hx.
  - simpl. destruct (decide (x = y)) as [->|Hne].
    + rewrite lookup_insert_eq, Hx. simpl.
      destruct (decide (j = c)) as [->|Hj].
      * rewrite decide_True by done.
        destruct (r !! c) eqn:Hc.
        -- simpl. apply list_lookup_insert_eq. by eapply lookup_lt_Some.
        -- simpl. apply lookup_ge_None. rewrite length_insert.
           by apply lookup_ge_None.
      * rewrite decide_False by tauto. by rewrite list_lookup_insert_ne.
    + rewrite lookup_insert_ne by done.
      rewrite decide_False; [done|]. intros [-> _]. done.
  - case_decide as Hd; [|done]. destruct Hd as [-> ->]. by rewrite Hx.
Qed.

Lemma cell_at_upd_eq x c v g :
  is_Some (cell_at g x c) -> cell_at (upd x c v g) x c = Some v.
Proof. intros [c0 H]. rewrite cell_at_upd, decide_True by done. by rewrite H. Qed.

Lemma cell_at_upd_ne x c v g y j :
  (y, j) <> (x, c) -> cell_at (upd x c v g) y j = cell_at g y j.
Proof.
  intros H. rewrite cell_at_upd, decide_False; [done|]. intros [-> ->]. done.
Qed.

Lemma valid_erased x g y :
  valid_object (erased x g) y = if decide (y = x) then false else valid_object g y.
Proof.
  unfold erased, valid_object. simpl. case_decide as Hd.
  - subst. by rewrite lookup_delete_eq.
  - by rewrite lookup_delete_ne.
Qed.

Lemma cell_at_erased x g y j :
  cell_at (erased x g) y j = if decide (y = x) then None else cell_at g y j.
Proof.
  unfold erased, cell_at. simpl. case_decide as Hd.
  - subst. by rewrite lookup_delete_eq.
  - by rewrite lookup_delete_ne.
Qed.

(** The primitives in terms of the observations. *)
Lemma read_leaf_eq x c g :
  read_leaf x c g = match cell_at g x c with
                    | Some v => Ok v g
                    | None => Abort
                    end.
Proof.
  unfold read_leaf, cell_at, bind, get_row, unchecked.
  destruct (objects g !! x) as [r|]; [|done]. simpl. by destruct (r !! c).
Qed.

Lemma write_leaf_eq x c v g :
  write_leaf x c v g = match cell_at g x c with
                       | Some _ => Ok tt (upd x c v g)
                       | None => Abort
                       end.
Proof.
  unfold write_leaf, cell_at, upd, bind, get_row, realm_assert, put_row.
  destruct (objects g !! x) as [r|]; [|done]. simpl.
  destruct (r !! c) eqn:Hc.
  - apply lookup_lt_Some, Nat.ltb_lt in Hc. by rewrite Hc.
  - apply lookup_ge_None, Nat.ltb_ge in Hc. by rewrite Hc.
Qed.

Lemma get_row_eq x g :
  get_row x g = match objects g !! x with
                | Some r => Ok r g
                | None => Abort
                end.
Proof. done. Qed.

Lemma get_row_valid x g :
  valid_object g x = true -> exists r, get_row x g = Ok r g.
Proof.
  unfold valid_object, get_row. destruct (objects g !! x); [eauto|done].
Qed.

Lemma get_row_Ok_valid x g r g' :
  get_row x g = Ok r g' -> g' = g /\ valid_object g x = true.
Proof.
  unfold valid_object, get_row. destruct (objects g !! x); [|done].
  by intros [= -> ->].
Qed.

(** ** Counting links and backlinks *)

Lemma remove_first_Some k l :
  (0 < count_occ Z.eq_dec l k)%nat -> is_Some (remove_first k l).
Proof.
  induction l as [|x l IH]; simpl; [lia|].
  destruct (Z.eqb_spec x k) as [->|Hne]; [eauto|].
  destruct (Z.eq_dec x k); [done|]. intros H.
  destruct (IH H) as [l' ->]. simpl. eauto.
Qed.

Lemma remove_first_count k l l' k' :
  remove_first k l = Some l' ->
  count_occ Z.eq_dec l k' = (count_occ Z.eq_dec l' k' + if decide (k = k') then 1 else 0)%nat.
Proof.
  revert l'. induction l as [|x l IH]; intros l'; simpl; [done|].
  destruct (Z.eqb_spec x k) as [->|Hne].
  - intros [= <-]. destruct (Z.eq_dec k k'); case_decide; try done; lia.
  - destruct (remove_first k l) as [l0|]; [|done]. simpl. intros [= <-].
    simpl. rewrite (IH l0 eq_refl). destruct (Z.eq_dec x k'); lia.
Qed.

Lemma remove_first_length k l l' :
  remove_first k l = Some l' -> length l = S (length l').
Proof.
  revert l'. induction l as [|x l IH]; intros l'; simpl; [done|].
  destruct (x =? k).
  - by intros [= <-].
  - destruct (remove_first k l) as [l0|]; [|done]. simpl. intros [= <-].
    simpl. by rewrite (IH l0 eq_refl).
Qed.

Lemma remove_first_Some_count k l l' :
  remove_first k l = Some l' -> (0 < count_occ Z.eq_dec l k)%nat.
Proof.
  intros H. rewrite (remove_first_count _ _ _ k H), decide_True by done. lia.
Qed.

Lemma count_occ_app_one (l : list Z) (o k : Z) :
  count_occ Z.eq_dec (l ++ [o]) k
  = (count_occ Z.eq_dec l k + if decide (o = k) then 1 else 0)%nat.
Proof.
  rewrite count_occ_app. simpl. destruct (Z.eq_dec o k); case_decide; done.
Qed.

(** ** The schema *)

Lemma find_index_Some {A} (p : A -> bool) (l : list A) (i : nat) :
  find_index p l = Some i -> exists x, l !! i = Some x /\ p x = true.
Proof.
  revert i. induction l as [|a l IH]; intros i; simpl; [done|].
  destruct (p a) eqn:Hp.
  - intros [= <-]. eauto.
  - destruct (find_index p l) as [n|]; [|done]. simpl. intros [= <-].
    simpl. by apply IH.
Qed.

Lemma ColumnType_eqb_eq a b : ColumnType_eqb a b = true <-> a = b.
Proof. destruct a, b; simpl; split; congruence. Qed.

Lemma find_backlink_column_Some spec A c bc :
  find_backlink_column spec A c = Some bc ->
  exists bcol, columns spec !! bc = Some bcol
               /\ col_type bcol = col_type_BackLink
               /\ col_opposite_table bcol = A /\ col_opposite_col bcol = c.
Proof.
  intros H. apply find_index_Some in H as (bcol & Hb & Hp).
  unfold is_backlink_of in Hp. apply andb_prop in Hp as [Hp Hc].
  apply andb_prop in Hp as [Hty Ht].
  apply ColumnType_eqb_eq in Hty. apply Nat.eqb_eq in Ht, Hc. eauto.
Qed.

Lemma link_column_Some g A c B bc :
  link_column g A c = Some (B, bc) ->
  exists ti col tti bcol,
    tables g !! A = Some ti /\ columns (t_spec ti) !! c = Some col
    /\ is_link_type (col_type col) = true /\ col_opposite_table col = B
    /\ tables g !! B = Some tti
    /\ find_backlink_column (t_spec tti) A c = Some bc
    /\ columns (t_spec tti) !! bc = Some bcol
    /\ col_type bcol = col_type_BackLink
    /\ col_opposite_table bcol = A /\ col_opposite_col bcol = c.
Proof.
  unfold link_column. intros H.
  destruct (tables g !! A) as [ti|] eqn:Ht; [|done]. simpl in H.
  destruct (columns (t_spec ti) !! c) as [col|] eqn:Hc; [|done]. simpl in H.
  destruct (is_link_type (col_type col)) eqn:Hl; [|done].
  destruct (tables g !! col_opposite_table col) as [tti|] eqn:Htt; [|done].
  simpl in H.
  destruct (find_backlink_column (t_spec tti) A c) as [bc'|] eqn:Hf; [|done].
  simpl in H. injection H as <- <-.
  destruct (find_backlink_column_Some _ _ _ _ Hf) as (bcol & ? & ? & ? & ?).
  exists ti, col, tti, bcol. split_and!; done.
Qed.

Lemma link_column_inj g A c A' c' B bc :
  link_column g A c = Some (B, bc) -> link_column g A' c' = Some (B, bc) ->
  A = A' /\ c = c'.
Proof.
  intros H1 H2.
  apply link_column_Some in H1 as (? & ? & tti & bcol & _ & _ & _ & _ & Ht & _ & Hb & _ & <- & <-).
  apply link_column_Some in H2 as (? & ? & tti' & bcol' & _ & _ & _ & _ & Ht' & _ & Hb' & _ & <- & <-).
  rewrite Ht in Ht'. injection Ht' as <-. rewrite Hb in Hb'. by injection Hb' as <-.
Qed.

Lemma link_column_tables g g' A c :
  tables g' = tables g -> link_column g' A c = link_column g A c.
Proof. unfold link_column. by intros ->. Qed.

Lemma wf_schema_tables g g' : tables g' = tables g -> wf_schema g -> wf_schema g'.
Proof.
  intros Ht Hwf A ti HA. rewrite Ht in HA.
  destruct (Hwf A ti HA) as [Hlen Hcols]. split; [done|].
  intros c col Hc. destruct (Hcols c col Hc) as (H1 & H2 & H3).
  split_and!; [done| |].
  - intros Hl. rewrite (link_column_tables g g') by done. by apply H2.
  - intros Hb. rewrite (link_column_tables g g') by done. by apply H3.
Qed.

Lemma option_Forall2_Some_l {A B} (P : A -> B -> Prop) a ob :
  option_Forall2 P (Some a) ob -> exists b, ob = Some b /\ P a b.
Proof. inversion 1; subst. eauto. Qed.

Lemma option_Forall2_Some_r {A B} (P : A -> B -> Prop) oa b :
  option_Forall2 P oa (Some b) -> exists a, oa = Some a /\ P a b.
Proof. inversion 1; subst. eauto. Qed.

(** ** Groups of the same shape *)

Lemma same_shape_refl g : same_shape g g.
Proof.
  split_and!; [done|done|]. intros x j. destruct (cell_at g x j) as [c|].
  - constructor. by destruct c.
  - constructor.
Qed.

Lemma same_leaf_trans a b c :
  same_leaf a b = true -> same_leaf b c = true -> same_leaf a c = true.
Proof. destruct a, b; try done; destruct c; done. Qed.

Lemma same_shape_trans g1 g2 g3 :
  same_shape g1 g2 -> same_shape g2 g3 -> same_shape g1 g3.
Proof.
  intros (Ht1 & Hv1 & Hc1) (Ht2 & Hv2 & Hc2). split_and!.
  - congruence.
  - intros x. by rewrite Hv2, Hv1.
  - intros x j. specialize (Hc1 x j). specialize (Hc2 x j).
    destruct Hc1; inversion Hc2; subst; constructor.
    by eapply same_leaf_trans.
Qed.

Lemma same_shape_bump g : same_shape g (bump g).
Proof. exact (same_shape_refl g). Qed.

Lemma same_shape_emitted i g : same_shape g (emitted i g).
Proof. exact (same_shape_refl g). Qed.

Lemma same_shape_upd x c v v0 g :
  cell_at g x c = Some v0 -> same_leaf v0 v = true -> same_shape g (upd x c v g).
Proof.
  intros Hc Hs. split_and!.
  - apply tables_upd.
  - intros y. apply valid_upd.
  - intros y j. rewrite cell_at_upd. case_decide as Hd.
    + destruct Hd as [-> ->]. rewrite Hc. simpl. by constructor.
    + destruct (cell_at g y j) as [a|]; constructor. by destruct a.
Qed.

Lemma cell_ok_same_leaf col a b :
  same_leaf a b = true -> cell_ok col a -> cell_ok col b.
Proof.
  unfold cell_ok. intros Hs.
  destruct (col_type col);
    try (intros [Hl Hb]; destruct a; destruct b; try discriminate;
         try (by split); exfalso; by eapply Hb).
  - intros [k ->]. destruct b; try done. eauto.
  - intros (l & f & ->). destruct b; try done. eauto.
  - intros [l ->]. destruct b; try done. eauto.
Qed.

Lemma same_shape_wf_rows g g' : same_shape g g' -> wf_rows g -> wf_rows g'.
Proof.
  intros (Ht & Hv & Hc) Hwf x Hx. rewrite Hv in Hx.
  destruct (Hwf x Hx) as (Hnull & ti & Hti & Hcells).
  split; [done|]. exists ti. rewrite Ht. split; [done|].
  intros j. specialize (Hcells j). specialize (Hc x j).
  destruct Hcells; inversion Hc; subst; constructor.
  by eapply cell_ok_same_leaf.
Qed.

(** ** How an update changes the links and the backlinks *)

Lemma links_at_upd_backlink x c l l' g y j :
  cell_at g x c = Some (CBacklink l) ->
  links_at (upd x c (CBacklink l') g) y j = links_at g y j.
Proof.
  intros Hc. unfold links_at. rewrite cell_at_upd. case_decide as Hd; [|done].
  destruct Hd as [-> ->]. by rewrite Hc.
Qed.

Lemma backlinks_at_upd_backlink x c l l' g y j :
  cell_at g x c = Some (CBacklink l) ->
  backlinks_at (upd x c (CBacklink l') g) y j
  = if decide (y = x /\ j = c) then l' else backlinks_at g y j.
Proof.
  intros Hc. unfold backlinks_at. rewrite cell_at_upd.
  case_decide as Hd; [|done]. by rewrite Hc.
Qed.

Lemma links_at_upd_link x c v v0 g y j :
  cell_at g x c = Some v0 ->
  links_at (upd x c v g) y j
  = if decide (y = x /\ j = c) then link_targets v else links_at g y j.
Proof.
  intros Hc. unfold links_at. rewrite cell_at_upd.
  case_decide as Hd; [|done]. by rewrite Hc.
Qed.

Lemma backlinks_at_upd_link x c v v0 g y j :
  cell_at g x c = Some v0 -> is_link_cell v0 = true -> is_link_cell v = true ->
  backlinks_at (upd x c v g) y j = backlinks_at g y j.
Proof.
  intros Hc H0 Hv. unfold backlinks_at. rewrite cell_at_upd.
  case_decide as Hd; [|done]. destruct Hd as [-> ->]. rewrite Hc. simpl.
  by destruct v0, v.
Qed.

(** ** The backlink primitives as state changes *)

#[local] Set Warnings "-clear-no-such-hyp".

(** Run the first step of a computation. *)
Lemma bind_unfold {A B} (m : M A) (f : A -> M B) g :
  bind m f g = match m g with
               | Ok a g' => f a g'
               | Throw e g' => Throw e g'
               | Abort => Abort
               end.
Proof. reflexivity. Qed.

Lemma ret_unfold {A} (a : A) g : ret a g = Ok a g.
Proof. reflexivity. Qed.

Lemma unchecked_unfold {A} (o : option A) g :
  unchecked o g = match o with Some a => Ok a g | None => Abort end.
Proof. by destruct o. Qed.

Lemma realm_assert_unfold b g :
  realm_assert b g = if b then Ok tt g else Abort.
Proof. by destruct b. Qed.

Lemma get_spec_unfold t g :
  get_spec t g = match tables g !! t with
                 | Some ti => Ok (t_spec ti) g
                 | None => Abort
                 end.
Proof. reflexivity. Qed.

Lemma bump_unfold g : bump_content_version g = Ok tt (bump g).
Proof. reflexivity. Qed.

Lemma emit_unfold i g : emit i g = Ok tt (emitted i g).
Proof. reflexivity. Qed.

Ltac mred := cbn [negb andb orb fst snd]; cbv beta iota.
Ltac mstep :=
  mred;
  repeat (progress rewrite ?bind_unfold, ?ret_unfold, ?unchecked_unfold,
            ?realm_assert_unfold, ?get_spec_unfold, ?bump_unfold, ?emit_unfold;
          mred).

Lemma add_backlink_eq y bc o g :
  Obj_add_backlink y bc o g
  = match add_backlink_pure y bc o g with
    | Some g' => Ok tt g'
    | None => Abort
    end.
Proof.
  unfold Obj_add_backlink, add_backlink_pure.
  mstep. rewrite get_row_eq.
  destruct (objects g !! y) as [r|] eqn:Hy.
  - mstep. unfold bump_content_version. mstep. rewrite read_leaf_eq.
    change (cell_at (bump g) y bc) with (cell_at g y bc).
    destruct (cell_at g y bc) as [c|] eqn:Hc; [|done].
    destruct c; try done. rewrite write_leaf_eq.
    change (cell_at (bump g) y bc) with (cell_at g y bc). by rewrite Hc.
  - rewrite cell_at_invalid; [done|]. unfold valid_object. by rewrite Hy.
Qed.

Lemma remove_one_backlink_eq y bc o g :
  Obj_remove_one_backlink y bc o g
  = match remove_backlink_pure y bc o g with
    | Some g' => Ok tt g'
    | None => Abort
    end.
Proof.
  unfold Obj_remove_one_backlink, remove_backlink_pure.
  mstep. rewrite get_row_eq.
  destruct (objects g !! y) as [r|] eqn:Hy.
  - mstep. unfold bump_content_version. mstep. rewrite read_leaf_eq.
    change (cell_at (bump g) y bc) with (cell_at g y bc).
    destruct (cell_at g y bc) as [c|] eqn:Hc; [|done].
    destruct c; try done. mstep. unfold unchecked.
    destruct (ArrayBacklink_remove l o) as [l'|]; [|done]. simpl.
    rewrite write_leaf_eq.
    change (cell_at (bump g) y bc) with (cell_at g y bc). by rewrite Hc.
  - rewrite cell_at_invalid; [done|]. unfold valid_object. by rewrite Hy.
Qed.

(** What the two state changes do to the observations. *)
Lemma add_backlink_pure_Some y bc o g g' :
  add_backlink_pure y bc o g = Some g' ->
  same_shape g g' /\ replication g' = replication g
  /\ (forall x j, links_at g' x j = links_at g x j)
  /\ (forall x j, backlinks_at g' x j
                  = if decide (x = y /\ j = bc) then backlinks_at g y bc ++ [o]
                    else backlinks_at g x j)
  /\ valid_object g y = true.
Proof.
  unfold add_backlink_pure. destruct (cell_at g y bc) as [c|] eqn:Hc; [|done].
  destruct c; try done. intros [= <-].
  assert (Hc' : cell_at (bump g) y bc = Some (CBacklink l)) by done.
  split_and!.
  - eapply same_shape_trans; [apply same_shape_bump|].
    by eapply same_shape_upd.
  - by rewrite replication_upd.
  - intros x j. by rewrite (links_at_upd_backlink _ _ _ _ _ _ _ Hc').
  - intros x j. rewrite (backlinks_at_upd_backlink _ _ _ _ _ _ _ Hc').
    case_decide; [|done]. unfold backlinks_at. by rewrite Hc.
  - by eapply cell_at_valid.
Qed.

Lemma add_backlink_pure_is_Some y bc o g l :
  cell_at g y bc = Some (CBacklink l) -> is_Some (add_backlink_pure y bc o g).
Proof. unfold add_backlink_pure. intros ->. eauto. Qed.

Lemma remove_backlink_pure_Some y bc o g g' :
  remove_backlink_pure y bc o g = Some g' ->
  same_shape g g' /\ replication g' = replication g
  /\ (forall x j, links_at g' x j = links_at g x j)
  /\ valid_object g y = true
  /\ exists l', remove_first o (backlinks_at g y bc) = Some l'
                /\ forall x j, backlinks_at g' x j
                               = if decide (x = y /\ j = bc) then l'
                                 else backlinks_at g x j.
Proof.
  unfold remove_backlink_pure. destruct (cell_at g y bc) as [c|] eqn:Hc; [|done].
  destruct c; try done. unfold ArrayBacklink_remove.
  destruct (remove_first o l) as [l'|] eqn:Hr; [|done]. simpl. intros [= <-].
  assert (Hc' : cell_at (bump g) y bc = Some (CBacklink l)) by done.
  split_and!.
  - eapply same_shape_trans; [apply same_shape_bump|].
    by eapply same_shape_upd.
  - by rewrite replication_upd.
  - intros x j. by rewrite (links_at_upd_backlink _ _ _ _ _ _ _ Hc').
  - by eapply cell_at_valid.
  - exists l'. split.
    + unfold backlinks_at. by rewrite Hc.
    + intros x j. by rewrite (backlinks_at_upd_backlink _ _ _ _ _ _ _ Hc').
Qed.

Lemma remove_backlink_pure_is_Some y bc o g l :
  cell_at g y bc = Some (CBacklink l) -> (0 < count_occ Z.eq_dec l o)%nat ->
  is_Some (remove_backlink_pure y bc o g).
Proof.
  unfold remove_backlink_pure, ArrayBacklink_remove. intros -> Hc.
  destruct (remove_first_Some _ _ Hc) as [l' ->]. simpl. eauto.
Qed.

Lemma get_backlink_count_eq y A c g :
  ConstObj_get_backlink_count y A c g
  = match tables g !! y.1 with
    | Some ti =>
        match find_backlink_column (t_spec ti) A c with
        | Some bc => match cell_at g y bc with
                     | Some (CBacklink l) => Ok (length l) g
                     | _ => Abort
                     end
        | None => Abort
        end
    | None => Abort
    end.
Proof.
  unfold ConstObj_get_backlink_count. mstep. unfold get_spec.
  destruct (tables g !! y.1) as [ti|]; [|done]. mstep. unfold unchecked.
  destruct (find_backlink_column (t_spec ti) A c) as [bc|]; [|done]. simpl.
  unfold ConstObj_get_backlink_count_col. mstep. rewrite read_leaf_eq.
  destruct (cell_at g y bc) as [cell|]; [|done]. by destruct cell.
Qed.

Lemma get_target_table_eq o c g :
  get_target_table o c g
  = match tables g !! o.1 with
    | Some ti =>
        match columns (t_spec ti) !! c with
        | Some col => match tables g !! col_opposite_table col with
                      | Some _ => Ok (col_opposite_table col) g
                      | None => Abort
                      end
        | None => Abort
        end
    | None => Abort
    end.
Proof.
  unfold get_target_table. mstep. unfold get_spec.
  destruct (tables g !! o.1) as [ti|]; [|done]. mstep. unfold unchecked.
  destruct (columns (t_spec ti) !! c) as [col|]; [|done]. simpl. mstep.
  by destruct (tables g !! col_opposite_table col).
Qed.

(** [Obj::update_backlinks] is its state change. *)
Lemma update_backlinks_eq o c old new st g :
  Obj_update_backlinks o c old new st g
  = match tables g !! o.1 with
    | Some ti =>
        match columns (t_spec ti) !! c with
        | Some col =>
            match tables g !! col_opposite_table col with
            | Some tti =>
                match update_backlinks_pure o (col_opposite_table col)
                        (find_backlink_column (t_spec tti) o.1 c)
                        (attr_test (col_attr col) col_attr_StrongLinks)
                        old new st g with
                | Some (r, st', g') => Ok (r, st') g'
                | None => Abort
                end
            | None => Abort
            end
        | None => Abort
        end
    | None => Abort
    end.
Proof.
  unfold Obj_update_backlinks. rewrite bind_unfold, get_target_table_eq.
  destruct (tables g !! o.1) as [ti|] eqn:Hti; [|done].
  destruct (columns (t_spec ti) !! c) as [col|] eqn:Hcol; [|done].
  destruct (tables g !! col_opposite_table col) as [tti|] eqn:Htt; [|done].
  mstep. rewrite Htt. cbv beta iota zeta.
  unfold update_backlinks_pure.
  set (B := col_opposite_table col).
  set (obc := find_backlink_column (t_spec tti) o.1 c).
  assert (Hadd : forall g1 (r : bool * CascadeState),
             match (if negb (new =? null_key)
                    then
                      _ <- get_row (B, new) ;;
                      bc <- unchecked obc ;;
                      Obj_add_backlink (B, new) bc o.2
                    else ret tt) g1 with
             | Ok _ g' => ret r g'
             | Throw e g' => Throw e g'
             | Abort => Abort
             end
             = match (if new =? null_key then Some g1
                      else bc ← obc; add_backlink_pure (B, new) bc o.2 g1) with
               | Some g2 => Ok r g2
               | None => Abort
               end).
  { intros g1 r. destruct (new =? null_key) eqn:Hnew; mred; [done|].
    rewrite bind_unfold, get_row_eq.
    destruct (objects g1 !! (B, new)) as [r1|] eqn:Hr1.
    - mstep. destruct obc as [bc|]; [|done]. simpl.
      rewrite add_backlink_eq.
      by destruct (add_backlink_pure (B, new) bc o.2 g1).
    - destruct obc as [bc|]; [|done]. simpl. unfold add_backlink_pure.
      rewrite cell_at_invalid; [done|]. unfold valid_object. by rewrite Hr1. }
  rewrite bind_unfold.
  destruct (old =? null_key) eqn:Hold; mred.
  - rewrite ret_unfold. mred. rewrite bind_unfold, Hadd. simpl.
    by destruct (if new =? null_key then _ else _).
  - rewrite bind_unfold, get_spec_unfold, Hti. mred.
    rewrite bind_unfold, get_row_eq.
    destruct (objects g !! (B, old)) as [r|] eqn:Hr.
    2: { destruct obc as [bc|]; [|done]. simpl. unfold remove_backlink_pure.
         rewrite cell_at_invalid; [done|]. unfold valid_object. by rewrite Hr. }
    mred. rewrite bind_unfold, unchecked_unfold.
    destruct obc as [bc|] eqn:Hobc; [|done]. mred. simpl mbind at 1.
    rewrite bind_unfold, remove_one_backlink_eq.
    destruct (remove_backlink_pure (B, old) bc o.2 g) as [g1|] eqn:Hrem; [|done].
    mred. simpl mbind at 1.
    rewrite bind_unfold, unchecked_unfold. unfold get_column_attr.
    rewrite Hcol. simpl fmap. mred.
    apply remove_backlink_pure_Some in Hrem as Hrem'.
    destruct Hrem' as ((Ht1 & Hv1 & Hc1) & _ & _ & _ & l' & Hl' & Hbl).
    assert (Hcount : ConstObj_get_backlink_count (B, old) o.1 c g1
                     = Ok (backlink_count g1 (B, old) bc) g1).
    { rewrite get_backlink_count_eq. simpl fst. rewrite Ht1. unfold B.
      rewrite Htt. fold obc. fold B.
      rewrite Hobc. unfold backlink_count, backlinks_at.
      unfold remove_backlink_pure in Hrem.
      destruct (cell_at g (B, old) bc) as [cell|] eqn:Hcell; [|done].
      destruct cell; try done.
      destruct (ArrayBacklink_remove l o.2) as [l2|]; [|done].
      simpl in Hrem. injection Hrem as <-.
      rewrite cell_at_upd_eq; [done|]. by exists (CBacklink l). }
    destruct (attr_test (col_attr col) col_attr_StrongLinks) eqn:Hstrong; mred.
    + rewrite bind_unfold, Hcount. mred.
      destruct (Nat.eqb (backlink_count g1 (B, old) bc) 0) eqn:Hz; mred;
        rewrite ret_unfold; mred; rewrite bind_unfold, Hadd; simpl;
        by destruct (if new =? null_key then _ else _).
    + rewrite ret_unfold. mred. rewrite bind_unfold, Hadd. simpl.
      by destruct (if new =? null_key then _ else _).
Qed.

Lemma remove_backlink_pure_counts y bc o g g1 :
  remove_backlink_pure y bc o g = Some g1 ->
  forall x j,
    (backlink_count g1 x j + (if decide (x = y /\ j = bc) then 1 else 0)
     = backlink_count g x j)%nat
    /\ forall o', (bl g1 x j o'
                   + (if decide (x = y /\ j = bc /\ o' = o) then 1 else 0)
                   = bl g x j o')%nat.
Proof.
  intros H x j.
  apply remove_backlink_pure_Some in H as (_ & _ & _ & _ & l' & Hl' & Hbl).
  unfold backlink_count, bl. rewrite Hbl.
  destruct (decide (x = y /\ j = bc)) as [[-> ->]|Hne].
  - split.
    + rewrite (remove_first_length _ _ _ Hl'). lia.
    + intros o'. rewrite (remove_first_count _ _ _ o' Hl').
      repeat case_decide; try lia; naive_solver.
  - split; [lia|]. intros o'. rewrite decide_False by naive_solver. lia.
Qed.

Lemma add_backlink_pure_counts y bc o g g1 :
  add_backlink_pure y bc o g = Some g1 ->
  forall x j,
    (backlink_count g1 x j
     = backlink_count g x j + (if decide (x = y /\ j = bc) then 1 else 0))%nat
    /\ forall o', (bl g1 x j o'
                   = bl g x j o'
                     + (if decide (x = y /\ j = bc /\ o' = o) then 1 else 0))%nat.
Proof.
  intros H x j.
  apply add_backlink_pure_Some in H as (_ & _ & _ & Hbl & _).
  unfold backlink_count, bl. rewrite Hbl.
  destruct (decide (x = y /\ j = bc)) as [[-> ->]|Hne].
  - split.
    + rewrite length_app. simpl. lia.
    + intros o'. rewrite count_occ_app_one.
      repeat case_decide; try lia; naive_solver.
  - split; [lia|]. intros o'. rewrite decide_False by naive_solver. lia.
Qed.

(** The effect of [Obj::update_backlinks] on the observations. *)
Lemma update_backlinks_pure_Some o B bc strong old new st g r st' g' :
  update_backlinks_pure o B (Some bc) strong old new st g = Some (r, st', g') ->
  same_shape g g' /\ replication g' = replication g
  /\ (forall x j, links_at g' x j = links_at g x j)
  /\ (forall x j,
        (backlink_count g' x j
         + (if decide (old <> null_key /\ x = (B, old) /\ j = bc) then 1 else 0)
         = backlink_count g x j
           + (if decide (new <> null_key /\ x = (B, new) /\ j = bc) then 1 else 0))%nat
        /\ forall o',
            (bl g' x j o'
             + (if decide (old <> null_key /\ x = (B, old) /\ j = bc /\ o' = o.2)
                then 1 else 0)
             = bl g x j o'
               + (if decide (new <> null_key /\ x = (B, new) /\ j = bc /\ o' = o.2)
                  then 1 else 0))%nat)
  /\ (old <> null_key -> valid_object g (B, old) = true)
  /\ (new <> null_key -> valid_object g (B, new) = true)
  /\ st' = (if r then cascade_push st (B, old) else st)
  /\ r = negb (old =? null_key) && strong
         && Nat.eqb (backlink_count g (B, old) bc) 1.
Proof.
  unfold update_backlinks_pure. simpl mbind.
  destruct (Z.eqb_spec old null_key) as [Hold|Hold].
  - simpl. destruct (Z.eqb_spec new null_key) as [Hnew|Hnew]; simpl.
    + intros [= <- <- <-]. split_and!; try done.
      * apply same_shape_refl.
      * intros x j. split; [|intros o']; rewrite !decide_False by naive_solver; lia.
    + destruct (add_backlink_pure (B, new) bc o.2 g) as [g2|] eqn:Hadd; [|done].
      simpl. intros [= <- <- <-].
      pose proof (add_backlink_pure_counts _ _ _ _ _ Hadd) as Hcnt.
      apply add_backlink_pure_Some in Hadd as (Hsh & Hrep & Hl & _ & Hv).
      split_and!; try done.
      intros x j. destruct (Hcnt x j) as [Hc1 Hc2]. split; [|intros o'].
      * rewrite Hc1. repeat case_decide; try lia; naive_solver.
      * rewrite Hc2. repeat case_decide; try lia; naive_solver.
  - simpl.
    destruct (remove_backlink_pure (B, old) bc o.2 g) as [g1|] eqn:Hrem; [|done].
    simpl.
    pose proof (remove_backlink_pure_counts _ _ _ _ _ Hrem) as Hcnt1.
    apply remove_backlink_pure_Some in Hrem as (Hsh1 & Hrep1 & Hl1 & Hv1 & _).
    assert (Hr : strong && Nat.eqb (backlink_count g1 (B, old) bc) 0
                 = strong && Nat.eqb (backlink_count g (B, old) bc) 1).
    { f_equal. destruct (Hcnt1 (B, old) bc) as [Hc _].
      rewrite decide_True in Hc by done.
      destruct (Nat.eqb_spec (backlink_count g1 (B, old) bc) 0),
               (Nat.eqb_spec (backlink_count g (B, old) bc) 1); lia. }
    rewrite Hr.
    destruct (strong && Nat.eqb (backlink_count g (B, old) bc) 1) eqn:Hb; simpl.
    all: destruct (Z.eqb_spec new null_key) as [Hnew|Hnew]; simpl.
    all: try (destruct (add_backlink_pure (B, new) bc o.2 g1) as [g2|] eqn:Hadd;
              [|done]; simpl).
    all: intros [= <- <- <-].
    all: try (pose proof (add_backlink_pure_counts _ _ _ _ _ Hadd) as Hcnt2;
              apply add_backlink_pure_Some in Hadd as (Hsh2 & Hrep2 & Hl2 & _ & Hv2)).
    all: split_and!; try done; try congruence.
    all: try (by eapply same_shape_trans).
    all: try (intros x j; by rewrite Hl2, Hl1).
    all: try (intros _; destruct Hsh1 as (_ & Hvv & _); by rewrite <- Hvv).
    all: try (intros x j; destruct (Hcnt1 x j) as [Hc1 Hc2]; split; [|intros o';
              specialize (Hc2 o')];
              try (destruct (Hcnt2 x j) as [Hd1 Hd2]; try specialize (Hd2 o'));
              repeat case_decide; try lia; naive_solver).
Qed.

(** ** Rewriting one link keeps the links balanced *)

Lemma link_balanced_relink g g1 o c B bc strong old new st r st' v0 v :
  link_balanced g ->
  link_column g o.1 c = Some (B, bc) ->
  update_backlinks_pure o B (Some bc) strong old new st g = Some (r, st', g1) ->
  cell_at g o c = Some v0 -> is_link_cell v0 = true -> is_link_cell v = true ->
  (forall k, k <> null_key ->
             (count_occ Z.eq_dec (link_targets v) k
              + (if decide (k = old) then 1 else 0)
              = count_occ Z.eq_dec (link_targets v0) k
                + (if decide (k = new) then 1 else 0))%nat) ->
  link_balanced (upd o c v g1).
Proof.
  intros Hbal Hlc Hupd Hv0 Hl0 Hl Hcount A' c' B' bc' o' k Hlc' Hk.
  apply update_backlinks_pure_Some in Hupd
    as ((Ht & Hval & Hcells) & _ & Hlinks & Hcnt & _).
  rewrite (link_column_tables g (upd o c v g1)) in Hlc'
    by (rewrite tables_upd; exact Ht).
  assert (Hv1 : exists v1, cell_at g1 o c = Some v1 /\ is_link_cell v1 = true).
  { specialize (Hcells o c). rewrite Hv0 in Hcells. inversion Hcells as [a b Hs|]; subst.
    eexists; split; [done|]. by destruct v0, b. }
  destruct Hv1 as (v1 & Hv1 & Hl1).
  unfold fwd, bl.
  rewrite (links_at_upd_link _ _ _ _ _ _ _ Hv1).
  rewrite (backlinks_at_upd_link _ _ _ _ _ _ _ Hv1 Hl1 Hl).
  destruct (Hcnt (B', k) bc') as [_ Hb]. specialize (Hb o').
  fold (bl g1 (B', k) bc' o'). fold (bl g (B', k) bc' o') in Hb.
  specialize (Hbal A' c' B' bc' o' k Hlc' Hk). unfold fwd at 1 in Hbal.
  destruct (decide ((A', o') = o /\ c' = c)) as [[<- ->]|Hne].
  - simpl in Hlc. rewrite Hlc in Hlc'. injection Hlc' as <- <-.
    specialize (Hcount k Hk).
    unfold links_at in Hbal. rewrite Hv0 in Hbal. simpl snd in *.
    repeat case_decide; try lia; naive_solver.
  - rewrite Hlinks, Hbal.
    assert (Hno : forall key, ~ ((B', k) = (B, key) /\ bc' = bc /\ o' = o.2)).
    { intros key ([= -> ->] & -> & ->).
      destruct (link_column_inj _ _ _ _ _ _ _ Hlc Hlc') as [<- <-].
      apply Hne. by destruct o. }
    rewrite !decide_False in Hb by (intros (_ & ? & ? & ?); by eapply Hno).
    lia.
Qed.

(** ** Typed entries *)

#[local] Set Warnings "-clear-no-such-hyp".

Lemma wf_rows_cell g x c v :
  wf_rows g -> cell_at g x c = Some v ->
  x.2 <> null_key
  /\ exists ti col, tables g !! x.1 = Some ti
                    /\ columns (t_spec ti) !! c = Some col /\ cell_ok col v.
Proof.
  intros Hwf Hc. destruct (Hwf x (cell_at_valid _ _ _ _ Hc)) as (Hn & ti & Hti & Hcells).
  split; [done|]. specialize (Hcells c). rewrite Hc in Hcells.
  apply option_Forall2_Some_r in Hcells as (col & Hcol & Hok). eauto.
Qed.

Lemma wf_rows_column g x c ti col :
  wf_rows g -> valid_object g x = true -> tables g !! x.1 = Some ti ->
  columns (t_spec ti) !! c = Some col ->
  exists v, cell_at g x c = Some v /\ cell_ok col v.
Proof.
  intros Hwf Hv Hti Hcol. destruct (Hwf x Hv) as (_ & ti' & Hti' & Hcells).
  rewrite Hti in Hti'. injection Hti' as <-.
  specialize (Hcells c). rewrite Hcol in Hcells.
  apply option_Forall2_Some_l in Hcells as (v & Hc & Hok). eauto.
Qed.

(** An entry that holds links sits in a link column. *)
Lemma link_cell_column g x c v :
  wf_schema g -> wf_rows g -> cell_at g x c = Some v -> is_link_cell v = true ->
  exists ti col tti bc,
    tables g !! x.1 = Some ti /\ columns (t_spec ti) !! c = Some col
    /\ tables g !! col_opposite_table col = Some tti
    /\ find_backlink_column (t_spec tti) x.1 c = Some bc
    /\ link_column g x.1 c = Some (col_opposite_table col, bc)
    /\ (c < get_public_column_count (t_spec ti))%nat
    /\ ((exists k, v = CKey k) /\ col_type col = col_type_Link
        /\ attr_test (col_attr col) col_attr_List = false
        \/ (exists l f, v = CLinkList l f) /\ col_type col = col_type_LinkList
           /\ attr_test (col_attr col) col_attr_List = true).
Proof.
  intros Hs Hr Hc Hl.
  destruct (wf_rows_cell _ _ _ _ Hr Hc) as (_ & ti & col & Hti & Hcol & Hok).
  destruct (Hs _ _ Hti) as [_ Hcols].
  destruct (Hcols _ _ Hcol) as (Hpub & Hlink & _).
  assert (Hty : is_link_type (col_type col) = true).
  { unfold cell_ok in Hok. destruct (col_type col); try done;
      try (destruct Hok as [Hok _]; congruence).
    destruct Hok as [l ->]. done. }
  destruct (Hlink Hty) as [[[B bc] Hlc] Hattr].
  destruct (link_column_Some _ _ _ _ _ Hlc)
    as (ti' & col' & tti & bcol & Hti' & Hcol' & _ & HB & Htt & Hf & _).
  rewrite Hti in Hti'. injection Hti' as <-.
  rewrite Hcol in Hcol'. injection Hcol' as <-. subst B.
  exists ti, col, tti, bc. split_and!; try done.
  - apply Hpub. intros Hb. by rewrite Hb in Hty.
  - unfold cell_ok in Hok. destruct (col_type col) eqn:Hct; try done.
    + left. split_and!; [done|done|].
      destruct (attr_test (col_attr col) col_attr_List); [|done].
      by destruct Hattr as [Ha _]; specialize (Ha eq_refl).
    + right. split_and!; [done|done|]. by apply Hattr.
Qed.

(** ** [Obj::nullify_link] *)

Lemma nullify_link_eq x c k g :
  Obj_nullify_link x c k g
  = match tables g !! x.1 with
    | Some ti =>
        match columns (t_spec ti) !! c with
        | Some col =>
            match nullify_pure x c (attr_test (col_attr col) col_attr_List) k g with
            | Some g' => Ok tt g'
            | None => Abort
            end
        | None => Abort
        end
    | None => Abort
    end.
Proof.
  unfold Obj_nullify_link, nullify_pure. rewrite bind_unfold, get_row_eq.
  destruct (objects g !! x) as [r|] eqn:Hr.
  2: { rewrite cell_at_invalid by (unfold valid_object; by rewrite Hr).
       destruct (tables g !! x.1); [|done]. by destruct (columns _ !! c). }
  mstep. change (tables (bump g)) with (tables g).
  destruct (tables g !! x.1) as [ti|]; [|done]. mstep.
  unfold get_column_attr.
  destruct (columns (t_spec ti) !! c) as [col|]; [|done]. simpl fmap. mstep.
  rewrite read_leaf_eq. change (cell_at (bump g) x c) with (cell_at g x c).
  destruct (cell_at g x c) as [cell|] eqn:Hc; [|done]. mred.
  destruct (attr_test (col_attr col) col_attr_List).
  - destruct cell; try done. mstep.
    destruct (ArrayKey_nullify l k) as [l'|]; [|done]. simpl. mred.
    rewrite write_leaf_eq. change (cell_at (bump g) x c) with (cell_at g x c).
    by rewrite Hc.
  - destruct cell; try done. mstep. destruct (k0 =? k); [|done]. mstep.
    rewrite write_leaf_eq. change (cell_at (bump g) x c) with (cell_at g x c).
    rewrite Hc. mstep. done.
Qed.

Lemma count_occ_single (a k : Z) :
  count_occ Z.eq_dec [a] k = if decide (a = k) then 1%nat else 0%nat.
Proof. simpl. destruct (Z.eq_dec a k); case_decide; done. Qed.

Lemma nullify_pure_Some x c is_list k g g' :
  k <> null_key ->
  nullify_pure x c is_list k g = Some g' ->
  same_shape g g'
  /\ (forall y j, backlinks_at g' y j = backlinks_at g y j)
  /\ (forall y j k', k' <> null_key ->
        (fwd g' y j k' + (if decide (y = x /\ j = c /\ k' = k) then 1 else 0)
         = fwd g y j k')%nat).
Proof.
  intros Hk. unfold nullify_pure.
  destruct (cell_at g x c) as [cell|] eqn:Hc; [|done].
  assert (Hc' : cell_at (bump g) x c = Some cell) by done.
  destruct cell; try done.
  - destruct is_list; [done|]. destruct (Z.eqb_spec k0 k) as [->|]; [|done].
    intros [= <-]. split_and!.
    + eapply same_shape_trans; [apply same_shape_bump|].
      eapply same_shape_trans; [|apply same_shape_emitted].
      by eapply same_shape_upd.
    + intros y j.
      change (backlinks_at (upd x c (CKey null_key) (bump g)) y j = backlinks_at g y j).
      by rewrite (backlinks_at_upd_link _ _ _ _ _ _ _ Hc').
    + intros y j k' Hk'. unfold fwd.
      change (links_at (emitted (repl_set_key x.1 c x.2 null_key instr_Set)
                          (upd x c (CKey null_key) (bump g))) y j)
        with (links_at (upd x c (CKey null_key) (bump g)) y j).
      rewrite (links_at_upd_link _ _ _ _ _ _ _ Hc').
      destruct (decide (y = x /\ j = c)) as [[-> ->]|Hne].
      * change (links_at (bump g) x c) with (links_at g x c).
        unfold links_at. rewrite Hc. simpl link_targets.
        rewrite !count_occ_single.
        repeat case_decide; try lia; naive_solver.
      * rewrite decide_False by naive_solver.
        change (links_at (bump g) y j) with (links_at g y j). lia.
  - destruct is_list; [|done]. unfold ArrayKey_nullify.
    destruct (remove_first k l) as [l'|] eqn:Hrem; [|done]. simpl.
    intros [= <-]. split_and!.
    + eapply same_shape_trans; [apply same_shape_bump|].
      by eapply same_shape_upd.
    + intros y j. by rewrite (backlinks_at_upd_link _ _ _ _ _ _ _ Hc').
    + intros y j k' Hk'. unfold fwd.
      rewrite (links_at_upd_link _ _ _ _ _ _ _ Hc').
      destruct (decide (y = x /\ j = c)) as [[-> ->]|Hne].
      * change (links_at (bump g) x c) with (links_at g x c).
        unfold links_at. rewrite Hc. simpl link_targets.
        rewrite (remove_first_count _ _ _ k' Hrem).
        repeat case_decide; try lia; naive_solver.
      * rewrite decide_False by naive_solver.
        change (links_at (bump g) y j) with (links_at g y j). lia.
Qed.

Lemma nullify_pure_is_Some x c k g ti col :
  wf_schema g -> wf_rows g ->
  tables g !! x.1 = Some ti -> columns (t_spec ti) !! c = Some col ->
  (0 < fwd g x c k)%nat ->
  is_Some (nullify_pure x c (attr_test (col_attr col) col_attr_List) k g).
Proof.
  intros Hs Hr Hti Hcol Hpos. unfold fwd, links_at in Hpos.
  destruct (cell_at g x c) as [cell|] eqn:Hc; [|simpl in Hpos; lia].
  assert (Hl : is_link_cell cell = true).
  { destruct cell; try done; simpl in Hpos; lia. }
  destruct (link_cell_column _ _ _ _ Hs Hr Hc Hl)
    as (ti' & col' & _ & _ & Hti' & Hcol' & _ & _ & _ & _ & Hcase).
  rewrite Hti in Hti'. injection Hti' as <-.
  rewrite Hcol in Hcol'. injection Hcol' as <-.
  unfold nullify_pure. rewrite Hc.
  destruct Hcase as [([key ->] & _ & ->)|((l & f & ->) & _ & ->)].
  - simpl in Hpos. destruct (Z.eq_dec key k) as [->|]; [|lia].
    rewrite Z.eqb_refl. eauto.
  - simpl in Hpos. unfold ArrayKey_nullify.
    destruct (remove_first_Some _ _ Hpos) as [l' ->]. simpl. eauto.
Qed.

Lemma remove_first_sublist k l l' : remove_first k l = Some l' -> sublist l' l.
Proof.
  revert l'. induction l as [|a l IH]; intros l'; simpl; [done|].
  destruct (a =? k).
  - intros [= <-]. by apply sublist_cons.
  - destruct (remove_first k l) as [r|]; [|done]. simpl. intros [= <-].
    apply sublist_skip. by apply IH.
Qed.

Lemma nullify_pure_lists x c is_list k g g' :
  nullify_pure x c is_list k g = Some g' -> lists_shrink g g'.
Proof.
  unfold nullify_pure. intros H y j l' f' Hc'.
  destruct (cell_at g x c) as [cell|] eqn:Hx; [|done].
  destruct cell; try done.
  - destruct is_list; [done|]. destruct (k0 =? k); [|done].
    injection H as <-.
    change (cell_at (upd x c (CKey null_key) (bump g)) y j
            = Some (CLinkList l' f')) in Hc'.
    rewrite cell_at_upd in Hc'. case_decide as Hd.
    + change (cell_at (bump g) x c) with (cell_at g x c) in Hc'.
      rewrite Hx in Hc'. done.
    + exists l', f'. done.
  - destruct is_list; [|done]. unfold ArrayKey_nullify in H.
    destruct (remove_first k l) as [r|] eqn:Hrem; [|done]. simpl in H.
    injection H as <-. rewrite cell_at_upd in Hc'. case_decide as Hd.
    + destruct Hd as [-> ->].
      change (cell_at (bump g) x c) with (cell_at g x c) in Hc'.
      rewrite Hx in Hc'. simpl in Hc'. injection Hc' as <- <-.
      eexists l, _. split; [done|]. by eapply remove_first_sublist.
    + exists l', f'. done.
Qed.

Lemma lists_shrink_refl g : lists_shrink g g.
Proof. intros y j l f Hc. eauto. Qed.

Lemma lists_shrink_trans g1 g2 g3 :
  lists_shrink g1 g2 -> lists_shrink g2 g3 -> lists_shrink g1 g3.
Proof.
  intros H1 H2 y j l3 f3 Hc3.
  destruct (H2 y j l3 f3 Hc3) as (l2 & f2 & Hc2 & Hs2).
  destruct (H1 y j l2 f2 Hc2) as (l1 & f1 & Hc1 & Hs1).
  exists l1, f1. split; [done|]. by etrans.
Qed.

Lemma lists_shrink_same_links g g' :
  same_shape g g' -> (forall y j, links_at g' y j = links_at g y j) ->
  lists_shrink g g'.
Proof.
  intros (_ & _ & Hsh) Hl y j l' f' Hc'.
  specialize (Hsh y j). rewrite Hc' in Hsh.
  apply option_Forall2_Some_r in Hsh as (v & Hc & Hleaf).
  destruct v as [| | | | | | | | | |l flag|]; try done.
  exists l, flag. split; [done|].
  specialize (Hl y j). unfold links_at in Hl. rewrite Hc, Hc' in Hl.
  simpl in Hl. by rewrite Hl.
Qed.

Lemma lists_shrink_erased x g : lists_shrink g (erased x g).
Proof.
  intros y j l' f' Hc'. rewrite cell_at_erased in Hc'.
  case_decide; [done|]. eauto.
Qed.

Lemma log_grows_refl g : log_grows g g.
Proof.
  exists []. destruct (replication g) as [log|]; simpl; [|done].
  by rewrite app_nil_r.
Qed.

Lemma log_grows_eq g g' : replication g' = replication g -> log_grows g g'.
Proof. intros H. unfold log_grows. rewrite H. apply log_grows_refl. Qed.

Lemma log_grows_trans g1 g2 g3 :
  log_grows g1 g2 -> log_grows g2 g3 -> log_grows g1 g3.
Proof.
  intros [m1 H1] [m2 H2]. exists (m1 ++ m2). rewrite H2, H1.
  destruct (replication g1) as [log|]; simpl; [|done]. by rewrite app_assoc.
Qed.

Lemma log_grows_emitted i g : log_grows g (emitted i g).
Proof. by exists [i]. Qed.

Lemma nullify_pure_log x c is_list k g g' :
  nullify_pure x c is_list k g = Some g' -> log_grows g g'.
Proof.
  unfold nullify_pure. intros H.
  destruct (cell_at g x c) as [cell|]; [|done].
  destruct cell; try done.
  - destruct is_list; [done|]. destruct (k0 =? k); [|done].
    injection H as <-. exists [repl_set_key x.1 c x.2 null_key instr_Set].
    simpl. by rewrite replication_upd.
  - destruct is_list; [|done].
    destruct (ArrayKey_nullify l k) as [l'|]; [|done]. simpl in H.
    injection H as <-. apply log_grows_eq. by rewrite replication_upd.
Qed.

(** ** The nullification loops *)

Lemma for_each_nil {A} (f : A -> M unit) g : for_each f [] g = Ok tt g.
Proof. reflexivity. Qed.

Lemma for_each_cons {A} (f : A -> M unit) a l g :
  for_each f (a :: l) g = match f a g with
                          | Ok _ g' => for_each f l g'
                          | Throw e g' => Throw e g'
                          | Abort => Abort
                          end.
Proof. reflexivity. Qed.

Lemma fold_each_nil {A S} (f : S -> A -> M S) s g : fold_each f s [] g = Ok s g.
Proof. reflexivity. Qed.

Lemma fold_each_cons {A S} (f : S -> A -> M S) s a l g :
  fold_each f s (a :: l) g = match f s a g with
                             | Ok s' g' => fold_each f s' l g'
                             | Throw e g' => Throw e g'
                             | Abort => Abort
                             end.
Proof. reflexivity. Qed.

(** Every origin listed in [L] drops one link to [kx] in column [c'] of
    table [A']. *)
Lemma nullify_loop A' c' kx ti col (L : list Z) g1 :
  wf_schema g1 -> wf_rows g1 -> kx <> null_key ->
  tables g1 !! A' = Some ti -> columns (t_spec ti) !! c' = Some col ->
  (forall o', (count_occ Z.eq_dec L o' <= fwd g1 (A', o') c' kx)%nat) ->
  exists g2,
    for_each (fun origin_key => Obj_nullify_link (A', origin_key) c' kx) L g1
      = Ok tt g2
    /\ same_shape g1 g2 /\ lists_shrink g1 g2 /\ log_grows g1 g2
    /\ (forall y j, backlinks_at g2 y j = backlinks_at g1 y j)
    /\ (forall y j k', k' <> null_key ->
          (fwd g2 y j k'
           + (if decide (y.1 = A' /\ j = c' /\ k' = kx)
              then count_occ Z.eq_dec L y.2 else 0)
           = fwd g1 y j k')%nat).
Proof.
  intros Hs Hr Hk Hti Hcol. revert g1 Hs Hr Hti.
  induction L as [|o' L IH]; intros g1 Hs Hr Hti Hpre.
  - exists g1. rewrite for_each_nil. split_and!; try done.
    + apply same_shape_refl.
    + apply lists_shrink_refl.
    + apply log_grows_refl.
    + intros y j k' _. simpl. case_decide; lia.
  - rewrite for_each_cons, nullify_link_eq. simpl fst. rewrite Hti, Hcol.
    destruct (nullify_pure_is_Some (A', o') c' kx g1 ti col Hs Hr Hti Hcol)
      as [g1' Hn].
    { specialize (Hpre o'). simpl in Hpre.
      destruct (Z.eq_dec o' o'); [lia|done]. }
    rewrite Hn.
    pose proof (nullify_pure_lists _ _ _ _ _ _ Hn) as Hls.
    pose proof (nullify_pure_log _ _ _ _ _ _ Hn) as Hlg.
    destruct (nullify_pure_Some _ _ _ _ _ _ Hk Hn) as (Hsh & Hbl & Hfw).
    destruct (IH g1') as (g2 & Hrun & Hsh2 & Hls2 & Hlg2 & Hbl2 & Hfw2).
    + eapply wf_schema_tables; [|done]. apply Hsh.
    + by eapply same_shape_wf_rows.
    + destruct Hsh as [-> _]. done.
    + intros o''. specialize (Hpre o''). specialize (Hfw (A', o'') c' kx Hk).
      simpl in Hpre. destruct (Z.eq_dec o' o'') as [->|Hne].
      * rewrite decide_True in Hfw by done. lia.
      * rewrite decide_False in Hfw by naive_solver. lia.
    + exists g2. split_and!; try done.
      * by eapply same_shape_trans.
      * by eapply lists_shrink_trans.
      * by eapply log_grows_trans.
      * intros y j. by rewrite Hbl2, Hbl.
      * intros y j k' Hk'. specialize (Hfw y j k' Hk'). specialize (Hfw2 y j k' Hk').
        simpl count_occ. destruct y as [yt yk]. simpl in *.
        destruct (Z.eq_dec o' yk); repeat case_decide; try lia; naive_solver.
Qed.

(** ** Removing an object: the links to it *)

#[local] Set Warnings "-clear-no-such-hyp".

Lemma backlink_column_mirror g B ti bc bcol :
  wf_schema g -> tables g !! B = Some ti ->
  columns (t_spec ti) !! bc = Some bcol -> col_type bcol = col_type_BackLink ->
  link_column g (col_opposite_table bcol) (col_opposite_col bcol) = Some (B, bc).
Proof.
  intros Hs Hti Hcol Hty. destruct (Hs _ _ Hti) as [_ Hcols].
  destruct (Hcols _ _ Hcol) as (_ & _ & Hb). by apply Hb.
Qed.

Lemma system_column_backlink g B ti bc bcol :
  wf_schema g -> tables g !! B = Some ti ->
  columns (t_spec ti) !! bc = Some bcol ->
  (get_public_column_count (t_spec ti) <= bc)%nat ->
  col_type bcol = col_type_BackLink.
Proof.
  intros Hs Hti Hcol Hge. destruct (Hs _ _ Hti) as [_ Hcols].
  destruct (Hcols _ _ Hcol) as (Hpub & _ & _).
  destruct (col_type bcol) eqn:Hty; try done;
    exfalso; assert (bc < get_public_column_count (t_spec ti))%nat
      by (by apply Hpub); lia.
Qed.

Lemma backlink_column_system g B ti bc bcol :
  wf_schema g -> tables g !! B = Some ti ->
  columns (t_spec ti) !! bc = Some bcol -> col_type bcol = col_type_BackLink ->
  (get_public_column_count (t_spec ti) <= bc < length (columns (t_spec ti)))%nat.
Proof.
  intros Hs Hti Hcol Hty. destruct (Hs _ _ Hti) as [_ Hcols].
  destruct (Hcols _ _ Hcol) as (Hpub & _ & _).
  apply lookup_lt_Some in Hcol. split; [|done].
  destruct (decide (bc < get_public_column_count (t_spec ti))%nat) as [Hlt|]; [|lia].
  apply Hpub in Hlt. done.
Qed.

Lemma same_shape_sym_tables g g' : same_shape g g' -> tables g' = tables g.
Proof. by intros [H _]. Qed.

Lemma same_shape_valid g g' x :
  same_shape g g' -> valid_object g' x = valid_object g x.
Proof. intros (_ & H & _). apply H. Qed.

Lemma same_shape_wf_schema g g' : same_shape g g' -> wf_schema g -> wf_schema g'.
Proof. intros [H _]. by apply wf_schema_tables. Qed.

Lemma same_shape_link_column g g' A c :
  same_shape g g' -> link_column g' A c = link_column g A c.
Proof. intros [H _]. by apply link_column_tables. Qed.

(** One backlink column of [x]: every origin listed there drops its links
    to [x]. *)
Lemma nullify_fwd_links_run g1 x bc tix bcol :
  wf_schema g1 -> wf_rows g1 -> valid_object g1 x = true ->
  tables g1 !! x.1 = Some tix -> columns (t_spec tix) !! bc = Some bcol ->
  col_type bcol = col_type_BackLink ->
  (forall o', (bl g1 x bc o'
               <= fwd g1 (col_opposite_table bcol, o') (col_opposite_col bcol) x.2)%nat) ->
  exists g2,
    nullify_fwd_links x bc g1 = Ok tt g2
    /\ same_shape g1 g2 /\ lists_shrink g1 g2 /\ log_grows g1 g2
    /\ (forall y j, backlinks_at g2 y j = backlinks_at g1 y j)
    /\ (forall y j k', k' <> null_key ->
          (fwd g2 y j k'
           + (if decide (y.1 = col_opposite_table bcol
                         /\ j = col_opposite_col bcol /\ k' = x.2)
              then bl g1 x bc y.2 else 0)
           = fwd g1 y j k')%nat).
Proof.
  intros Hs Hr Hv Hti Hcol Hty Hpre.
  destruct (wf_rows_column _ _ _ _ _ Hr Hv Hti Hcol) as (v & Hc & Hok).
  unfold cell_ok in Hok. rewrite Hty in Hok. destruct Hok as [L ->].
  destruct (Hr x Hv) as [Hx _].
  pose proof (backlink_column_mirror _ _ _ _ _ Hs Hti Hcol Hty) as Hlc.
  destruct (link_column_Some _ _ _ _ _ Hlc)
    as (ti' & col' & _ & _ & Hti' & Hcol' & _).
  assert (HL : backlinks_at g1 x bc = L) by (unfold backlinks_at; by rewrite Hc).
  destruct (nullify_loop (col_opposite_table bcol) (col_opposite_col bcol) x.2
              ti' col' L g1 Hs Hr Hx Hti' Hcol') as (g2 & Hrun & Hrest).
  { intros o'. specialize (Hpre o'). unfold bl in Hpre. by rewrite HL in Hpre. }
  exists g2. split; [|unfold bl; by rewrite HL].
  unfold nullify_fwd_links. mstep. rewrite Hti. mstep. rewrite Hcol. mstep.
  rewrite read_leaf_eq, Hc. mred. exact Hrun.
Qed.

(** All backlink columns of [x]: afterwards nothing refers to [x]. *)
Lemma nullify_all_loop g x tix rest g0 :
  Inv g -> valid_object g x = true -> tables g !! x.1 = Some tix ->
  NoDup rest ->
  (forall bc, bc ∈ rest ->
     (get_public_column_count (t_spec tix) <= bc < length (columns (t_spec tix)))%nat) ->
  same_shape g g0 ->
  (forall y j, backlinks_at g0 y j = backlinks_at g y j) ->
  (forall A c B bc o k, link_column g A c = Some (B, bc) -> k <> null_key ->
     fwd g0 (A, o) c k
     = if decide ((B, k) = x /\ bc ∉ rest) then 0%nat else fwd g (A, o) c k) ->
  exists g1,
    for_each (nullify_fwd_links x) rest g0 = Ok tt g1
    /\ same_shape g0 g1 /\ lists_shrink g0 g1 /\ log_grows g0 g1
    /\ (forall y j, backlinks_at g1 y j = backlinks_at g0 y j)
    /\ (forall A c B bc o k, link_column g A c = Some (B, bc) -> k <> null_key ->
          fwd g1 (A, o) c k
          = if decide ((B, k) = x) then 0%nat else fwd g (A, o) c k).
Proof.
  intros (Hs & Hr & Hb) Hv Hti. revert g0.
  induction rest as [|bc0 rest IH]; intros g0 Hnd Hrange Hsh Hbl Hfw.
  - exists g0. rewrite for_each_nil. split_and!; try done.
    + apply same_shape_refl.
    + apply lists_shrink_refl.
    + apply log_grows_refl.
    + intros A c B bc o k Hlc Hk. rewrite (Hfw _ _ _ _ _ _ Hlc Hk).
      destruct (decide ((B, k) = x)) as [Heq|Hne].
      * rewrite decide_True; [done|]. split; [done|]. apply not_elem_of_nil.
      * rewrite decide_False; [done|]. naive_solver.
  - apply NoDup_cons in Hnd as [Hnotin Hnd].
    destruct (Hrange bc0 ltac:(left)) as [Hge Hlt].
    destruct (lookup_lt_is_Some_2 _ _ Hlt) as [bcol Hcol].
    pose proof (system_column_backlink _ _ _ _ _ Hs Hti Hcol Hge) as Hty.
    pose proof (backlink_column_mirror _ _ _ _ _ Hs Hti Hcol Hty) as Hlc0.
    destruct (Hr x Hv) as [Hx _].
    assert (Hs0 : wf_schema g0) by (by eapply same_shape_wf_schema).
    assert (Hr0 : wf_rows g0) by (by eapply same_shape_wf_rows).
    assert (Hti0 : tables g0 !! x.1 = Some tix)
      by (by rewrite (same_shape_sym_tables _ _ Hsh)).
    destruct (nullify_fwd_links_run g0 x bc0 tix bcol Hs0 Hr0)
      as (g0' & Hrun & Hsh' & Hls' & Hlg' & Hbl' & Hfw'); try done.
    { by rewrite (same_shape_valid _ _ _ Hsh). }
    { intros o'. unfold bl. rewrite Hbl. fold (bl g x bc0 o').
      pose proof (Hb _ _ _ _ o' _ Hlc0 Hx) as Hbo.
      rewrite <- surjective_pairing in Hbo. rewrite <- Hbo.
      rewrite (Hfw _ _ _ _ o' _ Hlc0 Hx).
      rewrite decide_False; [done|]. intros [_ Hn]. apply Hn. by left. }
    destruct (IH g0') as (g1 & Hrun1 & Hsh1 & Hls1 & Hlg1 & Hbl1 & Hfw1); try done.
    + intros bc Hin. apply Hrange. by right.
    + by eapply same_shape_trans.
    + intros y j. by rewrite Hbl', Hbl.
    + intros A c B bc o k Hlc Hk.
      specialize (Hfw' (A, o) c k Hk). simpl in Hfw'.
      specialize (Hfw _ _ _ _ o _ Hlc Hk).
      assert (Hblg : bl g0 x bc0 o = bl g x bc0 o) by (unfold bl; by rewrite Hbl).
      destruct (decide ((B, k) = x /\ bc ∉ rest)) as [[Hxk Hnr]|Hno].
      * destruct (decide (bc = bc0)) as [->|Hne].
        -- subst x. simpl in *.
           destruct (link_column_inj _ _ _ _ _ _ _ Hlc Hlc0) as [-> ->].
           rewrite decide_True in Hfw' by done.
           rewrite decide_False in Hfw.
           2: { intros [_ Hn]. apply Hn. by left. }
           rewrite (Hb _ _ _ _ o _ Hlc0 Hk) in Hfw. lia.
        -- rewrite decide_True in Hfw.
           2: { split; [done|]. rewrite not_elem_of_cons. done. }
           lia.
      * assert (Hcond : ~ ((B, k) = x /\ bc ∉ bc0 :: rest)).
        { intros [Hxk Hn]. apply Hno. split; [done|].
          rewrite not_elem_of_cons in Hn. tauto. }
        rewrite decide_False in Hfw by done.
        rewrite decide_False in Hfw'; [lia|].
        intros (-> & -> & ->). rewrite Hlc0 in Hlc. injection Hlc as <- <-.
        apply Hno. split; [by destruct x|done].
    + exists g1. rewrite for_each_cons, Hrun. split_and!; try done.
      * by eapply same_shape_trans.
      * by eapply lists_shrink_trans.
      * by eapply log_grows_trans.
      * intros y j. by rewrite Hbl1, Hbl'.
Qed.

Lemma nullify_all g x tix :
  Inv g -> valid_object g x = true -> tables g !! x.1 = Some tix ->
  exists g1,
    for_each (nullify_fwd_links x)
      (seq (get_public_column_count (t_spec tix))
           (length (columns (t_spec tix)) - get_public_column_count (t_spec tix))) g
    = Ok tt g1
    /\ same_shape g g1 /\ lists_shrink g g1 /\ log_grows g g1
    /\ (forall y j, backlinks_at g1 y j = backlinks_at g y j)
    /\ (forall A c B bc o k, link_column g A c = Some (B, bc) -> k <> null_key ->
          fwd g1 (A, o) c k
          = if decide ((B, k) = x) then 0%nat else fwd g (A, o) c k).
Proof.
  intros HI Hv Hti. destruct HI as (Hs & Hr & Hb).
  apply (nullify_all_loop g x tix _ g); try done.
  - apply NoDup_seq.
  - intros bc Hin. apply elem_of_seq in Hin. lia.
  - apply same_shape_refl.
  - intros A c B bc o k Hlc Hk. rewrite decide_False; [done|].
    intros [Hx Hn]. apply Hn. apply elem_of_seq.
    destruct (link_column_Some _ _ _ _ _ Hlc)
      as (_ & _ & tti & bcol & _ & _ & _ & _ & Htt & _ & Hbcol & Hbty & _).
    subst x. simpl in Hti. rewrite Hti in Htt. injection Htt as <-.
    pose proof (backlink_column_system g B tix bc bcol Hs Hti Hbcol Hbty). lia.
Qed.

(** ** Removing an object: the links it holds *)

Lemma bl_pos_cell g y bc o :
  (0 < bl g y bc o)%nat ->
  exists l, cell_at g y bc = Some (CBacklink l)
            /\ (0 < count_occ Z.eq_dec l o)%nat.
Proof.
  unfold bl, backlinks_at. destruct (cell_at g y bc) as [[]|]; simpl; try lia.
  eauto.
Qed.

Lemma update_backlinks_pure_remove_is_Some o B bc strong old st g :
  (old <> null_key -> (0 < bl g (B, old) bc o.2)%nat) ->
  is_Some (update_backlinks_pure o B (Some bc) strong old null_key st g).
Proof.
  intros Hpos. unfold update_backlinks_pure. simpl mbind.
  destruct (Z.eqb_spec old null_key) as [Hold|Hold]; simpl; [eauto|].
  destruct (bl_pos_cell _ _ _ _ (Hpos Hold)) as (l & Hc & Hl).
  destruct (remove_backlink_pure_is_Some _ _ _ _ _ Hc Hl) as [g1 ->]. simpl.
  destruct (strong && _); simpl; eauto.
Qed.

Lemma bl_le_backlink_count g y bc o : (bl g y bc o <= backlink_count g y bc)%nat.
Proof. unfold bl, backlink_count. apply count_occ_bound. Qed.

(** The links of one column of [x]: each target loses one backlink for
    [x]; a target whose count in a strong column reaches zero is queued. *)
Lemma remove_backlinks_keys x c ti col tti bc (L : list Z) :
  forall st g0,
  tables g0 !! x.1 = Some ti -> columns (t_spec ti) !! c = Some col ->
  tables g0 !! col_opposite_table col = Some tti ->
  find_backlink_column (t_spec tti) x.1 c = Some bc ->
  (forall k, k <> null_key ->
     (count_occ Z.eq_dec L k <= bl g0 (col_opposite_table col, k) bc x.2)%nat) ->
  exists st' g' new,
    fold_each (fun st key =>
                 r <- Obj_update_backlinks x c key null_key st ;; ret r.2)
              st L g0 = Ok st' g'
    /\ same_shape g0 g' /\ replication g' = replication g0
    /\ (forall y j, links_at g' y j = links_at g0 y j)
    /\ (forall y j o',
          (bl g' y j o'
           + (if decide (y.1 = col_opposite_table col /\ j = bc /\ o' = x.2
                         /\ y.2 <> null_key)
              then count_occ Z.eq_dec L y.2 else 0)
           = bl g0 y j o')%nat)
    /\ (forall y j,
          (backlink_count g' y j
           + (if decide (y.1 = col_opposite_table col /\ j = bc /\ y.2 <> null_key)
              then count_occ Z.eq_dec L y.2 else 0)
           = backlink_count g0 y j)%nat)
    /\ st' = mkCascade (m_mode st) (m_to_be_deleted st ++ new)
    /\ (forall y, y ∈ new ->
          y.1 = col_opposite_table col
          /\ attr_test (col_attr col) col_attr_StrongLinks = true
          /\ (0 < backlink_count g0 y bc)%nat)
    /\ (forall y, y.1 = col_opposite_table col ->
          attr_test (col_attr col) col_attr_StrongLinks = true ->
          (0 < backlink_count g0 y bc)%nat -> backlink_count g' y bc = 0%nat ->
          y ∈ new).
Proof.
  induction L as [|k L IH]; intros st g0 Hti Hcol Htt Hbc Hpre.
  - exists st, g0, []. rewrite fold_each_nil. split_and!; try done.
    + apply same_shape_refl.
    + intros y j o'. simpl. case_decide; lia.
    + intros y j. simpl. case_decide; lia.
    + rewrite app_nil_r. by destruct st.
    + intros y Hin. by apply elem_of_nil in Hin.
    + intros y _ _ Hp Hz. lia.
  - rewrite fold_each_cons, bind_unfold, update_backlinks_eq.
    rewrite Hti, Hcol, Htt, Hbc.
    destruct (update_backlinks_pure_remove_is_Some x (col_opposite_table col) bc
                (attr_test (col_attr col) col_attr_StrongLinks) k st g0)
      as [[[r st1] g1] Hu].
    { intros Hk. specialize (Hpre k Hk). simpl in Hpre.
      destruct (Z.eq_dec k k); [lia|done]. }
    rewrite Hu. mstep.
    apply update_backlinks_pure_Some in Hu
      as (Hsh & Hrep & Hl & Hcnt & _ & _ & Hst & Hr).
    assert (Hsimp : forall y j,
      (backlink_count g1 y j
       + (if decide (k <> null_key /\ y = (col_opposite_table col, k) /\ j = bc)
          then 1 else 0) = backlink_count g0 y j)%nat
      /\ forall o',
         (bl g1 y j o'
          + (if decide (k <> null_key /\ y = (col_opposite_table col, k)
                        /\ j = bc /\ o' = x.2) then 1 else 0)
          = bl g0 y j o')%nat).
    { intros y j. destruct (Hcnt y j) as [H1 H2]. split; [|intros o'; specialize (H2 o')].
      - rewrite (decide_False (P := null_key <> null_key /\ _)) in H1 by tauto. lia.
      - rewrite (decide_False (P := null_key <> null_key /\ _)) in H2 by tauto. lia. }
    clear Hcnt.
    destruct (IH st1 g1) as (st' & g' & new & Hrun & Hsh' & Hrep' & Hl' & Hbl'
                             & Hcnt' & Hst' & Hnew1 & Hnew2).
    + by rewrite (same_shape_sym_tables _ _ Hsh).
    + done.
    + by rewrite (same_shape_sym_tables _ _ Hsh).
    + done.
    + intros k' Hk'. specialize (Hpre k' Hk'). simpl in Hpre.
      destruct (Hsimp (col_opposite_table col, k') bc) as [_ H2].
      specialize (H2 x.2).
      destruct (Z.eq_dec k k') as [->|Hne].
      * rewrite decide_True in H2 by done. lia.
      * rewrite decide_False in H2 by naive_solver. lia.
    + exists st', g', ((if r then [(col_opposite_table col, k)] else []) ++ new).
      split; [exact Hrun|]. split_and!.
      * by eapply same_shape_trans.
      * congruence.
      * intros y j. by rewrite Hl', Hl.
      * intros y j o'. specialize (Hbl' y j o').
        destruct (Hsimp y j) as [_ H2]. specialize (H2 o').
        simpl count_occ. destruct y as [yt yk]. simpl in *.
        destruct (Z.eq_dec k yk); repeat case_decide; try lia; naive_solver.
      * intros y j. specialize (Hcnt' y j).
        destruct (Hsimp y j) as [H1 _].
        simpl count_occ. destruct y as [yt yk]. simpl in *.
        destruct (Z.eq_dec k yk); repeat case_decide; try lia; naive_solver.
      * rewrite Hst', Hst. destruct r; simpl; [|done].
        by rewrite <- app_assoc.
      * intros y Hin. apply elem_of_app in Hin as [Hin|Hin].
        -- destruct r; [|by apply elem_of_nil in Hin].
           apply list_elem_of_singleton in Hin as ->. symmetry in Hr.
           apply andb_true_iff in Hr as [Hr1 Hr3].
           apply andb_true_iff in Hr1 as [Hr1 Hr2].
           apply Nat.eqb_eq in Hr3. split_and!; [done|done|lia].
        -- destruct (Hnew1 y Hin) as (H1 & H2 & H3). split_and!; [done|done|].
           destruct (Hsimp y bc) as [Hc _]. lia.
      * intros y Hy Hstrong Hpos Hz. apply elem_of_app.
        destruct (decide (0 < backlink_count g1 y bc)%nat) as [Hp1|Hp1].
        -- right. by apply Hnew2.
        -- left. destruct (Hsimp y bc) as [Hc _].
           destruct (decide (k <> null_key /\ y = (col_opposite_table col, k)
                             /\ bc = bc)) as [(Hk & -> & _)|]; [|lia].
           assert (r = true) as ->.
           { rewrite Hr, Hstrong.
             destruct (Z.eqb_spec k null_key); [done|]. simpl.
             apply Nat.eqb_eq. lia. }
           by apply list_elem_of_singleton.
Qed.

Lemma link_column_None_type g A c ti col :
  tables g !! A = Some ti -> columns (t_spec ti) !! c = Some col ->
  is_link_type (col_type col) = false -> link_column g A c = None.
Proof. intros Hti Hcol Hty. unfold link_column. rewrite Hti. simpl. rewrite Hcol. simpl. by rewrite Hty. Qed.

Lemma strong_backlink_column_intro g A c B bc ti col :
  link_column g A c = Some (B, bc) -> tables g !! A = Some ti ->
  columns (t_spec ti) !! c = Some col ->
  attr_test (col_attr col) col_attr_StrongLinks = true ->
  strong_backlink_column g B bc.
Proof. intros. exists A, c, ti, col. done. Qed.

Lemma strong_backlink_column_elim g A c B bc ti col :
  strong_backlink_column g B bc ->
  link_column g A c = Some (B, bc) -> tables g !! A = Some ti ->
  columns (t_spec ti) !! c = Some col ->
  attr_test (col_attr col) col_attr_StrongLinks = true.
Proof.
  intros (A' & c' & ti' & col' & Hlc' & Hti' & Hcol' & Hs) Hlc Hti Hcol.
  destruct (link_column_inj _ _ _ _ _ _ _ Hlc Hlc') as [-> ->].
  congruence.
Qed.

(** One public column of [x]. *)
Lemma remove_backlinks_col g x tix c0 st g0 :
  wf_schema g -> tables g !! x.1 = Some tix ->
  tables g0 = tables g -> wf_rows g0 -> valid_object g0 x = true ->
  (c0 < length (columns (t_spec tix)))%nat ->
  (forall B bc k, link_column g x.1 c0 = Some (B, bc) -> k <> null_key ->
     (fwd g0 x c0 k <= bl g0 (B, k) bc x.2)%nat) ->
  exists st' g' new,
    remove_backlinks x st c0 g0 = Ok st' g'
    /\ same_shape g0 g' /\ replication g' = replication g0
    /\ (forall y j, links_at g' y j = links_at g0 y j)
    /\ (forall y j o',
          (bl g' y j o'
           + (if decide (link_column g x.1 c0 = Some (y.1, j) /\ o' = x.2
                         /\ y.2 <> null_key)
              then fwd g0 x c0 y.2 else 0)
           = bl g0 y j o')%nat)
    /\ (forall y j,
          (backlink_count g' y j
           + (if decide (link_column g x.1 c0 = Some (y.1, j) /\ y.2 <> null_key)
              then fwd g0 x c0 y.2 else 0)
           = backlink_count g0 y j)%nat)
    /\ st' = mkCascade (m_mode st) (m_to_be_deleted st ++ new)
    /\ (forall y, y ∈ new ->
          exists bc, strong_backlink_column g y.1 bc
                     /\ (0 < backlink_count g0 y bc)%nat)
    /\ (forall y bc, strong_backlink_column g y.1 bc ->
          (0 < backlink_count g0 y bc)%nat -> backlink_count g' y bc = 0%nat ->
          y ∈ new).
Proof.
  intros Hs Hti Htab Hr0 Hv Hlt Hpre.
  destruct (lookup_lt_is_Some_2 _ _ Hlt) as [col Hcol].
  assert (Hti0 : tables g0 !! x.1 = Some tix) by (by rewrite Htab).
  unfold remove_backlinks. mstep. rewrite Hti0. mstep.
  unfold get_column_type. rewrite Hcol. simpl fmap. mstep.
  destruct (is_link_type (col_type col)) eqn:Hty.
  - destruct (Hs _ _ Hti) as [_ Hcols].
    destruct (Hcols _ _ Hcol) as (_ & Hlink & _).
    destruct (Hlink Hty) as [[[B bc] Hlc] _].
    destruct (link_column_Some _ _ _ _ _ Hlc)
      as (ti' & col' & tti & bcol & Hti' & Hcol' & _ & HB & Htt & Hf & _).
    rewrite Hti in Hti'. injection Hti' as <-.
    rewrite Hcol in Hcol'. injection Hcol' as <-. subst B.
    destruct (wf_rows_column _ _ _ _ _ Hr0 Hv Hti0 Hcol) as (v & Hc & Hok).
    assert (HL : links_at g0 x c0 = link_targets v)
      by (unfold links_at; by rewrite Hc).
    destruct (remove_backlinks_keys x c0 tix col tti bc (link_targets v) st g0)
      as (st' & g' & new & Hrun & Hsh & Hrep & Hl & Hbl & Hcnt & Hst & Hn1 & Hn2);
      try done.
    { by rewrite Htab. }
    { intros k Hk. specialize (Hpre _ _ k Hlc Hk). unfold fwd in Hpre.
      by rewrite HL in Hpre. }
    exists st', g', new. split.
    { assert (Hgoal : (c <- read_leaf x c0;;
                       fold_each (fun st0 key =>
                                    r <- Obj_update_backlinks x c0 key null_key st0;;
                                    ret r.2) st (link_targets c)) g0 = Ok st' g').
      { rewrite bind_unfold, read_leaf_eq, Hc. exact Hrun. }
      destruct (col_type col); try done. }
    split_and!; try done.
    + intros y j o'. specialize (Hbl y j o'). unfold fwd. rewrite HL.
      destruct y as [yt yk]. simpl in *.
      repeat case_decide; try lia; naive_solver.
    + intros y j. specialize (Hcnt y j). unfold fwd. rewrite HL.
      destruct y as [yt yk]. simpl in *.
      repeat case_decide; try lia; naive_solver.
    + intros y Hin. destruct (Hn1 y Hin) as (Hy & Hstr & Hpos).
      exists bc. split; [|done]. rewrite Hy.
      by eapply strong_backlink_column_intro.
    + intros y bc' Hstr Hpos Hz.
      specialize (Hcnt y bc').
      destruct (decide (y.1 = col_opposite_table col /\ bc' = bc /\ y.2 <> null_key))
        as [(Hy & -> & _)|]; [|lia].
      apply Hn2; try done.
      rewrite Hy in Hstr. by eapply strong_backlink_column_elim.
  - pose proof (link_column_None_type _ _ _ _ _ Hti Hcol Hty) as Hnone.
    exists st, g0, []. split.
    { destruct (col_type col); try done. }
    split_and!; try done.
    + apply same_shape_refl.
    + intros y j o'. rewrite Hnone. rewrite decide_False by naive_solver. lia.
    + intros y j. rewrite Hnone. rewrite decide_False by naive_solver. lia.
    + rewrite app_nil_r. by destruct st.
    + intros y Hin. by apply elem_of_nil in Hin.
    + intros y bc _ Hp Hz. lia.
Qed.

(** All public columns of [x]. *)
Lemma remove_backlinks_cols g x tix rest :
  wf_schema g -> tables g !! x.1 = Some tix ->
  NoDup rest -> (forall c, c ∈ rest -> (c < length (columns (t_spec tix)))%nat) ->
  forall st g0,
  tables g0 = tables g -> wf_rows g0 -> valid_object g0 x = true ->
  (forall c B bc k, c ∈ rest -> link_column g x.1 c = Some (B, bc) ->
     k <> null_key -> (fwd g0 x c k <= bl g0 (B, k) bc x.2)%nat) ->
  exists st' g' new,
    fold_each (remove_backlinks x) st rest g0 = Ok st' g'
    /\ same_shape g0 g' /\ replication g' = replication g0
    /\ (forall y j, links_at g' y j = links_at g0 y j)
    /\ (forall A c B bc o k, link_column g A c = Some (B, bc) ->
          (bl g' (B, k) bc o
           + (if decide ((A, o) = x /\ c ∈ rest /\ k <> null_key)
              then fwd g0 x c k else 0)
           = bl g0 (B, k) bc o)%nat)
    /\ (forall y j, (backlink_count g' y j <= backlink_count g0 y j)%nat)
    /\ st' = mkCascade (m_mode st) (m_to_be_deleted st ++ new)
    /\ (forall y, y ∈ new ->
          exists bc, strong_backlink_column g y.1 bc
                     /\ (0 < backlink_count g0 y bc)%nat)
    /\ (forall y bc, strong_backlink_column g y.1 bc ->
          (0 < backlink_count g0 y bc)%nat -> backlink_count g' y bc = 0%nat ->
          y ∈ new).
Proof.
  intros Hs Hti. induction rest as [|c0 rest IH];
    intros Hnd Hrange st g0 Htab Hr0 Hv Hpre.
  - exists st, g0, []. rewrite fold_each_nil. split_and!; try done.
    + apply same_shape_refl.
    + intros A c B bc o k _. rewrite decide_False; [lia|].
      intros (_ & Hin & _). by apply elem_of_nil in Hin.
    + rewrite app_nil_r. by destruct st.
    + intros y Hin. by apply elem_of_nil in Hin.
    + intros y bc _ Hp Hz. lia.
  - apply NoDup_cons in Hnd as [Hnotin Hnd].
    destruct (remove_backlinks_col g x tix c0 st g0 Hs Hti Htab Hr0 Hv)
      as (st1 & g1 & new1 & Hrun1 & Hsh1 & Hrep1 & Hl1 & Hbl1 & Hcnt1 & Hst1
          & Hn11 & Hn12).
    { apply Hrange. by left. }
    { intros B bc k. apply Hpre. by left. }
    destruct (IH Hnd) with (st := st1) (g0 := g1)
      as (st' & g' & new & Hrun & Hsh & Hrep & Hl & Hbl & Hcnt & Hst & Hn1 & Hn2).
    + intros c Hin. apply Hrange. by right.
    + by rewrite (same_shape_sym_tables _ _ Hsh1).
    + by eapply same_shape_wf_rows.
    + by rewrite (same_shape_valid _ _ _ Hsh1).
    + intros c B bc k Hin Hlc Hk. unfold fwd. rewrite Hl1. fold (fwd g0 x c k).
      specialize (Hbl1 (B, k) bc x.2). simpl in Hbl1.
      rewrite decide_False in Hbl1.
      2: { intros (Hlc0 & _). 
           destruct (link_column_inj _ _ _ _ _ _ _ Hlc Hlc0) as [_ ->]. done. }
      rewrite Nat.add_0_r in Hbl1. rewrite Hbl1. apply Hpre; [by right|done|done].
    + exists st', g', (new1 ++ new). rewrite fold_each_cons, Hrun1.
      split; [exact Hrun|]. split_and!.
      * by eapply same_shape_trans.
      * congruence.
      * intros y j. by rewrite Hl, Hl1.
      * intros A c B bc o k Hlc.
        specialize (Hbl A c B bc o k Hlc).
        specialize (Hbl1 (B, k) bc o). simpl in Hbl1.
        assert (Hfw : fwd g1 x c k = fwd g0 x c k) by (unfold fwd; by rewrite Hl1).
        rewrite Hfw in Hbl.
        destruct (decide (link_column g x.1 c0 = Some (B, bc))) as [Hlc0|Hlc0].
        -- destruct (link_column_inj _ _ _ _ _ _ _ Hlc Hlc0) as [-> ->].
           rewrite (decide_False (P := _ /\ c0 ∈ rest /\ _)) in Hbl by tauto.
           destruct (decide (o = x.2 /\ k <> null_key)) as [[-> Hk]|Hno].
           ++ rewrite decide_True in Hbl1 by done.
              rewrite decide_True; [lia|].
              split_and!; [by destruct x|by left|done].
           ++ rewrite decide_False in Hbl1 by tauto.
              rewrite decide_False; [lia|].
              intros (Hx & _ & Hk). apply Hno. split; [|done]. by rewrite <- Hx.
        -- rewrite (decide_False (P := link_column _ _ _ = _ /\ _)) in Hbl1 by tauto.
           destruct (decide ((A, o) = x /\ c ∈ rest /\ k <> null_key))
             as [(Hx & Hin & Hk)|Hno].
           ++ rewrite decide_True; [lia|]. split_and!; [done|by right|done].
           ++ rewrite decide_False; [lia|].
              intros (Hx & Hin & Hk). apply elem_of_cons in Hin as [->|Hin]; [|tauto].
              apply Hlc0. subst x. exact Hlc.
      * intros y j. specialize (Hcnt y j). specialize (Hcnt1 y j). lia.
      * rewrite Hst, Hst1. simpl. by rewrite <- app_assoc.
      * intros y Hin. apply elem_of_app in Hin as [Hin|Hin]; [by apply Hn11|].
        destruct (Hn1 y Hin) as (bc & Hstr & Hpos). exists bc. split; [done|].
        specialize (Hcnt1 y bc). lia.
      * intros y bc Hstr Hpos Hz. apply elem_of_app.
        destruct (decide (0 < backlink_count g1 y bc)%nat) as [Hp1|Hp1].
        -- right. by eapply Hn2.
        -- left. eapply Hn12; [done|done|lia].
Qed.

(** ** [Table::remove_object] *)

Lemma links_at_erased x g y j :
  links_at (erased x g) y j = if decide (y = x) then [] else links_at g y j.
Proof. unfold links_at. rewrite cell_at_erased. by case_decide. Qed.

Lemma backlinks_at_erased x g y j :
  backlinks_at (erased x g) y j = if decide (y = x) then [] else backlinks_at g y j.
Proof. unfold backlinks_at. rewrite cell_at_erased. by case_decide. Qed.

Lemma link_column_public g A c B bc ti :
  wf_schema g -> link_column g A c = Some (B, bc) -> tables g !! A = Some ti ->
  (c < get_public_column_count (t_spec ti))%nat.
Proof.
  intros Hs Hlc Hti.
  destruct (link_column_Some _ _ _ _ _ Hlc)
    as (ti' & col & _ & _ & Hti' & Hcol & Hty & _).
  rewrite Hti in Hti'. injection Hti' as <-.
  destruct (Hs _ _ Hti) as [_ Hcols].
  destruct (Hcols _ _ Hcol) as (Hpub & _ & _).
  apply Hpub. intros Hb. by rewrite Hb in Hty.
Qed.

Lemma remove_object_spec g x st :
  Inv g -> valid_object g x = true ->
  exists st' g' new,
    Table_remove_object x st g = Ok st' g'
    /\ Inv g' /\ tables g' = tables g
    /\ (forall y, valid_object g' y
                  = if decide (y = x) then false else valid_object g y)
    /\ lists_shrink g g' /\ log_grows g g'
    /\ (forall y j, (backlink_count g' y j <= backlink_count g y j)%nat)
    /\ st' = mkCascade (m_mode st) (m_to_be_deleted st ++ new)
    /\ (forall y, y ∈ new ->
          exists bc, strong_backlink_column g y.1 bc
                     /\ (0 < backlink_count g y bc)%nat)
    /\ (forall y bc, y <> x -> strong_backlink_column g y.1 bc ->
          (0 < backlink_count g y bc)%nat -> backlink_count g' y bc = 0%nat ->
          y ∈ new).
Proof.
  intros HI Hv. pose proof HI as (Hs & Hr & Hb).
  destruct (Hr x Hv) as (Hx & tix & Hti & _).
  destruct (Hs _ _ Hti) as [Hple _].
  destruct (nullify_all g x tix HI Hv Hti)
    as (g1 & Hrun1 & Hsh1 & Hls1 & Hlg1 & Hbl1 & Hfw1).
  assert (Htab1 : tables g1 = tables g) by (by apply same_shape_sym_tables).
  assert (Hr1 : wf_rows g1) by (by eapply same_shape_wf_rows).
  assert (Hv1 : valid_object g1 x = true) by (by rewrite (same_shape_valid _ _ _ Hsh1)).
  destruct (remove_backlinks_cols g x tix
              (seq 0 (get_public_column_count (t_spec tix))) Hs Hti)
    with (st := st) (g0 := g1)
    as (st' & g2 & new & Hrun2 & Hsh2 & Hrep2 & Hl2 & Hbl2 & Hcnt2 & Hst & Hn1 & Hn2);
    try done.
  { apply NoDup_seq. }
  { intros c Hin. apply elem_of_seq in Hin. lia. }
  { intros c B bc k _ Hlc Hk.
    pose proof (Hfw1 _ _ _ _ x.2 _ Hlc Hk) as Hf.
    rewrite <- surjective_pairing in Hf. rewrite Hf.
    case_decide; [lia|].
    unfold bl. rewrite Hbl1. fold (bl g (B, k) bc x.2).
    pose proof (Hb _ _ _ _ x.2 _ Hlc Hk) as Hbal.
    rewrite <- surjective_pairing in Hbal. by rewrite Hbal. }
  assert (Hcnt1 : forall y j, backlink_count g1 y j = backlink_count g y j).
  { intros y j. unfold backlink_count. by rewrite Hbl1. }
  exists st', (erased x g2), new. split.
  { unfold Table_remove_object. mstep. rewrite Hti. mstep.
    rewrite get_row_eq. apply valid_object_Some in Hv as [r Hrow]. rewrite Hrow.
    mstep. rewrite Hrun1. mstep. rewrite Hrun2. mstep. done. }
  assert (Hval : forall y, valid_object (erased x g2) y
                           = if decide (y = x) then false else valid_object g y).
  { intros y. rewrite valid_erased. case_decide; [done|].
    by rewrite (same_shape_valid _ _ _ Hsh2), (same_shape_valid _ _ _ Hsh1). }
  assert (Htab : tables (erased x g2) = tables g).
  { change (tables g2 = tables g).
    by rewrite (same_shape_sym_tables _ _ Hsh2). }
  split_and!; try done.
  - split_and!.
    + by apply (wf_schema_tables g).
    + assert (Hr2 : wf_rows g2) by (by eapply same_shape_wf_rows).
      intros y Hy. rewrite valid_erased in Hy.
      destruct (decide (y = x)) as [|Hne]; [done|].
      destruct (Hr2 y Hy) as (Hyn & ti & Hyt & Hcells).
      split; [done|]. exists ti. split; [done|].
      intros j. rewrite cell_at_erased. rewrite decide_False by done. apply Hcells.
    + intros A c B bc o k Hlc Hk.
      rewrite (link_column_tables g) in Hlc by done.
      assert (Hf3 : fwd (erased x g2) (A, o) c k
                    = if decide ((A, o) = x) then 0%nat else fwd g1 (A, o) c k).
      { unfold fwd. rewrite links_at_erased, Hl2.
        destruct (decide ((A, o) = x)); reflexivity. }
      assert (Hb3 : bl (erased x g2) (B, k) bc o
                    = if decide ((B, k) = x) then 0%nat else bl g2 (B, k) bc o).
      { unfold bl. rewrite backlinks_at_erased.
        destruct (decide ((B, k) = x)); reflexivity. }
      rewrite Hf3, Hb3. clear Hf3 Hb3.
      specialize (Hfw1 _ _ _ _ o _ Hlc Hk).
      specialize (Hbl2 _ _ _ _ o k Hlc).
      assert (Hblg : bl g1 (B, k) bc o = bl g (B, k) bc o)
        by (unfold bl; by rewrite Hbl1).
      specialize (Hb _ _ _ _ o _ Hlc Hk).
      destruct (decide ((B, k) = x)) as [HBx|HBx].
      * destruct (decide ((A, o) = x)); [done|]. simpl. lia.
      * destruct (decide ((A, o) = x)) as [HAx|HAx].
        -- simpl. rewrite decide_True in Hbl2.
           2: { split_and!; [done| |done]. apply elem_of_seq.
                rewrite <- HAx in Hti. simpl in Hti.
                pose proof (link_column_public _ _ _ _ _ _ Hs Hlc Hti). lia. }
           rewrite <- HAx in Hbl2. lia.
        -- rewrite decide_False in Hbl2 by tauto. lia.
  - eapply lists_shrink_trans; [exact Hls1|].
    eapply lists_shrink_trans; [|apply lists_shrink_erased].
    by apply lists_shrink_same_links.
  - eapply log_grows_trans; [exact Hlg1|]. apply log_grows_eq. exact Hrep2.
  - intros y j. unfold backlink_count at 1. rewrite backlinks_at_erased.
    case_decide; simpl; [lia|]. fold (backlink_count g2 y j).
    specialize (Hcnt2 y j). rewrite Hcnt1 in Hcnt2. done.
  - intros y Hin. destruct (Hn1 y Hin) as (bc & Hstr & Hpos).
    exists bc. by rewrite <- Hcnt1.
  - intros y bc Hne Hstr Hpos Hz. apply (Hn2 y bc Hstr).
    + by rewrite Hcnt1.
    + unfold backlink_count in Hz. rewrite backlinks_at_erased in Hz.
      by rewrite decide_False in Hz.
Qed.

(** ** [Table::remove_recursive] *)

#[local] Set Warnings "-clear-no-such-hyp".

Lemma size_objects_removed g g' x :
  valid_object g x = true ->
  (forall y, valid_object g' y = if decide (y = x) then false else valid_object g y) ->
  size (objects g) = S (size (objects g')).
Proof.
  intros Hv Hval.
  rewrite <- (size_dom (D := gset ObjRef) (objects g)).
  rewrite <- (size_dom (D := gset ObjRef) (objects g')).
  assert (Hdom : dom (objects g) = ({[x]} ∪ dom (objects g') : gset ObjRef)).
  { apply set_eq. intros y.
    rewrite elem_of_union, elem_of_singleton, !elem_of_dom, <- !valid_object_Some.
    rewrite Hval. destruct (decide (y = x)) as [->|]; [|naive_solver].
    split; [by left|by intros _]. }
  rewrite Hdom, size_union, size_singleton; [done|].
  apply disjoint_singleton_l. rewrite elem_of_dom, <- valid_object_Some, Hval.
  by rewrite decide_True.
Qed.

Lemma strong_backlink_column_tables g g' B bc :
  tables g' = tables g ->
  strong_backlink_column g' B bc <-> strong_backlink_column g B bc.
Proof.
  intros Htab. unfold strong_backlink_column.
  split; intros (A & c & ti & col & Hlc & Hti & Hcol & Hs); exists A, c, ti, col.
  - rewrite (link_column_tables g g') in Hlc by done. rewrite Htab in Hti. done.
  - rewrite (link_column_tables g g') by done. rewrite Htab. done.
Qed.

Lemma filter_valid_nil g (rows : list ObjRef) :
  filter (fun x => valid_object g x = true) rows = [] ->
  forall y, y ∈ rows -> valid_object g y = false.
Proof.
  intros Hf y Hin. destruct (valid_object g y) eqn:Hv; [|done].
  assert (y ∈ filter (fun x => valid_object g x = true) rows)
    by (by apply list_elem_of_filter).
  rewrite Hf in H. by apply elem_of_nil in H.
Qed.

(** The cascade terminates within the fuel given by the number of objects,
    keeps the invariant, removes the rows it was given and whatever lost its
    last strong backlink, and nothing else. *)
Lemma remove_recursive_loop_spec fuel :
  forall mode rows g,
  Inv g -> (size (objects g) <= fuel)%nat ->
  exists g',
    remove_recursive_loop fuel mode rows g = Ok tt g'
    /\ Inv g' /\ tables g' = tables g
    /\ (forall y, valid_object g' y = true -> valid_object g y = true)
    /\ (forall y, y ∈ rows -> valid_object g' y = false)
    /\ lists_shrink g g' /\ log_grows g g'
    /\ (forall y j, (backlink_count g' y j <= backlink_count g y j)%nat)
    /\ (forall y bc, valid_object g' y = true -> strong_backlink_column g y.1 bc ->
          (0 < backlink_count g y bc)%nat -> (0 < backlink_count g' y bc)%nat)
    /\ (forall y, valid_object g y = true -> valid_object g' y = false ->
          y ∈ rows
          \/ exists bc, strong_backlink_column g y.1 bc
                        /\ (0 < backlink_count g y bc)%nat).
Proof.
  induction fuel as [|fuel IH]; intros mode rows g HI Hsize.
  - exists g.
    assert (Hempty : forall y, valid_object g y = false).
    { intros y. destruct (valid_object g y) eqn:Hv; [|done].
      apply valid_object_Some in Hv as [r Hr].
      assert (objects g = ∅) as Hm by (apply map_size_empty_iff; lia).
      rewrite Hm in Hr. by rewrite lookup_empty in Hr. }
    assert (Hf : filter (fun x => valid_object g x = true) rows = []).
    { induction rows as [|a rows IHr]; [done|].
      rewrite filter_cons. rewrite decide_False by (by rewrite Hempty). done. }
    simpl. rewrite Hf. split_and!; try done.
    + apply lists_shrink_refl.
    + apply log_grows_refl.
    + intros y Hv. by rewrite Hempty in Hv.
  - simpl.
    destruct (filter (fun x => valid_object g x = true) rows) as [|x rest] eqn:Hf.
    + exists g. split_and!; try done.
      * by apply filter_valid_nil.
      * apply lists_shrink_refl.
      * apply log_grows_refl.
      * intros y Hv Hn. congruence.
    + assert (Hxin : x ∈ filter (fun x => valid_object g x = true) rows)
        by (rewrite Hf; by left).
      apply list_elem_of_filter in Hxin as [Hxv Hxin].
      destruct (remove_object_spec g x (mkCascade mode []) HI Hxv)
        as (st' & g1 & new & Hrun & HI1 & Htab1 & Hval1 & Hls1 & Hlg1 & Hcnt1
            & Hst & Hn1 & Hn2).
      rewrite Hrun. rewrite Hst. simpl m_to_be_deleted.
      destruct (IH mode (rest ++ new) g1 HI1)
        as (g' & Hrun' & HI' & Htab' & Hval' & Hrows' & Hls' & Hlg' & Hcnt'
            & Hkeep' & Honly').
      { pose proof (size_objects_removed g g1 x Hxv Hval1). lia. }
      assert (Hv1g : forall y, valid_object g1 y = true ->
                               valid_object g y = true /\ y <> x).
      { intros y Hy. rewrite Hval1 in Hy. by destruct (decide (y = x)). }
      exists g'. split; [exact Hrun'|]. split_and!; try done.
      * congruence.
      * intros y Hy. by apply Hv1g, Hval'.
      * intros y Hin. destruct (valid_object g' y) eqn:Hy'; [|done].
        destruct (Hv1g y (Hval' y Hy')) as [Hyg Hne].
        assert (y ∈ x :: rest) as Hyin.
        { rewrite <- Hf. by apply list_elem_of_filter. }
        apply elem_of_cons in Hyin as [->|Hyin]; [done|].
        rewrite <- Hy'. apply Hrows'. apply elem_of_app. by left.
      * by eapply lists_shrink_trans.
      * by eapply log_grows_trans.
      * intros y j. specialize (Hcnt' y j). specialize (Hcnt1 y j). lia.
      * intros y bc Hy' Hstr Hpos.
        destruct (Hv1g y (Hval' y Hy')) as [Hyg Hne].
        destruct (decide (0 < backlink_count g1 y bc)%nat) as [Hp1|Hp1].
        -- apply Hkeep'; [done| |done].
           by apply (strong_backlink_column_tables g g1).
        -- exfalso. assert (y ∈ new) as Hyn.
           { apply (Hn2 y bc); [done|done|done|lia]. }
           assert (valid_object g' y = false) as Hno.
           { apply Hrows'. apply elem_of_app. by right. }
           congruence.
      * intros y Hyg Hy'.
        destruct (decide (y = x)) as [->|Hne]; [by left|].
        assert (Hy1 : valid_object g1 y = true).
        { rewrite Hval1. by rewrite decide_False. }
        destruct (Honly' y Hy1 Hy') as [Hin|(bc & Hstr & Hpos)].
        -- apply elem_of_app in Hin as [Hin|Hin].
           ++ left. assert (y ∈ x :: rest) as Hyin by (by right).
              rewrite <- Hf in Hyin. by apply list_elem_of_filter in Hyin as [_ ?].
           ++ right. by apply Hn1.
        -- right. exists bc. split.
           ++ by apply (strong_backlink_column_tables g g1).
           ++ specialize (Hcnt1 y bc). lia.
Qed.

Lemma remove_recursive_spec st g :
  Inv g ->
  exists g',
    Table_remove_recursive st g = Ok tt g'
    /\ Inv g' /\ tables g' = tables g
    /\ (forall y, valid_object g' y = true -> valid_object g y = true)
    /\ (forall y, y ∈ m_to_be_deleted st -> valid_object g' y = false)
    /\ lists_shrink g g' /\ log_grows g g'
    /\ (forall y j, (backlink_count g' y j <= backlink_count g y j)%nat)
    /\ (forall y bc, valid_object g' y = true -> strong_backlink_column g y.1 bc ->
          (0 < backlink_count g y bc)%nat -> (0 < backlink_count g' y bc)%nat)
    /\ (forall y, valid_object g y = true -> valid_object g' y = false ->
          y ∈ m_to_be_deleted st
          \/ exists bc, strong_backlink_column g y.1 bc
                        /\ (0 < backlink_count g y bc)%nat).
Proof.
  intros HI. unfold Table_remove_recursive.
  by apply remove_recursive_loop_spec.
Qed.

(** ** Steps that keep the invariant *)

#[local] Set Warnings "-clear-no-such-hyp".

Lemma Inv_bump g : Inv g -> Inv (bump g).
Proof. intros H. exact H. Qed.

Lemma Inv_emitted i g : Inv g -> Inv (emitted i g).
Proof. intros H. exact H. Qed.

Lemma same_leaf_link_cell a b :
  same_leaf a b = true -> is_link_cell a = true -> is_link_cell b = true.
Proof. by destruct a, b. Qed.

Lemma same_shape_cell g g' y j v :
  same_shape g g' -> cell_at g y j = Some v ->
  exists v', cell_at g' y j = Some v' /\ same_leaf v v' = true.
Proof.
  intros (_ & _ & H) Hc. specialize (H y j). rewrite Hc in H.
  by apply option_Forall2_Some_l in H.
Qed.

Lemma same_shape_cell_back g g' y j v' :
  same_shape g g' -> cell_at g' y j = Some v' ->
  exists v, cell_at g y j = Some v /\ same_leaf v v' = true.
Proof.
  intros (_ & _ & H) Hc. specialize (H y j). rewrite Hc in H.
  by apply option_Forall2_Some_r in H.
Qed.

(** Rewriting a link entry without changing the non-null keys it holds. *)
Lemma Inv_upd_links g o c v0 v :
  Inv g -> cell_at g o c = Some v0 -> is_link_cell v0 = true ->
  same_leaf v0 v = true ->
  (forall k, k <> null_key ->
     count_occ Z.eq_dec (link_targets v) k = count_occ Z.eq_dec (link_targets v0) k) ->
  Inv (upd o c v g).
Proof.
  intros (Hs & Hr & Hb) Hc Hl0 Hleaf Hcount.
  pose proof (same_leaf_link_cell _ _ Hleaf Hl0) as Hl.
  pose proof (same_shape_upd _ _ _ _ _ Hc Hleaf) as Hsh.
  unfold Inv. split_and!.
  - by eapply same_shape_wf_schema.
  - by eapply same_shape_wf_rows.
  - intros A c' B bc o' k Hlc Hk.
    rewrite (same_shape_link_column _ _ _ _ Hsh) in Hlc.
    unfold fwd, bl. rewrite (links_at_upd_link _ _ _ _ _ _ _ Hc).
    rewrite (backlinks_at_upd_link _ _ _ _ _ _ _ Hc Hl0 Hl).
    specialize (Hb _ _ _ _ o' _ Hlc Hk). unfold fwd, bl in Hb.
    destruct (decide ((A, o') = o /\ c' = c)) as [[<- ->]|]; [|done].
    rewrite (Hcount k Hk). rewrite <- Hb. unfold links_at. by rewrite Hc.
Qed.

(** Maintaining the backlinks and then writing the link entry. *)
Lemma Inv_relink g g1 o c B bc strong old new st r st' v0 v :
  Inv g ->
  link_column g o.1 c = Some (B, bc) ->
  update_backlinks_pure o B (Some bc) strong old new st g = Some (r, st', g1) ->
  cell_at g o c = Some v0 -> is_link_cell v0 = true -> same_leaf v0 v = true ->
  (forall k, k <> null_key ->
             (count_occ Z.eq_dec (link_targets v) k
              + (if decide (k = old) then 1 else 0)
              = count_occ Z.eq_dec (link_targets v0) k
                + (if decide (k = new) then 1 else 0))%nat) ->
  Inv (upd o c v g1).
Proof.
  intros (Hs & Hr & Hb) Hlc Hu Hc Hl0 Hleaf Hcount.
  pose proof (same_leaf_link_cell _ _ Hleaf Hl0) as Hl.
  pose proof (link_balanced_relink _ _ _ _ _ _ _ _ _ _ _ _ _ _
                Hb Hlc Hu Hc Hl0 Hl Hcount) as Hbal.
  apply update_backlinks_pure_Some in Hu as (Hsh & _).
  destruct (same_shape_cell _ _ _ _ _ Hsh Hc) as (v1 & Hc1 & Hleaf1).
  assert (Hsh2 : same_shape g (upd o c v g1)).
  { eapply same_shape_trans; [exact Hsh|].
    eapply same_shape_upd; [exact Hc1|].
    by destruct v0, v1, v. }
  unfold Inv. split_and!; [|by eapply same_shape_wf_rows|exact Hbal].
  by eapply same_shape_wf_schema.
Qed.

(** ** What a successful call tells *)

Lemma update_backlinks_Ok o c old new st g r st' g' :
  Obj_update_backlinks o c old new st g = Ok (r, st') g' ->
  exists ti col tti,
    tables g !! o.1 = Some ti /\ columns (t_spec ti) !! c = Some col
    /\ tables g !! col_opposite_table col = Some tti
    /\ update_backlinks_pure o (col_opposite_table col)
         (find_backlink_column (t_spec tti) o.1 c)
         (attr_test (col_attr col) col_attr_StrongLinks) old new st g
       = Some (r, st', g').
Proof.
  rewrite update_backlinks_eq.
  destruct (tables g !! o.1) as [ti|] eqn:Hti; [|done].
  destruct (columns (t_spec ti) !! c) as [col|] eqn:Hcol; [|done].
  destruct (tables g !! col_opposite_table col) as [tti|] eqn:Htt; [|done].
  destruct (update_backlinks_pure _ _ _ _ _ _ _ _) as [[[r0 st0] g0]|] eqn:Hu; [|done].
  intros [= -> -> ->]. exists ti, col, tti. done.
Qed.

Lemma update_backlinks_pure_None o B strong old new st g r st' g' :
  update_backlinks_pure o B None strong old new st g = Some (r, st', g') ->
  old = null_key /\ new = null_key /\ g' = g /\ r = false /\ st' = st.
Proof.
  unfold update_backlinks_pure. simpl mbind.
  destruct (Z.eqb_spec old null_key) as [->|]; [|done]. simpl.
  destruct (Z.eqb_spec new null_key) as [->|]; [|done]. simpl.
  by intros [= <- <- <-].
Qed.

Lemma upd_backlink_link_cells g y0 bc l l' y j v :
  cell_at g y0 bc = Some (CBacklink l) -> is_link_cell v = true ->
  cell_at (upd y0 bc (CBacklink l') g) y j = Some v <-> cell_at g y j = Some v.
Proof.
  intros Hc Hl. rewrite cell_at_upd. case_decide as Hd; [|done].
  destruct Hd as [-> ->]. rewrite Hc. simpl. split; intros [= <-]; done.
Qed.

Lemma add_backlink_pure_link_cells y0 bc o g g' y j v :
  add_backlink_pure y0 bc o g = Some g' -> is_link_cell v = true ->
  cell_at g' y j = Some v <-> cell_at g y j = Some v.
Proof.
  unfold add_backlink_pure. destruct (cell_at g y0 bc) as [[]|] eqn:Hc; try done.
  intros [= <-] Hl. by apply (upd_backlink_link_cells (bump g) y0 bc l).
Qed.

Lemma remove_backlink_pure_link_cells y0 bc o g g' y j v :
  remove_backlink_pure y0 bc o g = Some g' -> is_link_cell v = true ->
  cell_at g' y j = Some v <-> cell_at g y j = Some v.
Proof.
  unfold remove_backlink_pure. destruct (cell_at g y0 bc) as [[]|] eqn:Hc; try done.
  destruct (ArrayBacklink_remove l o) as [l'|]; [|done]. simpl.
  intros [= <-] Hl. by apply (upd_backlink_link_cells (bump g) y0 bc l).
Qed.

(** [Obj::update_backlinks] leaves the link entries alone. *)
Lemma update_backlinks_pure_link_cells o B bco strong old new st g r st' g' y j v :
  update_backlinks_pure o B bco strong old new st g = Some (r, st', g') ->
  is_link_cell v = true ->
  cell_at g' y j = Some v <-> cell_at g y j = Some v.
Proof.
  intros Hu Hl. destruct bco as [bc|].
  2: { by apply update_backlinks_pure_None in Hu as (_ & _ & -> & _). }
  revert Hu. unfold update_backlinks_pure. simpl mbind.
  destruct (old =? null_key).
  - simpl. destruct (new =? null_key); simpl.
    + by intros [= <- <- <-].
    + destruct (add_backlink_pure (B, new) bc o.2 g) as [g2|] eqn:Hadd; [|done].
      simpl. intros [= <- <- <-]. by eapply add_backlink_pure_link_cells.
  - simpl. destruct (remove_backlink_pure (B, old) bc o.2 g) as [g1|] eqn:Hrem; [|done].
    simpl.
    pose proof (remove_backlink_pure_link_cells _ _ _ _ _ y j v Hrem Hl) as H1.
    destruct (strong && _); simpl.
    all: destruct (new =? null_key); simpl.
    all: try (destruct (add_backlink_pure (B, new) bc o.2 g1) as [g2|] eqn:Hadd;
              [|done]; simpl).
    all: intros [= <- <- <-]; try done.
    all: rewrite <- H1; by eapply add_backlink_pure_link_cells.
Qed.

(** With a link entry in column [c] of [o], the backlink column of the
    update is there. *)
Lemma update_backlinks_link_point g o c v old new st r st' g' :
  Inv g -> cell_at g o c = Some v -> is_link_cell v = true ->
  Obj_update_backlinks o c old new st g = Ok (r, st') g' ->
  exists ti col bc,
    tables g !! o.1 = Some ti /\ columns (t_spec ti) !! c = Some col
    /\ link_column g o.1 c = Some (col_opposite_table col, bc)
    /\ update_backlinks_pure o (col_opposite_table col) (Some bc)
         (attr_test (col_attr col) col_attr_StrongLinks) old new st g
       = Some (r, st', g').
Proof.
  intros (Hs & Hr & _) Hc Hl Hu.
  apply update_backlinks_Ok in Hu as (ti & col & tti & Hti & Hcol & Htt & Hu).
  destruct (link_cell_column _ _ _ _ Hs Hr Hc Hl)
    as (ti' & col' & tti' & bc & Hti' & Hcol' & Htt' & Hf & Hlc & _).
  rewrite Hti in Hti'. injection Hti' as <-.
  rewrite Hcol in Hcol'. injection Hcol' as <-.
  rewrite Htt in Htt'. injection Htt' as <-.
  rewrite Hf in Hu. exists ti, col, bc. done.
Qed.

(** ** The B+-tree of a link list *)

Lemma tree_read_Ok lst g t g' :
  tree_read lst g = Ok t g' ->
  g' = g /\ cell_at g (m_obj lst) (m_col_key lst) = Some (CLinkList t.1 t.2).
Proof.
  unfold tree_read. rewrite bind_unfold, read_leaf_eq.
  destruct (cell_at g (m_obj lst) (m_col_key lst)) as [[]|]; try done.
  rewrite ret_unfold. by intros [= <- <-].
Qed.

Lemma tree_write_Ok lst l f g g' :
  tree_write lst l f g = Ok tt g' ->
  is_Some (cell_at g (m_obj lst) (m_col_key lst))
  /\ g' = upd (m_obj lst) (m_col_key lst) (CLinkList l f) g.
Proof.
  unfold tree_write. rewrite write_leaf_eq.
  destruct (cell_at g (m_obj lst) (m_col_key lst)); [|done].
  intros [= <-]. eauto.
Qed.

Lemma tree_get_Ok lst ndx g k g' :
  tree_get lst ndx g = Ok k g' ->
  g' = g /\ exists l f, cell_at g (m_obj lst) (m_col_key lst) = Some (CLinkList l f)
                        /\ l !! ndx = Some k.
Proof.
  unfold tree_get. rewrite bind_unfold.
  destruct (tree_read lst g) as [t g0| |] eqn:E; try done.
  apply tree_read_Ok in E as [-> Hc]. rewrite unchecked_unfold.
  destruct (t.1 !! ndx) as [k0|] eqn:Hk; [|done]. intros [= <- <-].
  split; [done|]. exists t.1, t.2. done.
Qed.

Lemma tree_size_Ok lst g n g' :
  tree_size lst g = Ok n g' ->
  g' = g /\ exists l f, cell_at g (m_obj lst) (m_col_key lst) = Some (CLinkList l f)
                        /\ n = length l.
Proof.
  unfold tree_size. rewrite bind_unfold.
  destruct (tree_read lst g) as [t g0| |] eqn:E; try done.
  apply tree_read_Ok in E as [-> Hc]. rewrite ret_unfold. intros [= <- <-].
  split; [done|]. exists t.1, t.2. done.
Qed.

Lemma tree_set_Ok lst ndx k g g' :
  tree_set lst ndx k g = Ok tt g' ->
  exists l f, cell_at g (m_obj lst) (m_col_key lst) = Some (CLinkList l f)
              /\ (ndx < length l)%nat
              /\ g' = upd (m_obj lst) (m_col_key lst) (CLinkList (<[ndx := k]> l) f) g.
Proof.
  unfold tree_set. rewrite bind_unfold.
  destruct (tree_read lst g) as [t g0| |] eqn:E; try done.
  apply tree_read_Ok in E as [-> Hc]. rewrite bind_unfold, realm_assert_unfold.
  destruct (Nat.ltb_spec ndx (length t.1)); [|done].
  intros Hw. apply tree_write_Ok in Hw as [_ ->]. exists t.1, t.2. done.
Qed.

Lemma tree_insert_Ok lst ndx k g g' :
  tree_insert lst ndx k g = Ok tt g' ->
  exists l f, cell_at g (m_obj lst) (m_col_key lst) = Some (CLinkList l f)
              /\ (ndx <= length l)%nat
              /\ g' = upd (m_obj lst) (m_col_key lst)
                        (CLinkList (take ndx l ++ k :: drop ndx l) f) g.
Proof.
  unfold tree_insert. rewrite bind_unfold.
  destruct (tree_read lst g) as [t g0| |] eqn:E; try done.
  apply tree_read_Ok in E as [-> Hc]. rewrite bind_unfold, realm_assert_unfold.
  destruct (Nat.leb_spec ndx (length t.1)); [|done].
  intros Hw. apply tree_write_Ok in Hw as [_ ->]. exists t.1, t.2. done.
Qed.

Lemma tree_erase_Ok lst ndx g g' :
  tree_erase lst ndx g = Ok tt g' ->
  exists l f, cell_at g (m_obj lst) (m_col_key lst) = Some (CLinkList l f)
              /\ (ndx < length l)%nat
              /\ g' = upd (m_obj lst) (m_col_key lst) (CLinkList (delete ndx l) f) g.
Proof.
  unfold tree_erase. rewrite bind_unfold.
  destruct (tree_read lst g) as [t g0| |] eqn:E; try done.
  apply tree_read_Ok in E as [-> Hc]. rewrite bind_unfold, realm_assert_unfold.
  destruct (Nat.ltb_spec ndx (length t.1)); [|done].
  intros Hw. apply tree_write_Ok in Hw as [_ ->]. exists t.1, t.2. done.
Qed.

Lemma tree_clear_Ok lst g g' :
  tree_clear lst g = Ok tt g' ->
  exists l f, cell_at g (m_obj lst) (m_col_key lst) = Some (CLinkList l f)
              /\ g' = upd (m_obj lst) (m_col_key lst) (CLinkList [] f) g.
Proof.
  unfold tree_clear. rewrite bind_unfold.
  destruct (tree_read lst g) as [t g0| |] eqn:E; try done.
  apply tree_read_Ok in E as [-> Hc].
  intros Hw. apply tree_write_Ok in Hw as [_ ->]. exists t.1, t.2. done.
Qed.

Lemma set_context_flag_Ok lst b g g' :
  set_context_flag lst b g = Ok tt g' ->
  exists l f, cell_at g (m_obj lst) (m_col_key lst) = Some (CLinkList l f)
              /\ g' = upd (m_obj lst) (m_col_key lst) (CLinkList l b) g.
Proof.
  unfold set_context_flag. rewrite bind_unfold.
  destruct (tree_read lst g) as [t g0| |] eqn:E; try done.
  apply tree_read_Ok in E as [-> Hc].
  intros Hw. apply tree_write_Ok in Hw as [_ ->]. exists t.1, t.2. done.
Qed.

Lemma check_for_last_unresolved_Ok lst g g' :
  check_for_last_unresolved lst g = Ok tt g' ->
  exists l f, cell_at g (m_obj lst) (m_col_key lst) = Some (CLinkList l f)
              /\ (g' = g \/ g' = upd (m_obj lst) (m_col_key lst) (CLinkList l false) g).
Proof.
  unfold check_for_last_unresolved. rewrite bind_unfold.
  destruct (tree_read lst g) as [t g0| |] eqn:E; try done.
  apply tree_read_Ok in E as [-> Hc].
  destruct (existsb is_unresolved t.1).
  - rewrite ret_unfold. intros [= <-]. exists t.1, t.2. eauto.
  - intros Hw. apply tree_write_Ok in Hw as [_ ->]. exists t.1, t.2. eauto.
Qed.

Lemma get_opposite_table_key_Ok A c g B g' :
  get_opposite_table_key A c g = Ok B g' ->
  g' = g /\ exists ti col, tables g !! A = Some ti
                           /\ columns (t_spec ti) !! c = Some col
                           /\ B = col_opposite_table col.
Proof.
  unfold get_opposite_table_key. rewrite bind_unfold, get_spec_unfold.
  destruct (tables g !! A) as [ti|] eqn:Hti; [|done].
  rewrite bind_unfold, unchecked_unfold.
  destruct (columns (t_spec ti) !! c) as [col|] eqn:Hcol; [|done].
  rewrite ret_unfold. intros [= <- <-]. split; [done|]. exists ti, col. done.
Qed.

(** ** Counting the keys of an edited list *)

Lemma count_occ_cons_decide (a k : Z) l :
  count_occ Z.eq_dec (a :: l) k
  = ((if decide (k = a) then 1 else 0) + count_occ Z.eq_dec l k)%nat.
Proof. simpl. destruct (Z.eq_dec a k); case_decide; try done; congruence. Qed.

Lemma count_occ_list_set (l : list Z) ndx old new k :
  l !! ndx = Some old ->
  (count_occ Z.eq_dec (<[ndx := new]> l) k + (if decide (k = old) then 1 else 0)
   = count_occ Z.eq_dec l k + (if decide (k = new) then 1 else 0))%nat.
Proof.
  intros Hl. pose proof (lookup_lt_Some _ _ _ Hl) as Hlt.
  rewrite <- (take_drop_middle l ndx old Hl) at 2.
  rewrite insert_take_drop by done.
  rewrite !count_occ_app, !count_occ_cons_decide. lia.
Qed.

Lemma count_occ_list_insert (l : list Z) ndx new k :
  count_occ Z.eq_dec (take ndx l ++ new :: drop ndx l) k
  = (count_occ Z.eq_dec l k + (if decide (k = new) then 1 else 0))%nat.
Proof.
  rewrite <- (take_drop ndx l) at 3.
  rewrite !count_occ_app, !count_occ_cons_decide. lia.
Qed.

Lemma count_occ_list_delete (l : list Z) ndx old k :
  l !! ndx = Some old ->
  (count_occ Z.eq_dec (delete ndx l) k + (if decide (k = old) then 1 else 0)
   = count_occ Z.eq_dec l k)%nat.
Proof.
  intros Hl. pose proof (lookup_lt_Some _ _ _ Hl) as Hlt.
  rewrite <- (take_drop_middle l ndx old Hl) at 2.
  rewrite delete_take_drop.
  rewrite !count_occ_app, !count_occ_cons_decide. lia.
Qed.

(** ** Steps after which the invariant holds again *)

Lemma quiet_ret : quiet (ret tt).
Proof.
  intros g g' HI [= <-]. split_and!; try done.
  - apply lists_shrink_refl.
  - apply log_grows_refl.
Qed.

Lemma quiet_bind m1 m2 : quiet m1 -> quiet m2 -> quiet (m1 ;;; m2).
Proof.
  intros H1 H2 g g' HI. rewrite bind_unfold.
  destruct (m1 g) as [[] g1| |] eqn:E1; try done. intros E2.
  destruct (H1 _ _ HI E1) as (HI1 & Ht1 & Hv1 & Hl1 & Hg1).
  destruct (H2 _ _ HI1 E2) as (HI2 & Ht2 & Hv2 & Hl2 & Hg2).
  split_and!; try done.
  - congruence.
  - eauto.
  - by eapply lists_shrink_trans.
  - by eapply log_grows_trans.
Qed.

Lemma quiet_if (b : bool) m1 m2 : quiet m1 -> quiet m2 -> quiet (if b then m1 else m2).
Proof. by destruct b. Qed.

Lemma quiet_upd_flag g o c l f b :
  Inv g -> cell_at g o c = Some (CLinkList l f) ->
  Inv (upd o c (CLinkList l b) g)
  /\ tables (upd o c (CLinkList l b) g) = tables g
  /\ (forall y, valid_object (upd o c (CLinkList l b) g) y = true ->
                valid_object g y = true)
  /\ lists_shrink g (upd o c (CLinkList l b) g)
  /\ log_grows g (upd o c (CLinkList l b) g).
Proof.
  intros HI Hc.
  assert (Hsh : same_shape g (upd o c (CLinkList l b) g))
    by (by eapply same_shape_upd).
  split_and!.
  - by eapply Inv_upd_links.
  - apply tables_upd.
  - intros y. by rewrite valid_upd.
  - apply lists_shrink_same_links; [done|].
    intros y j. rewrite (links_at_upd_link _ _ _ _ _ _ _ Hc).
    case_decide as Hd; [|done]. destruct Hd as [-> ->].
    unfold links_at. by rewrite Hc.
  - apply log_grows_eq. apply replication_upd.
Qed.

Lemma quiet_set_context_flag lst b : quiet (set_context_flag lst b).
Proof.
  intros g g' HI H. apply set_context_flag_Ok in H as (l & f & Hc & ->).
  by eapply quiet_upd_flag.
Qed.

Lemma quiet_check_for_last_unresolved lst : quiet (check_for_last_unresolved lst).
Proof.
  intros g g' HI H.
  apply check_for_last_unresolved_Ok in H as (l & f & Hc & [->| ->]).
  - by apply quiet_ret.
  - by eapply quiet_upd_flag.
Qed.

Lemma quiet_remove_recursive st : quiet (Table_remove_recursive st).
Proof.
  intros g g' HI H.
  destruct (remove_recursive_spec st g HI)
    as (g'' & Hrun & HI' & Htab & Hval & _ & Hls & Hlg & _).
  rewrite Hrun in H. injection H as <-. done.
Qed.

(** ** The list operations keep the invariant *)

#[local] Set Warnings "-clear-no-such-hyp".

Lemma quiet_cascade (r : bool * CascadeState) :
  quiet (if r.1 then Table_remove_recursive r.2 else ret tt).
Proof. apply quiet_if; [apply quiet_remove_recursive|apply quiet_ret]. Qed.

(** ** The backlink helpers of the list operations *)

Lemma embedded_cascade_Ok target r g r' g' :
  embedded_cascade target r g = Ok r' g' -> g' = g.
Proof.
  unfold embedded_cascade.
  destruct ((target.2 =? null_key) || r.1); [by intros [= _ <-]|].
  rewrite bind_unfold. unfold is_embedded.
  destruct (tables g !! target.1) as [tti|]; [|done].
  destruct (t_embedded tti); [|by intros [= _ <-]].
  unfold Obj_get_backlink_count_total.
  rewrite !bind_unfold, get_row_eq.
  destruct (objects g !! target) as [row|]; [|done].
  rewrite ret_unfold. destruct (Nat.eqb _ 0); by intros [= _ <-].
Qed.

Lemma update_backlinks_pure_tables o B obc strong old new st g r st' g' :
  update_backlinks_pure o B obc strong old new st g = Some (r, st', g') ->
  tables g' = tables g.
Proof.
  destruct obc as [bc|].
  - intros H. by apply update_backlinks_pure_Some in H as ((-> & _) & _).
  - intros H. by apply update_backlinks_pure_None in H as (_ & _ & -> & _).
Qed.

Lemma update_backlinks_pure_split o B obc strong old new st st0 g
    r1 st1 g1 r2 st2 g2 :
  update_backlinks_pure o B obc strong old null_key st g = Some (r1, st1, g1) ->
  update_backlinks_pure o B obc strong null_key new st0 g1 = Some (r2, st2, g2) ->
  update_backlinks_pure o B obc strong old new st g = Some (r1, st1, g2).
Proof.
  unfold update_backlinks_pure. rewrite !Z.eqb_refl. simpl mbind.
  destruct (old =? null_key).
  - simpl. intros [= <- <- <-]. simpl.
    destruct (new =? null_key); simpl; [by intros [= _ _ <-]|].
    destruct obc as [bc|]; simpl; [|done].
    destruct (add_backlink_pure _ _ _ _); simpl; [|done]. by intros [= _ _ <-].
  - destruct obc as [bc|]; simpl; [|done].
    destruct (remove_backlink_pure _ _ _ _) as [g0|]; simpl; [|done].
    destruct (strong && _); simpl; intros [= <- <- <-]; simpl;
      (destruct (new =? null_key); simpl; [by intros [= _ _ <-]|]);
      (destruct (add_backlink_pure _ _ _ _); simpl; [|done]);
      by intros [= _ _ <-].
Qed.

(** What [Obj::remove_backlink] leaves is what the protocol of
    [Obj::update_backlinks] leaves; the cascade decision changes nothing. *)
Lemma remove_backlink_Ok o c old st g r g' :
  Obj_remove_backlink o c old st g = Ok r g' ->
  exists r0, Obj_update_backlinks o c old.2 null_key st g = Ok r0 g'.
Proof.
  unfold Obj_remove_backlink. rewrite bind_unfold.
  destruct (Obj_update_backlinks _ _ _ _ _ g) as [r0 g1| |]; try done.
  intros H. apply embedded_cascade_Ok in H as ->. by exists r0.
Qed.

Lemma set_backlink_Ok o c new g g' :
  Obj_set_backlink o c new g = Ok tt g' ->
  exists r0, Obj_update_backlinks o c null_key new.2 (mkCascade Mode_Strong []) g
             = Ok r0 g'.
Proof.
  unfold Obj_set_backlink. rewrite bind_unfold.
  destruct (Obj_update_backlinks _ _ _ _ _ g) as [r0 g1| |]; try done.
  rewrite ret_unfold. intros [= <-]. by exists r0.
Qed.

Lemma replace_backlink_Ok o c old new st g r g' :
  Obj_replace_backlink o c old new st g = Ok r g' ->
  exists r0, Obj_update_backlinks o c old.2 new.2 st g = Ok r0 g'.
Proof.
  unfold Obj_replace_backlink. rewrite bind_unfold.
  destruct (Obj_remove_backlink o c old st g) as [r1 g1| |] eqn:E1; try done.
  apply remove_backlink_Ok in E1 as [[b1 st1] E1].
  rewrite bind_unfold.
  destruct (Obj_set_backlink o c new g1) as [[] g2| |] eqn:E2; try done.
  apply set_backlink_Ok in E2 as [[b2 st2] E2].
  rewrite ret_unfold. intros [= _ <-].
  apply update_backlinks_Ok in E1 as (ti & col & tti & Hti & Hcol & Htt & Hu1).
  apply update_backlinks_Ok in E2 as (ti' & col' & tti' & Hti' & Hcol' & Htt' & Hu2).
  pose proof (update_backlinks_pure_tables _ _ _ _ _ _ _ _ _ _ _ Hu1) as Ht.
  rewrite Ht in Hti', Htt'.
  rewrite Hti in Hti'. injection Hti' as <-.
  rewrite Hcol in Hcol'. injection Hcol' as <-.
  rewrite Htt in Htt'. injection Htt' as <-.
  exists (b1, st1). rewrite update_backlinks_eq, Hti, Hcol, Htt.
  by rewrite (update_backlinks_pure_split _ _ _ _ _ _ _ _ _ _ _ _ _ _ _ Hu1 Hu2).
Qed.

Lemma do_insert_Inv lst ndx k g g' :
  Inv g -> Lst_do_insert lst ndx k g = Ok tt g' -> Inv g'.
Proof.
  intros HI H. unfold Lst_do_insert in H.
  rewrite bind_unfold in H.
  destruct (get_opposite_table_key _ _ g) as [B g0| |] eqn:E1; try done.
  apply get_opposite_table_key_Ok in E1 as [-> (ti & col & Hti & Hcol & ->)].
  rewrite bind_unfold in H. unfold Obj_set_backlink in H.
  rewrite bind_unfold in H. simpl snd in H.
  destruct (Obj_update_backlinks _ _ _ _ _ g) as [[r st'] g1| |] eqn:E3; try done.
  rewrite ret_unfold in H. rewrite bind_unfold in H.
  destruct (tree_insert lst ndx k g1) as [[] g2| |] eqn:E4; try done.
  apply tree_insert_Ok in E4 as (l & f & Hc1 & Hle & ->).
  pose proof E3 as E3'.
  apply update_backlinks_Ok in E3' as (ti0 & col0 & tti0 & _ & _ & _ & Hu).
  assert (Hc : cell_at g (m_obj lst) (m_col_key lst) = Some (CLinkList l f)).
  { by apply (update_backlinks_pure_link_cells _ _ _ _ _ _ _ _ _ _ _ _ _ _ Hu). }
  clear Hu.
  destruct (update_backlinks_link_point g _ _ _ _ _ _ _ _ _ HI Hc eq_refl E3)
    as (ti' & col' & bc & Hti' & Hcol' & Hlc & Hu).
  assert (HI2 : Inv (upd (m_obj lst) (m_col_key lst)
                       (CLinkList (take ndx l ++ k :: drop ndx l) f) g1)).
  { eapply Inv_relink; [exact HI|exact Hlc|exact Hu|exact Hc|done|done|].
    intros k' Hk'. simpl link_targets. rewrite count_occ_list_insert.
    rewrite (decide_False (P := k' = null_key)) by done. lia. }
  assert (Hq : quiet (if is_unresolved k then set_context_flag lst true else ret tt)).
  { apply quiet_if; [apply quiet_set_context_flag|apply quiet_ret]. }
  by destruct (Hq _ _ HI2 H).
Qed.

(** [do_set]: afterwards the list is the edited list, possibly without the
    entries of targets that the cascade removed. *)
Lemma do_set_effect lst ndx new g g' :
  Inv g -> Lst_do_set lst ndx new g = Ok tt g' ->
  Inv g'
  /\ exists l f,
       cell_at g (m_obj lst) (m_col_key lst) = Some (CLinkList l f)
       /\ (ndx < length l)%nat
       /\ forall l' f', cell_at g' (m_obj lst) (m_col_key lst) = Some (CLinkList l' f') ->
                        sublist l' (<[ndx := new]> l).
Proof.
  intros HI H. unfold Lst_do_set in H.
  rewrite bind_unfold in H.
  destruct (get_opposite_table_key _ _ g) as [B g0| |] eqn:E1; try done.
  apply get_opposite_table_key_Ok in E1 as [-> (ti & col & Hti & Hcol & ->)].
  rewrite bind_unfold in H.
  destruct (tree_get lst ndx g) as [old g0| |] eqn:E2; try done.
  apply tree_get_Ok in E2 as [-> (l & f & Hc & Hold)].
  rewrite bind_unfold in H.
  destruct (Obj_replace_backlink _ _ _ _ _ g) as [[r st'] g1| |] eqn:E3;
    try done.
  apply replace_backlink_Ok in E3 as [[r0 st0] E3]. simpl snd in E3.
  destruct (update_backlinks_link_point g _ _ _ _ _ _ _ _ _ HI Hc eq_refl E3)
    as (ti' & col' & bc & Hti' & Hcol' & Hlc & Hu).
  rewrite bind_unfold in H.
  destruct (tree_set lst ndx new g1) as [[] g2| |] eqn:E4; try done.
  apply tree_set_Ok in E4 as (l1 & f1 & Hc1 & Hlt & ->).
  assert (Hc' : cell_at g (m_obj lst) (m_col_key lst) = Some (CLinkList l1 f1)).
  { by apply (update_backlinks_pure_link_cells _ _ _ _ _ _ _ _ _ _ _ _ _ _ Hu). }
  rewrite Hc in Hc'. injection Hc' as <- <-.
  set (g2 := upd (m_obj lst) (m_col_key lst) (CLinkList (<[ndx := new]> l) f) g1) in *.
  assert (HI2 : Inv g2).
  { eapply Inv_relink; [exact HI|exact Hlc|exact Hu|exact Hc|done|done|].
    intros k' Hk'. simpl link_targets. by apply count_occ_list_set. }
  assert (Hc2 : cell_at g2 (m_obj lst) (m_col_key lst)
                = Some (CLinkList (<[ndx := new]> l) f)).
  { apply cell_at_upd_eq. by rewrite Hc1. }
  assert (Hq : quiet ((if (r, st').1 then Table_remove_recursive (r, st').2 else ret tt) ;;;
                      if is_unresolved new
                      then (if negb (is_unresolved old)
                            then set_context_flag lst true else ret tt)
                      else if is_unresolved old
                           then check_for_last_unresolved lst else ret tt)).
  { apply quiet_bind; [apply quiet_cascade|].
    repeat apply quiet_if; first [apply quiet_set_context_flag
                                 |apply quiet_check_for_last_unresolved
                                 |apply quiet_ret]. }
  destruct (Hq _ _ HI2 H) as (HI' & _ & _ & Hls & _).
  split; [done|]. exists l, f. split_and!; [done|done|].
  intros l' f' Hc''. destruct (Hls _ _ _ _ Hc'') as (l0 & f0 & Hc0 & Hsub).
  rewrite Hc2 in Hc0. by injection Hc0 as <- <-.
Qed.

Lemma do_set_Inv lst ndx new g g' :
  Inv g -> Lst_do_set lst ndx new g = Ok tt g' -> Inv g'.
Proof. intros HI H. by destruct (do_set_effect _ _ _ _ _ HI H). Qed.

Lemma do_remove_Inv lst ndx g g' :
  Inv g -> Lst_do_remove lst ndx g = Ok tt g' -> Inv g'.
Proof.
  intros HI H. unfold Lst_do_remove in H.
  rewrite bind_unfold in H.
  destruct (get_opposite_table_key _ _ g) as [B g0| |] eqn:E1; try done.
  apply get_opposite_table_key_Ok in E1 as [-> (ti & col & Hti & Hcol & ->)].
  rewrite bind_unfold in H.
  destruct (tree_get lst ndx g) as [old g0| |] eqn:E2; try done.
  apply tree_get_Ok in E2 as [-> (l & f & Hc & Hold)].
  rewrite bind_unfold in H.
  destruct (Obj_remove_backlink _ _ _ _ g) as [[r st'] g1| |] eqn:E3;
    try done.
  apply remove_backlink_Ok in E3 as [[r0 st0] E3]. simpl snd in E3.
  destruct (update_backlinks_link_point g _ _ _ _ _ _ _ _ _ HI Hc eq_refl E3)
    as (ti' & col' & bc & Hti' & Hcol' & Hlc & Hu).
  rewrite bind_unfold in H.
  destruct (tree_erase lst ndx g1) as [[] g2| |] eqn:E4; try done.
  apply tree_erase_Ok in E4 as (l1 & f1 & Hc1 & Hlt & ->).
  assert (Hc' : cell_at g (m_obj lst) (m_col_key lst) = Some (CLinkList l1 f1)).
  { by apply (update_backlinks_pure_link_cells _ _ _ _ _ _ _ _ _ _ _ _ _ _ Hu). }
  rewrite Hc in Hc'. injection Hc' as <- <-.
  assert (HI2 : Inv (upd (m_obj lst) (m_col_key lst) (CLinkList (delete ndx l) f) g1)).
  { eapply Inv_relink; [exact HI|exact Hlc|exact Hu|exact Hc|done|done|].
    intros k' Hk'. simpl link_targets.
    rewrite (decide_False (P := k' = null_key)) by done.
    rewrite (count_occ_list_delete l ndx old k' Hold). lia. }
  assert (Hq : quiet ((if (r, st').1 then Table_remove_recursive (r, st').2 else ret tt) ;;;
                      if is_unresolved old
                      then check_for_last_unresolved lst else ret tt)).
  { apply quiet_bind; [apply quiet_cascade|].
    apply quiet_if; [apply quiet_check_for_last_unresolved|apply quiet_ret]. }
  by destruct (Hq _ _ HI2 H).
Qed.

(** ** [Lst<ObjKey>::do_clear], target table not embedded *)

Lemma sublist_full {A} (l1 l2 : list A) :
  sublist l1 l2 -> (length l2 <= length l1)%nat -> l1 = l2.
Proof.
  induction 1 as [|x l1 l2 Hs IH|x l1 l2 Hs IH]; simpl; intros Hlen.
  - done.
  - f_equal. apply IH. lia.
  - apply sublist_length in Hs. lia.
Qed.

Lemma clear_loop_Inv lst n :
  forall g g' l f,
  Inv g -> cell_at g (m_obj lst) (m_col_key lst) = Some (CLinkList l f) ->
  length l = n ->
  for_each (fun ndx => Lst_do_set lst ndx null_key ;;; tree_erase lst ndx)
           (rev (seq 0 n)) g = Ok tt g' ->
  Inv g'.
Proof.
  induction n as [|n IH]; intros g g' l f HI Hc Hlen H.
  - simpl in H. by injection H as <-.
  - rewrite seq_S, rev_unit in H. simpl plus in H.
    rewrite for_each_cons in H. rewrite bind_unfold in H.
    destruct (Lst_do_set lst n null_key g) as [[] g1| |] eqn:E1; try done.
    destruct (do_set_effect _ _ _ _ _ HI E1) as (HI1 & l0 & f0 & Hc0 & _ & Hsub).
    rewrite Hc in Hc0. injection Hc0 as <- <-.
    destruct (tree_erase lst n g1) as [[] g2| |] eqn:E2; try done.
    apply tree_erase_Ok in E2 as (l1 & f1 & Hc1 & Hlt & ->).
    assert (Hl1 : l1 = <[n := null_key]> l).
    { apply sublist_full; [by eapply Hsub|]. rewrite length_insert. lia. }
    assert (Hn : l1 !! n = Some null_key).
    { rewrite Hl1. apply list_lookup_insert_eq. lia. }
    eapply (IH _ g' (delete n l1) f1); [| | |exact H].
    + eapply Inv_upd_links; [exact HI1|exact Hc1|done|done|].
      intros k Hk. simpl link_targets.
      pose proof (count_occ_list_delete l1 n null_key k Hn) as Hd.
      rewrite decide_False in Hd by done. lia.
    + apply cell_at_upd_eq. by rewrite Hc1.
    + rewrite length_delete by (by rewrite Hn). rewrite Hl1, length_insert. lia.
Qed.

(** ** [Lst<ObjKey>::do_clear], target table embedded *)

Lemma remove_one_backlink_Ok y bc o g g' :
  Obj_remove_one_backlink y bc o g = Ok tt g' ->
  remove_backlink_pure y bc o g = Some g'.
Proof.
  rewrite remove_one_backlink_eq.
  destruct (remove_backlink_pure y bc o g); [|done]. by intros [= <-].
Qed.

Lemma clear_embedded_loop_effect lst B bco (l : list Z) f idxs :
  forall st g0 st' g',
  cell_at g0 (m_obj lst) (m_col_key lst) = Some (CLinkList l f) ->
  fold_each
    (fun st ndx =>
       target_key <- tree_get lst ndx ;;
       _ <- get_row (B, target_key) ;;
       bc <- unchecked bco ;;
       Obj_remove_one_backlink (B, target_key) bc (m_obj lst).2 ;;;
       cnt <- Obj_get_backlink_count_total (B, target_key) ;;
       realm_assert (Nat.eqb cnt 0) ;;;
       ret (cascade_push st (B, target_key)))
    st idxs g0 = Ok st' g' ->
  exists ks,
    Forall2 (fun ndx k => l !! ndx = Some k) idxs ks
    /\ same_shape g0 g' /\ replication g' = replication g0
    /\ (forall y j v, is_link_cell v = true ->
          cell_at g' y j = Some v <-> cell_at g0 y j = Some v)
    /\ (forall y j o',
          (bl g' y j o'
           + (if decide (y.1 = B /\ Some j = bco /\ o' = (m_obj lst).2)
              then count_occ Z.eq_dec ks y.2 else 0)
           = bl g0 y j o')%nat)
    /\ st' = mkCascade (m_mode st) (m_to_be_deleted st ++ map (fun k => (B, k)) ks).
Proof.
  induction idxs as [|ndx idxs IH]; intros st g0 st' g' Hc H.
  - rewrite fold_each_nil in H. injection H as <- <-. exists []. split_and!; try done.
    + apply same_shape_refl.
    + intros y j o'. simpl. case_decide; lia.
    + simpl. rewrite app_nil_r. by destruct st.
  - rewrite fold_each_cons in H.
    rewrite bind_unfold in H.
    destruct (tree_get lst ndx g0) as [k g0'| |] eqn:E1; try done.
    apply tree_get_Ok in E1 as [-> (l0 & f0 & Hc0 & Hk)].
    rewrite Hc in Hc0. injection Hc0 as <- <-.
    rewrite bind_unfold, get_row_eq in H.
    destruct (objects g0 !! (B, k)) as [row|] eqn:Hrow; try done.
    rewrite bind_unfold, unchecked_unfold in H.
    destruct bco as [bc|]; try done.
    rewrite bind_unfold in H.
    destruct (Obj_remove_one_backlink (B, k) bc (m_obj lst).2 g0)
      as [[] g1| |] eqn:E2; try done.
    apply remove_one_backlink_Ok in E2.
    rewrite bind_unfold in H.
    destruct (Obj_get_backlink_count_total (B, k) g1) as [cnt g1'| |] eqn:E3; try done.
    assert (g1' = g1) as ->.
    { unfold Obj_get_backlink_count_total in E3. rewrite bind_unfold, get_row_eq in E3.
      destruct (objects g1 !! (B, k)); [|done]. rewrite ret_unfold in E3.
      by injection E3 as _ <-. }
    rewrite bind_unfold, realm_assert_unfold in H.
    destruct (Nat.eqb cnt 0); try done. rewrite ret_unfold in H.
    pose proof (remove_backlink_pure_counts _ _ _ _ _ E2) as Hcnt.
    pose proof (fun y j v Hv => remove_backlink_pure_link_cells _ _ _ _ _ y j v E2 Hv)
      as Hcells.
    apply remove_backlink_pure_Some in E2 as (Hsh & Hrep & _ & _ & _).
    destruct (IH (cascade_push st (B, k)) g1 st' g')
      as (ks & Hks & Hsh' & Hrep' & Hcells' & Hbl' & Hst'); [|exact H|].
    { by apply Hcells. }
    exists (k :: ks). split_and!.
    + by constructor.
    + by eapply same_shape_trans.
    + congruence.
    + intros y j v Hv. rewrite Hcells' by done. by apply Hcells.
    + intros y j o'. specialize (Hbl' y j o').
      destruct (Hcnt y j) as [_ Hb]. specialize (Hb o').
      rewrite count_occ_cons_decide. destruct y as [yt yk]. simpl in *.
      repeat case_decide; try lia; exfalso; naive_solver.
    + rewrite Hst'. simpl. by rewrite <- app_assoc.
Qed.

Lemma Forall2_lookup_seq (l ks : list Z) :
  Forall2 (fun ndx k => l !! ndx = Some k) (seq 0 (length l)) ks -> ks = l.
Proof.
  intros H. apply list_eq. intros i.
  destruct (decide (i < length l)%nat) as [Hlt|Hge].
  - destruct (lookup_lt_is_Some_2 (seq 0 (length l)) i) as [n Hn].
    { by rewrite length_seq. }
    pose proof Hn as Hn'. apply lookup_seq in Hn' as [-> _]. simpl in Hn.
    destruct (Forall2_lookup_l _ _ _ _ _ H Hn) as (k & Hk & Hlk).
    by rewrite Hk, Hlk.
  - pose proof (Forall2_length _ _ _ H) as Hlen. rewrite length_seq in Hlen.
    rewrite !lookup_ge_None_2; [done|lia|lia].
Qed.

Lemma is_embedded_Ok t g b g' :
  is_embedded t g = Ok b g' ->
  g' = g /\ exists ti, tables g !! t = Some ti /\ b = t_embedded ti.
Proof.
  unfold is_embedded. destruct (tables g !! t) as [ti|] eqn:Hti; [|done].
  intros [= <- <-]. eauto.
Qed.

(** After the loop of the embedded branch and [m_tree->clear()] the link
    graph is balanced again. *)
Lemma clear_embedded_relink_Inv lst g g1 (l : list Z) f bc B :
  Inv g ->
  cell_at g (m_obj lst) (m_col_key lst) = Some (CLinkList l f) ->
  link_column g (m_obj lst).1 (m_col_key lst) = Some (B, bc) ->
  same_shape g g1 ->
  (forall y j v, is_link_cell v = true ->
     cell_at g1 y j = Some v <-> cell_at g y j = Some v) ->
  (forall y j o',
     (bl g1 y j o'
      + (if decide (y.1 = B /\ Some j = Some bc /\ o' = (m_obj lst).2)
         then count_occ Z.eq_dec l y.2 else 0)
      = bl g y j o')%nat) ->
  Inv (upd (m_obj lst) (m_col_key lst) (CLinkList [] f) g1).
Proof.
  intros (Hs & Hr & Hb) Hc Hlc Hsh Hcells Hbl.
  assert (Hc1 : cell_at g1 (m_obj lst) (m_col_key lst) = Some (CLinkList l f))
    by (by apply Hcells).
  assert (Hsh2 : same_shape g (upd (m_obj lst) (m_col_key lst) (CLinkList [] f) g1)).
  { eapply same_shape_trans; [exact Hsh|]. by eapply same_shape_upd. }
  unfold Inv. split_and!.
  - by eapply same_shape_wf_schema.
  - by eapply same_shape_wf_rows.
  - intros A c' B' bc' o' k Hlc' Hk.
    rewrite (same_shape_link_column _ _ _ _ Hsh2) in Hlc'.
    unfold fwd, bl. rewrite (links_at_upd_link _ _ _ _ _ _ _ Hc1).
    rewrite (backlinks_at_upd_link _ _ _ _ _ _ _ Hc1) by done.
    fold (bl g1 (B', k) bc' o').
    specialize (Hbl (B', k) bc' o'). simpl in Hbl.
    specialize (Hb _ _ _ _ o' _ Hlc' Hk).
    destruct (decide ((A, o') = m_obj lst /\ c' = m_col_key lst)) as [[Ho ->]|Hne].
    + rewrite <- Ho in Hlc. simpl in Hlc. rewrite Hlc in Hlc'.
      injection Hlc' as <- <-.
      rewrite decide_True in Hbl by (by rewrite <- Ho).
      rewrite <- Hb in Hbl. unfold fwd, links_at in Hbl.
      rewrite Ho, Hc in Hbl. simpl in Hbl. simpl. lia.
    + rewrite decide_False in Hbl.
      2: { intros (-> & [= ->] & ->). apply Hne.
           destruct (link_column_inj _ _ _ _ _ _ _ Hlc Hlc') as [<- <-].
           by destruct (m_obj lst). }
      rewrite <- Hb in Hbl.
      assert (Hfw : fwd g1 (A, o') c' k = fwd g (A, o') c' k).
      { unfold fwd, links_at.
        destruct (cell_at g (A, o') c') as [v|] eqn:Hv.
        - destruct (is_link_cell v) eqn:Hl.
          + by rewrite (proj2 (Hcells _ _ _ Hl) Hv).
          + destruct (same_shape_cell _ _ _ _ _ Hsh Hv) as (v' & -> & Hleaf).
            by destruct v, v'.
        - destruct (cell_at g1 (A, o') c') as [v'|] eqn:Hv'; [|done].
          destruct (same_shape_cell_back _ _ _ _ _ Hsh Hv') as (v & Hv0 & _).
          congruence. }
      unfold fwd in Hfw. rewrite Hfw. fold (fwd g (A, o') c' k). lia.
Qed.

Lemma do_clear_Inv lst g g' :
  Inv g -> Lst_do_clear lst g = Ok tt g' -> Inv g'.
Proof.
  intros HI H. unfold Lst_do_clear in H.
  rewrite bind_unfold, get_target_table_eq in H.
  destruct (tables g !! (m_obj lst).1) as [ti|] eqn:Hti; try done.
  destruct (columns (t_spec ti) !! m_col_key lst) as [col|] eqn:Hcol; try done.
  destruct (tables g !! col_opposite_table col) as [tti|] eqn:Htt; try done.
  rewrite bind_unfold in H.
  destruct (tree_size lst g) as [sz g0| |] eqn:E1; try done.
  apply tree_size_Ok in E1 as [-> (l & f & Hc & ->)].
  rewrite bind_unfold in H.
  destruct (is_embedded (col_opposite_table col) g) as [emb g0| |] eqn:E2; try done.
  apply is_embedded_Ok in E2 as [-> (tti' & Htt' & ->)].
  rewrite Htt in Htt'. injection Htt' as <-.
  destruct (t_embedded tti);
    [change (negb true) with false in H|change (negb false) with true in H];
    cbv iota in H.
  - (* embedded target *)
    rewrite bind_unfold, get_spec_unfold, Htt in H.
    cbv zeta in H. rewrite bind_unfold in H.
    match type of H with
    | match fold_each ?body ?st ?idxs ?g with _ => _ end = _ =>
        destruct (fold_each body st idxs g) as [st' g1| |] eqn:E3; try done
    end.
    destruct (clear_embedded_loop_effect lst _ _ l f _ _ _ _ _ Hc E3)
      as (ks & Hks & Hsh & Hrep & Hcells & Hbl & Hst).
    apply Forall2_lookup_seq in Hks as ->.
    rewrite bind_unfold in H.
    destruct (tree_clear lst g1) as [[] g2| |] eqn:E4; try done.
    apply tree_clear_Ok in E4 as (l1 & f1 & Hc1 & ->).
    assert (Hc1' : cell_at g (m_obj lst) (m_col_key lst) = Some (CLinkList l1 f1))
      by (by apply Hcells).
    rewrite Hc in Hc1'. injection Hc1' as <- <-.
    destruct HI as (Hs & Hr & Hb).
    destruct (link_cell_column _ _ _ _ Hs Hr Hc eq_refl)
      as (ti' & col' & tti' & bc & Hti' & Hcol' & Htt' & Hf & Hlc & _).
    rewrite Hti in Hti'. injection Hti' as <-.
    rewrite Hcol in Hcol'. injection Hcol' as <-.
    rewrite Htt in Htt'. injection Htt' as <-.
    rewrite Hf in Hbl.
    assert (HI2 : Inv (upd (m_obj lst) (m_col_key lst) (CLinkList [] f) g1)).
    { eapply (clear_embedded_relink_Inv lst g g1 l f bc);
        [by split_and!|exact Hc|exact Hlc|exact Hsh|exact Hcells|exact Hbl]. }
    assert (Hq : quiet (set_context_flag lst false ;;; Table_remove_recursive st')).
    { apply quiet_bind; [apply quiet_set_context_flag|apply quiet_remove_recursive]. }
    by destruct (Hq _ _ HI2 H).
  - (* target table not embedded *)
    rewrite bind_unfold in H.
    match type of H with
    | match for_each ?body ?idxs ?g with _ => _ end = _ =>
        destruct (for_each body idxs g) as [[] g1| |] eqn:E3; try done
    end.
    pose proof (clear_loop_Inv lst (length l) g g1 l f HI Hc eq_refl E3) as HI1.
    by destruct (quiet_set_context_flag lst false _ _ HI1 H).
Qed.

(** ** [Obj::set<Key>] *)

#[local] Set Warnings "-clear-no-such-hyp".

Lemma is_valid_unfold x g : is_valid x g = Ok (valid_object g x) g.
Proof. reflexivity. Qed.

(** The body of [Obj::set<Key>], guard by guard. *)
Lemma set_Key_eq o c new is_default g :
  Obj_set_Key o c new is_default g
  = match tables g !! o.1 with
    | None => Abort
    | Some ti =>
        if (get_public_column_count (t_spec ti) <=? c)%nat
        then Throw column_index_out_of_range g
        else
          match columns (t_spec ti) !! c with
          | None => Abort
          | Some col =>
              match tables g !! col_opposite_table col with
              | None => Abort
              | Some tti =>
                  if negb (new =? null_key)
                     && negb (valid_object g (col_opposite_table col, new))
                  then Throw target_row_index_out_of_range g
                  else
                    match cell_at g o c with
                    | Some (CKey old) =>
                        if negb (new =? old)
                        then
                          match Obj_update_backlinks o c old new
                                  (mkCascade Mode_Strong []) (bump g) with
                          | Ok r g1 =>
                              match cell_at g1 o c with
                              | Some _ =>
                                  (if r.1 then Table_remove_recursive r.2 else ret tt)
                                    (emitted (repl_set_key o.1 c o.2 new
                                                (instr_type is_default))
                                             (upd o c (CKey new) g1))
                              | None => Abort
                              end
                          | Throw e g1 => Throw e g1
                          | Abort => Abort
                          end
                        else Ok tt (bump g)
                    | _ => Abort
                    end
              end
          end
    end.
Proof.
  unfold Obj_set_Key. mstep.
  destruct (tables g !! o.1) as [ti|] eqn:Hti; [|done]. mstep.
  destruct (get_public_column_count (t_spec ti) <=? c)%nat; [done|].
  mstep. rewrite get_target_table_eq, Hti.
  destruct (columns (t_spec ti) !! c) as [col|] eqn:Hcol; [|done].
  destruct (tables g !! col_opposite_table col) as [tti|] eqn:Htt; [|done].
  mstep. rewrite is_valid_unfold. mstep.
  destruct (negb (new =? null_key)
            && negb (valid_object g (col_opposite_table col, new))); [done|].
  mstep. rewrite get_row_eq. unfold cell_at.
  destruct (objects g !! o) as [row|] eqn:Hrow; [|done]. mstep.
  rewrite get_row_eq. change (objects (bump g)) with (objects g). rewrite Hrow.
  mstep. simpl mbind.
  destruct (row !! c) as [v|] eqn:Hv.
  2: { apply lookup_ge_None in Hv.
       destruct (Nat.ltb_spec (c + 1) (S (length row))); [lia|done]. }
  pose proof (lookup_lt_Some _ _ _ Hv) as Hlt.
  destruct (Nat.ltb_spec (c + 1) (S (length row))); [|lia].
  mstep. rewrite read_leaf_eq. unfold cell_at.
  change (objects (bump g)) with (objects g). rewrite Hrow. simpl mbind.
  rewrite Hv. mred.
  destruct v; try done.
  destruct (negb (new =? k)); [|by mstep].
  mstep.
  destruct (Obj_update_backlinks o c k new _ (bump g)) as [r g1| |]; try done.
  mstep. rewrite write_leaf_eq.
  fold (cell_at g1 o c).
  destruct (cell_at g1 o c); [|done]. mstep. done.
Qed.

Lemma set_Key_Inv o c new is_default g g' :
  Inv g -> Obj_set_Key o c new is_default g = Ok tt g' -> Inv g'.
Proof.
  intros HI. rewrite set_Key_eq.
  destruct (tables g !! o.1) as [ti|] eqn:Hti; [|done].
  destruct (get_public_column_count (t_spec ti) <=? c)%nat; [done|].
  destruct (columns (t_spec ti) !! c) as [col|] eqn:Hcol; [|done].
  destruct (tables g !! col_opposite_table col) as [tti|] eqn:Htt; [|done].
  destruct (negb (new =? null_key) && _); [done|].
  destruct (cell_at g o c) as [[]|] eqn:Hc; try done.
  destruct (negb (new =? k)).
  2: { intros [= <-]. by apply Inv_bump. }
  destruct (Obj_update_backlinks o c k new _ (bump g)) as [[r st'] g1| |] eqn:E;
    try done.
  destruct (update_backlinks_link_point (bump g) _ _ _ _ _ _ _ _ _
              (Inv_bump _ HI) Hc eq_refl E)
    as (ti' & col' & bc & Hti' & Hcol' & Hlc & Hu).
  destruct (cell_at g1 o c) eqn:Hc1; [|done]. intros H.
  assert (HI2 : Inv (emitted (repl_set_key o.1 c o.2 new (instr_type is_default))
                             (upd o c (CKey new) g1))).
  { apply Inv_emitted.
    eapply Inv_relink; [exact (Inv_bump _ HI)|exact Hlc|exact Hu|exact Hc|done|done|].
    intros k' Hk'. simpl link_targets. rewrite !count_occ_single.
    repeat case_decide; try lia; congruence. }
  by destruct (quiet_cascade (r, st') _ _ HI2 H).
Qed.

(** The backlink lists after [Obj::update_backlinks] with two different
    keys. *)
Lemma update_backlinks_pure_lists o B bc strong old new st g r st' g1 :
  update_backlinks_pure o B (Some bc) strong old new st g = Some (r, st', g1) ->
  old <> new ->
  (old <> null_key ->
   ArrayBacklink_remove (backlinks_at g (B, old) bc) o.2
   = Some (backlinks_at g1 (B, old) bc))
  /\ (new <> null_key ->
      backlinks_at g1 (B, new) bc
      = ArrayBacklink_add (backlinks_at g (B, new) bc) o.2)
  /\ (forall y j,
        ~ (old <> null_key /\ y = (B, old) /\ j = bc) ->
        ~ (new <> null_key /\ y = (B, new) /\ j = bc) ->
        backlinks_at g1 y j = backlinks_at g y j).
Proof.
  unfold update_backlinks_pure. simpl mbind. intros H Hne.
  destruct (Z.eqb_spec old null_key) as [Hold|Hold]; simpl in H.
  - destruct (Z.eqb_spec new null_key) as [Hnew|Hnew]; simpl in H.
    + injection H as <- <- <-. done.
    + destruct (add_backlink_pure (B, new) bc o.2 g) as [g2|] eqn:Hadd; [|done].
      simpl in H. injection H as <- <- <-.
      apply add_backlink_pure_Some in Hadd as (_ & _ & _ & Hbl & _).
      split_and!; [done| |].
      * intros _. rewrite Hbl. by rewrite decide_True.
      * intros y j _ Hn. rewrite Hbl. rewrite decide_False; [done|]. tauto.
  - destruct (remove_backlink_pure (B, old) bc o.2 g) as [g0|] eqn:Hrem; [|done].
    simpl in H.
    apply remove_backlink_pure_Some in Hrem as (_ & _ & _ & _ & l' & Hl' & Hbl0).
    assert (H' : (if new =? null_key then Some g0
                  else add_backlink_pure (B, new) bc o.2 g0) = Some g1).
    { destruct (strong && _); simpl in H;
        destruct (new =? null_key); simpl in H;
        try (destruct (add_backlink_pure (B, new) bc o.2 g0); [|done]; simpl in H);
        by injection H as <- <- <-. }
    clear H.
    destruct (Z.eqb_spec new null_key) as [Hnew|Hnew].
    + injection H' as <-. split_and!; [| done |].
      * intros _. rewrite Hbl0. rewrite decide_True by done. exact Hl'.
      * intros y j Hn _. rewrite Hbl0. rewrite decide_False; [done|]. tauto.
    + apply add_backlink_pure_Some in H' as (_ & _ & _ & Hbl & _).
      split_and!.
      * intros _. rewrite Hbl. rewrite decide_False by (intros [[= ?] _]; done).
        rewrite Hbl0. rewrite decide_True by done. exact Hl'.
      * intros _. rewrite Hbl. rewrite decide_True by done.
        rewrite Hbl0. rewrite decide_False by (intros [[= ?] _]; done). done.
      * intros y j Hn1 Hn2. rewrite Hbl. rewrite decide_False by tauto.
        rewrite Hbl0. rewrite decide_False by tauto. done.
Qed.

Lemma update_backlinks_pure_is_Some o B bc strong old new st g :
  (old <> null_key -> (0 < bl g (B, old) bc o.2)%nat) ->
  (new <> null_key -> exists l, cell_at g (B, new) bc = Some (CBacklink l)) ->
  is_Some (update_backlinks_pure o B (Some bc) strong old new st g).
Proof.
  intros Hold Hnew. unfold update_backlinks_pure. simpl mbind.
  destruct (Z.eqb_spec old null_key) as [Ho|Ho]; simpl.
  - destruct (Z.eqb_spec new null_key) as [Hn|Hn]; simpl; [eauto|].
    destruct (Hnew Hn) as [l Hc].
    destruct (add_backlink_pure_is_Some (B, new) bc o.2 g l Hc) as [g2 ->].
    simpl. eauto.
  - destruct (bl_pos_cell _ _ _ _ (Hold Ho)) as (l & Hc & Hl).
    destruct (remove_backlink_pure_is_Some _ _ _ _ _ Hc Hl) as [g0 Hrem].
    rewrite Hrem. simpl.
    assert (Hadd : new <> null_key ->
                   is_Some (add_backlink_pure (B, new) bc o.2 g0)).
    { intros Hn. destruct (Hnew Hn) as [l0 Hc0].
      apply remove_backlink_pure_Some in Hrem as (Hsh & _).
      destruct (same_shape_cell _ _ _ _ _ Hsh Hc0) as (v & Hv & Hleaf).
      destruct v; try done. by eapply add_backlink_pure_is_Some. }
    destruct (strong && _); simpl;
      destruct (Z.eqb_spec new null_key) as [Hn|Hn]; simpl; eauto;
      destruct (Hadd Hn) as [g2 ->]; simpl; eauto.
Qed.

(** ** From the balance per origin to the sum over the origin table *)

#[local] Set Warnings "-clear-no-such-hyp".

Lemma list_sum_indicator (keys : list ObjRef) (y : ObjRef) :
  NoDup keys -> y ∈ keys ->
  list_sum (map (fun x => if decide (x = y) then 1%nat else 0%nat) keys) = 1%nat.
Proof.
  induction keys as [|a keys IH]; intros Hnd Hin.
  - by apply elem_of_nil in Hin.
  - apply NoDup_cons in Hnd as [Hna Hnd]. simpl.
    destruct (decide (a = y)) as [->|Hne].
    + assert (list_sum (map (fun x => if decide (x = y) then 1%nat else 0%nat) keys)
              = 0%nat) as ->; [|done].
      clear IH Hin Hnd. induction keys as [|b keys IH]; [done|]. simpl.
      apply not_elem_of_cons in Hna as [Hb Hna].
      rewrite decide_False by done. by apply IH.
    + apply elem_of_cons in Hin as [->|Hin]; [done|]. by rewrite IH.
Qed.

Lemma list_sum_map_add {X} (f h : X -> nat) (l : list X) :
  list_sum (map (fun x => (f x + h x)%nat) l)
  = (list_sum (map f l) + list_sum (map h l))%nat.
Proof. induction l as [|a l IH]; simpl; [done|]. rewrite IH. lia. Qed.

Lemma list_sum_map_ext {X} (f h : X -> nat) (l : list X) :
  (forall x, x ∈ l -> f x = h x) -> list_sum (map f l) = list_sum (map h l).
Proof.
  induction l as [|a l IH]; intros H; simpl; [done|].
  rewrite (H a) by (by left). rewrite IH; [done|].
  intros x Hx. apply H. by right.
Qed.

Lemma list_sum_map_zero {X} (l : list X) :
  list_sum (map (fun _ => 0%nat) l) = 0%nat.
Proof. induction l; simpl; done. Qed.

(** The origins listed in [L], counted per object of table [A]. *)
Lemma list_sum_count_occ (keys : list ObjRef) (A : TableKey) (L : list Z) :
  NoDup keys -> (forall o, o ∈ L -> (A, o) ∈ keys) ->
  list_sum (map (fun x : ObjRef =>
                   if decide (x.1 = A) then count_occ Z.eq_dec L x.2 else 0%nat)
                keys)
  = length L.
Proof.
  intros Hnd. induction L as [|a L IH]; intros Hin.
  - simpl. rewrite (list_sum_map_ext _ (fun _ => 0%nat)).
    + apply list_sum_map_zero.
    + intros x _. by case_decide.
  - rewrite (list_sum_map_ext _
               (fun x => ((if decide (x = (A, a)) then 1 else 0)
                          + (if decide (x.1 = A)
                             then count_occ Z.eq_dec L x.2 else 0))%nat)).
    + rewrite list_sum_map_add, IH.
      * rewrite list_sum_indicator; [done|done|]. apply Hin. by left.
      * intros o Ho. apply Hin. by right.
    + intros [xt xk] _. rewrite count_occ_cons_decide. cbn [fst snd].
      repeat case_decide; try lia; exfalso; naive_solver.
Qed.

Lemma Inv_link_consistent g : Inv g -> link_consistent g.
Proof.
  intros (Hs & Hr & Hb) A c B bc k Hlc Hv.
  destruct (Hr _ Hv) as [Hk _]. simpl in Hk.
  unfold origin_refs, backlink_count.
  set (L := backlinks_at g (B, k) bc).
  assert (Hbal : forall o, fwd g (A, o) c k = count_occ Z.eq_dec L o).
  { intros o. by rewrite (Hb _ _ _ _ o _ Hlc Hk). }
  rewrite (list_sum_map_ext _
    (fun xr : ObjRef * list Cell =>
       (fun x : ObjRef => if decide (x.1 = A)
                          then count_occ Z.eq_dec L x.2 else 0%nat) xr.1)).
  2: { intros [[xt xk] row] Hin. apply elem_of_map_to_list in Hin. simpl.
       destruct (Nat.eqb_spec xt A) as [->|Hne].
       - rewrite decide_True by done. rewrite <- Hbal.
         unfold fwd, links_at, cell_at. rewrite Hin. simpl.
         by destruct (row !! c).
       - by rewrite decide_False. }
  trans (list_sum (map (fun x : ObjRef =>
                          if decide (x.1 = A)
                          then count_occ Z.eq_dec L x.2 else 0%nat)
                       (map fst (map_to_list (objects g))))).
  { by rewrite map_map. }
  apply list_sum_count_occ.
  - apply NoDup_fst_map_to_list.
  - intros o Ho.
    assert (Hpos : (0 < fwd g (A, o) c k)%nat).
    { rewrite Hbal. apply count_occ_In. by apply list_elem_of_In. }
    assert (Hvo : valid_object g (A, o) = true).
    { destruct (valid_object g (A, o)) eqn:Hvo; [done|].
      unfold fwd, links_at in Hpos.
      rewrite (cell_at_invalid _ _ _ Hvo) in Hpos. simpl in Hpos. lia. }
    apply valid_object_Some in Hvo as [row Hrow].
    apply list_elem_of_fmap. exists ((A, o), row). split; [done|].
    by apply elem_of_map_to_list.
Qed.

(** ** The example group satisfies the invariant *)

#[local] Set Warnings "-clear-no-such-hyp".

Lemma ex_tables_lookup A ti :
  ex_tables !! A = Some ti ->
  A = 0%nat /\ ti = mkTable person_spec false
  \/ A = 1%nat /\ ti = mkTable dog_spec true.
Proof.
  unfold ex_tables. intros H.
  apply lookup_insert_Some in H as [[<- <-]|[_ H]]; [by left|].
  apply lookup_insert_Some in H as [[<- <-]|[_ H]]; [by right|].
  by rewrite lookup_empty in H.
Qed.

Lemma ex_objects_lookup x row :
  ex_objects !! x = Some row ->
  x ∈ [(0%nat, 0); (1%nat, 10); (1%nat, 11); (1%nat, 12)].
Proof.
  unfold ex_objects. intros H.
  repeat (apply lookup_insert_Some in H as [[<- _]|[_ H]];
          [set_solver|]).
  by rewrite lookup_empty in H.
Qed.

Lemma ex_cell_at_outside x j :
  x ∉ [(0%nat, 0); (1%nat, 10); (1%nat, 11); (1%nat, 12)] ->
  cell_at ex_group x j = None.
Proof.
  intros Hx. unfold cell_at. simpl objects.
  destruct (ex_objects !! x) as [row|] eqn:Hrow; [|done].
  by apply ex_objects_lookup in Hrow.
Qed.

Lemma ex_links_at_outside x j :
  x ∉ [(0%nat, 0); (1%nat, 10); (1%nat, 11); (1%nat, 12)] ->
  links_at ex_group x j = [].
Proof. intros Hx. unfold links_at. by rewrite ex_cell_at_outside. Qed.

Lemma ex_backlinks_at_outside x j :
  x ∉ [(0%nat, 0); (1%nat, 10); (1%nat, 11); (1%nat, 12)] ->
  backlinks_at ex_group x j = [].
Proof. intros Hx. unfold backlinks_at. by rewrite ex_cell_at_outside. Qed.

Ltac check_column :=
  split;
  [split;
   [intros Hlt; simpl; first [discriminate|simpl in Hlt; lia]
   |intros Hne; first [simpl; lia|simpl in Hne; congruence]]
  |split;
   [intros Hl; first
      [discriminate Hl
      |split;
       [eexists; vm_compute; reflexivity
       |split; intros Ha;
        first [reflexivity|vm_compute; reflexivity|vm_compute in Ha; discriminate Ha]]]
   |intros Hb; first [discriminate Hb|vm_compute; reflexivity]]].

Lemma wf_schema_ex_group : wf_schema ex_group.
Proof.
  intros A ti Hti. simpl tables in Hti.
  apply ex_tables_lookup in Hti as [[-> ->]|[-> ->]].
  - split; [simpl; lia|]. intros c col Hcol.
    do 5 (destruct c as [|c]; [injection Hcol as <-; check_column|]).
    done.
  - split; [simpl; lia|]. intros c col Hcol.
    do 5 (destruct c as [|c]; [injection Hcol as <-; check_column|]).
    done.
Qed.

Ltac ex_eval_cells :=
  repeat match goal with
         | |- context [cell_at ex_group ?x ?j] =>
             let v := eval vm_compute in (cell_at ex_group x j) in
             change (cell_at ex_group x j) with v
         end.

Ltac check_cell :=
  simpl; ex_eval_cells; constructor; unfold cell_ok; simpl;
  first [by eexists|by do 2 eexists|by split].

Lemma wf_rows_ex_group : wf_rows ex_group.
Proof.
  intros x Hv. apply valid_object_Some in Hv as [row Hrow].
  simpl objects in Hrow. apply ex_objects_lookup in Hrow.
  set_unfold in Hrow.
  destruct Hrow as [->|[->|[->|[->|[]]]]].
  all: split; [simpl; unfold null_key; lia|].
  all: eexists; split; [vm_compute; reflexivity|].
  all: intros j; do 5 (destruct j as [|j]; [check_cell|]).
  all: simpl; ex_eval_cells; constructor.
Qed.

Ltac ex_norm :=
  repeat match goal with
         | |- context [links_at ex_group ?x ?j] =>
             first [rewrite (ex_links_at_outside x j)
                      by (set_unfold; intuition congruence)
                   |let v := eval vm_compute in (links_at ex_group x j) in
                    change (links_at ex_group x j) with v]
         | |- context [backlinks_at ex_group ?x ?j] =>
             first [rewrite (ex_backlinks_at_outside x j)
                      by (set_unfold; intuition congruence)
                   |let v := eval vm_compute in (backlinks_at ex_group x j) in
                    change (backlinks_at ex_group x j) with v]
         end.

Ltac ex_split_key z :=
  destruct (decide (z = 0)) as [->|?];
  [|destruct (decide (z = 10)) as [->|?];
    [|destruct (decide (z = 11)) as [->|?];
      [|destruct (decide (z = 12)) as [->|?]]]].

Lemma link_balanced_ex_group : link_balanced ex_group.
Proof.
  intros A c B bc o k Hlc Hk.
  destruct (link_column_Some _ _ _ _ _ Hlc)
    as (ti & col & _ & _ & Hti & Hcol & Hty & _).
  simpl tables in Hti.
  apply ex_tables_lookup in Hti as [[-> ->]|[-> ->]].
  all: do 5 (try (destruct c as [|c])); simpl in Hcol; try discriminate Hcol.
  all: injection Hcol as <-; simpl in Hty; try discriminate Hty.
  all: vm_compute in Hlc; injection Hlc as <- <-.
  all: unfold fwd, bl.
  all: ex_split_key o; ex_split_key k; try done.
  all: ex_norm; rewrite ?count_occ_cons_decide; cbn [count_occ];
    repeat case_decide; first [done|congruence|lia].
Qed.

Lemma Inv_ex_group : Inv ex_group.
Proof.
  split_and!; [apply wf_schema_ex_group|apply wf_rows_ex_group
              |apply link_balanced_ex_group].
Qed.

(** ** The link write protocol of [Obj::set<Key>] *)

#[local] Set Warnings "-clear-no-such-hyp".

(** C2.  Link write protocol.  In a group whose link graph is balanced, take
    an object [o] with a link column [col_ndx] that holds [old_key], and a
    different [new_key] that is null or the key of an object of the target
    table.  Then [Obj::set<Key>] returns normally, and on the way passes
    through a state [g1] in which: one backlink entry for [o] is gone from
    the old target (if [old_key] is not null), one backlink entry for [o] is
    added to the new target (if [new_key] is not null), no other backlink
    list changed, the column holds [new_key], no other link changed, and one
    set instruction ([instr_Set] unless [is_default]) is appended to the log
    of the replication sink.  If the column has the StrongLinks attribute
    and the old target's backlink count for the column is zero in [g1], the
    final state is the result of the cascade from [g1] started with the old
    target: the old target is gone, every object left that had a strong
    backlink still has one, and every object that went had a strong
    backlink or is the old target.  Otherwise the final state is [g1]. *)
Theorem set_Key_link_write_protocol (g : Group) (o : ObjRef) (col_ndx : nat)
    (old_key new_key : Key) (is_default : bool) (ti : TableInfo)
    (col : ColumnSpec) (bc : nat) :
  Inv g ->
  tables g !! o.1 = Some ti ->
  (col_ndx < get_public_column_count (t_spec ti))%nat ->
  columns (t_spec ti) !! col_ndx = Some col ->
  link_column g o.1 col_ndx = Some (col_opposite_table col, bc) ->
  cell_at g o col_ndx = Some (CKey old_key) ->
  old_key <> new_key ->
  new_key = null_key \/ valid_object g (col_opposite_table col, new_key) = true ->
  exists g1 g',
    Obj_set_Key o col_ndx new_key is_default g = Ok tt g'
    /\ (old_key <> null_key ->
        ArrayBacklink_remove (backlinks_at g (col_opposite_table col, old_key) bc) o.2
        = Some (backlinks_at g1 (col_opposite_table col, old_key) bc))
    /\ (new_key <> null_key ->
        backlinks_at g1 (col_opposite_table col, new_key) bc
        = ArrayBacklink_add (backlinks_at g (col_opposite_table col, new_key) bc) o.2)
    /\ (forall y j,
          ~ (old_key <> null_key /\ y = (col_opposite_table col, old_key) /\ j = bc) ->
          ~ (new_key <> null_key /\ y = (col_opposite_table col, new_key) /\ j = bc) ->
          backlinks_at g1 y j = backlinks_at g y j)
    /\ cell_at g1 o col_ndx = Some (CKey new_key)
    /\ (forall y j, (y, j) <> (o, col_ndx) -> links_at g1 y j = links_at g y j)
    /\ replication g1
       = (fun log => log ++ [repl_set_key o.1 col_ndx o.2 new_key
                               (if is_default then instr_SetDefault else instr_Set)])
           <$> replication g
    /\ (forall y, valid_object g1 y = valid_object g y)
    /\ (if attr_test (col_attr col) col_attr_StrongLinks
           && negb (old_key =? null_key)
           && Nat.eqb (backlink_count g1 (col_opposite_table col, old_key) bc) 0
        then
          Table_remove_recursive
            (mkCascade Mode_Strong [(col_opposite_table col, old_key)]) g1 = Ok tt g'
          /\ valid_object g' (col_opposite_table col, old_key) = false
          /\ cascade_closed g1 g'
          /\ (forall y, valid_object g1 y = true -> valid_object g' y = false ->
                y = (col_opposite_table col, old_key)
                \/ exists bc', strong_backlink_column g1 y.1 bc'
                               /\ (0 < backlink_count g1 y bc')%nat)
        else g' = g1).
Proof.
  intros HI Hti Hlt Hcol Hlc Hc Hne Hnew.
  set (B := col_opposite_table col) in *.
  pose proof HI as (Hs & Hr & Hb).
  destruct (link_column_Some _ _ _ _ _ Hlc)
    as (ti' & col' & tti & bcol & Hti' & Hcol' & Hty & HB & Htt & Hf & Hbcol & Hbty & _).
  rewrite Hti in Hti'. injection Hti' as <-.
  rewrite Hcol in Hcol'. injection Hcol' as <-. clear HB.
  (* the update of the backlinks succeeds *)
  assert (Hpos : old_key <> null_key -> (0 < bl (bump g) (B, old_key) bc o.2)%nat).
  { intros Hold. pose proof (Hb _ _ _ _ o.2 _ Hlc Hold) as Hbal.
    rewrite <- surjective_pairing in Hbal.
    change (bl (bump g) (B, old_key) bc o.2) with (bl g (B, old_key) bc o.2).
    rewrite <- Hbal. unfold fwd, links_at. rewrite Hc. simpl link_targets.
    rewrite count_occ_single. rewrite decide_True by done. lia. }
  assert (Hcell : new_key <> null_key ->
                  exists l, cell_at (bump g) (B, new_key) bc = Some (CBacklink l)).
  { intros Hn. destruct Hnew as [?|Hv]; [done|].
    destruct (wf_rows_column _ _ _ _ _ Hr Hv Htt Hbcol) as (v & Hv' & Hok).
    unfold cell_ok in Hok. rewrite Hbty in Hok. destruct Hok as [l ->]. eauto. }
  destruct (update_backlinks_pure_is_Some o B bc
              (attr_test (col_attr col) col_attr_StrongLinks) old_key new_key
              (mkCascade Mode_Strong []) (bump g) Hpos Hcell)
    as [[[r st'] gu] Hu].
  assert (E : Obj_update_backlinks o col_ndx old_key new_key
                (mkCascade Mode_Strong []) (bump g) = Ok (r, st') gu).
  { rewrite update_backlinks_eq. change (tables (bump g)) with (tables g).
    rewrite Hti, Hcol. fold B. rewrite Htt, Hf, Hu. done. }
  destruct (update_backlinks_pure_lists _ _ _ _ _ _ _ _ _ _ _ Hu Hne)
    as (Hrm & Had & Hfr).
  pose proof (update_backlinks_pure_link_cells _ _ _ _ _ _ _ _ _ _ _ o col_ndx
                (CKey old_key) Hu eq_refl) as Hcu.
  assert (Hcgu : cell_at gu o col_ndx = Some (CKey old_key)) by (by apply Hcu).
  pose proof (update_backlinks_pure_Some _ _ _ _ _ _ _ _ _ _ _ Hu)
    as (Hsh & Hrep & Hl & Hcnt & _ & _ & Hst & Hrv).
  set (g1 := emitted (repl_set_key o.1 col_ndx o.2 new_key (instr_type is_default))
                     (upd o col_ndx (CKey new_key) gu)).
  assert (HI1 : Inv g1).
  { apply Inv_emitted.
    eapply Inv_relink; [exact (Inv_bump _ HI)|exact Hlc|exact Hu|exact Hc|done|done|].
    intros k' Hk'. simpl link_targets. rewrite !count_occ_single.
    repeat case_decide; try lia; congruence. }
  assert (Hbl1 : forall y j, backlinks_at g1 y j = backlinks_at gu y j).
  { intros y j.
    change (backlinks_at (upd o col_ndx (CKey new_key) gu) y j = backlinks_at gu y j).
    by rewrite (backlinks_at_upd_link _ _ _ _ _ _ _ Hcgu). }
  assert (Hval1 : forall y, valid_object g1 y = valid_object g y).
  { intros y. change (valid_object (upd o col_ndx (CKey new_key) gu) y
                      = valid_object g y).
    rewrite valid_upd. by rewrite (same_shape_valid _ _ _ Hsh). }
  assert (Hcnt1 : forall y j, backlink_count g1 y j = backlink_count gu y j).
  { intros y j. unfold backlink_count. by rewrite Hbl1. }
  assert (Hcond : attr_test (col_attr col) col_attr_StrongLinks
                  && negb (old_key =? null_key)
                  && Nat.eqb (backlink_count g1 (B, old_key) bc) 0 = r).
  { rewrite Hrv, Hcnt1. destruct (Hcnt (B, old_key) bc) as [Hc1 _].
    change (backlink_count (bump g) (B, old_key) bc)
      with (backlink_count g (B, old_key) bc) in *.
    destruct (Z.eqb_spec old_key null_key) as [Hold|Hold]; simpl.
    { by rewrite andb_false_r. }
    rewrite decide_True in Hc1 by done.
    rewrite decide_False in Hc1 by (intros (_ & [= ?] & _); congruence).
    rewrite andb_true_r.
    destruct (attr_test (col_attr col) col_attr_StrongLinks); simpl; [|done].
    destruct (Nat.eqb_spec (backlink_count gu (B, old_key) bc) 0),
             (Nat.eqb_spec (backlink_count g (B, old_key) bc) 1); lia. }
  assert (Hst1 : r = true -> st' = mkCascade Mode_Strong [(B, old_key)]).
  { intros ->. by rewrite Hst. }
  assert (Hrun : Obj_set_Key o col_ndx new_key is_default g
                 = (if r then Table_remove_recursive st' else ret tt) g1).
  { rewrite set_Key_eq, Hti.
    destruct (Nat.leb_spec (get_public_column_count (t_spec ti)) col_ndx); [lia|].
    rewrite Hcol. fold B. rewrite Htt.
    assert (negb (new_key =? null_key) && negb (valid_object g (B, new_key)) = false)
      as ->.
    { destruct Hnew as [-> | ->]; [done|]. by rewrite andb_false_r. }
    rewrite Hc.
    destruct (Z.eqb_spec new_key old_key) as [?|_]; [congruence|]. simpl negb.
    cbv iota. rewrite E, Hcgu. done. }
  destruct r.
  - rewrite (Hst1 eq_refl) in Hrun.
    destruct (remove_recursive_spec (mkCascade Mode_Strong [(B, old_key)]) g1 HI1)
      as (g' & Hrec & HI' & Htab' & Hval' & Hrows' & _ & _ & _ & Hkeep & Honly).
    exists g1, g'. rewrite Hcond. split_and!.
    + by rewrite Hrun.
    + intros Hold. rewrite Hbl1. by apply Hrm.
    + intros Hn. rewrite Hbl1. by apply Had.
    + intros y j H1 H2. rewrite Hbl1. by apply Hfr.
    + apply cell_at_upd_eq. by rewrite Hcgu.
    + intros y j Hyj.
      change (links_at (upd o col_ndx (CKey new_key) gu) y j = links_at g y j).
      rewrite (links_at_upd_link _ _ _ _ _ _ _ Hcgu).
      rewrite decide_False by (intros [-> ->]; done). apply Hl.
    + simpl. rewrite replication_upd, Hrep. done.
    + done.
    + done.
    + apply Hrows'. simpl. by left.
    + split; [done|]. done.
    + intros y Hy1 Hy'. destruct (Honly y Hy1 Hy') as [Hin|?]; [|by right].
      left. simpl in Hin. by apply list_elem_of_singleton in Hin.
  - exists g1, g1. rewrite Hcond. split_and!.
    + by rewrite Hrun.
    + intros Hold. rewrite Hbl1. by apply Hrm.
    + intros Hn. rewrite Hbl1. by apply Had.
    + intros y j H1 H2. rewrite Hbl1. by apply Hfr.
    + apply cell_at_upd_eq. by rewrite Hcgu.
    + intros y j Hyj.
      change (links_at (upd o col_ndx (CKey new_key) gu) y j = links_at g y j).
      rewrite (links_at_upd_link _ _ _ _ _ _ _ Hcgu).
      rewrite decide_False by (intros [-> ->]; done). apply Hl.
    + simpl. rewrite replication_upd, Hrep. done.
    + done.
    + done.
Qed.

Lemma set_Key_link_write_protocol_witness :
  exists g1 g',
    Obj_set_Key (0%nat, 0) 2 11 false ex_group = Ok tt g'
    /\ cell_at g1 (0%nat, 0) 2 = Some (CKey 11)
    /\ backlinks_at g1 (1%nat, 10) 2 = []
    /\ backlinks_at g1 (1%nat, 11) 2 = [0]
    /\ valid_object g' (1%nat, 10) = false.
Proof.
  destruct (set_Key_link_write_protocol ex_group (0%nat, 0) 2%nat 10 11 false
              (mkTable person_spec false)
              (mkColumn col_type_Link col_attr_StrongLinks 1 0) 2%nat)
    as (g1 & g' & Hrun & Hrm & Had & _ & Hcell & _ & _ & _ & Hcas).
  - exact Inv_ex_group.
  - reflexivity.
  - simpl. lia.
  - reflexivity.
  - vm_compute. reflexivity.
  - reflexivity.
  - lia.
  - right. reflexivity.
  - assert (Hold : backlinks_at g1 (1%nat, 10) 2 = []).
    { assert (H10 : 10 <> null_key) by (unfold null_key; lia).
      pose proof (Hrm H10) as Hrm'.
      change (Some (@nil Z) = Some (backlinks_at g1 (1%nat, 10) 2)) in Hrm'.
      by injection Hrm' as <-. }
    exists g1, g'. split_and!; [exact Hrun|exact Hcell|exact Hold| |].
    + assert (H11 : 11 <> null_key) by (unfold null_key; lia).
      exact (Had H11).
    + change (if true && true && Nat.eqb (backlink_count g1 (1%nat, 10) 2) 0
              then Table_remove_recursive (mkCascade Mode_Strong [(1%nat, 10)]) g1
                   = Ok tt g'
                   /\ valid_object g' (1%nat, 10) = false
                   /\ cascade_closed g1 g'
                   /\ (forall y, valid_object g1 y = true ->
                         valid_object g' y = false ->
                         y = (1%nat, 10)
                         \/ exists bc', strong_backlink_column g1 y.1 bc'
                                        /\ (0 < backlink_count g1 y bc')%nat)
              else g' = g1) in Hcas.
      unfold backlink_count in Hcas. rewrite Hold in Hcas.
      by destruct Hcas as (_ & ? & _).
Defined.

(** ** The cascade keeps the context flags *)



Lemma flags_kept_cells g g' :
  (forall y j, cell_at g' y j = cell_at g y j) -> flags_kept g g'.
Proof. intros H y j l f Hc. rewrite H in Hc. eauto. Qed.


















(** ** Clearing a list of embedded objects runs to the end *)

#[local] Set Warnings "-clear-no-such-hyp".

Lemma tree_read_run lst g l f :
  cell_at g (m_obj lst) (m_col_key lst) = Some (CLinkList l f) ->
  tree_read lst g = Ok (l, f) g.
Proof. intros Hc. unfold tree_read. by rewrite bind_unfold, read_leaf_eq, Hc. Qed.

Lemma tree_write_run lst g v l f :
  cell_at g (m_obj lst) (m_col_key lst) = Some v ->
  tree_write lst l f g = Ok tt (upd (m_obj lst) (m_col_key lst) (CLinkList l f) g).
Proof. intros Hc. unfold tree_write. by rewrite write_leaf_eq, Hc. Qed.

Lemma tree_get_run lst g l f ndx k :
  cell_at g (m_obj lst) (m_col_key lst) = Some (CLinkList l f) ->
  l !! ndx = Some k -> tree_get lst ndx g = Ok k g.
Proof.
  intros Hc Hk. unfold tree_get.
  rewrite bind_unfold, (tree_read_run _ _ _ _ Hc), unchecked_unfold. simpl.
  by rewrite Hk.
Qed.

Lemma tree_size_run lst g l f :
  cell_at g (m_obj lst) (m_col_key lst) = Some (CLinkList l f) ->
  tree_size lst g = Ok (length l) g.
Proof.
  intros Hc. unfold tree_size. by rewrite bind_unfold, (tree_read_run _ _ _ _ Hc).
Qed.


Lemma set_context_flag_run lst g l f b :
  cell_at g (m_obj lst) (m_col_key lst) = Some (CLinkList l f) ->
  set_context_flag lst b g
  = Ok tt (upd (m_obj lst) (m_col_key lst) (CLinkList l b) g).
Proof.
  intros Hc. unfold set_context_flag.
  rewrite bind_unfold, (tree_read_run _ _ _ _ Hc). simpl.
  by eapply tree_write_run.
Qed.











(** ** Link consistency *)

(** The operations that go through the backlink protocol keep a balanced
    link graph balanced.  If the schema is well formed, every entry has the
    leaf class of its column, and for every origin object the references it
    holds to a key are the entries for that origin in the backlink column
    of the key, then after a completed [Obj::set<Key>], insert, set, remove
    or clear of [Lst<ObjKey>], or removal of an object, the same holds
    again, and so for every object [k] of a target table and every forward
    link column [c] the references to [k] in [c], summed over the objects
    of the origin table with every occurrence in a list counted, are the
    backlink count of [k] for that column.  ([Obj::set_null] on a link
    column is not among these operations: it leaves a balanced graph
    unbalanced.) *)
Lemma link_operations_keep_balance (op : LinkOp) (g g' : Group) :
  Inv g -> run_op op g = Ok tt g' -> Inv g' /\ link_consistent g'.
Proof.
  intros HI Hrun.
  assert (HI' : Inv g').
  { destruct op; simpl in Hrun.
    - by eapply set_Key_Inv.
    - by eapply do_insert_Inv.
    - by eapply do_set_Inv.
    - by eapply do_remove_Inv.
    - by eapply do_clear_Inv.
    - by destruct (quiet_remove_recursive _ _ _ HI Hrun). }
  split; [done|]. by apply Inv_link_consistent.
Qed.

Lemma link_operations_keep_balance_example :
  exists g',
    run_op (op_remove_object (0%nat, 0)) ex_group = Ok tt g'
    /\ Inv g' /\ link_consistent g'.
Proof.
  exists (match run_op (op_remove_object (0%nat, 0)) ex_group with
          | Ok _ g' => g'
          | _ => ex_group
          end).
  split; [vm_compute; reflexivity|].
  apply (link_operations_keep_balance (op_remove_object (0%nat, 0)) ex_group).
  - exact Inv_ex_group.
  - vm_compute. reflexivity.
Qed.

(** ** ArrayBinary: Add, Set and Clear *)

Section ArrayBinaryMore.
Import ArrayBinary.

Implicit Types (elems : list (list Byte.byte)) (base : Z).

Local Abbreviation size_of elems := (Z.of_nat (length (concat elems))).

Lemma last_fmap_Some {A} (a : list A) (d : A) :
  a <> [] -> List.last (Some <$> a) None = Some (List.last a d).
Proof.
  induction a as [|x a IH]; [done|]. intros _.
  destruct a as [|y a]; [done|].
  change (List.last (Some <$> x :: y :: a) None)
    with (List.last (Some <$> y :: a) None).
  change (List.last (x :: y :: a) d) with (List.last (y :: a) d).
  by apply IH.
Qed.

Lemma Back_encode elems :
  elems <> [] -> size_of elems < 2 ^ 63 ->
  Array_Back (m_offsets (encode elems)) = Some (size_of elems).
Proof.
  intros Hne Hs. unfold Array_Back. simpl.
  rewrite (last_fmap_Some _ 0) by (by destruct elems).
  rewrite offsets_from_last. simpl. f_equal. apply to_uint64_small. lia.
Qed.

Lemma Add_encode elems (v : list Byte.byte) :
  size_of elems + Z.of_nat (length v) < 2 ^ 63 ->
  Add (encode elems) (Some v) (Z.of_nat (length v))
  = Some (encode (elems ++ [v])).
Proof.
  intros Hs. unfold Add.
  replace (bool_decide (is_Some (Some v))) with true
    by (symmetry; apply bool_decide_eq_true; eauto).
  rewrite orb_true_r. unfold Blob_Add. rewrite Z.leb_refl. simpl.
  rewrite Nat2Z.id, firstn_all.
  unfold encode. rewrite offsets_from_app, concat_app. simpl.
  rewrite app_nil_r, Z.add_0_l.
  destruct (decide (elems = [])) as [-> | Hne].
  - simpl. rewrite to_int64_small by (simpl in Hs; lia). done.
  - replace (Array_IsEmpty (offsets_from 0 elems)) with false
      by (by destruct elems).
    pose proof (Back_encode elems Hne) as Hb. unfold encode in Hb.
    cbn [m_offsets] in Hb.
    rewrite Hb by lia. simpl.
    rewrite Z.mod_small by lia. rewrite to_int64_small by lia. done.
Qed.

Lemma add_all_encode elems more :
  size_of (elems ++ more) < 2 ^ 63 ->
  add_all (encode elems) more = Some (encode (elems ++ more)).
Proof.
  revert elems. induction more as [|e more IH]; intros elems Hs.
  - by rewrite app_nil_r.
  - unfold add_all. simpl.
    rewrite concat_app, length_app in Hs. simpl in Hs. rewrite length_app in Hs.
    rewrite Add_encode by lia.
    change (add_all (encode (elems ++ [e])) more
            = Some (encode (elems ++ e :: more))).
    rewrite IH; [by rewrite <- app_assoc|].
    rewrite !concat_app, !length_app. simpl. rewrite app_nil_r. lia.
Qed.

Lemma size_insert elems ndx (e v : list Byte.byte) :
  elems !! ndx = Some e ->
  size_of (<[ndx:=v]> elems) = size_of elems - Z.of_nat (length e) + Z.of_nat (length v).
Proof.
  intros He. pose proof (lookup_lt_Some _ _ _ He) as Hlt.
  rewrite insert_take_drop by done.
  pose proof (f_equal length (concat_take_drop elems ndx)) as Hsp.
  rewrite length_app, (drop_S _ _ _ He) in Hsp. simpl in Hsp.
  rewrite length_app in Hsp.
  rewrite concat_app, length_app. simpl. rewrite length_app. lia.
Qed.

Lemma Set_encode elems ndx (e v : list Byte.byte) :
  elems !! ndx = Some e ->
  size_of elems < 2 ^ 63 ->
  size_of elems - Z.of_nat (length e) + Z.of_nat (length v) < 2 ^ 63 ->
  Set_ (encode elems) ndx (Some v) (Z.of_nat (length v))
  = Some (encode (<[ndx:=v]> elems)).
Proof.
  intros He Hs Hs'. pose proof (lookup_lt_Some _ _ _ He) as Hn.
  unfold Set_. simpl m_offsets at 1. rewrite offsets_from_length.
  replace (ndx <? length elems)%nat with true by (symmetry; by apply Nat.ltb_lt).
  replace (bool_decide (is_Some (Some v))) with true
    by (symmetry; apply bool_decide_eq_true; eauto).
  rewrite orb_true_r, start_of_encode, end_of_encode by (done || lia). simpl.
  pose proof (size_take_le elems (S ndx)) as Hle.
  rewrite (size_take_S _ _ _ He) in *.
  set (p := size_of (take ndx elems)) in *.
  unfold Blob_Replace.
  replace (p <=? p + Z.of_nat (length e)) with true by (symmetry; apply Z.leb_le; lia).
  replace (p + Z.of_nat (length e) <=? size_of elems) with true
    by (symmetry; apply Z.leb_le; lia).
  rewrite Z.leb_refl. simpl. f_equal. unfold encode.
  rewrite (insert_take_drop elems ndx) by done. f_equal.
  - unfold Array_Adjust.
    rewrite offsets_from_app, offsets_from_take. f_equal.
    rewrite offsets_from_drop, (drop_S _ _ _ He). fold p.
    rewrite !Z.add_0_l.
    replace ((p + Z.of_nat (length v) - (p + Z.of_nat (length e))) mod 2 ^ 64)
      with (to_uint64 (Z.of_nat (length v) - Z.of_nat (length e)))
      by (unfold to_uint64; f_equal; lia).
    pose proof (f_equal length (concat_take_drop elems ndx)) as Hsplit.
    rewrite length_app in Hsplit. fold p in Hsplit.
    rewrite (drop_S _ _ _ He) in Hsplit. simpl in Hsplit.
    rewrite length_app in Hsplit.
    rewrite wrap_small by lia.
    transitivity (map (fun x => x + (Z.of_nat (length v) - Z.of_nat (length e)))
                    (offsets_from p (e :: drop (S ndx) elems))).
    + apply map_ext_in. intros x Hx.
      apply list_elem_of_In in Hx. simpl in Hx.
      apply elem_of_cons in Hx as [-> | Hx].
      * apply wrap_small. lia.
      * apply offsets_from_bounds in Hx. apply wrap_small. lia.
    + rewrite offsets_from_shift. simpl. f_equal; [lia|]. f_equal. lia.
  - replace (Z.to_nat p) with (length (concat (take ndx elems))) by (subst p; lia).
    replace (Z.to_nat (p + Z.of_nat (length e)))
      with (length (concat (take (S ndx) elems))).
    + rewrite Nat2Z.id, firstn_all, concat_app. simpl.
      rewrite (concat_take_drop elems ndx) at 1. rewrite take_app_length.
      rewrite (concat_take_drop elems (S ndx)) at 1. by rewrite drop_app_length.
    + rewrite (take_S_r _ _ _ He), concat_app, length_app. simpl.
      rewrite app_nil_r. subst p. lia.
Qed.

Lemma Size_encode elems : Size (encode elems) = length elems.
Proof. unfold Size. simpl. apply offsets_from_length. Qed.

Lemma IsEmpty_encode elems : IsEmpty (encode elems) = bool_decide (elems = []).
Proof. by destruct elems. Qed.

Lemma Clear_encode ab : Clear ab = encode [].
Proof. done. Qed.

End ArrayBinaryMore.

(** X1. [ArrayBinary::Add] on a well-formed array whose blob stays below
    [2^63] bytes succeeds, gives the array that [Insert] at index [Size()]
    gives, keeps the class invariant, makes the array one element longer and
    not empty, stores the value as the last element with length [len], and
    leaves every earlier element, its length and its offset as they were. *)
Theorem ArrayBinary_Add_appends (ab : ArrayBinary.t) (value : list Byte.byte)
    (len : Z) :
  ArrayBinary.wf ab ->
  len = Z.of_nat (length value) ->
  Z.of_nat (length (ArrayBinary.m_blob ab)) + len < 2 ^ 63 ->
  exists ab',
    ArrayBinary.Add ab (Some value) len = Some ab'
    /\ ArrayBinary.Insert ab (ArrayBinary.Size ab) (Some value) len = Some ab'
    /\ ArrayBinary.wf ab'
    /\ ArrayBinary.Size ab' = S (ArrayBinary.Size ab)
    /\ ArrayBinary.IsEmpty ab' = false
    /\ ArrayBinary.element ab' (ArrayBinary.Size ab) = Some value
    /\ ArrayBinary.GetLen ab' (ArrayBinary.Size ab) = Some len
    /\ ArrayBinary.m_blob ab' = ArrayBinary.m_blob ab ++ value
    /\ forall i, (i < ArrayBinary.Size ab)%nat ->
         ArrayBinary.element ab' i = ArrayBinary.element ab i
         /\ ArrayBinary.GetLen ab' i = ArrayBinary.GetLen ab i
         /\ ArrayBinary.m_offsets ab' !! i = ArrayBinary.m_offsets ab !! i.
Proof.
  intros Hwf -> Hs.
  pose proof (encode_decode ab Hwf) as Hab.
  pose proof (decode_size ab Hwf) as Hsize.
  set (elems := ArrayBinary.decode ab) in *. clearbody elems.
  rewrite <- Hsize in Hs. clear Hsize Hwf. subst ab.
  rewrite Size_encode.
  assert (Hsz' : Z.of_nat (length (concat (elems ++ [value])))
                 = Z.of_nat (length (concat elems)) + Z.of_nat (length value)).
  { rewrite size_app, size_cons. simpl. lia. }
  assert (Hat : (elems ++ [value]) !! length elems = Some value).
  { rewrite lookup_app_r by lia. by rewrite Nat.sub_diag. }
  exists (ArrayBinary.encode (elems ++ [value])). split_and!.
  - by apply Add_encode.
  - rewrite Insert_encode by (done || lia).
    by rewrite firstn_all, drop_all.
  - apply wf_encode. lia.
  - rewrite Size_encode, length_app. simpl. lia.
  - rewrite IsEmpty_encode. apply bool_decide_eq_false. by destruct elems.
  - apply element_encode; [done|lia].
  - apply GetLen_encode; [done|lia].
  - simpl. rewrite concat_app. simpl. by rewrite app_nil_r.
  - intros i Hi.
    destruct (element_encode_lookup (elems ++ [value]) i) as (E1 & E2 & E3);
      [rewrite length_app; simpl; lia|lia|].
    destruct (element_encode_lookup elems i) as (F1 & F2 & F3); [lia|lia|].
    rewrite E1, E2, E3, F1, F2, F3.
    rewrite lookup_app_l by lia. split_and!; [done|done|].
    do 3 f_equal. rewrite take_app_le by lia. done.
Qed.

Lemma ArrayBinary_Add_appends_witness :
  exists ab' : ArrayBinary.t,
    ArrayBinary.Add ArrayBinary.ex_array (Some [Byte.x7a; Byte.x7a]) 2 = Some ab'
    /\ ArrayBinary.m_offsets ab' = [2; 2; 5; 7]
    /\ ArrayBinary.element ab' 3 = Some [Byte.x7a; Byte.x7a].
Proof.
  destruct (ArrayBinary_Add_appends ArrayBinary.ex_array
              [Byte.x7a; Byte.x7a] 2) as (ab' & Hadd & _ & _ & _ & _ & Hel & _).
  - repeat split; vm_compute; first [reflexivity | discriminate].
  - reflexivity.
  - vm_compute. reflexivity.
  - exists ab'. split_and!; try done.
    vm_compute in Hadd. injection Hadd as <-. reflexivity.
Defined.

(** X2. [ArrayBinary::Set] on a well-formed array, at an index below
    [Size()] and with the blob staying below [2^63] bytes, succeeds, keeps
    the class invariant and the number of elements, makes [value] the element
    at [ndx], leaves every other element as it was, leaves the offsets
    before [ndx] as they were and moves each offset from [ndx] on by
    [len] minus the old length; the result is the one that [Delete] at [ndx]
    followed by [Insert] at [ndx] gives. *)
Theorem ArrayBinary_Set_replaces (ab : ArrayBinary.t) (ndx : nat)
    (value : list Byte.byte) (len old_len : Z) :
  ArrayBinary.wf ab ->
  (ndx < ArrayBinary.Size ab)%nat ->
  len = Z.of_nat (length value) ->
  ArrayBinary.GetLen ab ndx = Some old_len ->
  Z.of_nat (length (ArrayBinary.m_blob ab)) - old_len + len < 2 ^ 63 ->
  exists ab',
    ArrayBinary.Set_ ab ndx (Some value) len = Some ab'
    /\ ArrayBinary.wf ab'
    /\ ArrayBinary.Size ab' = ArrayBinary.Size ab
    /\ ArrayBinary.element ab' ndx = Some value
    /\ ArrayBinary.GetLen ab' ndx = Some len
    /\ Z.of_nat (length (ArrayBinary.m_blob ab'))
       = Z.of_nat (length (ArrayBinary.m_blob ab)) - old_len + len
    /\ (forall i, (i < ArrayBinary.Size ab)%nat -> i <> ndx ->
          ArrayBinary.element ab' i = ArrayBinary.element ab i
          /\ ArrayBinary.GetLen ab' i = ArrayBinary.GetLen ab i)
    /\ (forall i, (i < ndx)%nat ->
          ArrayBinary.m_offsets ab' !! i = ArrayBinary.m_offsets ab !! i)
    /\ (forall i, (ndx <= i < ArrayBinary.Size ab)%nat ->
          ArrayBinary.m_offsets ab' !! i
          = (fun off => off + len - old_len) <$> ArrayBinary.m_offsets ab !! i)
    /\ (ArrayBinary.Delete ab ndx
          ≫= fun d => ArrayBinary.Insert d ndx (Some value) len) = Some ab'.
Proof.
  intros Hwf Hn -> Hold Hs.
  pose proof (encode_decode ab Hwf) as Hab.
  pose proof (decode_size ab Hwf) as Hsize.
  assert (Hs0 : Z.of_nat (length (ArrayBinary.m_blob ab)) < 2 ^ 63) by apply Hwf.
  set (elems := ArrayBinary.decode ab) in *. clearbody elems.
  rewrite <- Hsize in Hs, Hs0. rewrite <- Hsize. clear Hsize Hwf. subst ab.
  rewrite Size_encode in *.
  destruct (lookup_lt_is_Some_2 elems ndx Hn) as [e He].
  rewrite (GetLen_encode _ _ _ He Hs0) in Hold. injection Hold as <-.
  pose proof (size_insert elems ndx e value He) as Hsz'.
  assert (Hlen' : length (<[ndx:=value]> elems) = length elems)
    by apply length_insert.
  assert (Hat : <[ndx:=value]> elems !! ndx = Some value)
    by (by apply list_lookup_insert_eq).
  exists (ArrayBinary.encode (<[ndx:=value]> elems)). split_and!.
  - apply (Set_encode _ _ e); [done|done|lia].
  - apply wf_encode. lia.
  - by rewrite !Size_encode.
  - apply element_encode; [done|lia].
  - apply GetLen_encode; [done|lia].
  - simpl. lia.
  - intros i Hi Hne.
    destruct (element_encode_lookup (<[ndx:=value]> elems) i) as (E1 & E2 & _);
      [lia|lia|].
    destruct (element_encode_lookup elems i) as (F1 & F2 & _); [lia|lia|].
    rewrite E1, E2, F1, F2. by rewrite list_lookup_insert_ne.
  - intros i Hi.
    destruct (element_encode_lookup (<[ndx:=value]> elems) i) as (_ & _ & E3);
      [lia|lia|].
    destruct (element_encode_lookup elems i) as (_ & _ & F3); [lia|lia|].
    rewrite E3, F3. do 3 f_equal.
    rewrite insert_take_drop by done.
    rewrite take_app_le by (rewrite length_take; lia).
    rewrite take_take. by replace (S i `min` ndx)%nat with (S i) by lia.
  - intros i Hi.
    destruct (element_encode_lookup (<[ndx:=value]> elems) i) as (_ & _ & E3);
      [lia|lia|].
    destruct (element_encode_lookup elems i) as (_ & _ & F3); [lia|lia|].
    rewrite E3, F3. simpl. f_equal.
    rewrite insert_take_drop by done.
    rewrite take_app_ge by (rewrite length_take; lia).
    rewrite length_take.
    rewrite (take_split elems ndx (S i)) by lia.
    replace (S i - ndx `min` length elems)%nat with (S (i - ndx)) by lia.
    replace (S i - ndx)%nat with (S (i - ndx)) by lia.
    rewrite (drop_S _ _ _ He). simpl.
    rewrite !size_app, !size_cons. lia.
  - rewrite Delete_encode by lia. simpl.
    assert (Hd : Z.of_nat (length (concat (delete ndx elems)))
                 = Z.of_nat (length (concat elems)) - Z.of_nat (length e)).
    { rewrite delete_take_drop, size_app.
      pose proof (f_equal length (concat_take_drop elems ndx)) as Hsp.
      rewrite length_app, (drop_S _ _ _ He) in Hsp. simpl in Hsp.
      rewrite length_app in Hsp. lia. }
    rewrite Insert_encode
      by (first [rewrite length_delete by eauto; lia | lia]).
    do 2 f_equal. rewrite delete_take_drop, insert_take_drop by done.
    assert (Hlt : length (take ndx elems) = ndx) by (rewrite length_take; lia).
    rewrite take_app_length' by done. rewrite drop_app_length' by done. done.
Qed.

Lemma ArrayBinary_Set_replaces_witness :
  exists ab' : ArrayBinary.t,
    ArrayBinary.Set_ ArrayBinary.ex_array 2 (Some [Byte.x7a]) 1 = Some ab'
    /\ ArrayBinary.m_offsets ab' = [2; 2; 3]
    /\ ArrayBinary.element ab' 2 = Some [Byte.x7a].
Proof.
  destruct (ArrayBinary_Set_replaces ArrayBinary.ex_array 2 [Byte.x7a] 1 3)
    as (ab' & Hset & _ & _ & Hel & _).
  - repeat split; vm_compute; first [reflexivity | discriminate].
  - vm_compute. lia.
  - reflexivity.
  - vm_compute. reflexivity.
  - vm_compute. reflexivity.
  - exists ab'. split_and!; try done.
    vm_compute in Hset. injection Hset as <-. reflexivity.
Defined.

(** X3. [ArrayBinary::Clear] followed by one [Add] per element of a sequence
    (of fewer than [2^63] bytes in total) succeeds whatever the array held
    before, and gives a well-formed array that holds exactly that sequence:
    [Size()] is its length, [IsEmpty()] holds only for the empty sequence,
    element [i] is the [i]-th value with its length, and the blob is the
    concatenation of the values. *)
Theorem ArrayBinary_Clear_Add_round_trip (ab : ArrayBinary.t)
    (elems : list (list Byte.byte)) :
  Z.of_nat (length (concat elems)) < 2 ^ 63 ->
  exists r,
    ArrayBinary.add_all (ArrayBinary.Clear ab) elems = Some r
    /\ ArrayBinary.wf r
    /\ ArrayBinary.Size r = length elems
    /\ ArrayBinary.IsEmpty r = bool_decide (elems = [])
    /\ ArrayBinary.m_blob r = concat elems
    /\ forall i, (i < length elems)%nat ->
         ArrayBinary.element r i = elems !! i
         /\ ArrayBinary.GetLen r i = (fun e => Z.of_nat (length e)) <$> elems !! i.
Proof.
  intros Hs. exists (ArrayBinary.encode elems). split_and!.
  - rewrite Clear_encode. by rewrite add_all_encode.
  - by apply wf_encode.
  - apply Size_encode.
  - apply IsEmpty_encode.
  - done.
  - intros i Hi. destruct (element_encode_lookup elems i) as (E1 & E2 & _); done.
Qed.

Lemma ArrayBinary_Clear_Add_round_trip_witness :
  ArrayBinary.add_all (ArrayBinary.Clear ArrayBinary.ex_array)
    [[Byte.x61; Byte.x62]; []; [Byte.x63; Byte.x64; Byte.x65]]
  = Some ArrayBinary.ex_array.
Proof.
  destruct (ArrayBinary_Clear_Add_round_trip ArrayBinary.ex_array
              [[Byte.x61; Byte.x62]; []; [Byte.x63; Byte.x64; Byte.x65]])
    as (r & Hr & _).
  - vm_compute. reflexivity.
  - rewrite Hr. vm_compute in Hr. by injection Hr as <-.
Defined.

(** X4. In a well-formed array the elements tile the blob: the values that
    [Get] and [GetLen] give for the indices [0 .. Size()-1], concatenated
    in index order, are the blob, and their lengths sum to its size. *)
Theorem ArrayBinary_elements_tile_blob (ab : ArrayBinary.t) :
  ArrayBinary.wf ab ->
  exists elems,
    length elems = ArrayBinary.Size ab
    /\ (forall i, (i < ArrayBinary.Size ab)%nat ->
          ArrayBinary.element ab i = elems !! i
          /\ ArrayBinary.GetLen ab i
             = (fun e => Z.of_nat (length e)) <$> elems !! i)
    /\ concat elems = ArrayBinary.m_blob ab.
Proof.
  intros Hwf. exists (ArrayBinary.decode ab).
  pose proof (encode_decode ab Hwf) as Hab.
  pose proof (decode_size ab Hwf) as Hsize.
  pose proof (decode_length ab) as Hlen.
  assert (Hs0 : Z.of_nat (length (ArrayBinary.m_blob ab)) < 2 ^ 63) by apply Hwf.
  split_and!.
  - done.
  - intros i Hi. rewrite <- Hsize in Hs0. rewrite <- Hlen in Hi.
    destruct (element_encode_lookup (ArrayBinary.decode ab) i) as (E1 & E2 & _);
      [done|done|].
    rewrite Hab in E1, E2. done.
  - by rewrite <- Hab at 2.
Qed.

Lemma ArrayBinary_elements_tile_blob_witness :
  exists elems,
    length elems = 3%nat
    /\ (forall i, (i < 3)%nat ->
          ArrayBinary.element ArrayBinary.ex_array i = elems !! i
          /\ ArrayBinary.GetLen ArrayBinary.ex_array i
             = (fun e => Z.of_nat (length e)) <$> elems !! i)
    /\ concat elems = [Byte.x61; Byte.x62; Byte.x63; Byte.x64; Byte.x65].
Proof.
  apply (ArrayBinary_elements_tile_blob ArrayBinary.ex_array).
  repeat split; vm_compute; first [reflexivity | discriminate].
Defined.

(** ** Obj: exceptions, round trips and composition *)

#[local] Set Warnings "-clear-no-such-hyp".

(** *** Computations that read, and computations that do not throw *)

Lemma ro_bind {A B} (m : M A) (f : A -> M B) :
  read_only m -> (forall a, read_only (f a)) -> read_only (bind m f).
Proof.
  intros Hm Hf g b g'. rewrite bind_unfold.
  destruct (m g) as [a g1| |] eqn:E; [|done|done].
  apply Hm in E as ->. apply Hf.
Qed.

Lemma ro_ret {A} (a : A) : read_only (ret a).
Proof. by intros g b g' [= _ ->]. Qed.

Lemma ro_throw {A} e : read_only (@throw A e).
Proof. by intros g b g'. Qed.

Lemma ro_abort {A} : read_only (@abort A).
Proof. by intros g b g'. Qed.

Lemma ro_get_spec t : read_only (get_spec t).
Proof.
  intros g b g'. rewrite get_spec_unfold.
  destruct (tables g !! t); [|done]. by intros [= _ ->].
Qed.

Lemma ro_get_row x : read_only (get_row x).
Proof.
  intros g b g'. rewrite get_row_eq.
  destruct (objects g !! x); [|done]. by intros [= _ ->].
Qed.

Lemma ro_unchecked {A} (o : option A) : read_only (unchecked o).
Proof. destruct o; [apply ro_ret|apply ro_abort]. Qed.

Lemma ro_assert b : read_only (realm_assert b).
Proof. destruct b; [apply ro_ret|apply ro_abort]. Qed.

Lemma ro_is_valid x : read_only (is_valid x).
Proof. by intros g b g' [= _ ->]. Qed.

Lemma ro_read_leaf x c : read_only (read_leaf x c).
Proof. apply ro_bind; [apply ro_get_row|intros r; apply ro_unchecked]. Qed.

Lemma ro_get_target_table o c : read_only (get_target_table o c).
Proof.
  unfold get_target_table.
  repeat first [ apply ro_get_spec | apply ro_unchecked | apply ro_ret
               | apply ro_bind; [|intros ?] ].
Qed.

Lemma ro_check_range mss mbs v : read_only (check_range mss mbs v).
Proof.
  destruct v as [| | |s|b|]; simpl; try apply ro_ret.
  - destruct (_ <? _); [apply ro_throw|apply ro_ret].
  - destruct (_ <? _); [apply ro_throw|apply ro_ret].
Qed.

Lemma ts_bind {A B} (m : M A) (f : A -> M B) :
  read_only m -> throw_safe m -> (forall a, throw_safe (f a)) ->
  throw_safe (bind m f).
Proof.
  intros Hr Hm Hf g e g'. rewrite bind_unfold.
  destruct (m g) as [a g1|e1 g1|] eqn:E; [| |done].
  - apply Hr in E as ->. apply Hf.
  - intros [= <- <-]. by apply (Hm g e1).
Qed.

Lemma ts_no_throw {A} (m : M A) : no_throw m -> throw_safe m.
Proof. intros H g e g' E. by destruct (H e g g'). Qed.

Lemma ts_throw {A} e : throw_safe (@throw A e).
Proof. by intros g e' g' [= _ ->]. Qed.

Lemma ts_check_range mss mbs v : throw_safe (check_range mss mbs v).
Proof.
  destruct v as [| | |s|b|]; simpl; try (apply ts_no_throw; intros e; apply nt_ret).
  - destruct (_ <? _); [apply ts_throw|apply ts_no_throw; intros e; apply nt_ret].
  - destruct (_ <? _); [apply ts_throw|apply ts_no_throw; intros e; apply nt_ret].
Qed.

Lemma nt_is_valid e x : never_throws e (is_valid x).
Proof. apply nt_state. intros g. left. by do 2 eexists. Qed.

Lemma nt_erase_row e x : never_throws e (erase_row x).
Proof. apply nt_state. intros g. left. by do 2 eexists. Qed.

Lemma nt_for_each {A} e (f : A -> M unit) (l : list A) :
  (forall a, never_throws e (f a)) -> never_throws e (for_each f l).
Proof.
  intros Hf. induction l as [|a l IH]; simpl; [apply nt_ret|].
  apply nt_bind; [apply Hf|by intros _].
Qed.

Lemma nt_fold_each {A S} e (f : S -> A -> M S) (l : list A) (s : S) :
  (forall s a, never_throws e (f s a)) -> never_throws e (fold_each f s l).
Proof.
  intros Hf. revert s. induction l as [|a l IH]; intros s; simpl; [apply nt_ret|].
  apply nt_bind; [apply Hf|intros s'; apply IH].
Qed.

Ltac nt_more :=
  repeat first
    [ apply nt_ret | apply nt_abort | apply nt_get_spec | apply nt_get_row
    | apply nt_put_row | apply nt_bump | apply nt_emit | apply nt_is_valid
    | apply nt_erase_row
    | apply nt_bind; [|intros ?]
    | apply nt_for_each; intros ?
    | apply nt_fold_each; intros ? ?
    | match goal with
      | |- never_throws _ (match ?x with _ => _ end) => destruct x
      end
    | progress unfold Obj_do_set_null, write_typed, read_leaf, write_leaf,
        realm_assert, unchecked, get_target_table, Obj_add_backlink,
        Obj_remove_one_backlink, ConstObj_get_backlink_count,
        ConstObj_get_backlink_count_col, Obj_nullify_link ].

Lemma nt_update_backlinks e o c old new st :
  never_throws e (Obj_update_backlinks o c old new st).
Proof. unfold Obj_update_backlinks. nt_more. Qed.

Lemma nt_remove_object e x st : never_throws e (Table_remove_object x st).
Proof.
  unfold Table_remove_object. nt_more.
Qed.

Lemma nt_remove_recursive_loop e fuel mode rows g g' :
  remove_recursive_loop fuel mode rows g <> Throw e g'.
Proof.
  revert rows g. induction fuel as [|fuel IH]; intros rows g; simpl.
  - by destruct (filter _ rows).
  - destruct (filter _ rows) as [|x rest]; [done|].
    destruct (Table_remove_object x _ g) as [st g1|e1 g1|] eqn:E; [apply IH| |done].
    intros [= -> ->]. by apply (nt_remove_object _ _ _ _ _ E).
Qed.

Lemma nt_remove_recursive e st : never_throws e (Table_remove_recursive st).
Proof. intros g g'. apply nt_remove_recursive_loop. Qed.

(** [Obj::set<Key>] behind its two guards. *)
Lemma nt_set_Key_tail e o c new is_default :
  never_throws e
    (_ <- get_row o ;;
     bump_content_version ;;;
     fields <- get_row o ;;
     realm_assert (c + 1 <? S (length fields))%nat ;;;
     cell <- read_leaf o c ;;
     match cell with
     | CKey old_key =>
         if negb (new =? old_key)
         then
           r <- Obj_update_backlinks o c old_key new (mkCascade Mode_Strong []) ;;
           write_leaf o c (CKey new) ;;;
           emit (repl_set_key o.1 c o.2 new (instr_type is_default)) ;;;
           if r.1 then Table_remove_recursive r.2 else ret tt
         else ret tt
     | _ => abort
     end).
Proof.
  nt_more; first [apply nt_update_backlinks | apply nt_remove_recursive].
Qed.

Ltac nt_full :=
  repeat first
    [ apply nt_update_backlinks | apply nt_remove_recursive | progress nt_more ].

(** Peel the reading steps off a computation; what follows the last guard
    must not throw. *)
Ltac ts_tac :=
  repeat first
    [ apply ts_throw
    | apply ts_check_range
    | apply ts_bind;
      [ first [ apply ro_get_spec | apply ro_unchecked | apply ro_assert
              | apply ro_check_range | apply ro_is_valid
              | apply ro_get_target_table ]
      | first [ apply ts_check_range | apply ts_no_throw; intros ?; nt_full ]
      | intros ? ]
    | match goal with
      | |- throw_safe (if ?b then _ else _) => destruct b
      end
    | apply ts_no_throw; intros ?; nt_full; fail ].

Lemma ts_get T o c : throw_safe (ConstObj_get T o c).
Proof. unfold ConstObj_get. ts_tac. Qed.

Lemma ts_set mss mbs o c v d : throw_safe (Obj_set mss mbs o c v d).
Proof. unfold Obj_set. ts_tac. Qed.

Lemma ts_set_int64 o c v d : throw_safe (Obj_set_int64 o c v d).
Proof. unfold Obj_set_int64. ts_tac. Qed.

Lemma ts_set_null o c d : throw_safe (Obj_set_null o c d).
Proof. unfold Obj_set_null. ts_tac. Qed.

Lemma ts_set_Key o c k d : throw_safe (Obj_set_Key o c k d).
Proof. unfold Obj_set_Key. ts_tac. Qed.

Lemma add_int_Throw o c v g e g' :
  Obj_add_int o c v g = Throw e g' ->
  (e = column_index_out_of_range /\ g' = g)
  \/ (e = illegal_combination /\ g' = bump g).
Proof.
  unfold Obj_add_int. rewrite bind_unfold, get_spec_unfold.
  destruct (tables g !! o.1) as [ti|]; [|done]. mred.
  destruct (_ <? _)%nat; [intros [= <- <-]; by left|].
  rewrite bind_unfold, get_row_eq.
  destruct (objects g !! o) as [row|] eqn:Hrow; [|done].
  rewrite bind_unfold, bump_unfold. rewrite bind_unfold, get_row_eq.
  change (objects (bump g)) with (objects g). rewrite Hrow.
  rewrite bind_unfold, realm_assert_unfold.
  destruct (_ <? _)%nat; [|done].
  rewrite bind_unfold, unchecked_unfold.
  destruct (get_column_attr (t_spec ti) c) as [attr|]; [|done].
  rewrite bind_unfold.
  destruct (attr_test attr col_attr_Nullable).
  - rewrite bind_unfold, read_leaf_eq.
    destruct (cell_at (bump g) o c) as [cell|]; [|done].
    destruct cell as [|[old|]| | | | | | | | | |]; try done.
    + rewrite write_leaf_eq. by destruct (cell_at (bump g) o c).
    + intros [= <- <-]. by right.
  - rewrite bind_unfold, read_leaf_eq.
    destruct (cell_at (bump g) o c) as [cell|]; [|done].
    destruct cell; try done.
    rewrite write_leaf_eq. by destruct (cell_at (bump g) o c).
Qed.

(** X7. An exception from [ConstObj::get<T>], [Obj::set<T>],
    [Obj::set<int64_t>], [Obj::set_null] or [Obj::set<Key>] leaves the group
    exactly as it was at the call: every [throw] of these accessors comes
    before the first write.  [Obj::add_int] differs: it throws
    [column_index_out_of_range] before any change, but
    [illegal_combination] only after it has bumped the content version. *)
Theorem accessor_exceptions_leave_group_unchanged (g g' : Group)
    (e : ErrorKind) (o : ObjRef) (col_ndx : nat) :
  (forall T, ConstObj_get T o col_ndx g = Throw e g' -> g' = g)
  /\ (forall max_string_size max_binary_size value is_default,
        Obj_set max_string_size max_binary_size o col_ndx value is_default g
        = Throw e g' -> g' = g)
  /\ (forall value is_default,
        Obj_set_int64 o col_ndx value is_default g = Throw e g' -> g' = g)
  /\ (forall is_default,
        Obj_set_null o col_ndx is_default g = Throw e g' -> g' = g)
  /\ (forall target_key is_default,
        Obj_set_Key o col_ndx target_key is_default g = Throw e g' -> g' = g)
  /\ (forall value,
        Obj_add_int o col_ndx value g = Throw e g' ->
        (e = column_index_out_of_range /\ g' = g)
        \/ (e = illegal_combination /\ g' = bump g)).
Proof.
  split_and!.
  - intros T. apply ts_get.
  - intros mss mbs value is_default. apply ts_set.
  - intros value is_default. apply ts_set_int64.
  - intros is_default. apply ts_set_null.
  - intros target_key is_default. apply ts_set_Key.
  - intros value. apply add_int_Throw.
Qed.

Lemma accessor_exceptions_leave_group_unchanged_witness :
  Obj_set_Key (0%nat, 0) 2 99 false ex_group
    = Throw target_row_index_out_of_range ex_group
  /\ Obj_add_int (0%nat, 0) 1 7 ex_group
    = Throw illegal_combination (bump ex_group).
Proof.
  assert (H1 : exists g1, Obj_set_Key (0%nat, 0) 2 99 false ex_group
                          = Throw target_row_index_out_of_range g1)
    by (eexists; vm_compute; reflexivity).
  assert (H2 : exists g2, Obj_add_int (0%nat, 0) 1 7 ex_group
                          = Throw illegal_combination g2)
    by (eexists; vm_compute; reflexivity).
  destruct H1 as [g1 H1]. destruct H2 as [g2 H2].
  destruct (accessor_exceptions_leave_group_unchanged ex_group g1
              target_row_index_out_of_range (0%nat, 0) 2)
    as (_ & _ & _ & _ & Hk & _).
  destruct (accessor_exceptions_leave_group_unchanged ex_group g2
              illegal_combination (0%nat, 0) 1)
    as (_ & _ & _ & _ & _ & Ha).
  split.
  - rewrite H1. f_equal. exact (Hk 99 false H1).
  - rewrite H2. f_equal.
    destruct (Ha 7 H2) as [[He _]|[_ Hg]]; [discriminate He|exact Hg].
Defined.

(** *** Round trips *)

Lemma leaf_matches_value_cell v : leaf_matches (value_type v) (value_cell v) = true.
Proof. by destruct v. Qed.

Lemma ColumnType_eqb_refl t : ColumnType_eqb t t = true.
Proof. by destruct t. Qed.

(** X5. [Obj::set<T>] followed by [ConstObj::get<T>] reads the value back.
    On a column of the type of [T] (at an index the guard accepts), with a
    value that is not a null for a non-nullable column and passes
    [check_range], the call returns, replaces that one entry of that one
    row, bumps the content version once and appends one [set] instruction;
    tables, every other row and every other entry are as before. *)
Theorem set_get_round_trip (max_string_size max_binary_size : N)
    (g : Group) (o : ObjRef) (col_ndx : nat) (ti : TableInfo) (col : ColumnSpec) (row : list Cell) (old : Cell)
    (value : Value) (is_default : bool) :
  tables g !! o.1 = Some ti ->
  (col_ndx <= get_public_column_count (t_spec ti))%nat ->
  columns (t_spec ti) !! col_ndx = Some col ->
  col_type col = column_id (value_type value) ->
  (value_is_null value = true ->
   attr_test (col_attr col) col_attr_Nullable = true) ->
  check_range max_string_size max_binary_size value g = Ok tt g ->
  objects g !! o = Some row ->
  row !! col_ndx = Some old ->
  same_leaf old (value_cell value) = true ->
  let g' := mkGroup (tables g)
                    (<[o := <[col_ndx := value_cell value]> row]> (objects g))
                    (content_version g + 1)%N
                    ((fun log => log ++ [repl_set_value o.1 col_ndx o.2 value
                                           (instr_type is_default)])
                       <$> replication g) in
  Obj_set max_string_size max_binary_size o col_ndx value is_default g
  = Ok tt g'
  /\ ConstObj_get (value_type value) o col_ndx g' = Ok (value_cell value) g'
  /\ forall x j, (x, j) <> (o, col_ndx) -> cell_at g' x j = cell_at g x j.
Proof.
  intros Ht Hle Hcol Hty Hnull Hrange Hrow Hcell Hleaf g'.
  assert (Hpre : (get_public_column_count (t_spec ti) <? col_ndx)%nat = false)
    by (apply Nat.ltb_ge; lia).
  assert (Hattr : get_column_attr (t_spec ti) col_ndx = Some (col_attr col))
    by (unfold get_column_attr; by rewrite Hcol).
  assert (Hctype : get_column_type (t_spec ti) col_ndx = Some (col_type col))
    by (unfold get_column_type; by rewrite Hcol).
  assert (Heq : ColumnType_eqb (col_type col) (column_id (value_type value)) = true)
    by (rewrite Hty; apply ColumnType_eqb_refl).
  assert (Hlen : (col_ndx < length row)%nat) by (apply lookup_lt_is_Some; eauto).
  assert (Hlen1 : (col_ndx + 1 <? S (length row))%nat = true)
    by (apply Nat.ltb_lt; lia).
  assert (Hlen2 : (col_ndx <? length row)%nat = true) by (by apply Nat.ltb_lt).
  assert (Hn : value_is_null value
               && negb (attr_test (col_attr col) col_attr_Nullable) = false).
  { destruct (value_is_null value); [|done]. by rewrite Hnull. }
  split_and!.
  - unfold Obj_set.
    rewrite (bind_Ok _ _ _ _ _ (get_spec_Ok _ _ _ Ht)).
    rewrite Hctype. cbn [unchecked]. rewrite bind_unfold, ret_unfold, Heq.
    cbn [realm_assert]. rewrite bind_unfold, ret_unfold, Hpre, Hattr.
    cbn [unchecked]. rewrite bind_unfold, ret_unfold, Hn.
    rewrite bind_unfold, Hrange.
    run_M with (rewrite ?Hrow, ?Hlen1, ?Hcell, ?Hleaf, ?Hlen2).
    reflexivity.
  - unfold ConstObj_get, g'.
    run_M with (rewrite ?Ht, ?Hpre, ?Hattr, ?Hctype, ?Heq, ?orb_true_r,
                  ?lookup_insert_eq, ?(list_lookup_insert_eq row col_ndx _ Hlen),
                  ?leaf_matches_value_cell).
    reflexivity.
  - intros x j Hne. unfold cell_at, g'. cbn [objects].
    destruct (decide (x = o)) as [->|Hx].
    + rewrite lookup_insert_eq, Hrow. simpl.
      apply list_lookup_insert_ne. congruence.
    + by rewrite lookup_insert_ne.
Qed.

Lemma set_get_round_trip_witness :
  exists g' : Group,
    Obj_set 16777199 16777200 (0%nat, 0) 4
      (VString (Some [Byte.x68; Byte.x69])) false ex_group
      = Ok tt g'
    /\ ConstObj_get ty_StringData (0%nat, 0) 4 g'
      = Ok (CString (Some [Byte.x68; Byte.x69])) g'.
Proof.
  destruct (set_get_round_trip 16777199 16777200 ex_group (0%nat, 0) 4%nat
              (mkTable person_spec false) (mkColumn col_type_String 0 0 0)
              ex_person_row (CString (Some []))
              (VString (Some [Byte.x68; Byte.x69])) false)
    as (Hset & Hget & _);
    [reflexivity | vm_compute; lia | reflexivity | reflexivity | discriminate
    | reflexivity | reflexivity | reflexivity | reflexivity |].
  eexists. split; [exact Hset | exact Hget].
Defined.

(** [ConstObj::get<T>] where every check passes. *)
Lemma get_run (T : CppType) g o c ti col row cell :
  tables g !! o.1 = Some ti ->
  (c <= get_public_column_count (t_spec ti))%nat ->
  columns (t_spec ti) !! c = Some col ->
  col_type col = column_id T ->
  objects g !! o = Some row -> row !! c = Some cell ->
  leaf_matches T cell = true ->
  ConstObj_get T o c g = Ok cell g.
Proof.
  intros Ht Hle Hcol Hty Hrow Hcell Hleaf.
  assert (Hpre : (get_public_column_count (t_spec ti) <? c)%nat = false)
    by (apply Nat.ltb_ge; lia).
  assert (Hattr : get_column_attr (t_spec ti) c = Some (col_attr col))
    by (unfold get_column_attr; by rewrite Hcol).
  assert (Hctype : get_column_type (t_spec ti) c = Some (col_type col))
    by (unfold get_column_type; by rewrite Hcol).
  assert (Heq : ColumnType_eqb (col_type col) (column_id T) = true)
    by (rewrite Hty; apply ColumnType_eqb_refl).
  unfold ConstObj_get.
  run_M with (rewrite ?Ht, ?Hpre, ?Hattr, ?Hctype, ?Heq, ?orb_true_r, ?Hrow,
                ?Hcell, ?Hleaf).
  reflexivity.
Qed.

(** X6. [Obj::set<int64_t>] followed by [Obj::add_int]: on an Int column the
    setter stores the value in the leaf class the Nullable attribute
    selects (so even a null entry becomes a value), and the addition that
    follows returns and leaves the wrap-around sum; [ConstObj::get] reads
    each of the two back, the log receives a [set_int] and an [add_int]
    instruction in this order and the content version is bumped twice. *)
Theorem set_int_then_add_int (g : Group) (o : ObjRef) (col_ndx : nat)
    (ti : TableInfo) (col : ColumnSpec) (row : list Cell) (old : Cell)
    (value delta : Z) (is_default : bool) :
  tables g !! o.1 = Some ti ->
  (col_ndx <= get_public_column_count (t_spec ti))%nat ->
  columns (t_spec ti) !! col_ndx = Some col ->
  col_type col = col_type_Int ->
  objects g !! o = Some row ->
  row !! col_ndx = Some old ->
  same_leaf old (if attr_test (col_attr col) col_attr_Nullable
                 then CIntNull None else CInt 0) = true ->
  let cell v := if attr_test (col_attr col) col_attr_Nullable
                then CIntNull (Some v) else CInt v in
  let T := if attr_test (col_attr col) col_attr_Nullable
           then ty_opt_int64 else ty_int64 in
  exists g1 g2,
    Obj_set_int64 o col_ndx value is_default g = Ok tt g1
    /\ ConstObj_get T o col_ndx g1 = Ok (cell value) g1
    /\ Obj_add_int o col_ndx delta g1 = Ok tt g2
    /\ ConstObj_get T o col_ndx g2
       = Ok (cell (to_int64 ((value + delta) mod 2 ^ 64))) g2
    /\ replication g2
       = (fun log => log ++ [repl_set_int o.1 col_ndx o.2 value
                               (instr_type is_default);
                             repl_add_int o.1 col_ndx o.2 delta])
           <$> replication g
    /\ content_version g2 = (content_version g + 2)%N
    /\ tables g2 = tables g
    /\ forall x j, (x, j) <> (o, col_ndx) -> cell_at g2 x j = cell_at g x j.
Proof.
  intros Ht Hle Hcol Hty Hrow Hcell Hleaf cell T.
  assert (Hpre : (get_public_column_count (t_spec ti) <? col_ndx)%nat = false)
    by (apply Nat.ltb_ge; lia).
  assert (Hattr : get_column_attr (t_spec ti) col_ndx = Some (col_attr col))
    by (unfold get_column_attr; by rewrite Hcol).
  assert (Hlen : (col_ndx < length row)%nat) by (apply lookup_lt_is_Some; eauto).
  assert (Hlen1 : (col_ndx + 1 <? S (length row))%nat = true)
    by (apply Nat.ltb_lt; lia).
  assert (Hlen2 : (col_ndx <? length row)%nat = true) by (by apply Nat.ltb_lt).
  set (row1 := <[col_ndx := cell value]> row).
  set (row2 := <[col_ndx := cell (to_int64 ((value + delta) mod 2 ^ 64))]> row1).
  set (g1 := mkGroup (tables g) (<[o := row1]> (objects g))
                     (content_version g + 1)%N
                     ((fun log => log ++ [repl_set_int o.1 col_ndx o.2 value
                                            (instr_type is_default)])
                        <$> replication g)).
  set (g2 := mkGroup (tables g) (<[o := row2]> (objects g1))
                     (content_version g1 + 1)%N
                     ((fun log => log ++ [repl_add_int o.1 col_ndx o.2 delta])
                        <$> replication g1)).
  assert (Hrow1 : objects g1 !! o = Some row1) by apply lookup_insert_eq.
  assert (Hcell1 : row1 !! col_ndx = Some (cell value))
    by (by apply list_lookup_insert_eq).
  assert (Hl1 : length row1 = length row) by apply length_insert.
  assert (Hlen1' : (col_ndx + 1 <? S (length row1))%nat = true)
    by (rewrite Hl1; done).
  assert (Hlen2' : (col_ndx <? length row1)%nat = true) by (rewrite Hl1; done).
  assert (HT : column_id T = col_type_Int) by (subst T; by destruct (attr_test _ _)).
  assert (HTc : forall v, leaf_matches T (cell v) = true)
    by (intros v; subst T cell; simpl; by destruct (attr_test _ _)).
  exists g1, g2. split_and!.
  - unfold Obj_set_int64, g1, row1, cell.
    destruct (attr_test (col_attr col) col_attr_Nullable) eqn:Hn;
      (destruct old; try discriminate Hleaf);
      run_M with (rewrite ?Ht, ?Hpre, ?Hrow, ?Hlen1, ?Hattr, ?Hn, ?Hcell,
                    ?Hlen2; cbn [same_leaf]);
      reflexivity.
  - apply (get_run T g1 o col_ndx ti col row1); try done. by rewrite Hty, HT.
  - unfold Obj_add_int.
    rewrite (bind_Ok _ _ _ _ _ (get_spec_Ok g1 _ _ Ht)), Hpre.
    rewrite (bind_Ok _ _ _ _ _ (get_row_Ok _ _ _ Hrow1)).
    rewrite bind_unfold, bump_unfold.
    assert (Hrow1b : objects (bump g1) !! o = Some row1) by exact Hrow1.
    rewrite (bind_Ok _ _ _ _ _ (get_row_Ok _ _ _ Hrow1b)), Hlen1'.
    cbn [realm_assert]. rewrite bind_unfold, ret_unfold, Hattr.
    cbn [unchecked]. rewrite bind_unfold, ret_unfold.
    rewrite bind_unfold. unfold g2, row2, cell in *.
    destruct (attr_test (col_attr col) col_attr_Nullable) eqn:Hn;
      rewrite bind_unfold, (read_leaf_Ok _ _ _ _ _ Hrow1b Hcell1);
      rewrite (write_leaf_Ok _ _ _ _ _ Hrow1b) by lia;
      rewrite emit_unfold, add_wrap_mod; reflexivity.
  - apply (get_run T g2 o col_ndx ti col row2); try done.
    + by rewrite Hty, HT.
    + apply lookup_insert_eq.
    + apply list_lookup_insert_eq. by rewrite Hl1.
  - unfold g2, g1. cbn [replication]. destruct (replication g) as [log|]; [|done].
    simpl. by rewrite <- app_assoc.
  - unfold g2, g1. cbn [content_version]. lia.
  - done.
  - intros x j Hne. unfold cell_at, g2, g1. cbn [objects].
    destruct (decide (x = o)) as [->|Hx].
    + rewrite lookup_insert_eq, Hrow. simpl. unfold row2, row1.
      rewrite !list_lookup_insert_ne by congruence. done.
    + by rewrite !lookup_insert_ne.
Qed.

Lemma set_int_then_add_int_witness :
  exists g1 g2 : Group,
    Obj_set_int64 (0%nat, 0) 1 40 false ex_group = Ok tt g1
    /\ Obj_add_int (0%nat, 0) 1 2 g1 = Ok tt g2
    /\ ConstObj_get ty_opt_int64 (0%nat, 0) 1 g2 = Ok (CIntNull (Some 42)) g2.
Proof.
  destruct (set_int_then_add_int ex_group (0%nat, 0) 1%nat
              (mkTable person_spec false)
              (mkColumn col_type_Int col_attr_Nullable 0 0)
              ex_person_row (CIntNull None) 40 2 false)
    as (g1 & g2 & Hset & _ & Hadd & Hget & _);
    [reflexivity | vm_compute; lia | reflexivity | reflexivity | reflexivity
    | reflexivity | reflexivity |].
  exists g1, g2. split_and!; [exact Hset | exact Hadd | exact Hget].
Defined.

(** *** Nulls *)

(** X8. On a nullable column, [Obj::set_null] and [Obj::set<T>] with the
    null of [T] (a null [StringData], [BinaryData] or [Timestamp], the null
    float or double) both return and leave the same rows, tables and content
    version: the null entry is stored and [ConstObj::get<T>] reads it back.
    The two calls differ in the replication instruction only ([set_null]
    against [set]). *)
Theorem set_null_agrees_with_set_of_null
    (max_string_size max_binary_size : N) (g : Group) (o : ObjRef)
    (col_ndx : nat) (ti : TableInfo) (col : ColumnSpec) (row : list Cell)
    (old : Cell) (value : Value) (is_default : bool) :
  tables g !! o.1 = Some ti ->
  (col_ndx <= get_public_column_count (t_spec ti))%nat ->
  columns (t_spec ti) !! col_ndx = Some col ->
  col_type col = column_id (value_type value) ->
  attr_test (col_attr col) col_attr_Nullable = true ->
  value_is_null value = true ->
  objects g !! o = Some row ->
  row !! col_ndx = Some old ->
  same_leaf old (value_cell value) = true ->
  exists g1 g2,
    Obj_set_null o col_ndx is_default g = Ok tt g1
    /\ Obj_set max_string_size max_binary_size o col_ndx value is_default g
       = Ok tt g2
    /\ objects g1 = <[o := <[col_ndx := value_cell value]> row]> (objects g)
    /\ objects g2 = objects g1
    /\ tables g2 = tables g1
    /\ content_version g2 = content_version g1
    /\ replication g1
       = (fun log => log ++ [repl_set_null o.1 col_ndx o.2 (instr_type is_default)])
           <$> replication g
    /\ replication g2
       = (fun log => log ++ [repl_set_value o.1 col_ndx o.2 value
                               (instr_type is_default)])
           <$> replication g
    /\ ConstObj_get (value_type value) o col_ndx g1 = Ok (value_cell value) g1.
Proof.
  intros Ht Hle Hcol Hty Hn Hnull Hrow Hcell Hleaf.
  assert (Hpre : (get_public_column_count (t_spec ti) <? col_ndx)%nat = false)
    by (apply Nat.ltb_ge; lia).
  assert (Hattr : get_column_attr (t_spec ti) col_ndx = Some (col_attr col))
    by (unfold get_column_attr; by rewrite Hcol).
  assert (Hctype : get_column_type (t_spec ti) col_ndx = Some (col_type col))
    by (unfold get_column_type; by rewrite Hcol).
  assert (Hlen : (col_ndx < length row)%nat) by (apply lookup_lt_is_Some; eauto).
  assert (Hlen1 : (col_ndx + 1 <? S (length row))%nat = true)
    by (apply Nat.ltb_lt; lia).
  assert (Hlen2 : (col_ndx <? length row)%nat = true) by (by apply Nat.ltb_lt).
  assert (Hs : (Z.of_N max_string_size <? 0) = false) by (apply Z.ltb_ge; lia).
  assert (Hb : (Z.of_N max_binary_size <? 0) = false) by (apply Z.ltb_ge; lia).
  exists (mkGroup (tables g)
                  (<[o := <[col_ndx := value_cell value]> row]> (objects g))
                  (content_version g + 1)%N
                  ((fun log => log ++ [repl_set_null o.1 col_ndx o.2
                                         (instr_type is_default)])
                     <$> replication g)).
  exists (mkGroup (tables g)
                  (<[o := <[col_ndx := value_cell value]> row]> (objects g))
                  (content_version g + 1)%N
                  ((fun log => log ++ [repl_set_value o.1 col_ndx o.2 value
                                         (instr_type is_default)])
                     <$> replication g)).
  split_and!; try reflexivity.
  - unfold Obj_set_null.
    destruct value as [b|[|f]|[|f]|[s|]|[b|]|[t|]]; try discriminate Hnull;
      simpl in Hty, Hleaf; (destruct old; try discriminate Hleaf);
      run_M with (rewrite ?Ht, ?Hpre, ?Hattr, ?Hctype, ?Hty, ?Hn, ?Hrow,
                    ?Hcell, ?Hlen2; cbn [same_leaf value_cell]);
      reflexivity.
  - unfold Obj_set.
    destruct value as [b|[|f]|[|f]|[s|]|[b|]|[t|]]; try discriminate Hnull;
      simpl in Hty, Hleaf; (destruct old; try discriminate Hleaf);
      run_M with (rewrite ?Ht, ?Hpre, ?Hattr, ?Hctype, ?Hty, ?Hn, ?Hrow,
                    ?Hlen1, ?Hcell, ?Hlen2;
                  cbn [same_leaf value_cell value_type column_id ColumnType_eqb
                       value_is_null check_range data_size];
                  rewrite ?Hs, ?Hb; unfold ret, throw);
      reflexivity.
  - apply (get_run _ _ o col_ndx ti col (<[col_ndx := value_cell value]> row));
      try done.
    + apply lookup_insert_eq.
    + by apply list_lookup_insert_eq.
    + apply leaf_matches_value_cell.
Qed.

Lemma set_null_agrees_with_set_of_null_witness :
  exists g1 g2 : Group,
    Obj_set_null (1%nat, 10) 0 false ex_group = Ok tt g1
    /\ Obj_set 16777199 16777200 (1%nat, 10) 0 (VString None) false ex_group
       = Ok tt g2
    /\ objects g2 = objects g1.
Proof.
  destruct (set_null_agrees_with_set_of_null 16777199 16777200 ex_group
              (1%nat, 10) 0%nat
              (mkTable dog_spec true)
              (mkColumn col_type_String col_attr_Nullable 0 0)
              [CString None; CKey 12; CBacklink [0]; CBacklink []; CBacklink []]
              (CString None) (VString None) false)
    as (g1 & g2 & H1 & H2 & _ & Hobj & _);
    [reflexivity | vm_compute; lia | reflexivity | reflexivity | reflexivity
    | reflexivity | reflexivity | reflexivity | reflexivity |].
  exists g1, g2. split_and!; [exact H1 | exact H2 | exact Hobj].
Defined.

(** X9. [Obj::set_null] on a nullable Link column stores the null key and
    nothing else: the backlink column of the former target is not updated.
    Where the target listed the origin before, it still lists it after the
    call while the origin no longer links to it, so the state that results
    is not link-balanced. *)
Theorem set_null_on_link_keeps_backlink (g : Group) (o : ObjRef)
    (col_ndx : nat) (ti : TableInfo) (col : ColumnSpec) (row : list Cell)
    (k : Key) (B : TableKey) (bc : nat) (is_default : bool) :
  tables g !! o.1 = Some ti ->
  (col_ndx <= get_public_column_count (t_spec ti))%nat ->
  columns (t_spec ti) !! col_ndx = Some col ->
  col_type col = col_type_Link ->
  attr_test (col_attr col) col_attr_Nullable = true ->
  objects g !! o = Some row ->
  row !! col_ndx = Some (CKey k) ->
  k <> null_key ->
  link_column g o.1 col_ndx = Some (B, bc) ->
  (0 < bl g (B, k) bc o.2)%nat ->
  exists g',
    Obj_set_null o col_ndx is_default g = Ok tt g'
    /\ cell_at g' o col_ndx = Some (CKey null_key)
    /\ (forall x j, (x, j) <> (o, col_ndx) -> cell_at g' x j = cell_at g x j)
    /\ fwd g' o col_ndx k = 0%nat
    /\ bl g' (B, k) bc o.2 = bl g (B, k) bc o.2
    /\ ~ link_balanced g'.
Proof.
  intros Ht Hle Hcol Hty Hn Hrow Hcell Hk Hlc Hbl.
  assert (Hpre : (get_public_column_count (t_spec ti) <? col_ndx)%nat = false)
    by (apply Nat.ltb_ge; lia).
  assert (Hattr : get_column_attr (t_spec ti) col_ndx = Some (col_attr col))
    by (unfold get_column_attr; by rewrite Hcol).
  assert (Hctype : get_column_type (t_spec ti) col_ndx = Some (col_type col))
    by (unfold get_column_type; by rewrite Hcol).
  assert (Hlen : (col_ndx < length row)%nat) by (apply lookup_lt_is_Some; eauto).
  assert (Hlen2 : (col_ndx <? length row)%nat = true) by (by apply Nat.ltb_lt).
  set (g' := mkGroup (tables g)
                     (<[o := <[col_ndx := CKey null_key]> row]> (objects g))
                     (content_version g + 1)%N
                     ((fun log => log ++ [repl_set_null o.1 col_ndx o.2
                                            (instr_type is_default)])
                        <$> replication g)).
  assert (Hframe : forall x j, (x, j) <> (o, col_ndx) ->
                     cell_at g' x j = cell_at g x j).
  { intros x j Hne. unfold cell_at, g'. cbn [objects].
    destruct (decide (x = o)) as [->|Hx].
    - rewrite lookup_insert_eq, Hrow. simpl.
      apply list_lookup_insert_ne. congruence.
    - by rewrite lookup_insert_ne. }
  assert (Hcell' : cell_at g' o col_ndx = Some (CKey null_key)).
  { unfold cell_at, g'. cbn [objects]. rewrite lookup_insert_eq. simpl.
    by apply list_lookup_insert_eq. }
  assert (Hfwd : fwd g' o col_ndx k = 0%nat).
  { unfold fwd, links_at. rewrite Hcell'. cbn [link_targets count_occ].
    destruct (Z.eq_dec null_key k) as [E|E]; [by symmetry in E|done]. }
  assert (Hbl' : bl g' (B, k) bc o.2 = bl g (B, k) bc o.2).
  { unfold bl, backlinks_at. rewrite Hframe; [done|].
    intros [= <- ->].
    apply link_column_Some in Hlc
      as (ti' & col' & tti & bcol & Ht' & Hcol' & _ & _ & Htt & _ & Hbcol & Hbty & _).
    simpl in Ht. rewrite Ht in Htt. injection Htt as <-.
    rewrite Hcol in Hbcol. injection Hbcol as <-. congruence. }
  exists g'. split_and!; try done.
  - unfold Obj_set_null, g'.
    run_M with (rewrite ?Ht, ?Hpre, ?Hattr, ?Hctype, ?Hty, ?Hn, ?Hrow,
                  ?Hcell, ?Hlen2; cbn [same_leaf]).
    reflexivity.
  - intros Hb.
    assert (Hlc' : link_column g' o.1 col_ndx = Some (B, bc))
      by (by rewrite (link_column_tables g g')).
    pose proof (Hb o.1 col_ndx B bc o.2 k Hlc' Hk) as Heq.
    rewrite <- surjective_pairing in Heq. lia.
Qed.

Lemma set_null_on_link_keeps_backlink_witness :
  exists g' : Group,
    Obj_set_null (0%nat, 0) 0 false ex_weak_group = Ok tt g'
    /\ cell_at g' (0%nat, 0) 0 = Some (CKey null_key)
    /\ cell_at g' (1%nat, 5) 1 = Some (CBacklink [0])
    /\ ~ link_balanced g'.
Proof.
  destruct (set_null_on_link_keeps_backlink ex_weak_group (0%nat, 0) 0%nat
              (mkTable owner_spec false)
              (mkColumn col_type_Link col_attr_Nullable 1 0)
              [CKey 5] 5 1%nat 1%nat false)
    as (g' & Hrun & Hcell & Hframe & _ & _ & Hnb);
    [reflexivity | vm_compute; lia | reflexivity | reflexivity | reflexivity
    | reflexivity | reflexivity | unfold null_key; lia | reflexivity
    | vm_compute; lia |].
  exists g'. split_and!; [exact Hrun | exact Hcell | | exact Hnb].
  rewrite Hframe by discriminate. reflexivity.
Defined.

(** *** Composition of [add_int] *)

(** [Obj::add_int] on a non-nullable column, where every check passes. *)
Lemma add_int_run g o c ti col row old v :
  tables g !! o.1 = Some ti ->
  (c <= get_public_column_count (t_spec ti))%nat ->
  columns (t_spec ti) !! c = Some col ->
  attr_test (col_attr col) col_attr_Nullable = false ->
  objects g !! o = Some row -> row !! c = Some (CInt old) ->
  Obj_add_int o c v g
  = Ok tt (mkGroup (tables g)
                   (<[o := <[c := CInt (add_wrap old v)]> row]> (objects g))
                   (content_version g + 1)%N
                   ((fun log => log ++ [repl_add_int o.1 c o.2 v])
                      <$> replication g)).
Proof.
  intros Ht Hle Hcol Hnn Hrow Hcell.
  assert (Hpre : (get_public_column_count (t_spec ti) <? c)%nat = false)
    by (apply Nat.ltb_ge; lia).
  assert (Hattr : get_column_attr (t_spec ti) c = Some (col_attr col))
    by (unfold get_column_attr; by rewrite Hcol).
  assert (Hlen : (c < length row)%nat) by (apply lookup_lt_is_Some; eauto).
  assert (Hlen1 : (c + 1 <? S (length row))%nat = true)
    by (apply Nat.ltb_lt; lia).
  assert (Hlen2 : (c <? length row)%nat = true) by (by apply Nat.ltb_lt).
  unfold Obj_add_int.
  run_M with (rewrite ?Ht, ?Hpre, ?Hrow, ?Hlen1, ?Hattr, ?Hnn, ?Hcell, ?Hlen2).
  reflexivity.
Qed.

Lemma add_wrap_assoc old a b :
  add_wrap (add_wrap old a) b = add_wrap old (add_wrap a b).
Proof.
  rewrite !add_wrap_mod. f_equal.
  rewrite Zplus_mod, to_int64_congr, Z.mod_mod by lia.
  rewrite <- Zplus_mod.
  rewrite (Zplus_mod old (to_int64 _)), to_int64_congr, Z.mod_mod by lia.
  rewrite <- Zplus_mod. f_equal. lia.
Qed.

Lemma add_wrap_zero old : - 2 ^ 63 <= old < 2 ^ 63 -> add_wrap old 0 = old.
Proof. intros H. rewrite add_wrap_exact; lia. Qed.

(** X10. [Obj::add_int] composes: on a non-nullable Int column, adding [a]
    and then [b] returns twice and leaves exactly the rows that one call
    with the wrap-around sum of [a] and [b] leaves; the entry is
    [(old + a + b) mod 2^64] read as a signed 64-bit integer.  Adding [a]
    and then [-a] restores every row, even where the first addition
    wrapped around.  Each call is logged by itself. *)
Theorem add_int_composes (g : Group) (o : ObjRef) (col_ndx : nat)
    (ti : TableInfo) (col : ColumnSpec) (row : list Cell) (old a b : Z) :
  tables g !! o.1 = Some ti ->
  (col_ndx <= get_public_column_count (t_spec ti))%nat ->
  columns (t_spec ti) !! col_ndx = Some col ->
  attr_test (col_attr col) col_attr_Nullable = false ->
  objects g !! o = Some row ->
  row !! col_ndx = Some (CInt old) ->
  - 2 ^ 63 <= old < 2 ^ 63 ->
  exists g1 g2 g3,
    Obj_add_int o col_ndx a g = Ok tt g1
    /\ Obj_add_int o col_ndx b g1 = Ok tt g2
    /\ Obj_add_int o col_ndx (add_wrap a b) g = Ok tt g3
    /\ objects g2 = objects g3
    /\ cell_at g2 o col_ndx = Some (CInt (to_int64 ((old + a + b) mod 2 ^ 64)))
    /\ replication g2
       = (fun log => log ++ [repl_add_int o.1 col_ndx o.2 a;
                             repl_add_int o.1 col_ndx o.2 b])
           <$> replication g
    /\ (b = - a -> objects g2 = objects g).
Proof.
  intros Ht Hle Hcol Hnn Hrow Hcell Hold.
  assert (Hlen : (col_ndx < length row)%nat) by (apply lookup_lt_is_Some; eauto).
  pose proof (add_int_run g o col_ndx ti col row old a Ht Hle Hcol Hnn Hrow Hcell)
    as H1.
  set (g1 := mkGroup _ _ _ _) in H1.
  assert (Hrow1 : objects g1 !! o
                  = Some (<[col_ndx := CInt (add_wrap old a)]> row))
    by apply lookup_insert_eq.
  assert (Hcell1 : <[col_ndx := CInt (add_wrap old a)]> row !! col_ndx
                   = Some (CInt (add_wrap old a)))
    by (by apply list_lookup_insert_eq).
  pose proof (add_int_run g1 o col_ndx ti col _ _ b Ht Hle Hcol Hnn Hrow1 Hcell1)
    as H2.
  set (g2 := mkGroup _ _ _ _) in H2.
  pose proof (add_int_run g o col_ndx ti col row old (add_wrap a b)
                Ht Hle Hcol Hnn Hrow Hcell) as H3.
  set (g3 := mkGroup _ _ _ _) in H3.
  assert (Hobj : objects g2
                 = <[o := <[col_ndx := CInt (add_wrap (add_wrap old a) b)]> row]>
                     (objects g)).
  { unfold g2, g1. cbn [objects].
    by rewrite insert_insert_eq, list_insert_insert_eq. }
  exists g1, g2, g3. split_and!; try done.
  - rewrite Hobj. unfold g3. cbn [objects]. by rewrite add_wrap_assoc.
  - unfold cell_at. rewrite Hobj, lookup_insert_eq. simpl.
    rewrite list_lookup_insert_eq by done. do 2 f_equal.
    rewrite add_wrap_assoc, !add_wrap_mod. f_equal.
    rewrite Zplus_mod, to_int64_congr, Z.mod_mod by lia.
    rewrite <- Zplus_mod. f_equal. lia.
  - unfold g2, g1. cbn [replication]. destruct (replication g) as [log|]; [|done].
    simpl. by rewrite <- app_assoc.
  - intros ->. rewrite Hobj, add_wrap_assoc.
    replace (add_wrap a (- a)) with 0
      by (symmetry; rewrite add_wrap_exact; lia).
    rewrite add_wrap_zero by done.
    rewrite (list_insert_id row col_ndx) by done. by apply insert_id.
Qed.

Lemma add_int_composes_witness :
  exists g1 g2 : Group,
    Obj_add_int (0%nat, 0) 0 1 ex_group = Ok tt g1
    /\ Obj_add_int (0%nat, 0) 0 (-1) g1 = Ok tt g2
    /\ cell_at g1 (0%nat, 0) 0 = Some (CInt (-9223372036854775808))
    /\ objects g2 = objects ex_group.
Proof.
  destruct (add_int_composes ex_group (0%nat, 0) 0%nat
              (mkTable person_spec false) (mkColumn col_type_Int 0 0 0)
              ex_person_row 9223372036854775807 1 (-1))
    as (g1 & g2 & g3 & H1 & H2 & _ & _ & _ & _ & Hback);
    [reflexivity | vm_compute; lia | reflexivity | reflexivity | reflexivity
    | reflexivity | lia |].
  exists g1, g2. split_and!; [exact H1 | exact H2 | | exact (Hback eq_refl)].
  vm_compute in H1. injection H1 as <-. reflexivity.
Defined.

(** *** The error modes *)

(** [Obj::set<T>] behind [check_range]. *)
Lemma nt_set_tail e o c v d :
  never_throws e
    (_ <- get_row o ;;
     bump_content_version ;;;
     fields <- get_row o ;;
     realm_assert (c + 1 <? S (length fields))%nat ;;;
     write_typed o c (value_cell v) ;;;
     emit (repl_set_value o.1 c o.2 v (instr_type d))).
Proof. nt_more. Qed.

(** X11. The exceptions of [Obj::set<T>], in the order the code tests for
    them, on a column of the type of [T]: [column_index_out_of_range] above
    the public column count; else [column_not_nullable] for a null into a
    column without the Nullable attribute; else [string_too_big] for a
    string longer than [Table::max_string_size] and [binary_too_big] for
    binary data longer than [ArrayBlob::max_binary_size].  The call throws
    in these cases only, and the group is then as it was. *)
Theorem set_error_modes (max_string_size max_binary_size : N)
    (g g' : Group) (o : ObjRef) (col_ndx : nat) (ti : TableInfo) (col : ColumnSpec) (value : Value) (is_default : bool)
    (e : ErrorKind) :
  tables g !! o.1 = Some ti ->
  columns (t_spec ti) !! col_ndx = Some col ->
  col_type col = column_id (value_type value) ->
  (Obj_set max_string_size max_binary_size o col_ndx value is_default g
   = Throw e g' <->
   g' = g
   /\ (((get_public_column_count (t_spec ti) < col_ndx)%nat
        /\ e = column_index_out_of_range)
       \/ ((col_ndx <= get_public_column_count (t_spec ti))%nat
           /\ value_is_null value = true
           /\ attr_test (col_attr col) col_attr_Nullable = false
           /\ e = column_not_nullable)
       \/ ((col_ndx <= get_public_column_count (t_spec ti))%nat
           /\ exists s, value = VString (Some s)
                        /\ Z.of_N max_string_size < Z.of_nat (length s)
                        /\ e = string_too_big)
       \/ ((col_ndx <= get_public_column_count (t_spec ti))%nat
           /\ exists b, value = VBinary (Some b)
                        /\ Z.of_N max_binary_size < Z.of_nat (length b)
                        /\ e = binary_too_big))).
Proof.
  intros Ht Hcol Hty.
  assert (Hattr : get_column_attr (t_spec ti) col_ndx = Some (col_attr col))
    by (unfold get_column_attr; by rewrite Hcol).
  assert (Hctype : get_column_type (t_spec ti) col_ndx = Some (col_type col))
    by (unfold get_column_type; by rewrite Hcol).
  assert (Heq : ColumnType_eqb (col_type col) (column_id (value_type value)) = true)
    by (rewrite Hty; apply ColumnType_eqb_refl).
  unfold Obj_set.
  rewrite (bind_Ok _ _ _ _ _ (get_spec_Ok _ _ _ Ht)).
  rewrite Hctype. cbn [unchecked]. rewrite bind_unfold, ret_unfold, Heq.
  cbn [realm_assert]. rewrite bind_unfold, ret_unfold.
  destruct (Nat.ltb_spec (get_public_column_count (t_spec ti)) col_ndx) as [Hlt|Hge].
  { split.
    - intros [= <- <-]. split; [done|]. left. done.
    - intros [-> [[_ ->]|[(? & _)|[(? & _)|(? & _)]]]]; first [done | lia]. }
  rewrite Hattr. cbn [unchecked]. rewrite bind_unfold, ret_unfold.
  destruct (value_is_null value) eqn:Hnull;
    destruct (attr_test (col_attr col) col_attr_Nullable) eqn:Hn; cbn [andb negb].
  2: { split.
       - intros [= <- <-]. split; [done|]. right. left. done.
       - intros [-> [[? _]|[(_ & _ & _ & ->)|[(_ & s & -> & _)|(_ & b & -> & _)]]]];
           first [done | lia | discriminate Hnull]. }
  all: rewrite bind_unfold.
  all: destruct value as [vb|f|f|[s|]|[b|]|t];
    cbn [check_range data_size]; rewrite ?ret_unfold;
    try discriminate Hnull.
  all: try (split;
            [ intros H; exfalso; exact (nt_set_tail e o col_ndx _ is_default g g' H)
            | intros [_ [[? _]|[(_ & ? & ? & _)|[(_ & s' & ? & _)|(_ & b' & ? & _)]]]];
              first [lia | congruence | discriminate] ]).
  all: match goal with
       | |- context [Z.of_N ?m <? ?n] =>
           destruct (Z.ltb_spec (Z.of_N m) n) as [Hbig|Hsmall]
       end.
  all: try (exfalso; lia).
  all: try (split;
            [ intros [= <- <-]; split; [done|]; right; right; eauto 10
            | intros [-> [[? _]|[(_ & ? & ? & _)|[(_ & s' & ? & ? & ->)|(_ & b' & ? & ? & ->)]]]];
              first [done | lia | congruence | discriminate] ]).
  all: split;
    [ intros H; exfalso; exact (nt_set_tail e o col_ndx _ is_default g g' H)
    | intros [_ [[? _]|[(_ & ? & ? & _)|[(_ & s' & [= <-] & ? & _)|(_ & b' & [= <-] & ? & _)]]]];
      first [lia | congruence | discriminate] ].
Qed.

Lemma set_error_modes_witness :
  Obj_set 16777199 16777200 (0%nat, 0) 4 (VString None) false ex_group
    = Throw column_not_nullable ex_group
  /\ Obj_set 16777199 16777200 (0%nat, 0) 4 (VString (Some [Byte.x68])) false
       ex_group
     <> Throw string_too_big ex_group.
Proof.
  split.
  - apply (set_error_modes 16777199 16777200 ex_group ex_group (0%nat, 0) 4%nat
             (mkTable person_spec false) (mkColumn col_type_String 0 0 0)
             (VString None) false column_not_nullable);
      [reflexivity | reflexivity | reflexivity |].
    split; [reflexivity|]. right. left.
    split_and!; [vm_compute; lia | reflexivity | reflexivity | reflexivity].
  - intros H.
    apply (set_error_modes 16777199 16777200 ex_group ex_group (0%nat, 0) 4%nat
             (mkTable person_spec false) (mkColumn col_type_String 0 0 0)
             (VString (Some [Byte.x68])) false string_too_big) in H;
      [|reflexivity|reflexivity|reflexivity].
    destruct H as [_ [[_ ?]|[(_ & ? & _)|[(_ & s & [= <-] & Hs & _)|(_ & b & ? & _)]]]];
      discriminate.
Defined.

(** X12. The exceptions of [Obj::set<Key>] on a table of the group:
    [column_index_out_of_range] at and above the public column count,
    whatever the key; below it [target_row_index_out_of_range] for a key
    that is not null and names no object of the target table.  The call
    throws in these cases only (the null key is always accepted, and neither
    the backlink update nor the cascade throws), and the group is then as it
    was. *)
Theorem set_Key_error_modes (g g' : Group) (o : ObjRef) (col_ndx : nat)
    (ti : TableInfo) (target_key : Key) (is_default : bool) (e : ErrorKind) :
  tables g !! o.1 = Some ti ->
  (Obj_set_Key o col_ndx target_key is_default g = Throw e g' <->
   g' = g
   /\ (((get_public_column_count (t_spec ti) <= col_ndx)%nat
        /\ e = column_index_out_of_range)
       \/ ((col_ndx < get_public_column_count (t_spec ti))%nat
           /\ e = target_row_index_out_of_range
           /\ target_key <> null_key
           /\ exists col tti,
                columns (t_spec ti) !! col_ndx = Some col
                /\ tables g !! col_opposite_table col = Some tti
                /\ valid_object g (col_opposite_table col, target_key) = false))).
Proof.
  intros Ht. unfold Obj_set_Key.
  rewrite (bind_Ok _ _ _ _ _ (get_spec_Ok _ _ _ Ht)).
  destruct (Nat.leb_spec (get_public_column_count (t_spec ti)) col_ndx) as [Hge|Hlt].
  { split.
    - intros [= <- <-]. split; [done|]. by left.
    - intros [-> [[_ ->]|(? & _)]]; [done|lia]. }
  rewrite bind_unfold, get_target_table_eq, Ht.
  destruct (columns (t_spec ti) !! col_ndx) as [col|] eqn:Hcol.
  2: { split; [done|]. intros [_ [[? _]|(_ & _ & _ & c & t & ? & _)]]; [lia|done]. }
  destruct (tables g !! col_opposite_table col) as [tti|] eqn:Htt.
  2: { split; [done|].
       intros [_ [[? _]|(_ & _ & _ & c & t & [= <-] & ? & _)]]; [lia|congruence]. }
  rewrite bind_unfold. unfold is_valid at 1.
  destruct (target_key =? null_key) eqn:Hnull; cbn [negb andb].
  { apply Z.eqb_eq in Hnull. split.
    - intros H. exfalso.
      exact (nt_set_Key_tail e o col_ndx target_key is_default g g' H).
    - intros [_ [[? _]|(_ & _ & ? & _)]]; [lia|done]. }
  apply Z.eqb_neq in Hnull.
  destruct (valid_object g (col_opposite_table col, target_key)) eqn:Hv;
    cbn [negb].
  - split.
    + intros H. exfalso.
      exact (nt_set_Key_tail e o col_ndx target_key is_default g g' H).
    + intros [_ [[? _]|(_ & _ & _ & c & t & [= <-] & _ & ?)]]; [lia|congruence].
  - split.
    + intros [= <- <-]. split; [done|]. right. split_and!; eauto.
    + intros [-> [[? _]|(_ & -> & _)]]; [lia|done].
Qed.

Lemma set_Key_error_modes_witness :
  Obj_set_Key (0%nat, 0) 2 99 false ex_group
    = Throw target_row_index_out_of_range ex_group
  /\ Obj_set_Key (0%nat, 0) 2 null_key false ex_group
     <> Throw target_row_index_out_of_range ex_group.
Proof.
  split.
  - apply (set_Key_error_modes ex_group ex_group (0%nat, 0) 2%nat
             (mkTable person_spec false) 99 false target_row_index_out_of_range);
      [reflexivity|].
    split; [reflexivity|]. right.
    split_and!; [vm_compute; lia | reflexivity | unfold null_key; lia |].
    exists (mkColumn col_type_Link col_attr_StrongLinks 1 0), (mkTable dog_spec true).
    split_and!; reflexivity.
  - intros H.
    apply (set_Key_error_modes ex_group ex_group (0%nat, 0) 2%nat
             (mkTable person_spec false) null_key false
             target_row_index_out_of_range) in H; [|reflexivity].
    destruct H as [_ [[_ ?]|(_ & _ & Hne & _)]]; [discriminate|by apply Hne].
Defined.

(** ** Sorting again, and sorting downwards *)

Section SortReuse.

Context {T : Type}.
Variables (lt gt : T -> T -> bool) (unresolved_to_null : T -> T)
          (is_null : T -> bool).
Variable std_sort : (nat -> nat -> bool) -> list nat -> list nat.

Hypothesis lt_irrefl : forall a, lt a a = false.
Hypothesis lt_trans :
  forall a b c, lt a b = true -> lt b c = true -> lt a c = true.
Hypothesis lt_neg_trans :
  forall a b c, lt a c = true -> lt a b = true \/ lt b c = true.
(** [operator>] is the converse of [operator<]. *)
Hypothesis gt_lt : forall a b, gt a b = lt b a.
Hypothesis null_lowest :
  forall a b, is_null (unresolved_to_null a) = true ->
              is_null (unresolved_to_null b) = false ->
              lt (unresolved_to_null a) (unresolved_to_null b) = true.
Hypothesis std_sort_ok : ListSort.sort_contract std_sort.

Lemma tree_greater_strict_weak (tree : list T) :
  ListSort.strict_weak_on (ListSort.tree_greater gt unresolved_to_null tree)
                          (seq 0 (length tree)).
Proof.
  unfold ListSort.strict_weak_on, ListSort.tree_greater. split_and!.
  - intros x Hx. destruct (tree !! x); [by rewrite gt_lt|done].
  - intros x y z _ _ _.
    destruct (tree !! x), (tree !! y), (tree !! z); try done.
    rewrite !gt_lt. intros H1 H2. by eapply lt_trans.
  - intros x y z _ Hy _. apply elem_of_seq in Hy.
    destruct (lookup_lt_is_Some_2 tree y) as [b ->]; [lia|].
    destruct (tree !! x), (tree !! z); try done.
    rewrite !gt_lt. intros H.
    destruct (lt_neg_trans _ (unresolved_to_null b) _ H) as [?|?];
      [by right|by left].
Qed.

Lemma strict_weak_on_perm comp l l' :
  Permutation l l' -> ListSort.strict_weak_on comp l ->
  ListSort.strict_weak_on comp l'.
Proof.
  intros Hp (H1 & H2 & H3). split_and!.
  - intros x Hx. apply H1. by rewrite Hp.
  - intros x y z Hx Hy Hz. apply H2; by rewrite Hp.
  - intros x y z Hx Hy Hz. apply H3; by rewrite Hp.
Qed.

(** The range [do_sort] hands to [std::sort]. *)
Lemma do_sort_range (indices : list nat) (size : nat) :
  (size < length indices)%nat
  \/ (exists n, (n <= size)%nat /\ Permutation indices (seq 0 n)) ->
  Permutation
    ((if (size <? length indices)%nat then [] else indices)
       ++ seq (if (size <? length indices)%nat then 0%nat else length indices)
              (size - (if (size <? length indices)%nat then 0%nat
                       else length indices)))
    (seq 0 size).
Proof.
  intros [Hlt|(n & Hn & Hp)].
  - apply Nat.ltb_lt in Hlt. rewrite Hlt. simpl. by rewrite Nat.sub_0_r.
  - assert (Hlen : length indices = n)
      by (by rewrite (Permutation_length Hp), length_seq).
    destruct (Nat.ltb_spec size (length indices)) as [Hlt|_]; [lia|].
    rewrite Hlen, Hp.
    assert (Hs : seq 0 size = seq 0 n ++ seq n (size - n)).
    { change (seq n (size - n)) with (seq (0 + n) (size - n)).
      rewrite <- (seq_app n (size - n) 0). f_equal. lia. }
    by rewrite Hs.
Qed.

(** X13. [Lst<T>::sort] may be handed the index vector of an earlier call.
    When the vector is longer than the list, or is a permutation of
    [0 .. n-1] for some [n] up to the size of the list (what a sort of the
    list at an earlier, smaller size left), the result is a permutation of
    the positions [0 .. size-1].  Ascending, the values never decrease along
    it and nulls come first; descending, they never increase and nulls come
    last. *)
Theorem sort_reuses_index_vector (tree : list T) (indices : list nat)
    (ascending : bool) :
  (length tree < length indices)%nat
  \/ (exists n, (n <= length tree)%nat /\ Permutation indices (seq 0 n)) ->
  let out := ListSort.sort lt gt unresolved_to_null std_sort tree indices
               ascending in
  Permutation out (seq 0 (length tree))
  /\ length out = length tree
  /\ (forall i j x y a b,
        (i < j)%nat -> out !! i = Some x -> out !! j = Some y ->
        tree !! x = Some a -> tree !! y = Some b ->
        if ascending
        then lt (unresolved_to_null b) (unresolved_to_null a) = false
             /\ (is_null (unresolved_to_null b) = true ->
                 is_null (unresolved_to_null a) = true)
        else gt (unresolved_to_null b) (unresolved_to_null a) = false
             /\ (is_null (unresolved_to_null a) = true ->
                 is_null (unresolved_to_null b) = true)).
Proof.
  intros Hin out.
  pose proof (do_sort_range indices (length tree) Hin) as Hrange.
  assert (Hsw : forall comp,
             ListSort.strict_weak_on comp (seq 0 (length tree)) ->
             Permutation (ListSort.do_sort std_sort indices (length tree) comp)
                         (seq 0 (length tree))
             /\ ListSort.sorted_by comp
                  (ListSort.do_sort std_sort indices (length tree) comp)).
  { intros comp Hc. unfold ListSort.do_sort. cbv zeta.
    destruct (std_sort_ok comp _
                (strict_weak_on_perm comp _ _ (Permutation_sym Hrange) Hc))
      as [Hp Hs].
    split; [by rewrite Hp|done]. }
  assert (Hperm : Permutation out (seq 0 (length tree))).
  { subst out. unfold ListSort.sort. destruct ascending; apply Hsw.
    - by apply tree_less_strict_weak.
    - apply tree_greater_strict_weak. }
  split_and!.
  - done.
  - by rewrite (Permutation_length Hperm), length_seq.
  - intros i j x y a b Hij Hi Hj Ha Hb. subst out. unfold ListSort.sort in *.
    destruct ascending.
    + destruct (Hsw _ (tree_less_strict_weak lt unresolved_to_null lt_irrefl
                         lt_trans lt_neg_trans tree)) as [_ Hs].
      pose proof (Hs i j x y Hij Hi Hj) as Hc.
      unfold ListSort.tree_less in Hc. rewrite Ha, Hb in Hc.
      split; [done|]. intros Hnb.
      destruct (is_null (unresolved_to_null a)) eqn:Hna; [done|].
      by rewrite (null_lowest b a Hnb Hna) in Hc.
    + destruct (Hsw _ (tree_greater_strict_weak tree)) as [_ Hs].
      pose proof (Hs i j x y Hij Hi Hj) as Hc.
      unfold ListSort.tree_greater in Hc. rewrite Ha, Hb in Hc.
      split; [done|]. intros Hna.
      destruct (is_null (unresolved_to_null b)) eqn:Hnb; [done|].
      rewrite gt_lt in Hc. by rewrite (null_lowest a b Hna Hnb) in Hc.
Qed.

End SortReuse.

Lemma sort_reuses_index_vector_witness :
  let tree := [3; -5; -1; 0] in
  ListSort.sort ListSort.ObjKey_lt ListSort.ObjKey_gt
    ListSort.ObjKey_unresolved_to_null ListSort.insertion_sort
    tree [1; 0]%nat false = [0; 3; 2; 1]%nat
  /\ Permutation
       (ListSort.sort ListSort.ObjKey_lt ListSort.ObjKey_gt
          ListSort.ObjKey_unresolved_to_null ListSort.insertion_sort
          tree [1; 0]%nat false)
       (seq 0 (length tree)).
Proof.
  intros tree. split; [reflexivity|].
  destruct (sort_reuses_index_vector ListSort.ObjKey_lt ListSort.ObjKey_gt
              ListSort.ObjKey_unresolved_to_null ListSort.ObjKey_is_null
              ListSort.insertion_sort) with (tree := tree)
              (indices := [1; 0]%nat) (ascending := false) as (Hperm & _).
  - intros a. unfold ListSort.ObjKey_lt. apply Z.ltb_irrefl.
  - intros a b c. unfold ListSort.ObjKey_lt. rewrite !Z.ltb_lt. lia.
  - intros a b c. unfold ListSort.ObjKey_lt. rewrite !Z.ltb_lt. lia.
  - reflexivity.
  - intros a b. unfold ListSort.ObjKey_lt, ListSort.ObjKey_is_null, null_key.
    rewrite Z.eqb_eq, Z.eqb_neq, Z.ltb_lt.
    pose proof (ObjKey_unresolved_to_null_range b). lia.
  - exact insertion_sort_contract.
  - right. exists 2%nat. split; [simpl; lia|]. simpl. apply perm_swap.
  - exact Hperm.
Defined.

(** ** Distinct values of a list *)

Lemma nonempty_lookup_0 {A} (l : list A) :
  l <> [] -> exists x, l !! 0%nat = Some x /\ (0 < length l)%nat.
Proof. destruct l; [done|]. intros _. eexists. split; [done|simpl; lia]. Qed.

Lemma min_unique_nonempty (pred : nat -> nat -> bool) (v : list nat) :
  v <> [] ->
  ListDistinct.min_unique pred v
  = ((foldl (ListDistinct.min_unique_step pred) (v, 0%nat)
            (seq 1 (length v - 1))).1,
     S (foldl (ListDistinct.min_unique_step pred) (v, 0%nat)
              (seq 1 (length v - 1))).2).
Proof. by destruct v. Qed.

Section MinUnique.
Import ListSort ListDistinct.

Variables comp E : nat -> nat -> bool.
Variable s : list nat.
Hypothesis Hsw : strict_weak_on comp s.
Hypothesis HE : forall x y, x ∈ s -> y ∈ s ->
  (E x y = true <-> comp x y = false /\ comp y x = false).
Hypothesis Hsorted : sorted_by comp s.

Local Open Scope nat_scope.

Lemma E_refl x : x ∈ s -> E x x = true.
Proof.
  intros Hx. apply HE; [done|done|]. destruct Hsw as (Hirr & _). by rewrite Hirr.
Qed.

Lemma E_sym x y : x ∈ s -> y ∈ s -> E x y = true -> E y x = true.
Proof. intros Hx Hy H. apply HE in H as [? ?]; [|done|done]. by apply HE. Qed.

Lemma comp_E_r a b c :
  a ∈ s -> b ∈ s -> c ∈ s -> comp a b = true -> E b c = true -> comp a c = true.
Proof.
  intros Ha Hb Hc Hab Hbc. destruct Hsw as (_ & _ & Hneg).
  apply HE in Hbc as [_ Hcb]; [|done|done].
  destruct (Hneg a c b Ha Hc Hb Hab) as [H|H]; [done|congruence].
Qed.

Lemma comp_E_l a b c :
  a ∈ s -> b ∈ s -> c ∈ s -> E a b = true -> comp b c = true -> comp a c = true.
Proof.
  intros Ha Hb Hc Hab Hbc. destruct Hsw as (_ & _ & Hneg).
  apply HE in Hab as [_ Hba]; [|done|done].
  destruct (Hneg b a c Hb Ha Hc Hbc) as [H|H]; [congruence|done].
Qed.

Lemma E_trans a b c :
  a ∈ s -> b ∈ s -> c ∈ s -> E a b = true -> E b c = true -> E a c = true.
Proof.
  intros Ha Hb Hc Hab Hbc. apply HE; [done|done|].
  pose proof Hab as Hab'. pose proof Hbc as Hbc'.
  apply HE in Hab' as [Hab1 Hab2]; [|done|done].
  apply HE in Hbc' as [Hbc1 Hbc2]; [|done|done].
  split.
  - destruct (comp a c) eqn:Hac; [|done].
    assert (comp b c = true); [|congruence].
    apply (comp_E_l b a c); try done. by apply E_sym.
  - destruct (comp c a) eqn:Hca; [|done].
    assert (comp c b = true); [|congruence].
    by apply (comp_E_r c a b).
Qed.

Lemma not_E_comp a b :
  a ∈ s -> b ∈ s -> E a b = false -> comp b a = false -> comp a b = true.
Proof.
  intros Ha Hb HEab Hba. destruct (comp a b) eqn:Hab; [done|].
  assert (E a b = true); [|congruence]. by apply HE.
Qed.

Lemma comp_not_E a b : a ∈ s -> b ∈ s -> comp a b = true -> E b a = false.
Proof.
  intros Ha Hb Hab. destruct (E b a) eqn:HEba; [|done].
  apply HE in HEba as [_ ?]; [congruence|done|done].
Qed.

Lemma mu_inv_prefix_in v r f k x :
  mu_inv comp E s v r f -> k <= r -> v !! k = Some x -> x ∈ s.
Proof.
  intros (_ & _ & _ & _ & Ha & _) Hk Hx.
  destruct (Ha k x Hk Hx) as [(i & _ & Hi) _]. by eapply list_elem_of_lookup_2.
Qed.

(** The run of duplicates goes on: [*result] becomes [m], the smaller of
    [*result] and [*first]. *)
Lemma mu_inv_same_group v r f z x v' m :
  mu_inv comp E s v r f ->
  s !! S f = Some z -> v !! r = Some x -> E x z = true ->
  length v' = length v -> v' !! r = Some m ->
  (forall k, k <> r -> v' !! k = v !! k) ->
  m = x \/ m = z -> m <= x -> m <= z ->
  mu_inv comp E s v' r (S f).
Proof.
  intros HI Hz Hx HExz Hlen' Hm Hframe Hmx Hle1 Hle2.
  pose proof (fun k x => mu_inv_prefix_in v r f k x HI) as Hin.
  destruct HI as (Hlen & Hrf & Hfl & Hagree & Ha & Hb & Hc & _).
  assert (Hxs : x ∈ s) by (by apply (Hin r)).
  assert (Hzs : z ∈ s) by (by eapply list_elem_of_lookup_2).
  assert (Hms : m ∈ s) by (by destruct Hmx as [->| ->]).
  assert (HEmz : E m z = true) by (destruct Hmx as [->| ->]; [done|by apply E_refl]).
  assert (HEmx : E m x = true)
    by (destruct Hmx as [->| ->]; [by apply E_refl|by apply E_sym]).
  unfold mu_inv. split_and!.
  - congruence.
  - lia.
  - by eapply lookup_lt_Some.
  - intros j Hj. rewrite Hframe by lia. apply Hagree. lia.
  - intros k xk Hk Hxk. destruct (decide (k = r)) as [->|Hkr].
    + rewrite Hm in Hxk. injection Hxk as <-. split.
      * destruct Hmx as [->| ->].
        -- destruct (Ha r x (le_n _) Hx) as [(i & Hi & Hsi) _].
           exists i. split; [lia|done].
        -- exists (S f). done.
      * intros i y Hi Hy HEy. destruct (decide (i = S f)) as [->|Hne].
        -- rewrite Hz in Hy. by injection Hy as <-.
        -- assert (Hys : y ∈ s) by (by eapply list_elem_of_lookup_2).
           destruct (Ha r x (le_n _) Hx) as [_ Hmin].
           assert (x <= y); [|lia].
           apply (Hmin i); [lia|done|]. by apply (E_trans y m x).
    + rewrite Hframe in Hxk by done.
      destruct (Ha k xk Hk Hxk) as [(i & Hi & Hsi) Hmin]. split.
      * exists i. split; [lia|done].
      * intros i' y Hi' Hy HEy. destruct (decide (i' = S f)) as [->|Hne].
        -- rewrite Hz in Hy. injection Hy as <-. exfalso.
           assert (Hxks : xk ∈ s) by (by apply (Hin k)).
           assert (Hcz : comp xk z = true).
           { apply (comp_E_r xk x z); try done. apply (Hc k r); [lia|lia|done|done]. }
           apply comp_not_E in Hcz; [congruence|done|done].
        -- apply (Hmin i'); [lia|done|done].
  - intros i y Hi Hy. destruct (decide (i = S f)) as [->|Hne].
    + rewrite Hz in Hy. injection Hy as <-. exists r, m. done.
    + assert (Hys : y ∈ s) by (by eapply list_elem_of_lookup_2).
      destruct (Hb i y ltac:(lia) Hy) as (k & xk & Hk & Hxk & HEk).
      destruct (decide (k = r)) as [->|Hkr].
      * rewrite Hx in Hxk. injection Hxk as <-. exists r, m.
        split_and!; [lia|done|]. by apply (E_trans m x y).
      * exists k, xk. rewrite Hframe by done. done.
  - intros k k' xk xk' Hkk Hk' Hxk Hxk'.
    rewrite Hframe in Hxk by lia.
    assert (Hxks : xk ∈ s) by (apply (Hin k); [lia|done]).
    destruct (decide (k' = r)) as [->|Hkr].
    + rewrite Hm in Hxk'. injection Hxk' as <-.
      apply (comp_E_r xk x m); try done.
      * apply (Hc k r); [lia|lia|done|done].
      * by apply E_sym.
    + rewrite Hframe in Hxk' by done. apply (Hc k k'); [lia|lia|done|done].
  - exists m, z. done.
Qed.

(** A new value starts: [result] advances and holds [*first]. *)
Lemma mu_inv_new_group v r f z x v' :
  mu_inv comp E s v r f ->
  s !! S f = Some z -> v !! r = Some x -> E x z = false ->
  length v' = length v -> v' !! S r = Some z ->
  (forall k, k <> S r -> v' !! k = v !! k) ->
  mu_inv comp E s v' (S r) (S f).
Proof.
  intros HI Hz Hx HExz Hlen' Hm Hframe.
  pose proof (fun k x => mu_inv_prefix_in v r f k x HI) as Hin.
  destruct HI as (Hlen & Hrf & Hfl & Hagree & Ha & Hb & Hc & (x0 & y0 & Hx0 & Hy0 & HE0)).
  rewrite Hx in Hx0. injection Hx0 as <-.
  assert (Hxs : x ∈ s) by (by apply (Hin r)).
  assert (Hzs : z ∈ s) by (by eapply list_elem_of_lookup_2).
  assert (Hy0s : y0 ∈ s) by (by eapply list_elem_of_lookup_2).
  assert (Hxz : comp x z = true).
  { apply not_E_comp; try done.
    destruct (comp z x) eqn:Hzx; [|done].
    pose proof (Hsorted f (S f) y0 z ltac:(lia) Hy0 Hz) as Hzy.
    assert (comp z y0 = true); [|congruence].
    by apply (comp_E_r z x y0). }
  assert (Hall : forall k xk, k <= r -> v !! k = Some xk -> comp xk z = true).
  { intros k xk Hk Hxk. destruct (decide (k = r)) as [->|Hkr].
    - rewrite Hx in Hxk. by injection Hxk as <-.
    - destruct Hsw as (_ & Htr & _).
      apply (Htr xk x z); try done; [by apply (Hin k)|].
      apply (Hc k r); [lia|lia|done|done]. }
  unfold mu_inv. split_and!.
  - congruence.
  - lia.
  - by eapply lookup_lt_Some.
  - intros j Hj. rewrite Hframe by lia. apply Hagree. lia.
  - intros k xk Hk Hxk. destruct (decide (k = S r)) as [->|Hkr].
    + rewrite Hm in Hxk. injection Hxk as <-. split; [by exists (S f)|].
      intros i y Hi Hy HEy. destruct (decide (i = S f)) as [->|Hne].
      * rewrite Hz in Hy. by injection Hy as <-.
      * exfalso.
        assert (Hys : y ∈ s) by (by eapply list_elem_of_lookup_2).
        destruct (Hb i y ltac:(lia) Hy) as (k0 & x0 & Hk0 & Hx0 & HEk0).
        assert (Hx0s : x0 ∈ s) by (by apply (Hin k0)).
        pose proof (Hall k0 x0 Hk0 Hx0) as Hcz.
        apply comp_not_E in Hcz; [|done|done].
        assert (E z x0 = true); [|congruence].
        apply E_sym; try done. by apply (E_trans x0 y z).
    + rewrite Hframe in Hxk by done.
      destruct (Ha k xk ltac:(lia) Hxk) as [(i & Hi & Hsi) Hmin]. split.
      * exists i. split; [lia|done].
      * intros i' y Hi' Hy HEy. destruct (decide (i' = S f)) as [->|Hne].
        -- rewrite Hz in Hy. injection Hy as <-. exfalso.
           assert (Hxks : xk ∈ s) by (apply (Hin k); [lia|done]).
           pose proof (Hall k xk ltac:(lia) Hxk) as Hcz.
           apply comp_not_E in Hcz; [congruence|done|done].
        -- apply (Hmin i'); [lia|done|done].
  - intros i y Hi Hy. destruct (decide (i = S f)) as [->|Hne].
    + rewrite Hz in Hy. injection Hy as <-. exists (S r), z.
      split_and!; [lia|done|by apply E_refl].
    + destruct (Hb i y ltac:(lia) Hy) as (k & xk & Hk & Hxk & HEk).
      exists k, xk. rewrite Hframe by lia. split_and!; [lia|done|done].
  - intros k k' xk xk' Hkk Hk' Hxk Hxk'.
    rewrite Hframe in Hxk by lia.
    destruct (decide (k' = S r)) as [->|Hkr].
    + rewrite Hm in Hxk'. injection Hxk' as <-. apply (Hall k); [lia|done].
    + rewrite Hframe in Hxk' by done. apply (Hc k k'); [lia|lia|done|done].
  - exists z, z. split_and!; [done|done|by apply E_refl].
Qed.

Lemma min_unique_step_inv v r f :
  mu_inv comp E s v r f -> S f < length s ->
  mu_inv comp E s (min_unique_step E (v, r) (S f)).1
                  (min_unique_step E (v, r) (S f)).2 (S f).
Proof.
  intros HI Hf.
  destruct (lookup_lt_is_Some_2 s (S f) Hf) as [z Hz].
  pose proof HI as (Hlen & Hrf & Hfl & Hagree & _ & _ & _ & (x & y & Hx & Hy & HExy)).
  assert (Hvz : v !! S f = Some z) by (rewrite Hagree by lia; done).
  unfold min_unique_step. cbn [fst snd]. rewrite Hx, Hvz.
  destruct (E x z) eqn:HExz.
  - destruct (Nat.ltb_spec z x) as [Hlt|Hge]; cbn [fst snd].
    + apply (mu_inv_same_group v r f z x _ z); try done.
      * apply length_insert.
      * apply list_lookup_insert_eq. lia.
      * intros k Hk. by apply list_lookup_insert_ne.
      * by right.
      * lia.
    + apply (mu_inv_same_group v r f z x _ x); try done. by left.
  - destruct (Nat.eqb_spec (S r) (S f)) as [Heq|Hne]; cbn [negb fst snd].
    + apply (mu_inv_new_group v r f z x); try done. by rewrite Heq.
    + apply (mu_inv_new_group v r f z x); try done.
      * apply length_insert.
      * apply list_lookup_insert_eq. lia.
      * intros k Hk. by apply list_lookup_insert_ne.
Qed.

Lemma min_unique_loop_inv n v r f :
  mu_inv comp E s v r f -> S f + n = length s ->
  let st := foldl (min_unique_step E) (v, r) (seq (S f) n) in
  mu_inv comp E s st.1 st.2 (length s - 1).
Proof.
  revert v r f. induction n as [|n IH]; intros v r f HI Hn; simpl.
  - by replace (length s - 1) with f by lia.
  - pose proof (min_unique_step_inv v r f HI ltac:(lia)) as HI'.
    destruct (min_unique_step E (v, r) (S f)) as [v' r'] eqn:Hst.
    apply (IH v' r' (S f)); [done|lia].
Qed.

Lemma mu_inv_init : s <> [] -> mu_inv comp E s s 0 0.
Proof.
  intros Hs. destruct (nonempty_lookup_0 s Hs) as (x & H0 & Hl).
  assert (Hxs : x ∈ s) by (by eapply list_elem_of_lookup_2).
  unfold mu_inv. split_and!.
  - done.
  - done.
  - done.
  - done.
  - intros k y Hk Hy. assert (k = 0) as -> by lia.
    rewrite H0 in Hy. injection Hy as <-. split; [by exists 0|].
    intros i y Hi Hy _. assert (i = 0) as -> by lia.
    rewrite H0 in Hy. by injection Hy as <-.
  - intros i y Hi Hy. assert (i = 0) as -> by lia.
    rewrite H0 in Hy. injection Hy as <-. exists 0, x.
    split_and!; [done|done|by apply E_refl].
  - intros k k' xk xk' Hkk Hk'. lia.
  - exists x, x. split_and!; [done|done|by apply E_refl].
Qed.

(** What [min_unique] leaves in front of the position it returns. *)
Lemma min_unique_spec :
  s <> [] ->
  let out := take (min_unique E s).2 (min_unique E s).1 in
  (forall x, x ∈ out -> x ∈ s)
  /\ (forall y, y ∈ s -> exists x, x ∈ out /\ E x y = true /\ x <= y)
  /\ (forall i j x y, i < j -> out !! i = Some x -> out !! j = Some y ->
        comp x y = true).
Proof.
  intros Hne. cbv zeta. rewrite (min_unique_nonempty E s Hne). cbn [fst snd].
  pose proof (min_unique_loop_inv (length s - 1) s 0 0 (mu_inv_init Hne)) as HI.
  assert (Hl : 1 + (length s - 1) = length s).
  { destruct (nonempty_lookup_0 s Hne) as (? & _ & ?). lia. }
  specialize (HI Hl). cbv zeta in HI.
  destruct (foldl (min_unique_step E) (s, 0) (seq 1 (length s - 1))) as [v r].
  cbn [fst snd] in *.
  pose proof (fun k x => mu_inv_prefix_in v r _ k x HI) as Hin.
  destruct HI as (Hlen & Hrf & Hfl & _ & Ha & Hb & Hc & _).
  split_and!.
  - intros x Hx. apply elem_of_take in Hx as (k & Hk & Hkr).
    apply (Hin k); [lia|done].
  - intros y Hy. apply list_elem_of_lookup_1 in Hy as [i Hi].
    pose proof (lookup_lt_Some _ _ _ Hi) as Hil.
    destruct (Hb i y ltac:(lia) Hi) as (k & x & Hk & Hx & HEx).
    exists x. split_and!; [|done|].
    + apply elem_of_take. exists k. split; [done|lia].
    + destruct (Ha k x Hk Hx) as [_ Hmin].
      apply (Hmin i); [lia|done|].
      apply E_sym; [by apply (Hin k)|by eapply list_elem_of_lookup_2|done].
  - intros i j x y Hij Hi Hj.
    pose proof (lookup_lt_Some _ _ _ Hj) as Hjl. rewrite length_take in Hjl.
    rewrite lookup_take_lt in Hi by lia. rewrite lookup_take_lt in Hj by lia.
    apply (Hc i j); [done|lia|done|done].
Qed.

End MinUnique.

Lemma ltb_strict_weak (l : list nat) : ListSort.strict_weak_on Nat.ltb l.
Proof.
  split_and!.
  - intros x _. apply Nat.ltb_irrefl.
  - intros x y z _ _ _. rewrite !Nat.ltb_lt. lia.
  - intros x y z _ _ _. rewrite !Nat.ltb_lt. lia.
Qed.

Section DistinctSpec.

Context {T : Type}.
Variables (lt gt eqb : T -> T -> bool) (unresolved_to_null : T -> T).
Variable std_sort : (nat -> nat -> bool) -> list nat -> list nat.

Hypothesis lt_irrefl : forall a, lt a a = false.
Hypothesis lt_trans :
  forall a b c, lt a b = true -> lt b c = true -> lt a c = true.
Hypothesis lt_neg_trans :
  forall a b c, lt a c = true -> lt a b = true \/ lt b c = true.
(** [operator>] is the converse of [operator<], and two values are equal
    when neither is below the other. *)
Hypothesis gt_lt : forall a b, gt a b = lt b a.
Hypothesis eqb_lt :
  forall a b, eqb a b = true <-> lt a b = false /\ lt b a = false.
Hypothesis std_sort_ok : ListSort.sort_contract std_sort.

Let tree_less := ListSort.tree_less lt unresolved_to_null.
Let tree_greater := ListSort.tree_greater gt unresolved_to_null.
Let tree_equal := ListDistinct.tree_equal eqb unresolved_to_null.

(** X14. For an element type whose [operator<] is a strict weak ordering,
    whose [operator>] is its converse and whose [operator==] holds exactly
    between two values neither of which is below the other, and for a
    [std::sort] that keeps its contract (the hypotheses of this section;
    the operators of float and double do not meet them once a NaN is
    involved): [Lst<T>::distinct] keeps, for every value of the list, the
    first position that holds it.  Every index of the result is a position
    of the list; every position is represented by an index of the result
    that holds an equal value and is not behind it; no two indices of the
    result hold equal values.  With no sort order the indices come in list
    order; with one, the values strictly increase (ascending) or decrease
    (descending) along the result.  The vector passed in is ignored. *)
Theorem distinct_keeps_first_of_each_value (tree : list T)
    (indices : list nat) (sort_order : option bool) :
  let out := ListDistinct.distinct lt gt eqb unresolved_to_null std_sort
               tree indices sort_order in
  (forall x, x ∈ out -> (x < length tree)%nat)
  /\ (forall i, (i < length tree)%nat ->
        exists x, x ∈ out /\ tree_equal tree x i = true /\ (x <= i)%nat)
  /\ (forall i j x y, i <> j -> out !! i = Some x -> out !! j = Some y ->
        tree_equal tree x y = false)
  /\ (forall i j x y, (i < j)%nat -> out !! i = Some x -> out !! j = Some y ->
        match sort_order with
        | None => (x < y)%nat
        | Some true => tree_less tree x y = true
        | Some false => tree_greater tree x y = true
        end).
Proof.
  intros out. subst out. unfold ListDistinct.distinct. cbv zeta.
  set (asc := default true sort_order).
  set (comp := if asc then tree_less tree else tree_greater tree).
  set (s := ListSort.sort lt gt unresolved_to_null std_sort tree [] asc).
  assert (Hswn : ListSort.strict_weak_on comp (seq 0 (length tree))).
  { subst comp. destruct asc.
    - by apply tree_less_strict_weak.
    - by apply (tree_greater_strict_weak lt gt). }
  assert (Hs : Permutation s (seq 0 (length tree)) /\ ListSort.sorted_by comp s).
  { subst s comp. unfold ListSort.sort, ListSort.do_sort. simpl.
    rewrite Nat.sub_0_r. destruct asc; by apply std_sort_ok. }
  destruct Hs as [Hperm Hsorted].
  assert (Hin : forall x, x ∈ s <-> (x < length tree)%nat).
  { intros x. rewrite Hperm, elem_of_seq. lia. }
  destruct s as [|x0 s0] eqn:Hs.
  { apply Permutation_length in Hperm. rewrite length_seq in Hperm.
    simpl in Hperm. split_and!.
    - intros x Hx. by apply elem_of_nil in Hx.
    - intros i Hi. lia.
    - intros i j x y _ Hi. by rewrite lookup_nil in Hi.
    - intros i j x y _ Hi. by rewrite lookup_nil in Hi. }
  rewrite <- Hs in *.
  assert (Hne : s <> []) by (by rewrite Hs).
  assert (Hsw : ListSort.strict_weak_on comp s).
  { by apply (strict_weak_on_perm comp (seq 0 (length tree))). }
  assert (HE : forall x y, x ∈ s -> y ∈ s ->
             (tree_equal tree x y = true
              <-> comp x y = false /\ comp y x = false)).
  { intros x y Hx Hy. apply Hin in Hx, Hy.
    destruct (lookup_lt_is_Some_2 tree x Hx) as [a Ha].
    destruct (lookup_lt_is_Some_2 tree y Hy) as [b Hb].
    subst comp tree_equal tree_less tree_greater.
    destruct asc;
      unfold ListDistinct.tree_equal, ListSort.tree_less, ListSort.tree_greater;
      rewrite Ha, Hb, ?gt_lt, eqb_lt; tauto. }
  destruct (min_unique_spec comp (tree_equal tree) s Hsw HE Hsorted Hne)
    as (Hsub & Hcov & Hord).
  set (m := take (ListDistinct.min_unique (tree_equal tree) s).2
                 (ListDistinct.min_unique (tree_equal tree) s).1) in *.
  assert (Hms : forall x, x ∈ m -> x ∈ s) by exact Hsub.
  assert (Hdist : forall i j x y, i <> j -> m !! i = Some x -> m !! j = Some y ->
                    x <> y /\ tree_equal tree x y = false).
  { assert (Hlt : forall i j x y, (i < j)%nat -> m !! i = Some x -> m !! j = Some y ->
                    x <> y /\ tree_equal tree x y = false
                    /\ tree_equal tree y x = false).
    { intros i j x y Hij Hi Hj.
      pose proof (Hord i j x y Hij Hi Hj) as Hc.
      assert (Hxs : x ∈ s) by (apply Hms; by eapply list_elem_of_lookup_2).
      assert (Hys : y ∈ s) by (apply Hms; by eapply list_elem_of_lookup_2).
      split_and!.
      - intros ->. destruct Hsw as (Hirr & _). rewrite Hirr in Hc; done.
      - destruct (tree_equal tree x y) eqn:HExy; [|done].
        apply HE in HExy as [? _]; [congruence|done|done].
      - by apply (comp_not_E comp (tree_equal tree) s HE). }
    intros i j x y Hij Hi Hj.
    destruct (Nat.lt_total i j) as [H|[H|H]]; [|done|].
    - by destruct (Hlt i j x y H Hi Hj) as (? & ? & _).
    - destruct (Hlt j i y x H Hj Hi) as (? & _ & ?). split; [congruence|done]. }
  assert (Hnd : NoDup m).
  { apply NoDup_alt. intros i j x Hi Hj.
    destruct (decide (i = j)) as [|Hij]; [done|].
    by destruct (Hdist i j x x Hij Hi Hj). }
  fold tree_equal. fold m.
  set (out := match sort_order with
              | Some _ => m
              | None => std_sort Nat.ltb m
              end).
  assert (Hout : Permutation out m /\ (sort_order = None -> ListSort.sorted_by Nat.ltb out)
                 /\ (forall b, sort_order = Some b -> out = m)).
  { subst out. destruct sort_order as [b|].
    - split_and!; [done|done|by intros ? _].
    - destruct (std_sort_ok Nat.ltb m (ltb_strict_weak m)) as [Hp Hso].
      split_and!; [done|done|done]. }
  destruct Hout as (Hpo & Hso & Hsome).
  assert (Hndo : NoDup out) by (by rewrite Hpo).
  split_and!.
  - intros x Hx. apply Hin, Hms. by rewrite <- Hpo.
  - intros i Hi. apply Hin in Hi.
    destruct (Hcov i Hi) as (x & Hx & HEx & Hle).
    exists x. split_and!; [by rewrite Hpo|done|done].
  - intros i j x y Hij Hi Hj.
    assert (Hxy : x <> y).
    { intros ->. apply Hij. by eapply (NoDup_lookup out). }
    assert (Hxm : x ∈ m) by (rewrite <- Hpo; by eapply list_elem_of_lookup_2).
    assert (Hym : y ∈ m) by (rewrite <- Hpo; by eapply list_elem_of_lookup_2).
    apply list_elem_of_lookup_1 in Hxm as [i' Hi'].
    apply list_elem_of_lookup_1 in Hym as [j' Hj'].
    apply (Hdist i' j' x y); [congruence|done|done].
  - intros i j x y Hij Hi Hj. destruct sort_order as [b|] eqn:Hso'.
    + rewrite (Hsome b eq_refl) in Hi, Hj.
      pose proof (Hord i j x y Hij Hi Hj) as Hc.
      subst comp asc. simpl in Hc. by destruct b.
    + pose proof (Hso eq_refl i j x y Hij Hi Hj) as Hc.
      apply Nat.ltb_ge in Hc.
      assert (x <> y); [|lia].
      intros ->. assert (i = j) by (by eapply (NoDup_lookup out)). lia.
Qed.

End DistinctSpec.

Lemma distinct_keeps_first_of_each_value_witness :
  let tree := [3; -5; 3; -1; 0; -7] in
  ListDistinct.distinct ListSort.ObjKey_lt ListSort.ObjKey_gt
    ListDistinct.ObjKey_eqb ListSort.ObjKey_unresolved_to_null
    ListSort.insertion_sort tree [] None = [0; 1; 4]%nat
  /\ ListDistinct.distinct ListSort.ObjKey_lt ListSort.ObjKey_gt
       ListDistinct.ObjKey_eqb ListSort.ObjKey_unresolved_to_null
       ListSort.insertion_sort tree [] (Some false) = [0; 4; 1]%nat
  /\ forall x,
       x ∈ ListDistinct.distinct ListSort.ObjKey_lt ListSort.ObjKey_gt
             ListDistinct.ObjKey_eqb ListSort.ObjKey_unresolved_to_null
             ListSort.insertion_sort tree [] None ->
       (x < length tree)%nat.
Proof.
  intros tree. split; [reflexivity|]. split; [reflexivity|].
  destruct (distinct_keeps_first_of_each_value ListSort.ObjKey_lt
              ListSort.ObjKey_gt ListDistinct.ObjKey_eqb
              ListSort.ObjKey_unresolved_to_null ListSort.insertion_sort)
    with (tree := tree) (indices := @nil nat) (sort_order := @None bool)
    as (Hvalid & _).
  - intros a. unfold ListSort.ObjKey_lt. apply Z.ltb_irrefl.
  - intros a b c. unfold ListSort.ObjKey_lt. rewrite !Z.ltb_lt. lia.
  - intros a b c. unfold ListSort.ObjKey_lt. rewrite !Z.ltb_lt. lia.
  - reflexivity.
  - intros a b. unfold ListDistinct.ObjKey_eqb, ListSort.ObjKey_lt.
    rewrite Z.eqb_eq, !Z.ltb_ge. lia.
  - exact insertion_sort_contract.
  - exact Hvalid.
Defined.

(** ** Link lists: insert, remove and clear, step by step *)

#[local] Set Warnings "-clear-no-such-hyp".

Lemma upd_upd_eq x c v v0 g :
  upd x c v (upd x c v0 g) = upd x c v g.
Proof.
  unfold upd. destruct (objects g !! x) as [r|] eqn:Hx.
  - unfold with_row, set_objects. simpl. rewrite lookup_insert_eq. simpl.
    by rewrite insert_insert_eq, list_insert_insert_eq.
  - by rewrite Hx.
Qed.

Lemma get_opposite_table_key_run A c g ti col :
  tables g !! A = Some ti -> columns (t_spec ti) !! c = Some col ->
  get_opposite_table_key A c g = Ok (col_opposite_table col) g.
Proof.
  intros Hti Hcol. unfold get_opposite_table_key.
  by rewrite bind_unfold, get_spec_unfold, Hti, bind_unfold, unchecked_unfold, Hcol.
Qed.

Lemma tree_insert_run lst g l f ndx k :
  cell_at g (m_obj lst) (m_col_key lst) = Some (CLinkList l f) ->
  (ndx <= length l)%nat ->
  tree_insert lst ndx k g
  = Ok tt (upd (m_obj lst) (m_col_key lst)
               (CLinkList (take ndx l ++ k :: drop ndx l) f) g).
Proof.
  intros Hc Hn. unfold tree_insert.
  rewrite bind_unfold, (tree_read_run _ _ _ _ Hc). simpl.
  rewrite bind_unfold, realm_assert_unfold.
  destruct (Nat.leb_spec ndx (length l)); [|lia]. by eapply tree_write_run.
Qed.

Lemma tree_erase_run lst g l f ndx :
  cell_at g (m_obj lst) (m_col_key lst) = Some (CLinkList l f) ->
  (ndx < length l)%nat ->
  tree_erase lst ndx g
  = Ok tt (upd (m_obj lst) (m_col_key lst) (CLinkList (delete ndx l) f) g).
Proof.
  intros Hc Hn. unfold tree_erase.
  rewrite bind_unfold, (tree_read_run _ _ _ _ Hc). simpl.
  rewrite bind_unfold, realm_assert_unfold.
  destruct (Nat.ltb_spec ndx (length l)); [|lia]. by eapply tree_write_run.
Qed.

Lemma tree_set_run lst g l f ndx k :
  cell_at g (m_obj lst) (m_col_key lst) = Some (CLinkList l f) ->
  (ndx < length l)%nat ->
  tree_set lst ndx k g
  = Ok tt (upd (m_obj lst) (m_col_key lst) (CLinkList (<[ndx := k]> l) f) g).
Proof.
  intros Hc Hn. unfold tree_set.
  rewrite bind_unfold, (tree_read_run _ _ _ _ Hc). simpl.
  rewrite bind_unfold, realm_assert_unfold.
  destruct (Nat.ltb_spec ndx (length l)); [|lia]. by eapply tree_write_run.
Qed.

Lemma check_for_last_unresolved_run lst g l f :
  cell_at g (m_obj lst) (m_col_key lst) = Some (CLinkList l f) ->
  check_for_last_unresolved lst g
  = Ok tt (upd (m_obj lst) (m_col_key lst)
               (CLinkList l (f && existsb is_unresolved l)) g).
Proof.
  intros Hc. unfold check_for_last_unresolved.
  rewrite bind_unfold, (tree_read_run _ _ _ _ Hc). simpl.
  destruct (existsb is_unresolved l).
  - rewrite ret_unfold, andb_true_r. f_equal. unfold upd, cell_at in *.
    destruct (objects g !! m_obj lst) as [r|] eqn:Hr; [|done]. simpl in Hc.
    unfold with_row, set_objects. rewrite (list_insert_id r) by done.
    rewrite insert_id by done. by destruct g.
  - rewrite andb_false_r. by eapply tree_write_run.
Qed.

(** [Obj::update_backlinks] on a column without strong links. *)
Lemma update_backlinks_weak_run o c old new st g ti col tti bc :
  tables g !! o.1 = Some ti -> columns (t_spec ti) !! c = Some col ->
  tables g !! col_opposite_table col = Some tti ->
  find_backlink_column (t_spec tti) o.1 c = Some bc ->
  (old = null_key \/ attr_test (col_attr col) col_attr_StrongLinks = false) ->
  Obj_update_backlinks o c old new st g
  = match (g1 ← (if old =? null_key then Some g
                 else remove_backlink_pure (col_opposite_table col, old) bc o.2 g);
           if new =? null_key then Some g1
           else add_backlink_pure (col_opposite_table col, new) bc o.2 g1) with
    | Some g2 => Ok (false, st) g2
    | None => Abort
    end.
Proof.
  intros Hti Hcol Htt Hf Hweak.
  rewrite update_backlinks_eq, Hti, Hcol, Htt, Hf.
  unfold update_backlinks_pure. simpl mbind.
  destruct (old =? null_key) eqn:Hold; simpl.
  - destruct (new =? null_key); simpl; [done|].
    by destruct (add_backlink_pure _ _ _ _).
  - destruct Hweak as [->|Hweak]; [by rewrite Z.eqb_refl in Hold|].
    rewrite Hweak. simpl.
    destruct (remove_backlink_pure _ _ _ _) as [g1|]; simpl; [|done].
    destruct (new =? null_key); simpl; [done|].
    by destruct (add_backlink_pure _ _ _ _).
Qed.

(** [Lst<ObjKey>::do_insert] where every check passes. *)
Lemma do_insert_run (g : Group) (lst : Lst) (ndx : nat) (k : Key)
    (ti tti : TableInfo) (col : ColumnSpec) (bc : nat) (l : list Key)
    (flag : bool) :
  tables g !! (m_obj lst).1 = Some ti ->
  columns (t_spec ti) !! m_col_key lst = Some col ->
  tables g !! col_opposite_table col = Some tti ->
  find_backlink_column (t_spec tti) (m_obj lst).1 (m_col_key lst) = Some bc ->
  cell_at g (m_obj lst) (m_col_key lst) = Some (CLinkList l flag) ->
  (ndx <= length l)%nat ->
  (k <> null_key ->
   exists lb, cell_at g (col_opposite_table col, k) bc = Some (CBacklink lb)) ->
  exists g',
    Lst_do_insert lst ndx k g = Ok tt g'
    /\ cell_at g' (m_obj lst) (m_col_key lst)
       = Some (CLinkList (take ndx l ++ k :: drop ndx l)
                         (flag || is_unresolved k))
    /\ tree_size lst g' = Ok (S (length l)) g'
    /\ tree_get lst ndx g' = Ok k g'
    /\ (forall lb, k <> null_key ->
          cell_at g (col_opposite_table col, k) bc = Some (CBacklink lb) ->
          cell_at g' (col_opposite_table col, k) bc
          = Some (CBacklink (lb ++ [(m_obj lst).2])))
    /\ (forall y j,
          (y, j) <> (m_obj lst, m_col_key lst) ->
          ~ (k <> null_key /\ (y, j) = ((col_opposite_table col, k), bc)) ->
          cell_at g' y j = cell_at g y j)
    /\ (forall y, valid_object g' y = valid_object g y)
    /\ replication g' = replication g
    /\ tables g' = tables g.
Proof.
  intros Hti Hcol Htt Hf Hc Hn Hk.
  set (o := m_obj lst) in *. set (c := m_col_key lst) in *.
  set (B := col_opposite_table col) in *.
  set (l' := take ndx l ++ k :: drop ndx l).
  assert (Hl' : l' !! ndx = Some k).
  { subst l'. rewrite lookup_app_r by (rewrite length_take; lia).
    rewrite length_take. by replace (ndx - ndx `min` length l)%nat with 0%nat by lia. }
  assert (Hlen' : length l' = S (length l)).
  { subst l'. rewrite length_app, length_take. simpl. rewrite length_drop. lia. }
  (* the backlink step *)
  assert (Hstep : exists g1,
             Obj_update_backlinks o c null_key k (mkCascade Mode_Strong []) g
             = Ok (false, mkCascade Mode_Strong []) g1
             /\ cell_at g1 o c = Some (CLinkList l flag)
             /\ (forall lb, k <> null_key ->
                   cell_at g (B, k) bc = Some (CBacklink lb) ->
                   cell_at g1 (B, k) bc = Some (CBacklink (lb ++ [o.2])))
             /\ (forall y j, ~ (k <> null_key /\ (y, j) = ((B, k), bc)) ->
                   cell_at g1 y j = cell_at g y j)
             /\ (forall y, valid_object g1 y = valid_object g y)
             /\ replication g1 = replication g /\ tables g1 = tables g).
  { rewrite (update_backlinks_weak_run o c null_key k _ g ti col tti bc)
      by (done || by left).
    rewrite Z.eqb_refl. simpl mbind. fold B.
    destruct (Z.eqb_spec k null_key) as [Hnull|Hnull].
    - exists g. split_and!; done.
    - destruct (Hk Hnull) as [lb Hlb].
      unfold add_backlink_pure. rewrite Hlb.
      assert (Hlb' : cell_at (bump g) (B, k) bc = Some (CBacklink lb)) by done.
      eexists. split; [reflexivity|]. split_and!.
      + rewrite cell_at_upd_ne; [done|]. intros [= Ho Hcb].
        rewrite Ho, Hcb in Hc. rewrite Hc in Hlb. done.
      + intros lb0 _ Hlb0. injection Hlb0 as <-.
        apply cell_at_upd_eq. by rewrite Hlb'.
      + intros y j Hne. rewrite cell_at_upd_ne; [done|].
        intros [= -> ->]. apply Hne. done.
      + intros y. by rewrite valid_upd.
      + by rewrite replication_upd.
      + by rewrite tables_upd. }
  destruct Hstep as (g1 & Hu & Hc1 & Hbl1 & Hfr1 & Hv1 & Hr1 & Ht1).
  set (g' := upd o c (CLinkList l' (flag || is_unresolved k)) g1).
  assert (Hrun : Lst_do_insert lst ndx k g = Ok tt g').
  { unfold Lst_do_insert. cbv zeta. fold o c.
    rewrite bind_unfold, (get_opposite_table_key_run _ _ _ _ _ Hti Hcol).
    fold B. rewrite bind_unfold. unfold Obj_set_backlink.
    rewrite bind_unfold. simpl snd. rewrite Hu, ret_unfold.
    rewrite bind_unfold, (tree_insert_run lst g1 l flag ndx k Hc1 Hn).
    fold o c l'.
    destruct (is_unresolved k) eqn:Hunres.
    - rewrite (set_context_flag_run lst _ l' flag true)
        by (apply cell_at_upd_eq; eexists; exact Hc1).
      fold o c. rewrite upd_upd_eq. subst g'. by rewrite orb_true_r.
    - rewrite ret_unfold. subst g'. by rewrite orb_false_r. }
  assert (Hc' : cell_at g' o c = Some (CLinkList l' (flag || is_unresolved k))).
  { subst g'. apply cell_at_upd_eq. by rewrite Hc1. }
  exists g'. split_and!.
  - exact Hrun.
  - exact Hc'.
  - rewrite (tree_size_run lst g' l' _ Hc'). by rewrite Hlen'.
  - by apply (tree_get_run lst g' l' (flag || is_unresolved k)).
  - intros lb Hnull Hlb. unfold g'.
    rewrite cell_at_upd_ne; [by apply Hbl1|]. intros [= Ho Hcb].
    rewrite Ho, Hcb in Hlb. rewrite Hc in Hlb. done.
  - intros y j Hne1 Hne2. unfold g'. rewrite cell_at_upd_ne by done.
    by apply Hfr1.
  - intros y. unfold g'. by rewrite valid_upd, Hv1.
  - unfold g'. by rewrite replication_upd.
  - unfold g'. by rewrite tables_upd.
Qed.

(** The cascade decision of [Obj::remove_backlink] for a target table
    that is not embedded. *)
Lemma embedded_cascade_run (B : TableKey) (k : Key) r g tti :
  tables g !! B = Some tti -> t_embedded tti = false ->
  embedded_cascade (B, k) r g = Ok r g.
Proof.
  intros Htt Hemb. unfold embedded_cascade.
  destruct ((_ =? _) || _); [done|].
  rewrite bind_unfold. unfold is_embedded. cbn [fst]. by rewrite Htt, Hemb.
Qed.

(** Taking one backlink entry away, as [Obj::update_backlinks] does for a
    non-null old key. *)
Lemma remove_backlink_step (B : TableKey) bc (o old : Z) g lb lb' :
  (old <> null_key ->
   cell_at g (B, old) bc = Some (CBacklink lb)
   /\ remove_first o lb = Some lb') ->
  exists g1,
    (if old =? null_key then Some g
     else remove_backlink_pure (B, old) bc o g) = Some g1
    /\ (old <> null_key -> cell_at g1 (B, old) bc = Some (CBacklink lb'))
    /\ (forall y j, ~ (old <> null_key /\ (y, j) = ((B, old), bc)) ->
          cell_at g1 y j = cell_at g y j)
    /\ (forall y, valid_object g1 y = valid_object g y)
    /\ replication g1 = replication g /\ tables g1 = tables g.
Proof.
  intros Hold. destruct (Z.eqb_spec old null_key) as [Hnull|Hnull].
  - exists g. split_and!; done.
  - destruct (Hold Hnull) as [Hlb Hrem].
    unfold remove_backlink_pure, ArrayBacklink_remove. rewrite Hlb, Hrem.
    assert (Hlb' : cell_at (bump g) (B, old) bc = Some (CBacklink lb)) by done.
    eexists. split; [reflexivity|]. split_and!.
    + intros _. apply cell_at_upd_eq. by rewrite Hlb'.
    + intros y j Hne. rewrite cell_at_upd_ne; [done|].
      intros [= -> ->]. apply Hne. done.
    + intros y. by rewrite valid_upd.
    + by rewrite replication_upd.
    + by rewrite tables_upd.
Qed.




(** One round of the loop of [do_clear] for a target table that is not
    embedded: [do_set(ndx, null_key)] and [m_tree->erase(ndx)]. *)
Lemma clear_round_weak_run (g : Group) (lst : Lst) (ndx : nat) (old : Key)
    (ti tti : TableInfo) (col : ColumnSpec) (bc : nat) (l : list Key)
    (flag : bool) (lb lb' : list Key) :
  tables g !! (m_obj lst).1 = Some ti ->
  columns (t_spec ti) !! m_col_key lst = Some col ->
  tables g !! col_opposite_table col = Some tti ->
  t_embedded tti = false ->
  find_backlink_column (t_spec tti) (m_obj lst).1 (m_col_key lst) = Some bc ->
  attr_test (col_attr col) col_attr_StrongLinks = false ->
  cell_at g (m_obj lst) (m_col_key lst) = Some (CLinkList l flag) ->
  l !! ndx = Some old ->
  (old <> null_key ->
   cell_at g (col_opposite_table col, old) bc = Some (CBacklink lb)
   /\ remove_first (m_obj lst).2 lb = Some lb') ->
  exists g' flag',
    (Lst_do_set lst ndx null_key ;;; tree_erase lst ndx) g = Ok tt g'
    /\ cell_at g' (m_obj lst) (m_col_key lst)
       = Some (CLinkList (delete ndx l) flag')
    /\ (old <> null_key ->
        cell_at g' (col_opposite_table col, old) bc = Some (CBacklink lb'))
    /\ (forall y j,
          (y, j) <> (m_obj lst, m_col_key lst) ->
          ~ (old <> null_key /\ (y, j) = ((col_opposite_table col, old), bc)) ->
          cell_at g' y j = cell_at g y j)
    /\ (forall y, valid_object g' y = valid_object g y)
    /\ replication g' = replication g
    /\ tables g' = tables g.
Proof.
  intros Hti Hcol Htt Hemb Hf Hweak Hc Hold Hk.
  set (o := m_obj lst) in *. set (c := m_col_key lst) in *.
  set (B := col_opposite_table col) in *.
  pose proof (lookup_lt_Some _ _ _ Hold) as Hn.
  destruct (remove_backlink_step B bc o.2 old g lb lb' Hk)
    as (g1 & Hg1 & Hbl1 & Hfr1 & Hv1 & Hr1 & Ht1).
  assert (Hc1 : cell_at g1 o c = Some (CLinkList l flag)).
  { rewrite Hfr1; [done|]. intros [Hnull [= Ho Hcb]].
    destruct (Hk Hnull) as [Hlb _]. rewrite <- Ho, <- Hcb in Hlb.
    rewrite Hc in Hlb. done. }
  set (l1 := <[ndx := null_key]> l).
  set (flag' := if is_unresolved old
                then flag && existsb is_unresolved l1 else flag).
  set (g' := upd o c (CLinkList (delete ndx l) flag') g1).
  assert (Hdel : delete ndx l1 = delete ndx l).
  { subst l1. rewrite !delete_take_drop.
    rewrite take_insert_ge by lia. by rewrite drop_insert_lt by lia. }
  assert (Hrun : (Lst_do_set lst ndx null_key ;;; tree_erase lst ndx) g = Ok tt g').
  { rewrite bind_unfold. unfold Lst_do_set. cbv zeta. fold o c.
    rewrite bind_unfold, (get_opposite_table_key_run _ _ _ _ _ Hti Hcol).
    fold B. rewrite bind_unfold, (tree_get_run lst g l flag ndx old Hc Hold).
    rewrite bind_unfold. unfold Obj_replace_backlink, Obj_remove_backlink.
    simpl snd. rewrite !bind_unfold.
    rewrite (update_backlinks_weak_run o c old null_key _ g ti col tti bc)
      by (done || by right).
    fold B. simpl mbind. rewrite Hg1. simpl.
    match goal with
    | |- context [embedded_cascade _ ?r _] =>
        rewrite (embedded_cascade_run B old r g1 tti);
          [|by rewrite Ht1|exact Hemb]
    end.
    cbv beta iota. cbn [fst snd].
    rewrite bind_unfold. unfold Obj_set_backlink. simpl snd.
    rewrite bind_unfold.
    rewrite (update_backlinks_weak_run o c null_key null_key _ g1 ti col tti bc);
      [|by rewrite Ht1|done|by rewrite Ht1|done|by left].
    rewrite Z.eqb_refl. simpl mbind. cbv beta iota.
    rewrite !ret_unfold. cbv beta iota. cbn [fst snd].
    rewrite bind_unfold, (tree_set_run lst g1 l flag ndx null_key Hc1 Hn).
    fold o c l1. rewrite bind_unfold, ret_unfold.
    change (is_unresolved null_key) with false. cbv iota.
    assert (Hc2 : cell_at (upd o c (CLinkList l1 flag) g1) o c
                  = Some (CLinkList l1 flag))
      by (apply cell_at_upd_eq; eexists; exact Hc1).
    assert (Hl1 : (ndx < length l1)%nat) by (subst l1; by rewrite length_insert).
    subst g' flag'. destruct (is_unresolved old).
    - rewrite (check_for_last_unresolved_run lst _ l1 flag Hc2).
      fold o c. rewrite upd_upd_eq.
      rewrite (tree_erase_run lst _ l1 (flag && existsb is_unresolved l1) ndx)
        by (first [apply cell_at_upd_eq; eexists; exact Hc1 | done]).
      fold o c. by rewrite upd_upd_eq, Hdel.
    - rewrite ret_unfold.
      rewrite (tree_erase_run lst _ l1 flag ndx Hc2 Hl1).
      fold o c. by rewrite upd_upd_eq, Hdel. }
  exists g', flag'. split_and!.
  - exact Hrun.
  - subst g'. apply cell_at_upd_eq. by rewrite Hc1.
  - intros Hnull. subst g'. rewrite cell_at_upd_ne; [by apply Hbl1|].
    intros [= Ho Hcb]. destruct (Hk Hnull) as [Hlb _].
    rewrite Ho, Hcb in Hlb. rewrite Hc in Hlb. done.
  - intros y j Hne1 Hne2. subst g'. rewrite cell_at_upd_ne by done.
    by apply Hfr1.
  - intros y. subst g'. by rewrite valid_upd, Hv1.
  - subst g'. by rewrite replication_upd.
  - subst g'. by rewrite tables_upd.
Qed.

(** X15. [Lst<ObjKey>::do_insert] on a link list whose schema is in place
    (the target table and its backlink column exist), at an index up to the
    size, with a key that is null or names a target object: the call
    returns; the list holds the key at [ndx] between the entries that were
    before and behind that index ([size] grows by one and [get(ndx)] is the
    key); the context flag is set when the key is unresolved and kept
    otherwise; the backlink entry of the target lists the owner once more,
    at its end; every other entry, the set of objects, the tables and the
    replication log are as before. *)
Theorem list_insert_effect (g : Group) (lst : Lst) (ndx : nat) (k : Key)
    (ti tti : TableInfo) (col : ColumnSpec) (bc : nat) (l : list Key)
    (flag : bool) :
  tables g !! (m_obj lst).1 = Some ti ->
  columns (t_spec ti) !! m_col_key lst = Some col ->
  tables g !! col_opposite_table col = Some tti ->
  find_backlink_column (t_spec tti) (m_obj lst).1 (m_col_key lst) = Some bc ->
  cell_at g (m_obj lst) (m_col_key lst) = Some (CLinkList l flag) ->
  (ndx <= length l)%nat ->
  (k <> null_key ->
   exists lb, cell_at g (col_opposite_table col, k) bc = Some (CBacklink lb)) ->
  exists g',
    Lst_do_insert lst ndx k g = Ok tt g'
    /\ cell_at g' (m_obj lst) (m_col_key lst)
       = Some (CLinkList (take ndx l ++ k :: drop ndx l)
                         (flag || is_unresolved k))
    /\ tree_size lst g' = Ok (S (length l)) g'
    /\ tree_get lst ndx g' = Ok k g'
    /\ (forall lb, k <> null_key ->
          cell_at g (col_opposite_table col, k) bc = Some (CBacklink lb) ->
          cell_at g' (col_opposite_table col, k) bc
          = Some (CBacklink (lb ++ [(m_obj lst).2])))
    /\ (forall y j,
          (y, j) <> (m_obj lst, m_col_key lst) ->
          ~ (k <> null_key /\ (y, j) = ((col_opposite_table col, k), bc)) ->
          cell_at g' y j = cell_at g y j)
    /\ (forall y, valid_object g' y = valid_object g y)
    /\ replication g' = replication g
    /\ tables g' = tables g.
Proof. apply do_insert_run. Qed.

Lemma list_insert_effect_witness :
  exists g' : Group,
    Lst_do_insert (mkLst (0%nat, 0) 3) 0 12 ex_group = Ok tt g'
    /\ cell_at g' (0%nat, 0) 3 = Some (CLinkList [12; 11] false)
    /\ cell_at g' (1%nat, 12) 3 = Some (CBacklink [0]).
Proof.
  destruct (list_insert_effect ex_group (mkLst (0%nat, 0) 3) 0 12
              (mkTable person_spec false) (mkTable dog_spec true)
              (mkColumn col_type_LinkList col_attr_List 1 0) 3%nat [11] false)
    as (g' & Hrun & Hcell & _ & _ & Hbl & _);
    [reflexivity | reflexivity | reflexivity | reflexivity | reflexivity
    | simpl; lia | intros _; eexists; reflexivity |].
  exists g'. split_and!; [exact Hrun | exact Hcell |].
  assert (H12 : 12 <> null_key) by (unfold null_key; lia).
  exact (Hbl [] H12 eq_refl).
Defined.

Lemma bl_cell g y j (lb : list Z) o :
  cell_at g y j = Some (CBacklink lb) -> bl g y j o = count_occ Z.eq_dec lb o.
Proof. intros H. unfold bl, backlinks_at. by rewrite H. Qed.

Lemma bl_list_cell g y j l f o :
  cell_at g y j = Some (CLinkList l f) -> bl g y j o = 0%nat.
Proof. intros H. unfold bl, backlinks_at. by rewrite H. Qed.

Lemma bl_same_cell g g' y j o :
  cell_at g' y j = cell_at g y j -> bl g' y j o = bl g y j o.
Proof. intros H. unfold bl, backlinks_at. by rewrite H. Qed.

(** The loop of [do_clear] for a target table that is not embedded. *)
Lemma clear_loop_weak_run (lst : Lst) (ti tti : TableInfo) (col : ColumnSpec)
    (bc n : nat) :
  forall (g : Group) (l : list Key) (flag : bool),
  tables g !! (m_obj lst).1 = Some ti ->
  columns (t_spec ti) !! m_col_key lst = Some col ->
  tables g !! col_opposite_table col = Some tti ->
  t_embedded tti = false ->
  find_backlink_column (t_spec tti) (m_obj lst).1 (m_col_key lst) = Some bc ->
  attr_test (col_attr col) col_attr_StrongLinks = false ->
  cell_at g (m_obj lst) (m_col_key lst) = Some (CLinkList l flag) ->
  length l = n ->
  (forall k, k <> null_key ->
     (count_occ Z.eq_dec l k
      <= bl g (col_opposite_table col, k) bc (m_obj lst).2)%nat) ->
  exists g' flag',
    for_each (fun ndx => Lst_do_set lst ndx null_key ;;; tree_erase lst ndx)
             (rev (seq 0 n)) g = Ok tt g'
    /\ cell_at g' (m_obj lst) (m_col_key lst) = Some (CLinkList [] flag')
    /\ (forall k, k <> null_key ->
          (bl g' (col_opposite_table col, k) bc (m_obj lst).2
           + count_occ Z.eq_dec l k
           = bl g (col_opposite_table col, k) bc (m_obj lst).2)%nat)
    /\ (forall y j,
          (y, j) <> (m_obj lst, m_col_key lst) ->
          (forall k, k ∈ l -> k <> null_key ->
             (y, j) <> ((col_opposite_table col, k), bc)) ->
          cell_at g' y j = cell_at g y j)
    /\ (forall y, valid_object g' y = valid_object g y)
    /\ replication g' = replication g
    /\ tables g' = tables g.
Proof.
  set (o := m_obj lst). set (c := m_col_key lst).
  set (B := col_opposite_table col).
  induction n as [|n IH];
    intros g l flag Hti Hcol Htt Hemb Hf Hweak Hc Hlen Hcnt.
  - destruct l; [|done]. exists g, flag. simpl. rewrite ret_unfold.
    split_and!; done.
  - rewrite seq_S, rev_unit. simpl plus. rewrite for_each_cons. cbv beta.
    destruct (lookup_lt_is_Some_2 l n ltac:(lia)) as [old Hold].
    assert (Hin : old ∈ l) by (by eapply list_elem_of_lookup_2).
    assert (Hpre : exists lb lb',
               old <> null_key ->
               cell_at g (B, old) bc = Some (CBacklink lb)
               /\ remove_first o.2 lb = Some lb').
    { destruct (decide (old = null_key)) as [Hnull|Hnull].
      - exists [], []. done.
      - pose proof (Hcnt old Hnull) as Hle.
        assert (Hpos : (0 < count_occ Z.eq_dec l old)%nat).
        { apply count_occ_In. by apply list_elem_of_In. }
        destruct (bl_pos_cell g (B, old) bc o.2 ltac:(lia)) as (lb & Hlb & Hlbc).
        destruct (remove_first_Some _ _ Hlbc) as [lb' Hlb'].
        exists lb, lb'. done. }
    destruct Hpre as (lb & lb' & Hpre).
    destruct (clear_round_weak_run g lst n old ti tti col bc l flag lb lb'
                Hti Hcol Htt Hemb Hf Hweak Hc Hold Hpre)
      as (g1 & flag1 & Hrun1 & Hc1 & Hbl1 & Hfr1 & Hv1 & Hr1 & Ht1).
    fold o c B in Hrun1, Hc1, Hbl1, Hfr1. rewrite Hrun1.
    assert (Hbl_step : forall k, k <> null_key ->
              (bl g1 (B, k) bc o.2 + (if decide (k = old) then 1 else 0)
               = bl g (B, k) bc o.2)%nat).
    { intros k Hk. destruct (decide (k = old)) as [->|Hne].
      - destruct (Hpre Hk) as [Hlb Hrem].
        rewrite (bl_cell g1 _ _ lb') by (by apply Hbl1).
        rewrite (bl_cell g _ _ lb) by done.
        rewrite (remove_first_count _ _ _ o.2 Hrem), decide_True by done. lia.
      - destruct (decide (((B, k), bc) = (o, c))) as [Heq|Hneq].
        + injection Heq as Ho Hcb. rewrite Ho, Hcb.
          rewrite (bl_list_cell g1 o c _ _ _ Hc1), (bl_list_cell g o c _ _ _ Hc).
          lia.
        + rewrite (bl_same_cell g g1); [lia|]. apply Hfr1; [done|].
          intros [_ [= ?]]. done. }
    assert (Hcnt_step : forall k,
              (count_occ Z.eq_dec (delete n l) k + (if decide (k = old) then 1 else 0)
               = count_occ Z.eq_dec l k)%nat)
      by (intros k; by apply count_occ_list_delete).
    destruct (IH g1 (delete n l) flag1) as (g' & flag' & Hrun & Hc' & Hbl' & Hfr' & Hv' & Hr' & Ht').
    + by rewrite Ht1.
    + done.
    + by rewrite Ht1.
    + done.
    + done.
    + done.
    + exact Hc1.
    + rewrite length_delete by (by rewrite Hold). lia.
    + intros k Hk. pose proof (Hcnt k Hk). pose proof (Hbl_step k Hk).
      pose proof (Hcnt_step k). fold B o. lia.
    + fold o c B in Hrun, Hc', Hbl', Hfr'.
      exists g', flag'. split_and!.
      * exact Hrun.
      * exact Hc'.
      * intros k Hk. pose proof (Hbl' k Hk). pose proof (Hbl_step k Hk).
        pose proof (Hcnt_step k). lia.
      * intros y j Hne1 Hne2. rewrite Hfr'; [apply Hfr1; [done|]|done|].
        -- intros [Hnull Heq]. by apply (Hne2 old Hin Hnull).
        -- intros k Hk. apply Hne2.
           apply list_elem_of_In. apply list_elem_of_In in Hk.
           rewrite delete_take_drop in Hk. apply in_app_or in Hk as [Hk|Hk].
           ++ apply list_elem_of_In in Hk. apply list_elem_of_In.
              by eapply subseteq_take.
           ++ apply list_elem_of_In in Hk. apply list_elem_of_In.
              by eapply subseteq_drop.
      * intros y. by rewrite Hv', Hv1.
      * by rewrite Hr', Hr1.
      * by rewrite Ht', Ht1.
Qed.





(** X18. [Lst<ObjKey>::do_clear] on a list of weak links whose target table
    is not embedded, where every key of the list that is not null is
    matched by as many entries for the owner in the backlinks of its target
    (as it is when the links are balanced): the call returns, the list is
    empty and its context flag is off, each target has lost one backlink
    entry for the owner per occurrence in the list, and no object is
    removed; every other entry, the tables and the replication log are as
    before. *)
Theorem clear_weak_list_keeps_targets (g : Group) (lst : Lst)
    (ti tti : TableInfo) (col : ColumnSpec) (bc : nat) (l : list Key)
    (flag : bool) :
  tables g !! (m_obj lst).1 = Some ti ->
  columns (t_spec ti) !! m_col_key lst = Some col ->
  tables g !! col_opposite_table col = Some tti ->
  t_embedded tti = false ->
  find_backlink_column (t_spec tti) (m_obj lst).1 (m_col_key lst) = Some bc ->
  attr_test (col_attr col) col_attr_StrongLinks = false ->
  cell_at g (m_obj lst) (m_col_key lst) = Some (CLinkList l flag) ->
  (forall k, k <> null_key ->
     (count_occ Z.eq_dec l k
      <= bl g (col_opposite_table col, k) bc (m_obj lst).2)%nat) ->
  exists g',
    Lst_do_clear lst g = Ok tt g'
    /\ cell_at g' (m_obj lst) (m_col_key lst) = Some (CLinkList [] false)
    /\ tree_size lst g' = Ok 0%nat g'
    /\ (forall k, k <> null_key ->
          (bl g' (col_opposite_table col, k) bc (m_obj lst).2
           + count_occ Z.eq_dec l k
           = bl g (col_opposite_table col, k) bc (m_obj lst).2)%nat)
    /\ (forall y j,
          (y, j) <> (m_obj lst, m_col_key lst) ->
          (forall k, k ∈ l -> k <> null_key ->
             (y, j) <> ((col_opposite_table col, k), bc)) ->
          cell_at g' y j = cell_at g y j)
    /\ (forall y, valid_object g' y = valid_object g y)
    /\ replication g' = replication g
    /\ tables g' = tables g.
Proof.
  intros Hti Hcol Htt Hemb Hf Hweak Hc Hcnt.
  destruct (clear_loop_weak_run lst ti tti col bc (length l) g l flag
              Hti Hcol Htt Hemb Hf Hweak Hc eq_refl Hcnt)
    as (g1 & flag1 & Hloop & Hc1 & Hbl1 & Hfr1 & Hv1 & Hr1 & Ht1).
  set (o := m_obj lst) in *. set (c := m_col_key lst) in *.
  set (B := col_opposite_table col) in *.
  set (g' := upd o c (CLinkList [] false) g1).
  assert (Hc' : cell_at g' o c = Some (CLinkList [] false)).
  { subst g'. apply cell_at_upd_eq. by rewrite Hc1. }
  exists g'. split_and!.
  - unfold Lst_do_clear. cbv zeta. fold o c.
    rewrite bind_unfold, get_target_table_eq, Hti, Hcol. fold B. rewrite Htt.
    rewrite bind_unfold, (tree_size_run lst g l flag Hc).
    rewrite bind_unfold. unfold is_embedded. rewrite Htt, Hemb.
    cbn [negb]. rewrite bind_unfold, Hloop.
    by rewrite (set_context_flag_run lst g1 [] flag1 false Hc1).
  - exact Hc'.
  - by rewrite (tree_size_run lst g' [] false Hc').
  - intros k Hk. rewrite <- (Hbl1 k Hk). f_equal.
    destruct (decide (((B, k), bc) = (o, c))) as [Heq|Hne].
    + injection Heq as Ho Hcb. rewrite Ho, Hcb.
      by rewrite (bl_list_cell g' o c _ _ _ Hc'), (bl_list_cell g1 o c _ _ _ Hc1).
    + apply bl_same_cell. subst g'. by rewrite cell_at_upd_ne.
  - intros y j Hne1 Hne2. subst g'. rewrite cell_at_upd_ne by done.
    by apply Hfr1.
  - intros y. subst g'. by rewrite valid_upd, Hv1.
  - subst g'. by rewrite replication_upd.
  - subst g'. by rewrite tables_upd.
Qed.

Lemma clear_weak_list_keeps_targets_witness :
  exists g' : Group,
    Lst_do_clear (mkLst (0%nat, 0) 0) ex_list_group = Ok tt g'
    /\ cell_at g' (0%nat, 0) 0 = Some (CLinkList [] false)
    /\ bl g' (1%nat, 5) 1 0 = 0%nat
    /\ valid_object g' (1%nat, 5) = true.
Proof.
  destruct (clear_weak_list_keeps_targets ex_list_group (mkLst (0%nat, 0) 0)
              (mkTable folder_spec false) (mkTable file_spec false)
              (mkColumn col_type_LinkList col_attr_List 1 0) 1%nat [5; 5; 6]
              false)
    as (g' & Hrun & Hcell & _ & Hbl & _ & Hv & _);
    [reflexivity | reflexivity | reflexivity | reflexivity | reflexivity
    | reflexivity | reflexivity | |].
  - intros k Hk. cbn [m_obj m_col_key snd col_opposite_table].
    destruct (decide (k = 5)) as [->|H5]; [vm_compute; lia|].
    destruct (decide (k = 6)) as [->|H6]; [vm_compute; lia|].
    rewrite !count_occ_cons_decide. cbn [count_occ].
    rewrite !decide_False by done. lia.
  - exists g'. split_and!; [exact Hrun | exact Hcell | |].
    + assert (H5 : 5 <> null_key) by (unfold null_key; lia).
      pose proof (Hbl 5 H5) as H.
      change (Nat.add (bl g' (1%nat, 5) 1%nat 0) 2%nat = 2%nat) in H. lia.
    + by rewrite Hv.
Defined.

(** Where the target table is embedded, removing the entry that is the sole
    backlink of a target deletes the target: in the example group, person 0
    lists dog 11 of the embedded dog table. *)
Lemma list_remove_embedded_example :
  exists g' : Group,
    Lst_do_remove (mkLst (0%nat, 0) 3) 0 ex_group = Ok tt g'
    /\ cell_at g' (0%nat, 0) 3 = Some (CLinkList [] false)
    /\ valid_object g' (1%nat, 11) = false
    /\ valid_object g' (1%nat, 10) = true.
Proof.
  eexists. split; [vm_compute; reflexivity|]. split_and!; reflexivity.
Qed.

(** ** The compression container *)

Section CopyBlocks.
Import Compression.

Local Open Scope nat_scope.

Lemma copy_blocks_exact (compressed : Stream) :
  forall (compressed_buf written : list Byte.byte) (room : nat),
  Forall (fun b => b <> []) compressed ->
  length compressed_buf + length (concat compressed) = room ->
  copy_blocks compressed_buf compressed written room
  = ([], written ++ compressed_buf ++ concat compressed, 0).
Proof.
  induction compressed as [|b rest IH]; intros cbuf written room Hne Hlen;
    simpl in *.
  - rewrite Nat.add_0_r in Hlen. subst room. rewrite Nat.min_id, Nat.sub_diag.
    by rewrite firstn_all, app_nil_r.
  - apply Forall_cons in Hne as [Hb Hne]. rewrite length_app in Hlen.
    assert (Hbl : 0 < length b) by (destruct b; [done|simpl; lia]).
    replace (room `min` length cbuf) with (length cbuf) by lia.
    rewrite firstn_all.
    destruct (Nat.eqb_spec (length b) 0) as [|_]; [lia|].
    destruct (Nat.eqb_spec (room - length cbuf) 0) as [|_]; [lia|].
    simpl. rewrite IH by (done || lia). by rewrite <- !app_assoc.
Qed.

Lemma copy_blocks_room (compressed : Stream) :
  forall (compressed_buf written : list Byte.byte) (room : nat),
  room - (length compressed_buf + length (concat compressed))
  <= (copy_blocks compressed_buf compressed written room).2.
Proof.
  induction compressed as [|b rest IH]; intros cbuf written room; simpl.
  - lia.
  - rewrite length_app.
    destruct (negb (length b =? 0) && negb (room - room `min` length cbuf =? 0)).
    + etrans; [|apply IH]. lia.
    + simpl. lia.
Qed.

Lemma copy_blocks_single (compressed_buf written : list Byte.byte) (room : nat) :
  copy_blocks compressed_buf [] written room
  = ([], written ++ take (room `min` length compressed_buf) compressed_buf,
     room - room `min` length compressed_buf).
Proof. done. Qed.

End CopyBlocks.

(** The object representation and the numbering used to run the model. *)
Lemma Z_of_byte_of_Z z : Compression.Z_of_byte (Compression.byte_of_Z z) = z mod 256.
Proof.
  unfold Compression.Z_of_byte, Compression.byte_of_Z.
  assert (Hr : 0 <= z mod 256 < 256) by (apply Z.mod_pos_bound; lia).
  destruct (Byte.of_N (Z.to_N (z mod 256))) as [b|] eqn:Hb.
  - simpl. apply Byte.to_of_N in Hb. rewrite Hb. lia.
  - apply Byte.of_N_None_iff in Hb. lia.
Qed.

Lemma le_store_length n z : length (Compression.le_store n z) = n.
Proof. revert z. induction n as [|n IH]; intros z; simpl; [done|]. by rewrite IH. Qed.

Lemma le_load_store n z :
  0 <= z < 256 ^ Z.of_nat n ->
  Compression.le_load (Compression.le_store n z) = z.
Proof.
  revert z. induction n as [|n IH]; intros z Hz.
  - simpl in *. lia.
  - cbn [Compression.le_store Compression.le_load].
    rewrite Z_of_byte_of_Z, IH.
    + pose proof (Z.div_mod z 256). lia.
    + rewrite Nat2Z.inj_succ, Z.pow_succ_r in Hz by lia.
      split; [apply Z.div_pos; lia|].
      apply Z.div_lt_upper_bound; lia.
Qed.

(** X19. [compression::compress_bound] never wraps around: for every input
    below [2^64] the overhead is computed without overflow, and the result
    is the input plus 6 plus 5 bytes for each started block of 16383 bytes
    when that fits a 64-bit [size_t], and 0 otherwise.  A result other than
    0 exceeds the input by at least 11. *)
Theorem compress_bound_never_wraps (size : Z) :
  0 <= size < 2 ^ 64 ->
  let ideal := size + 6 + 5 * (size / 16383 + 1) in
  Compression.compress_bound size
  = (if ideal <=? Compression.size_max then ideal else 0)
  /\ (Compression.compress_bound size = 0
      \/ size + 11 <= Compression.compress_bound size <= Compression.size_max).
Proof.
  intros Hs ideal.
  assert (Hd : 0 <= size / 16383 <= 1125968630513920).
  { split; [apply Z.div_pos; lia|].
    change 1125968630513920 with ((2 ^ 64 - 1) / 16383).
    apply Z.div_le_mono; lia. }
  assert (Hov : (6 + (5 * ((size / 16383 + 1) mod 2 ^ 64)) mod 2 ^ 64) mod 2 ^ 64
                = 6 + 5 * (size / 16383 + 1)).
  { rewrite (Z.mod_small (size / 16383 + 1)) by lia.
    rewrite (Z.mod_small (5 * _)) by lia. apply Z.mod_small. lia. }
  assert (Heq : Compression.compress_bound size
                = if ideal <=? Compression.size_max then ideal else 0).
  { unfold Compression.compress_bound. cbv zeta. rewrite Hov.
    unfold Compression.size_max in *.
    rewrite (Z.mod_small (2 ^ 64 - 1 - _)) by lia.
    subst ideal.
    destruct (Z.ltb_spec (2 ^ 64 - 1 - (6 + 5 * (size / 16383 + 1))) size);
      destruct (Z.leb_spec (size + 6 + 5 * (size / 16383 + 1)) (2 ^ 64 - 1));
      try lia.
    all: try done.
    all: rewrite Z.mod_small by lia; lia. }
  split; [exact Heq|]. rewrite Heq.
  destruct (Z.leb_spec ideal Compression.size_max); [right|by left].
  subst ideal. lia.
Qed.

Lemma compress_bound_never_wraps_witness :
  Compression.compress_bound 16383 = 16399
  /\ Compression.compress_bound (2 ^ 64 - 1) = 0.
Proof.
  destruct (compress_bound_never_wraps 16383 ltac:(lia)) as [H1 _].
  destruct (compress_bound_never_wraps (2 ^ 64 - 1) ltac:(lia)) as [H2 _].
  split; [rewrite H1|rewrite H2]; reflexivity.
Defined.

Lemma decompress_none_exact (compressed : Compression.Stream)
    (compressed_buf decompressed_buf : list Byte.byte) :
  (2 <= length compressed_buf)%nat ->
  Forall (fun b => b <> []) compressed ->
  (length (drop 2 compressed_buf) + length (concat compressed)
   = length decompressed_buf)%nat ->
  Compression.decompress_none compressed compressed_buf decompressed_buf
  = Some (None, drop 2 compressed_buf ++ concat compressed).
Proof.
  intros H2 Hne Hlen. unfold Compression.decompress_none.
  destruct (Nat.ltb_spec (length compressed_buf) 2) as [|_]; [lia|].
  rewrite (copy_blocks_exact compressed _ [] _ Hne Hlen).
  cbn [fst snd]. simpl length at 1. cbn [Nat.eqb negb orb app].
  rewrite length_app, Hlen, drop_all. by rewrite app_nil_r.
Qed.

(** X20. The size check of [decompress_none] for a first block that holds
    the two header bytes.  When the bytes behind the header in all the
    blocks (none of the later ones empty) are exactly as many as the output
    buffer holds, the call succeeds and the buffer is their concatenation.
    When they are fewer, it reports [incorrect_decompressed_size].  When
    the first block is the only one, bytes in it beyond the size of the
    buffer go unnoticed: the call succeeds with the leading bytes. *)
Theorem decompress_none_size_check (compressed : Compression.Stream)
    (compressed_buf decompressed_buf : list Byte.byte) :
  (2 <= length compressed_buf)%nat ->
  (Forall (fun b => b <> []) compressed ->
   (length (drop 2 compressed_buf) + length (concat compressed)
    = length decompressed_buf)%nat ->
   Compression.decompress_none compressed compressed_buf decompressed_buf
   = Some (None, drop 2 compressed_buf ++ concat compressed))
  /\ ((length (drop 2 compressed_buf) + length (concat compressed)
       < length decompressed_buf)%nat ->
      exists out,
        Compression.decompress_none compressed compressed_buf decompressed_buf
        = Some (Some Compression.incorrect_decompressed_size, out))
  /\ (compressed = [] ->
      (length decompressed_buf <= length (drop 2 compressed_buf))%nat ->
      Compression.decompress_none compressed compressed_buf decompressed_buf
      = Some (None, take (length decompressed_buf) (drop 2 compressed_buf))).
Proof.
  intros H2. split; [by apply decompress_none_exact|].
  unfold Compression.decompress_none.
  destruct (Nat.ltb_spec (length compressed_buf) 2) as [|_]; [lia|].
  split.
  - intros Hlt.
    pose proof (copy_blocks_room compressed (drop 2 compressed_buf) []
                  (length decompressed_buf)) as Hroom.
    destruct (Compression.copy_blocks _ _ _ _) as [[cb w] room]. cbn [fst snd] in *.
    destruct (Nat.eqb_spec room 0) as [|_]; [lia|].
    rewrite orb_true_r. eauto.
  - intros -> Hle. rewrite copy_blocks_single. cbn [fst snd].
    replace (length decompressed_buf `min` length (drop 2 compressed_buf))%nat
      with (length decompressed_buf) by lia.
    rewrite Nat.sub_diag. simpl. rewrite length_take.
    replace (length decompressed_buf `min` length (drop 2 compressed_buf))%nat
      with (length decompressed_buf) by lia.
    by rewrite drop_all, app_nil_r.
Qed.

Lemma decompress_none_size_check_witness :
  Compression.decompress_none [[Byte.x63]] [Byte.x00; Byte.x00; Byte.x61; Byte.x62]
    [Byte.x00; Byte.x00; Byte.x00]
  = Some (None, [Byte.x61; Byte.x62; Byte.x63])
  /\ Compression.decompress_none [] [Byte.x00; Byte.x00; Byte.x61; Byte.x62]
       [Byte.x00]
     = Some (None, [Byte.x61]).
Proof.
  split.
  - destruct (decompress_none_size_check [[Byte.x63]]
                [Byte.x00; Byte.x00; Byte.x61; Byte.x62]
                [Byte.x00; Byte.x00; Byte.x00]) as (H & _ & _); [simpl; lia|].
    apply H; [|reflexivity]. by repeat constructor.
  - destruct (decompress_none_size_check []
                [Byte.x00; Byte.x00; Byte.x61; Byte.x62] [Byte.x00])
      as (_ & _ & H); [simpl; lia|].
    apply H; [reflexivity|simpl; lia].
Defined.

Section RoundTrip.

Variable algorithm_of_byte : Byte.byte -> option Compression.Algorithm.
Variable byte_of_algorithm : Compression.Algorithm -> Byte.byte.
Variable load_uint64 : list Byte.byte -> Z.
Variable store_uint64 : Z -> list Byte.byte.
Variable decompress_coded :
  Compression.Algorithm -> Compression.Stream -> list Byte.byte
  -> list Byte.byte -> option (option Compression.error * list Byte.byte).
Variable compress_lzfse_or_zlib :
  list Byte.byte -> nat -> Z -> Compression.error + list Byte.byte.

(** A [uint64_t] occupies eight bytes and is read back as it was written;
    the enumerator [None] is read back from its [char]. *)
Hypothesis store_length :
  forall n, 0 <= n < 2 ^ 64 -> length (store_uint64 n) = 8%nat.
Hypothesis load_store :
  forall n, 0 <= n < 2 ^ 64 -> load_uint64 (store_uint64 n) = n.
Hypothesis algorithm_None :
  algorithm_of_byte (byte_of_algorithm Compression.Alg_None)
  = Some Compression.Alg_None.

(** X21. Data of up to 256 bytes goes through the container unchanged.
    [allocate_and_compress_with_header] returns the size field, the
    algorithm [None], a zero byte and the data (ten bytes more than the
    data, the arena untouched); [decompress_with_header] on these bytes,
    handed out in one block or in several (the first with at least the ten
    leading bytes, no later one empty), finds the size of the data in the
    size field, succeeds and leaves exactly the data in the buffer,
    whatever the buffer held before. *)
Theorem stored_data_round_trip (arena : Z) (uncompressed : list Byte.byte) :
  (length uncompressed <= 256)%nat ->
  exists compressed,
    Compression.allocate_and_compress_with_header byte_of_algorithm
      store_uint64 compress_lzfse_or_zlib arena uncompressed
    = Compression.R_ok (compressed, arena)
    /\ length compressed = (length uncompressed + 10)%nat
    /\ forall (first_block : list Byte.byte) (blocks : Compression.Stream)
          (decompressed : list Byte.byte),
        (10 <= length first_block)%nat ->
        Forall (fun b => b <> []) blocks ->
        first_block ++ concat blocks = compressed ->
        Compression.read_size load_uint64 first_block
        = inr (Z.of_nat (length uncompressed))
        /\ Compression.decompress_with_header algorithm_of_byte load_uint64
             decompress_coded (first_block :: blocks) decompressed
           = Some (None, uncompressed).
Proof.
  intros Hsmall.
  set (size := Z.of_nat (length uncompressed)).
  assert (Hsz : 0 <= size < 2 ^ 64) by (subst size; lia).
  set (a := byte_of_algorithm Compression.Alg_None) in *.
  set (compressed := store_uint64 size ++ [a; Byte.x00] ++ uncompressed).
  assert (Hh : length (store_uint64 size) = 8%nat) by (by apply store_length).
  exists compressed. split_and!.
  { unfold Compression.allocate_and_compress_with_header. cbv zeta.
    destruct (Nat.ltb_spec 256 (length uncompressed)); [lia|done]. }
  { subst compressed. rewrite !length_app, Hh. simpl. lia. }
  intros first_block blocks decompressed Hfirst Hne Hsplit.
  assert (Htake : take 8 first_block = store_uint64 size).
  { rewrite <- (take_app_le first_block (concat blocks) 8) by lia.
    rewrite Hsplit. subst compressed. rewrite <- Hh. apply take_app_length. }
  assert (Hdrop : drop 8 first_block ++ concat blocks
                  = [a; Byte.x00] ++ uncompressed).
  { rewrite <- (drop_app_le first_block (concat blocks) 8) by lia.
    rewrite Hsplit. subst compressed. rewrite <- Hh. apply drop_app_length. }
  assert (Hl8 : (2 <= length (drop 8 first_block))%nat)
    by (rewrite length_drop; lia).
  assert (Hhead : take 2 (drop 8 first_block) = [a; Byte.x00]).
  { rewrite <- (take_app_le (drop 8 first_block) (concat blocks) 2) by lia.
    by rewrite Hdrop. }
  assert (Hpay : drop 2 (drop 8 first_block) ++ concat blocks = uncompressed).
  { rewrite <- (drop_app_le (drop 8 first_block) (concat blocks) 2) by lia.
    by rewrite Hdrop. }
  assert (Hread : Compression.read_size load_uint64 first_block = inr size).
  { unfold Compression.read_size.
    destruct (Nat.ltb_spec (length first_block) 10); [lia|].
    rewrite Htake, load_store by done. unfold Compression.size_max.
    destruct (Z.ltb_spec (2 ^ 64 - 1) size); [lia|done]. }
  split; [exact Hread|].
  unfold Compression.decompress_with_header. cbn [Compression.next_block].
  rewrite Hread.
  assert (Hres : length (Compression.resize decompressed (Z.to_nat size))
                 = length uncompressed).
  { unfold Compression.resize. rewrite length_app, length_take, length_replicate.
    subst size. lia. }
  destruct (Z.eqb_spec size 0) as [H0|H0].
  - assert (uncompressed = []) as ->
      by (apply length_zero_iff_nil; subst size; lia).
    rewrite H0. done.
  - unfold Compression.decompress. rewrite Hres.
    destruct (Nat.eqb_spec (length uncompressed) 0) as [|_];
      [subst size; lia|].
    destruct (drop 8 first_block) as [|b0 [|b1 r]] eqn:Hd;
      [simpl in Hl8; lia|simpl in Hl8; lia|].
    injection Hhead as -> ->. rewrite algorithm_None. rewrite <- Hd in *.
    rewrite (decompress_none_exact blocks (drop 8 first_block)
               (Compression.resize decompressed (Z.to_nat size)) Hl8);
      [by rewrite Hpay|done|].
    rewrite Hres, <- Hpay at 1. by rewrite length_app.
Qed.

End RoundTrip.

Lemma stored_data_round_trip_witness :
  Compression.decompress_with_header Compression.ex_algorithm_of_byte
    Compression.le_load
    (fun _ _ _ out => Some (Some Compression.decompress_error, out))
    [[Byte.x03; Byte.x00; Byte.x00; Byte.x00; Byte.x00; Byte.x00; Byte.x00;
      Byte.x00; Byte.x00; Byte.x00; Byte.x61]; [Byte.x62; Byte.x63]]
    [Byte.xff]
  = Some (None, [Byte.x61; Byte.x62; Byte.x63]).
Proof.
  destruct (stored_data_round_trip Compression.ex_algorithm_of_byte
              Compression.ex_byte_of_algorithm Compression.le_load
              (Compression.le_store 8)
              (fun _ _ _ out => Some (Some Compression.decompress_error, out))
              (fun _ _ _ => inl Compression.compress_error)
              (fun n _ => le_store_length 8 n)
              (fun n H => le_load_store 8 n H)
              eq_refl 0 [Byte.x61; Byte.x62; Byte.x63])
    as (compressed & Hrun & _ & Hdec); [simpl; lia|].
  vm_compute in Hrun. injection Hrun as <-.
  destruct (Hdec [Byte.x03; Byte.x00; Byte.x00; Byte.x00; Byte.x00; Byte.x00;
                  Byte.x00; Byte.x00; Byte.x00; Byte.x00; Byte.x61]
                 [[Byte.x62; Byte.x63]] [Byte.xff]) as [_ H];
    [simpl; lia | by repeat constructor | reflexivity | exact H].
Defined.

(** ** [Obj::set_null] on a link column *)

#[local] Set Warnings "-clear-no-such-hyp".

Lemma ex_weak_tables_lookup A ti :
  tables ex_weak_group !! A = Some ti ->
  A = 0%nat /\ ti = mkTable owner_spec false
  \/ A = 1%nat /\ ti = mkTable item_spec false.
Proof.
  unfold ex_weak_group. simpl tables. intros H.
  apply lookup_insert_Some in H as [[<- <-]|[_ H]]; [by left|].
  apply lookup_insert_Some in H as [[<- <-]|[_ H]]; [by right|].
  by rewrite lookup_empty in H.
Qed.

Lemma ex_weak_objects_lookup x row :
  objects ex_weak_group !! x = Some row -> x ∈ [(0%nat, 0); (1%nat, 5)].
Proof.
  unfold ex_weak_group. simpl objects. intros H.
  repeat (apply lookup_insert_Some in H as [[<- _]|[_ H]];
          [set_solver|]).
  by rewrite lookup_empty in H.
Qed.

Lemma ex_weak_cell_at_outside x j :
  x ∉ [(0%nat, 0); (1%nat, 5)] -> cell_at ex_weak_group x j = None.
Proof.
  intros Hx. unfold cell_at.
  destruct (objects ex_weak_group !! x) as [row|] eqn:Hrow; [|done].
  by apply ex_weak_objects_lookup in Hrow.
Qed.

Lemma wf_schema_ex_weak_group : wf_schema ex_weak_group.
Proof.
  intros A ti Hti.
  apply ex_weak_tables_lookup in Hti as [[-> ->]|[-> ->]].
  - split; [simpl; lia|]. intros c col Hcol.
    do 1 (destruct c as [|c]; [injection Hcol as <-; check_column|]).
    done.
  - split; [simpl; lia|]. intros c col Hcol.
    do 2 (destruct c as [|c]; [injection Hcol as <-; check_column|]).
    done.
Qed.

Lemma wf_rows_ex_weak_group : wf_rows ex_weak_group.
Proof.
  intros x Hv. apply valid_object_Some in Hv as [row Hrow].
  apply ex_weak_objects_lookup in Hrow. set_unfold in Hrow.
  destruct Hrow as [->|[->|[]]].
  all: split; [simpl; unfold null_key; lia|].
  all: eexists; split; [vm_compute; reflexivity|].
  all: intros j; do 3 (destruct j as [|j];
         [simpl;
          match goal with
          | |- context [cell_at ex_weak_group ?x ?j] =>
              let v := eval vm_compute in (cell_at ex_weak_group x j) in
              change (cell_at ex_weak_group x j) with v
          end;
          constructor; unfold cell_ok; simpl;
          first [by eexists|by do 2 eexists|by split]|]).
  all: simpl;
    match goal with
    | |- context [cell_at ex_weak_group ?x ?j] =>
        let v := eval vm_compute in (cell_at ex_weak_group x j) in
        change (cell_at ex_weak_group x j) with v
    end; constructor.
Qed.

Lemma link_balanced_ex_weak_group : link_balanced ex_weak_group.
Proof.
  intros A c B bc o k Hlc Hk.
  destruct (link_column_Some _ _ _ _ _ Hlc)
    as (ti & col & _ & _ & Hti & Hcol & Hty & _).
  apply ex_weak_tables_lookup in Hti as [[-> ->]|[-> ->]].
  all: do 3 (try (destruct c as [|c])); simpl in Hcol; try discriminate Hcol.
  all: injection Hcol as <-; simpl in Hty; try discriminate Hty.
  vm_compute in Hlc. injection Hlc as <- <-.
  unfold fwd, bl, links_at, backlinks_at.
  destruct (decide (o = 0)) as [->|Ho].
  - destruct (decide (k = 5)) as [->|H5].
    + vm_compute. reflexivity.
    + rewrite (ex_weak_cell_at_outside (1%nat, k))
        by (set_unfold; intuition congruence).
      change (cell_at ex_weak_group (0%nat, 0) 0) with (Some (CKey 5)).
      cbn [link_targets count_occ].
      destruct (Z.eq_dec 5 k); [congruence|done].
  - rewrite (ex_weak_cell_at_outside (0%nat, o))
      by (set_unfold; intuition congruence).
    cbn [count_occ]. destruct (decide (k = 5)) as [->|H5].
    + change (cell_at ex_weak_group (1%nat, 5) 1) with (Some (CBacklink [0])).
      cbn [count_occ]. destruct (Z.eq_dec 0 o); [congruence|done].
    + by rewrite (ex_weak_cell_at_outside (1%nat, k))
        by (set_unfold; intuition congruence).
Qed.

Lemma Inv_ex_weak_group : Inv ex_weak_group.
Proof.
  split_and!; [apply wf_schema_ex_weak_group|apply wf_rows_ex_weak_group
              |apply link_balanced_ex_weak_group].
Qed.

(** C1.  Link consistency is not an invariant of the accessors.  In a
    group whose link graph is balanced, and so consistent (owner 0 links
    item 5 through a nullable link column, and the backlink column of
    item 5 lists owner 0), [Obj::set_null] on the link column returns
    normally and stores the null key without going through
    [Obj::update_backlinks]: afterwards no owner refers to item 5 while
    item 5 still has one backlink, so link consistency fails.  The sibling
    call [Obj::set<Key>] with the null key removes the backlink and leaves
    a consistent group.  A later [Obj::set<Key>] back to item 5, one of the
    operations that keep a balanced graph balanced, completes and leaves
    one reference against two backlinks. *)
Theorem set_null_breaks_link_consistency :
  Inv ex_weak_group /\ link_consistent ex_weak_group
  /\ exists g1 g2 g3,
       Obj_set_null (0%nat, 0) 0 false ex_weak_group = Ok tt g1
       /\ link_column g1 0%nat 0%nat = Some (1%nat, 1%nat)
       /\ valid_object g1 (1%nat, 5) = true
       /\ origin_refs g1 0%nat 0%nat 5 = 0%nat
       /\ backlink_count g1 (1%nat, 5) 1 = 1%nat
       /\ ~ link_consistent g1
       /\ Obj_set_Key (0%nat, 0) 0 null_key false ex_weak_group = Ok tt g2
       /\ origin_refs g2 0%nat 0%nat 5 = 0%nat
       /\ backlink_count g2 (1%nat, 5) 1 = 0%nat
       /\ link_consistent g2
       /\ Obj_set_Key (0%nat, 0) 0 5 false g1 = Ok tt g3
       /\ origin_refs g3 0%nat 0%nat 5 = 1%nat
       /\ backlink_count g3 (1%nat, 5) 1 = 2%nat
       /\ ~ link_consistent g3.
Proof.
  split; [exact Inv_ex_weak_group|].
  split; [apply Inv_link_consistent, Inv_ex_weak_group|].
  destruct (Obj_set_null (0%nat, 0) 0 false ex_weak_group)
    as [[] g1| |] eqn:E1; try (vm_compute in E1; discriminate E1).
  destruct (Obj_set_Key (0%nat, 0) 0 null_key false ex_weak_group)
    as [[] g2| |] eqn:E2; try (vm_compute in E2; discriminate E2).
  destruct (Obj_set_Key (0%nat, 0) 0 5 false g1)
    as [[] g3| |] eqn:E3.
  2, 3: vm_compute in E1; injection E1 as <-; vm_compute in E3; discriminate E3.
  pose proof (set_Key_Inv _ _ _ _ _ _ Inv_ex_weak_group E2) as HI2.
  vm_compute in E1. injection E1 as <-.
  vm_compute in E2. injection E2 as <-.
  vm_compute in E3. injection E3 as <-.
  eexists _, _, _. split_and!; try reflexivity.
  - intros H.
    specialize (H 0%nat 0%nat 1%nat 1%nat 5 eq_refl eq_refl). discriminate H.
  - by apply Inv_link_consistent.
  - intros H.
    specialize (H 0%nat 0%nat 1%nat 1%nat 5 eq_refl eq_refl). discriminate H.
Qed.

(** ** The order of the element types *)

#[local] Set Warnings "-clear-no-such-hyp".

Import ElemOrder.

Lemma strict_weak_vals_total {T} (lt : T -> T -> bool) :
  (forall a, lt a a = false) ->
  (forall a b c, lt a b = true -> lt b c = true -> lt a c = true) ->
  (forall a b c, lt a c = true -> lt a b = true \/ lt b c = true) ->
  forall vals, strict_weak_vals lt vals.
Proof. intros Hi Ht Hn vals. split_and!; eauto. Qed.

(** An order that is read off a key with a strict total order. *)
Lemma strict_weak_vals_key {T K} (lt : T -> T -> bool) (key : T -> K)
    (klt : K -> K -> bool) (vals : list T) :
  (forall a b, a ∈ vals -> b ∈ vals -> lt a b = klt (key a) (key b)) ->
  (forall k, klt k k = false) ->
  (forall a b c, klt a b = true -> klt b c = true -> klt a c = true) ->
  (forall a b c, klt a c = true -> klt a b = true \/ klt b c = true) ->
  strict_weak_vals lt vals.
Proof.
  intros Hk Hi Ht Hn. split_and!.
  - intros a Ha. rewrite Hk by done. apply Hi.
  - intros a b c Ha Hb Hc. rewrite !Hk by done. apply Ht.
  - intros a b c Ha Hb Hc. rewrite !Hk by done. apply Hn.
Qed.

Lemma orders_plain (E : ElemType) (vals : list (carrier E)) :
  (forall a, unresolved_to_null E a = a) ->
  (forall a, a ∈ vals -> is_null E a = false) ->
  strict_weak_vals (lt E) vals -> orders E vals.
Proof.
  intros Hu Hn (Hi & Ht & Hneg). unfold orders. cbv zeta.
  split_and!.
  - intros a Ha. rewrite Hu. by apply Hi.
  - intros a b c Ha Hb Hc. rewrite !Hu. by apply Ht.
  - intros a b c Ha Hb Hc. rewrite !Hu. by apply Hneg.
  - intros a b Ha Hb. rewrite !Hu, (Hn a Ha). done.
Qed.

(** *** Integers, booleans, keys *)

Lemma orders_int64 (vals : list Z) : orders int64 vals.
Proof.
  apply orders_plain; [done|done|].
  apply strict_weak_vals_total; simpl.
  - intros a. apply Z.ltb_irrefl.
  - intros a b c. rewrite !Z.ltb_lt. lia.
  - intros a b c. rewrite !Z.ltb_lt. lia.
Qed.

Lemma orders_boolean (vals : list bool) : orders boolean vals.
Proof.
  apply orders_plain; [done|done|].
  apply strict_weak_vals_total; simpl.
  - by intros [].
  - by intros [] [] [].
  - intros [] [] []; simpl; tauto.
Qed.

Lemma orders_ObjKey (vals : list Z) : orders ObjKey vals.
Proof.
  unfold orders. cbv zeta. simpl.
  unfold ListSort.ObjKey_lt, ListSort.ObjKey_is_null.
  split_and!.
  - intros a _. apply Z.ltb_irrefl.
  - intros a b c _ _ _. rewrite !Z.ltb_lt. lia.
  - intros a b c _ _ _. rewrite !Z.ltb_lt. lia.
  - intros a b _ _. rewrite Z.eqb_eq, Z.eqb_neq, Z.ltb_lt. unfold null_key.
    pose proof (ObjKey_unresolved_to_null_range b). lia.
Qed.

(** *** Optional values *)

Lemma orders_optional (E : ElemType) (vals : list (option (carrier E))) :
  strict_weak_vals (lt E) (omap id vals) -> orders (optional E) vals.
Proof.
  intros (Hi & Ht & Hneg).
  assert (Hin : forall x, Some x ∈ vals -> x ∈ omap id vals).
  { intros x Hx. apply list_elem_of_omap. by exists (Some x). }
  unfold orders. cbv zeta. simpl. split_and!.
  - intros [a|] Ha; [|done]. by apply Hi, Hin.
  - intros [a|] [b|] [c|] Ha Hb Hc; try done. apply Ht; by apply Hin.
  - intros [a|] [b|] [c|] Ha Hb Hc; try done; try tauto.
    apply Hneg; by apply Hin.
  - by intros [a|] [b|] _ _.
Qed.

(** *** Strings and binary data *)

Lemma bytes_lt_irrefl a : bytes_lt a a = false.
Proof.
  induction a as [|x a IH]; simpl; [done|].
  by rewrite N.ltb_irrefl.
Qed.

Lemma bytes_lt_trans a b c :
  bytes_lt a b = true -> bytes_lt b c = true -> bytes_lt a c = true.
Proof.
  revert b c. induction a as [|x a IH]; intros [|y b] [|z c]; simpl; try done.
  destruct (N.ltb_spec (Byte.to_N x) (Byte.to_N y)),
           (N.ltb_spec (Byte.to_N y) (Byte.to_N x)),
           (N.ltb_spec (Byte.to_N y) (Byte.to_N z)),
           (N.ltb_spec (Byte.to_N z) (Byte.to_N y)),
           (N.ltb_spec (Byte.to_N x) (Byte.to_N z)),
           (N.ltb_spec (Byte.to_N z) (Byte.to_N x));
    try done; try lia.
  apply IH.
Qed.

Lemma bytes_lt_neg_trans a b c :
  bytes_lt a c = true -> bytes_lt a b = true \/ bytes_lt b c = true.
Proof.
  revert b c. induction a as [|x a IH]; intros [|y b] [|z c]; simpl;
    try done; try tauto.
  destruct (N.ltb_spec (Byte.to_N x) (Byte.to_N y)),
           (N.ltb_spec (Byte.to_N y) (Byte.to_N x)),
           (N.ltb_spec (Byte.to_N y) (Byte.to_N z)),
           (N.ltb_spec (Byte.to_N z) (Byte.to_N y)),
           (N.ltb_spec (Byte.to_N x) (Byte.to_N z)),
           (N.ltb_spec (Byte.to_N z) (Byte.to_N x));
    try done; try tauto; try lia.
  apply IH.
Qed.

Lemma strict_weak_bytes (vals : list (list Byte.byte)) :
  strict_weak_vals bytes_lt vals.
Proof.
  apply strict_weak_vals_total;
    [apply bytes_lt_irrefl|apply bytes_lt_trans|apply bytes_lt_neg_trans].
Qed.

Lemma orders_StringData (vals : list (option (list Byte.byte))) :
  orders StringData vals.
Proof. apply orders_optional, strict_weak_bytes. Qed.

Lemma orders_BinaryData (vals : list (option (list Byte.byte))) :
  orders BinaryData vals.
Proof. apply orders_optional, strict_weak_bytes. Qed.

(** *** Timestamps *)

Lemma orders_Timestamp (vals : list (option (Z * Z))) : orders Timestamp vals.
Proof.
  apply orders_optional, strict_weak_vals_total; simpl.
  - intros [s n]. simpl. rewrite !Z.ltb_irrefl, Z.eqb_refl. done.
  - intros [s1 n1] [s2 n2] [s3 n3]. simpl.
    rewrite !orb_true_iff, !andb_true_iff, !Z.ltb_lt, !Z.eqb_eq. lia.
  - intros [s1 n1] [s2 n2] [s3 n3]. simpl.
    rewrite !orb_true_iff, !andb_true_iff, !Z.ltb_lt, !Z.eqb_eq. lia.
Qed.

Lemma orders_optional_int64 (vals : list (option Z)) :
  orders (optional int64) vals.
Proof.
  apply orders_optional, strict_weak_vals_total; simpl.
  - intros a. apply Z.ltb_irrefl.
  - intros a b c. rewrite !Z.ltb_lt. lia.
  - intros a b c. rewrite !Z.ltb_lt. lia.
Qed.

Lemma orders_optional_boolean (vals : list (option bool)) :
  orders (optional boolean) vals.
Proof.
  apply orders_optional, strict_weak_vals_total; simpl.
  - by intros [].
  - by intros [] [] [].
  - intros [] [] []; simpl; tauto.
Qed.

(** *** Floating point *)

Lemma key_ltb_irrefl k : key_ltb k k = false.
Proof.
  unfold key_ltb. rewrite !Z.ltb_irrefl, !Z.eqb_refl. done.
Qed.

Lemma key_ltb_lt a b :
  key_ltb a b = true
  <-> a.1.1 < b.1.1
      \/ (a.1.1 = b.1.1 /\ (a.1.2 < b.1.2 \/ (a.1.2 = b.1.2 /\ a.2 < b.2))).
Proof.
  unfold key_ltb.
  by rewrite !orb_true_iff, !andb_true_iff, !orb_true_iff, !andb_true_iff,
    !Z.ltb_lt, !Z.eqb_eq.
Qed.

Lemma key_ltb_trans a b c :
  key_ltb a b = true -> key_ltb b c = true -> key_ltb a c = true.
Proof. rewrite !key_ltb_lt. lia. Qed.

Lemma key_ltb_neg_trans a b c :
  key_ltb a c = true -> key_ltb a b = true \/ key_ltb b c = true.
Proof. rewrite !key_ltb_lt. lia. Qed.

(** Away from NaN the IEEE comparison is the order of the keys. *)
Lemma SFltb_key a b :
  a <> S754_nan -> b <> S754_nan ->
  SFltb a b = key_ltb (ieee_key a) (ieee_key b).
Proof.
  intros Ha Hb.
  destruct (key_ltb (ieee_key a) (ieee_key b)) eqn:Hk.
  - apply key_ltb_lt in Hk. unfold SFltb, SFcompare.
    destruct a as [sa|sa| |sa ma ea], b as [sb|sb| |sb mb eb]; try done;
      try destruct sa; try destruct sb; simpl in Hk; try done; try lia.
    all: change (Pos.compare_cont Eq ma mb) with (Pos.compare ma mb).
    all: destruct (Z.compare_spec ea eb); try done; try lia.
    all: destruct (Pos.compare_spec ma mb); simpl; try done; lia.
  - assert (Hn : ~ (key_ltb (ieee_key a) (ieee_key b) = true))
      by (by rewrite Hk).
    rewrite key_ltb_lt in Hn. unfold SFltb, SFcompare.
    destruct a as [sa|sa| |sa ma ea], b as [sb|sb| |sb mb eb]; try done;
      try destruct sa; try destruct sb; simpl in Hn; try done;
      try (exfalso; lia).
    all: change (Pos.compare_cont Eq ma mb) with (Pos.compare ma mb).
    all: destruct (Z.compare_spec ea eb); try done; try (exfalso; lia).
    all: destruct (Pos.compare_spec ma mb); simpl; try done; exfalso; lia.
Qed.

Lemma strict_weak_ieee (mw ew : Z) (vals : list FloatVal) :
  Forall (fun f => is_nan mw ew f = false) vals ->
  strict_weak_vals (lt (ieee mw ew)) vals.
Proof.
  intros Hnan. rewrite Forall_forall in Hnan.
  assert (Hv : forall a, a ∈ vals -> ieee_value mw ew a <> S754_nan).
  { intros a Ha Heq. specialize (Hnan a Ha). unfold is_nan in Hnan.
    by rewrite Heq in Hnan. }
  apply (strict_weak_vals_key _ (fun f => ieee_key (ieee_value mw ew f)) key_ltb).
  - intros a b Ha Hb. simpl. apply SFltb_key; by apply Hv.
  - apply key_ltb_irrefl.
  - apply key_ltb_trans.
  - apply key_ltb_neg_trans.
Qed.

(** A list of floats or doubles without NaN holds no null. *)
Lemma orders_ieee (mw ew : Z) (vals : list FloatVal) :
  Forall (fun f => is_nan mw ew f = false) vals -> orders (ieee mw ew) vals.
Proof.
  intros Hnan. apply orders_plain; [done| |by apply strict_weak_ieee].
  intros a Ha. rewrite Forall_forall in Hnan. specialize (Hnan a Ha).
  by destruct a.
Qed.

Lemma orders_optional_ieee (mw ew : Z) (vals : list (option FloatVal)) :
  Forall (fun f => is_nan mw ew f = false) (omap id vals) ->
  orders (optional (ieee mw ew)) vals.
Proof. intros Hnan. by apply orders_optional, strict_weak_ieee. Qed.

(** ** Sorting a list in ascending order *)

Lemma tree_less_strict_weak_on (E : ElemType) (tree : list (carrier E)) :
  orders E tree ->
  ListSort.strict_weak_on
    (ListSort.tree_less (lt E) (unresolved_to_null E) tree)
    (seq 0 (length tree)).
Proof.
  intros (Hi & Ht & Hn & _).
  assert (Hget : forall x, x ∈ seq 0 (length tree) ->
                           exists a, tree !! x = Some a /\ a ∈ tree).
  { intros x Hx. apply elem_of_seq in Hx.
    destruct (lookup_lt_is_Some_2 tree x) as [a Ha]; [lia|].
    exists a. split; [done|]. by eapply list_elem_of_lookup_2. }
  unfold ListSort.strict_weak_on, ListSort.tree_less. split_and!.
  - intros x Hx. destruct (Hget x Hx) as (a & -> & Ha). by apply Hi.
  - intros x y z Hx Hy Hz.
    destruct (Hget x Hx) as (a & -> & Ha), (Hget y Hy) as (b & -> & Hb),
             (Hget z Hz) as (c & -> & Hc).
    by apply Ht.
  - intros x y z Hx Hy Hz.
    destruct (Hget x Hx) as (a & -> & Ha), (Hget y Hy) as (b & -> & Hb),
             (Hget z Hz) as (c & -> & Hc).
    by apply Hn.
Qed.

(** C8.  Take an element type whose [operator<] (with [unresolved_to_null]
    applied) is, on the values of the list, a strict weak ordering with the
    nulls below the other values, and a [std::sort] that keeps its
    contract.  Started on an empty index vector, [sort(indices, true)]
    returns a permutation of the positions [0 .. size - 1]; along it the
    values (an unresolved key counting as null) never decrease under
    [operator<], and a null value never comes after a non-null one.  The
    orders of the integers, booleans, timestamps and keys, the
    byte-lexicographic order of strings and binary data and the order of
    their optionals meet the condition on every list ([orders_int64],
    [orders_boolean], [orders_Timestamp], [orders_ObjKey],
    [orders_StringData], [orders_BinaryData], [orders_optional]); the
    order of floats and doubles meets it on the lists without NaN
    ([orders_ieee]). *)
Theorem sort_ascending_order (E : ElemType)
    (std_sort : (nat -> nat -> bool) -> list nat -> list nat)
    (tree : list (carrier E)) :
  ListSort.sort_contract std_sort ->
  orders E tree ->
  let out := ListSort.sort (lt E) (gt E) (unresolved_to_null E) std_sort
               tree [] true in
  Permutation out (seq 0 (length tree))
  /\ (forall i x, out !! i = Some x -> is_Some (tree !! x))
  /\ (forall i j x y a b,
        (i < j)%nat -> out !! i = Some x -> out !! j = Some y ->
        tree !! x = Some a -> tree !! y = Some b ->
        lt E (unresolved_to_null E b) (unresolved_to_null E a) = false
        /\ (is_null E (unresolved_to_null E b) = true ->
            is_null E (unresolved_to_null E a) = true)).
Proof.
  intros Hsort Hord.
  unfold ListSort.sort, ListSort.do_sort. simpl. rewrite Nat.sub_0_r.
  destruct (Hsort (ListSort.tree_less (lt E) (unresolved_to_null E) tree)
              (seq 0 (length tree)) (tree_less_strict_weak_on E tree Hord))
    as [Hperm Hsorted].
  split_and!.
  - done.
  - intros i x Hx. apply lookup_lt_is_Some.
    apply list_elem_of_lookup_2 in Hx. rewrite Hperm in Hx.
    apply elem_of_seq in Hx. lia.
  - intros i j x y a b Hij Hi Hj Ha Hb.
    pose proof (Hsorted i j x y Hij Hi Hj) as Hc.
    unfold ListSort.tree_less in Hc. rewrite Ha, Hb in Hc.
    split; [done|]. intros Hnb.
    destruct (is_null E (unresolved_to_null E a)) eqn:Hna; [done|].
    destruct Hord as (_ & _ & _ & Hnull).
    rewrite (Hnull b a) in Hc; [done| | |done|done].
    + by eapply list_elem_of_lookup_2.
    + by eapply list_elem_of_lookup_2.
Qed.

(** Strings: the null first, then the empty string, then "ab" before
    "b". *)
Lemma sort_ascending_order_witness :
  let tree := [Some [Byte.x62]; None; Some [Byte.x61; Byte.x62]; Some []] in
  let out := ListSort.sort (lt StringData) (gt StringData)
               (unresolved_to_null StringData) ListSort.insertion_sort
               tree [] true in
  out = [1; 3; 2; 0]%nat
  /\ Permutation out (seq 0 (length tree))
  /\ (forall i j x y a b,
        (i < j)%nat -> out !! i = Some x -> out !! j = Some y ->
        tree !! x = Some a -> tree !! y = Some b ->
        lt StringData b a = false
        /\ (is_null StringData b = true -> is_null StringData a = true)).
Proof.
  intros tree out. split; [reflexivity|].
  destruct (sort_ascending_order StringData ListSort.insertion_sort tree
              insertion_sort_contract (orders_StringData tree))
    as (Hperm & _ & Hord).
  split; [exact Hperm | exact Hord].
Defined.

(** A list of doubles that holds the null: 1.0 and the null are not
    ordered by [operator<], so the comparison that [sort] hands to
    [std::sort] is the same (never true) for the list "1.0, null" and for
    the list "null, 1.0".  The insertion sort, which meets the contract of
    [std::sort], puts the null of the second list behind 1.0; and whatever
    [std::sort] does with its range, it does the same for both lists, so
    for one of them the null is not in front. *)
Lemma sort_ascending_order_counterexample :
  let one := FBits 4607182418800017408 in
  let sort_with std_sort tree :=
    ListSort.sort (lt double) (gt double) (unresolved_to_null double)
                  std_sort tree [] true in
  ieee_value 52 11 one = S754_finite false 4503599627370496 (-52)
  /\ is_null double one = false /\ is_null double FNull = true
  /\ lt double one FNull = false /\ lt double FNull one = false
  /\ ListSort.sort_contract ListSort.insertion_sort
  /\ sort_with ListSort.insertion_sort [FNull; one] = [1; 0]%nat
  /\ forall std_sort,
       (forall comp comp' l,
          (forall i j, comp i j = comp' i j) ->
          std_sort comp l = std_sort comp' l) ->
       sort_with std_sort [one; FNull] = sort_with std_sort [FNull; one]
       /\ ~ (Permutation (sort_with std_sort [one; FNull]) [0; 1]%nat
             /\ (forall i j x y a b,
                   (i < j)%nat ->
                   sort_with std_sort [one; FNull] !! i = Some x ->
                   sort_with std_sort [one; FNull] !! j = Some y ->
                   [one; FNull] !! x = Some a -> [one; FNull] !! y = Some b ->
                   is_null double b = true -> is_null double a = true)
             /\ (forall i j x y a b,
                   (i < j)%nat ->
                   sort_with std_sort [FNull; one] !! i = Some x ->
                   sort_with std_sort [FNull; one] !! j = Some y ->
                   [FNull; one] !! x = Some a -> [FNull; one] !! y = Some b ->
                   is_null double b = true -> is_null double a = true)).
Proof.
  intros one sort_with.
  split_and!; try reflexivity; [exact insertion_sort_contract|].
  intros std_sort Hext.
  assert (Heq : sort_with std_sort [one; FNull]
                = sort_with std_sort [FNull; one]).
  { unfold sort_with, ListSort.sort, ListSort.do_sort. simpl.
    apply Hext. intros i j. unfold ListSort.tree_less.
    destruct i as [|[|i]], j as [|[|j]]; reflexivity. }
  split; [exact Heq|].
  rewrite <- Heq. set (out := sort_with std_sort [one; FNull]).
  intros (Hperm & H1 & H2).
  assert (Hlen : length out = 2%nat) by (by rewrite Hperm).
  destruct out as [|x [|y [|z r]]]; try discriminate Hlen.
  assert (Hx : x ∈ [0; 1]%nat) by (rewrite <- Hperm; set_solver).
  assert (Hy : y ∈ [0; 1]%nat) by (rewrite <- Hperm; set_solver).
  assert (Hnd : NoDup [x; y]) by (rewrite Hperm; repeat constructor; set_solver).
  apply NoDup_cons in Hnd as [Hxy _].
  set_unfold in Hx. set_unfold in Hy. set_unfold in Hxy.
  destruct Hx as [->|[->|[]]], Hy as [->|[->|[]]]; try (exfalso; by apply Hxy; left).
  - specialize (H1 0%nat 1%nat 0%nat 1%nat one FNull).
    discriminate H1; [lia|done..].
  - specialize (H2 0%nat 1%nat 1%nat 0%nat one FNull).
    discriminate H2; [lia|done..].
Qed.

